(* ===== verification/_CoqProject ===== *)
-Q . S2P
Prelude.v
Text.v
F64.v
Json.v
Event.v
Signals.v
Graph.v
GraphInv.v
RootCause.v
GraphEffects.v
Generators.v
GraphTasks.v
GraphLocks.v
Rule.v
Matcher.v
RuleFiles.v
RuleEngine.v
Migrate.v
MigrateRun.v
Dedup.v
K8s.v
K8sTasks.v
Wal.v
WalDisk.v
Ipc.v
Sockets.v
Diag.v
AuditLog.v
Hub.v
HubApi.v
GuardTasks.v
HubViews.v
Scene.v
Exec.v
Zap.v
Forwarder.v
Metrics.v
HubSystem.v
Daemon.v
AgentCli.v
FixRun.v
Doctor.v
DoctorRules.v
AgentMain.v
EbpfProbe.v
EbpfUser.v
Probe.v
Wire.v
AgentSystem.v
