(* ===== verification/Prelude.v ===== *)
(** * Ark: a verification of the ark-infra control plane

    Ark watches accelerator clusters.  Agents on the nodes turn probe readings
    into events and forward the important ones to a hub; both keep a causal
    graph of processes, resources and errors, from which they explain why a
    process is stuck (root causes, scenes, rules) and act on it (agent actions,
    Kubernetes taints and evictions).  This library models that logic, from the
    sources under src/, and proves what makes it correct.  Definitions carry the
    names of the functions they model and are executable.

    ** The parts and their files

    - [Prelude]: unsigned integers with their saturating operations, results,
      byte strings with the operations of Rust's [str] the program uses, stable
      sorting, orders given by a comparison, the hint database [ark].
      [Text]: words, lines and numbers in strings.  [F64]: IEEE binary64 as the
      program computes, reads and prints it.  [Json]: JSON values.
    - [Event] (core/src/event.rs): the event every part exchanges.
    - [Signals] (core/src/signals/): sliding windows over the events.
    - [Graph] (core/src/graph.rs): the state [StateGraph] with its edge list and
      two indexes ([EdgeStore]), one definition per event handler,
      [cleanup_old_errors], [process_event] and the queries.  [GraphInv] holds
      its invariant [graph_wf], [RootCause] the search, [GraphEffects] what the
      handlers mean for later queries.  [Generators] (core/src/event.rs,
      core/src/bin/graph-stress.rs, agent/src/probe/) has the programs that make
      events themselves: the random test probe, the placeholder device probes
      and the load generator.  [GraphTasks] cuts [process_event] at its
      await points into steps of concurrent tasks; [GraphLocks] has the lock
      acquisitions of every method.
    - [Rule], [Matcher], [RuleFiles], [RuleEngine] (core/src/rules/): rules and
      their legacy syntax, condition evaluation, paths and the directory walk,
      loading and matching.  [Migrate], [MigrateRun]
      (core/src/bin/rules-migrate.rs): the rewriting of a legacy rule, and the
      run of the tool over files.
    - [Dedup], [Wal], [K8s], [Hub] (hub/src/): the hub drops repeated events,
      applies the others to the graph, keeps a bounded window of them, logs them
      and reacts to irreversible faults; at start it replays its log.  [WalDisk]
      has the log over files and a handle whose writes arrive later, where every
      disk operation can fail.
      [K8sTasks] handles faults in concurrent tasks, as the hub does.
    - [HubApi], [HubViews] (hub/src/main.rs): the routes of the HTTP API.
      [HubApi] has those that read the graph or act: why, ps, health, fix and
      diagnose with its policy, execute guard and isolation; [HubViews] the
      incidents, preflight and training_slow views of the event window.
      [GuardTasks] lets diagnose requests interleave on the shared guard.
      [HubSystem] is the hub as a whole: its command line and start, the agents,
      API requests and background tasks on the shared state, and its end.
    - [Scene], [Exec], [Zap], [FixRun] (agent/src/scene, exec, main.rs): scene
      recognition and analysis, remediation actions, the kill of a process
      group, and the fix command with its confirmation and audit record.
      [AuditLog] (agent/src/audit.rs): the audit log.
    - [Forwarder], [Daemon], [Ipc], [Sockets], [Metrics]
      (agent/src/hub_forwarder.rs, main.rs, ipc.rs, metrics.rs and
      hub/src/metrics.rs): the sending of events to the hub, the event and
      metrics tasks of the daemon, the requests it answers, the socket it answers
      on as daemons come and go, and the exported metrics.
    - [AgentCli], [Diag], [Doctor], [DoctorRules], [AgentMain]
      (agent/src/main.rs, diag.rs, doctor.rs): the why report and the cluster
      commands, the diagnosis by rules or a language model, the checks of the
      doctor, and [main] with what each command prints, does and returns.
    - [EbpfProbe], [EbpfUser], [Probe] (ark-probe-ebpf/, agent/src/plugin/): the
      kernel probe for retransmissions, the program that loads it and reads its
      records, and the probe that runs a program and reads events from its lines.
    - [Wire] (both sides of the connection): the JSON form of envelopes and
      commands, the command listener, and the theorems that join agent and hub.
      [AgentSystem] (agent/src/main.rs, [run_daemon]): the tasks of a running
      agent on its bus, graph, socket and hub connection, as a step relation.

    An event thus goes from [Probe.start_stream] to [Daemon.daemon_event] and
    through [Forwarder.offer] to [Hub.handle_message], there through
    [Dedup.accept_event_with_dedup], [Graph.process_event] (with
    [Signals.on_event]), [Wal.append_wal_event] and
    [K8s.detect_irreversible_fault]; the graph is read by [Matcher], [Scene], the
    root-cause search and the routes of [HubApi]; a command of [HubApi] goes back
    through [Wire.command_listener] and [Forwarder.handle_command] to [Exec].

    ** What the theorems show

    - The graph: its indexes and edges agree after any events (C2), also under
      any interleaving of concurrent calls (C9), whose critical sections run
      undisturbed are the sequential operation ([run_task_process_event]); the methods that lock in one order cannot deadlock (C10);
      cleanup removes exactly the expired nodes and keeps the newest live edges
      within the limit (C32, C33).
    - Diagnosis: the root-cause search ends on every graph and returns exactly
      the reachable causes (C1); error events lead to a diagnosis (C6), and so
      does a retransmission, from the kernel hook to the root causes (C15).
    - Signals: windows hold exactly the samples of their span (C8).
    - Rules: the matchers decide declarative relations (C4, C5); the walk and the
      load are characterised exactly (C31, C35, C36); matching returns the rule of
      highest priority (C7); migration keeps the meaning of a rule (C37).
    - The hub: it gets to its servers exactly when metrics, rules, memory and log
      allow it (C25), and a hub that comes up on the log of a running one has its
      graph and window (C3); the log holds a suffix of what was written (C13), and
      of what was handed to a disk that is late and fails (C20); the state stays
      well-formed and is the one of the accepted events (C34).
    - The API: why and incidents list exactly what the graph and the rules give
      (C29, C38); the commands of a diagnosis that may execute are exactly those
      of the policy that are within the limit and out of their cool-down (C17),
      the guard holds under any interleaving of requests (C28), and a diagnosis
      that may not execute only reads (C24).
    - Agent and hub together: the events a daemon selects reach the hub's graph in
      order, over any number of connections whose messages interleave (C18); the hub queues a command only
      when asked, on the connection of the node meant (C19), and the agent carries
      out exactly the commands queued (C21); the cluster fix reaches the processes
      of the job (C16).
    - Kubernetes: automatic actions on a node are spaced (C11); the operator
      carries its requests out, again at every pass, since the status patch it
      sends is refused (C12).
    - The running agent: under any interleaving of its tasks no event is lost or
      reordered, the graph and the link to the hub are those of the sequential
      loop, and the hub's commands are taken up one at a time, cut off only by a
      reconnection or the end (C22); when the probe's events have been worked off,
      [ark why] prints the root causes of exactly the lines the probe printed (C23).
    - The agent: fix acts only when confirmed, and what it does is in the audit
      log unless logging fails, which is reported (C40); the log loses no entry
      (C39); the forwarder neither loses silently
      nor reorders (C14); a client reaches the daemon that bound its path last (C26),
      which answers every request in order (C30); without a daemon the commands
      fail and change nothing (C27).

    Theorems without a number support these or describe further operations:
    the local queries, the daemon's counters,
    deduplication, eviction, tainting, concurrent faults, normalisation, load
    statistics, throttled emission, the simplified matcher, scene
    recognition, the why report, the migration run, the requests of a diagnosis,
    the doctor's exit status, the refinement of the log by its files
    ([disk_log_refines]), the readers of the kernel probe
    ([readers_print_exactly]), the load generator and the JSON form of events
    among them.  Some establish behaviour that is probably
    not intended: [repeated_error_is_forgotten], [observed_edge_expires],
    [restart_can_be_lost], [root_cause_query_can_deadlock],
    [blank_id_escapes_strict_mode], [migration_refuses_signal_conditions],
    [fault_can_taint_another_node], [torn_record_swallows_next],
    [invalid_utf8_fails_replay], [reconnect_can_lose_route],
    [read_error_keeps_dead_route], [undelivered_command_blocks_retry],
    [ipv6_process_is_not_listed], [no_bandwidth_is_comm_bound],
    [zap_kills_group], [graph_gauges_exact_or_stale],
    [failed_first_connect_never_forwards], [no_process_is_ever_blocked],
    [same_second_rotation_loses_a_file], [mid_range_start_never_reported],
    [metric_scenes_unreachable], [fix_kills_without_cause],
    [full_map_learns_nothing], [address_printed_reversed],
    [ipv6_sockets_share_a_sender], [invalid_line_silences_the_probe],
    [boot_time_wait_is_dropped], [overlapping_faults_both_act],
    [failed_open_loses_the_log], [torn_write_is_reported_late],
    [stale_size_passes_limit], [bound_socket_already_listens],
    [bind_failure_is_silent], [failing_hostname_gives_empty_name],
    [leaving_daemon_removes_other_socket], [failed_fix_exits_zero],
    [idle_agent_stays_deaf].

    ** Conventions

    - [u32], [u64] and [usize] are [N] or, for lengths, [nat]; saturating
      operations and narrowing casts are written out, the remaining sums are far
      from their width (counters and lengths of data in memory).  Strings are
      their UTF-8 bytes.  A [HashMap] is a [gmap], a [HashSet] a [gset]; where an
      iteration order could be seen, the definitions use the order [gmap] lists
      and the theorems speak of membership or of the list given.
    - Fuel: string splitting, trimming and lower-casing take the length of the
      string; [dfs_backward] takes two more than the number of nodes with
      outgoing edges, since only such a node recurses and only once; the three
      directory walks take the size of the tree; the argument loop the number of
      arguments; the socket server the bytes of its input, since every round
      takes four.  C1, C36, [ipc_server_terminates], [migration_collects_exactly]
      and [doctor_loop_total] prove that the fuel is enough for every input.
    - Parameters: the JSON and YAML codecs, the hash function, the Kubernetes
      API ([K8sApi] with [K8sLaws] and [RequestLaws]), the operating system
      ([Os], [Sys], [Host], [Faults]), the network ([Net], [HubHttp]), the
      language model, the kernel's hash maps ([BpfHash] with [BpfHashLaws]) and
      the loading of its programs ([BpfEnv]) are not part of the sources; the theorems that rely on their documented behaviour name it, and
      a concrete instance shows that it can hold.
    - Time is read from the events or given with the call.

    ** Limits

    In [Hub] and [HubSystem] one message, request or tick is handled in one step;
    in [AgentSystem] a step is a critical section of the graph, a reconnection, or
    the end of an offer, where what was sent is accounted, clients only read and
    have no steps, and commands have a beginning and an end; interleavings within the graph are the subject of [GraphTasks], those of
    diagnose requests of [GuardTasks], those of faults of [K8sTasks], where
    tainting and evicting are one step each.  In [Wal] a write is complete when
    the call returns, as C3 and C13 take it; [WalDisk] lets it arrive later, fail
    half way and be reported to the next append, and shows what is left of C13.
    The locks of [GraphLocks] are granted in any order, not first come first served.
    A message that was sent arrives, in order, on its connection.  Directory
    trees are finite: links that form cycles are left out.  A command's output is
    the list of its lines, a table line its columns; colours, padding and log
    output are left out.

    Not modelled: the syntax of the command lines (the clap library), the
    Prometheus text, the WebSocket and HTTP layers below messages and requests, the storage and RDMA kernel probes
    (placeholders that return 0), the build task and the integration tests. *)

From Stdlib Require Export Ascii.
From stdpp Require Export base gmap strings pretty sorting numbers list.

(** ** Machine integers

    The program's [u64], [u32] and [usize] values are non-negative integers
    [N]; the operations whose result leaves the width are written out.
    [saturating_sub] on an unsigned type is [N]'s truncated subtraction. *)

Definition u32_max : N := 4294967295.
Definition u64_max : N := 18446744073709551615.

Definition saturating_sub (a b : N) : N := (a - b)%N.
Definition saturating_add (a b : N) : N := N.min u64_max (a + b).
Definition saturating_mul (a b : N) : N := N.min u64_max (a * b).

(** [x.clamp(lo, hi)] of [Ord]. *)
Definition clamp (lo hi x : N) : N :=
  if decide (x < lo)%N then lo else if decide (hi < x)%N then hi else x.

(** ** Results *)

Inductive result (E A : Type) : Type :=
| Ok (a : A)
| Err (e : E).
Global Arguments Ok {_ _} _.
Global Arguments Err {_ _} _.

Definition is_ok {E A} (r : result E A) : bool :=
  match r with Ok _ => true | Err _ => false end.

Global Instance result_eq_dec `{EqDecision E, EqDecision A} :
  EqDecision (result E A).
Proof. solve_decision. Defined.

(** ** Tactics and hints *)

Create HintDb ark.

(** Splits every [if]/[match] scrutinee of the goal and the context. *)
Ltac split_all := repeat (case_match; simplify_eq/=; try done).

(** Destructs conjunctions and existentials of the context. *)
Ltac destr :=
  repeat match goal with
  | H : _ ∧ _ |- _ => destruct H
  | H : ∃ _, _ |- _ => destruct H
  end.

(** ** Strings

    A Rust [str] is its sequence of UTF-8 bytes, so a [string] of the model
    holds one byte per [ascii].  All positions below are byte offsets, as in
    the source. *)

Definition bytes (l : list nat) : string :=
  foldr (λ n s, String (Ascii.ascii_of_nat n) s) "" l.

(** [s.is_empty()] *)
Definition is_empty (s : string) : bool :=
  match s with "" => true | _ => false end.

(** [s.strip_prefix(p)] *)
Fixpoint strip_prefix (p s : string) : option string :=
  match p, s with
  | "", _ => Some s
  | String a p', String b s' =>
      if decide (a = b) then strip_prefix p' s' else None
  | String _ _, "" => None
  end.

(** [s.starts_with(p)] *)
Definition starts_with (p s : string) : bool :=
  match strip_prefix p s with Some _ => true | None => false end.

(** [s.find(p)]: the offset of the first occurrence. *)
Fixpoint find (p s : string) : option nat :=
  if starts_with p s then Some 0
  else match s with
       | "" => None
       | String _ s' => S <$> find p s'
       end.

(** [s.contains(p)] *)
Definition contains (p s : string) : bool :=
  match find p s with Some _ => true | None => false end.

(** [&s[n..]] for [n <= s.len()]. *)
Fixpoint str_from (n : nat) (s : string) : string :=
  match n, s with
  | 0, _ => s
  | S n', String _ s' => str_from n' s'
  | S _, "" => ""
  end.

(** [s.ends_with(p)] *)
Definition ends_with (p s : string) : bool :=
  bool_decide (String.length p ≤ String.length s
               ∧ str_from (String.length s - String.length p) s = p).

(** [s.split(c)] on a one-byte separator: always at least one piece. *)
Fixpoint split_char (c : ascii) (s : string) : list string :=
  match s with
  | "" => [""]
  | String a s' =>
      if decide (a = c) then "" :: split_char c s'
      else match split_char c s' with
           | [] => [String a ""]
           | w :: ws => String a w :: ws
           end
  end.

(** [s.split(sep)] on a non-empty separator; the fuel is the number of bytes,
    one more than the number of pieces still to be cut at most. *)
Fixpoint split_str_fuel (fuel : nat) (sep s : string) : list string :=
  match fuel with
  | 0 => [s]
  | S fuel' =>
      match find sep s with
      | None => [s]
      | Some i =>
          String.substring 0 i s
            :: split_str_fuel fuel' sep (str_from (i + String.length sep) s)
      end
  end.
Definition split_str (sep s : string) : list string :=
  split_str_fuel (S (String.length s)) sep s.

(** [v.join(sep)] *)
Fixpoint join (sep : string) (l : list string) : string :=
  match l with
  | [] => ""
  | [x] => x
  | x :: l' => x +:+ sep +:+ join sep l'
  end.

(** The encodings of the characters with the Unicode White_Space property,
    which [str::trim] removes at both ends. *)
Definition white_space : list string :=
  map bytes
    ([[9]; [10]; [11]; [12]; [13]; [32]; [194;133]; [194;160]; [225;154;128]]
     ++ map (λ n, [226;128;n]) (seq 128 11)
     ++ [[226;128;168]; [226;128;169]; [226;128;175]; [226;129;159]; [227;128;128]]).

Fixpoint strip_any (ps : list string) (s : string) : option string :=
  match ps with
  | [] => None
  | p :: ps' => match strip_prefix p s with
                | Some s' => Some s'
                | None => strip_any ps' s
                end
  end.

Fixpoint trim_start_fuel (fuel : nat) (ps : list string) (s : string) : string :=
  match fuel with
  | 0 => s
  | S fuel' => match strip_any ps s with
               | Some s' => trim_start_fuel fuel' ps s'
               | None => s
               end
  end.
Definition trim_start_of (ps : list string) (s : string) : string :=
  trim_start_fuel (String.length s) ps s.

(** [s.trim()] *)
Definition trim (s : string) : string :=
  String.rev (trim_start_of (map String.rev white_space)
                (String.rev (trim_start_of white_space s))).

Definition ascii_lower (a : ascii) : ascii :=
  let n := Ascii.nat_of_ascii a in
  if decide (65 ≤ n ∧ n ≤ 90) then Ascii.ascii_of_nat (n + 32) else a.

(** [s.to_ascii_lowercase()] *)
Fixpoint to_ascii_lowercase (s : string) : string :=
  match s with
  | "" => ""
  | String a s' => String (ascii_lower a) (to_ascii_lowercase s')
  end.

(** [a.eq_ignore_ascii_case(b)] *)
Definition eq_ignore_ascii_case (a b : string) : bool :=
  bool_decide (to_ascii_lowercase a = to_ascii_lowercase b).

(** [s.to_lowercase()], as far as the program can observe it.  The lower-cased
    text is only compared with and searched for ASCII and CJK text.  Besides
    the ASCII letters, the two characters whose lower case contains an ASCII
    letter are mapped (U+212A KELVIN SIGN to [k], U+0130 to [i] followed by
    U+0307); every other non-ASCII character, whose lower case is non-ASCII and
    never CJK unless it is caseless itself, is kept. *)
Definition special_lower (s : string) : option (string * string) :=
  match strip_prefix (bytes [226;132;170]) s with
  | Some s' => Some ("k", s')
  | None => match strip_prefix (bytes [196;176]) s with
            | Some s' => Some ("i" +:+ bytes [204;135], s')
            | None => None
            end
  end.
Fixpoint to_lowercase_fuel (fuel : nat) (s : string) : string :=
  match fuel with
  | 0 => ""
  | S fuel' =>
      match special_lower s with
      | Some (l, s') => l +:+ to_lowercase_fuel fuel' s'
      | None => match s with
                | "" => ""
                | String a s' => String (ascii_lower a) (to_lowercase_fuel fuel' s')
                end
      end
  end.
Definition to_lowercase (s : string) : string :=
  to_lowercase_fuel (String.length s) s.

(** [s.replace(from, to)] for a non-empty pattern. *)
Definition replace (p r s : string) : string := join r (split_str p s).

Definition digit_of (a : ascii) : option N :=
  let n := Ascii.N_of_ascii a in
  if decide (48 ≤ n ∧ n ≤ 57)%N then Some (n - 48)%N else None.

(** A run of decimal digits, read to its end. *)
Fixpoint digits_value (acc : N) (s : string) : option N :=
  match s with
  | "" => Some acc
  | String a s' => match digit_of a with
                   | Some d => digits_value (acc * 10 + d)%N s'
                   | None => None
                   end
  end.

(** [s.parse::<uW>()]: an optional [+], at least one digit, no overflow. *)
Definition parse_uint (max : N) (s : string) : option N :=
  let body := match strip_prefix "+" s with Some t => t | None => s end in
  if is_empty body then None
  else match digits_value 0 body with
       | Some n => if decide (n ≤ max)%N then Some n else None
       | None => None
       end.
Definition parse_u32 : string → option N := parse_uint u32_max.
Definition parse_u64 : string → option N := parse_uint u64_max.

(** First value of a key in an association list. *)
Fixpoint assoc {A} (k : string) (l : list (string * A)) : option A :=
  match l with
  | [] => None
  | (k', v) :: l' => if decide (k = k') then Some v else assoc k l'
  end.

Lemma assoc_Some_elem_of {A} k (l : list (string * A)) v :
  assoc k l = Some v → (k, v) ∈ l.
Proof.
  induction l as [|[k' v'] l IH]; simpl; [done|].
  case_decide; intros; simplify_eq; [by left|right; auto].
Qed.

(** A filter all elements pass, and one no element passes. *)
Lemma filter_all {A} (P : A → Prop) `{!∀ x, Decision (P x)} (l : list A) :
  (∀ x, x ∈ l → P x) → filter P l = l.
Proof.
  induction l as [|x l IH]; intros Hp; [done|]. rewrite filter_cons, decide_True
    by (apply Hp; left). f_equal. apply IH. intros y Hy. apply Hp. by right.
Qed.

Lemma filter_none {A} (P : A → Prop) `{!∀ x, Decision (P x)} (l : list A) :
  (∀ x, x ∈ l → ¬ P x) → filter P l = [].
Proof.
  induction l as [|x l IH]; intros Hp; [done|]. rewrite filter_cons, decide_False
    by (apply Hp; left). apply IH. intros y Hy. apply Hp. by right.
Qed.

Lemma NoDup_map_inj {A B} (f : A → B) (l : list A) x y :
  NoDup (map f l) → x ∈ l → y ∈ l → f x = f y → x = y.
Proof.
  induction l as [|z l IH]; intros Hnd Hx Hy Hf; [by apply elem_of_nil in Hx|].
  simpl in Hnd. apply NoDup_cons in Hnd as [Hz Hnd].
  apply elem_of_cons in Hx as [->|Hx], Hy as [->|Hy]; [done|..|by apply IH].
  - destruct Hz. rewrite Hf. apply list_elem_of_fmap. eauto.
  - destruct Hz. rewrite <-Hf. apply list_elem_of_fmap. eauto.
Qed.

(** ** Stable sorting

    [Vec::sort_by], [sort_by_key] and [sort] are stable sorts.  Insertion from
    the right, which never moves an element past an equal one, is the reference
    function: its result is the unique stable sorted permutation. *)

Section stable_sort.
Context {A : Type} (le : A → A → bool).

Fixpoint sort_insert (x : A) (l : list A) : list A :=
  match l with
  | [] => [x]
  | y :: l' => if le x y then x :: l else y :: sort_insert x l'
  end.

Definition stable_sort (l : list A) : list A := foldr sort_insert [] l.

Lemma sort_insert_perm x l : sort_insert x l ≡ₚ x :: l.
Proof.
  induction l as [|y l IH]; simpl; [done|]. case_match; [done|].
  rewrite IH. apply Permutation_swap.
Qed.

Lemma stable_sort_perm l : stable_sort l ≡ₚ l.
Proof. induction l as [|x l IH]; simpl; [done|]. by rewrite sort_insert_perm, IH. Qed.

Lemma stable_sort_length l : length (stable_sort l) = length l.
Proof. by rewrite stable_sort_perm. Qed.

Lemma elem_of_stable_sort x l : x ∈ stable_sort l ↔ x ∈ l.
Proof. by rewrite stable_sort_perm. Qed.

Context (le_total : ∀ x y, le x y = true ∨ le y x = true)
        (le_trans : ∀ x y z, le x y = true → le y z = true → le x z = true).

Lemma sort_insert_sorted x l :
  StronglySorted (λ a b, le a b = true) l →
  StronglySorted (λ a b, le a b = true) (sort_insert x l).
Proof.
  induction 1 as [|y l Hl IH Hy]; simpl; [repeat constructor|].
  destruct (le x y) eqn:E.
  - constructor; [by constructor|]. constructor; [done|].
    eapply Forall_impl; [exact Hy|].
    intros z Hz. by apply le_trans with y.
  - constructor; [done|]. rewrite sort_insert_perm. constructor; [|done].
    destruct (le_total x y); congruence.
Qed.

Lemma stable_sort_sorted l :
  StronglySorted (λ a b, le a b = true) (stable_sort l).
Proof. induction l; simpl; [constructor|by apply sort_insert_sorted]. Qed.

(** Stability: the elements equivalent to [k] keep their order. *)
Lemma sort_insert_stable (P : A → Prop) `{!∀ x, Decision (P x)} x l :
  (∀ a b, P a → P b → le a b = true) →
  filter P (sort_insert x l) = filter P (x :: l).
Proof.
  intros HP. induction l as [|y l IH]; simpl; [done|].
  destruct (le x y) eqn:E; [done|]. rewrite (filter_cons P y), IH, !filter_cons.
  repeat case_decide; try done. by rewrite HP in E.
Qed.

Lemma stable_sort_stable (P : A → Prop) `{!∀ x, Decision (P x)} l :
  (∀ a b, P a → P b → le a b = true) →
  filter P (stable_sort l) = filter P l.
Proof.
  intros HP. induction l as [|x l IH]; simpl; [done|].
  rewrite sort_insert_stable by done. by rewrite !filter_cons, IH.
Qed.
End stable_sort.

Lemma StronglySorted_impl {A} (R S : A → A → Prop) l :
  (∀ x y, R x y → S x y) → StronglySorted R l → StronglySorted S l.
Proof.
  intros H. induction 1 as [|x l Hl IH Hx]; constructor; [done|].
  eapply Forall_impl; [exact Hx|]. auto.
Qed.

(** [v.dedup()]: removes consecutive repetitions. *)
Fixpoint dedup_consecutive (l : list string) : list string :=
  match l with
  | x :: (y :: _) as l' =>
      if decide (x = y) then dedup_consecutive l' else x :: dedup_consecutive l'
  | _ => l
  end.

(** [v.sort()] on strings: byte-wise lexicographic order. *)
Definition sort_strings (l : list string) : list string :=
  stable_sort String.leb l.

(** ** Lemmas on strings *)

Lemma str_app_cons a s t : String a s +:+ t = String a (s +:+ t).
Proof. done. Qed.
Lemma str_app_nil_l s : "" +:+ s = s.
Proof. done. Qed.
Lemma str_app_nil_r s : s +:+ "" = s.
Proof. induction s as [|a s IH]; [done|]. by rewrite str_app_cons, IH. Qed.
Lemma str_app_assoc s t u : (s +:+ t) +:+ u = s +:+ t +:+ u.
Proof. induction s as [|a s IH]; [done|]. by rewrite !str_app_cons, IH. Qed.
Lemma str_app_length s t :
  String.length (s +:+ t) = String.length s + String.length t.
Proof. induction s as [|a s IH]; [done|]. rewrite str_app_cons; simpl; lia. Qed.
Lemma str_app_eq_l s t u : s +:+ t = s +:+ u → t = u.
Proof. apply (inj _). Qed.

Lemma strip_prefix_Some p s t : strip_prefix p s = Some t ↔ s = p +:+ t.
Proof.
  revert s. induction p as [|a p IH]; intros s; simpl.
  - rewrite str_app_nil_l. naive_solver.
  - rewrite str_app_cons. destruct s as [|b s]; [naive_solver|].
    case_decide; subst; [rewrite IH|]; naive_solver.
Qed.

Lemma strip_prefix_None p s : strip_prefix p s = None ↔ ∀ t, s ≠ p +:+ t.
Proof.
  split.
  - intros H t ?%strip_prefix_Some. congruence.
  - intros H. destruct (strip_prefix p s) as [t|] eqn:E; [|done].
    by apply strip_prefix_Some, H in E.
Qed.

Lemma starts_with_true p s : starts_with p s = true ↔ ∃ t, s = p +:+ t.
Proof.
  unfold starts_with. destruct (strip_prefix p s) as [t|] eqn:E.
  - apply strip_prefix_Some in E. naive_solver.
  - rewrite strip_prefix_None in E. naive_solver.
Qed.

Lemma find_Some p s i :
  find p s = Some i → ∃ a b, s = a +:+ p +:+ b ∧ String.length a = i
    ∧ ∀ a' b', s = a' +:+ p +:+ b' → i ≤ String.length a'.
Proof.
  revert i. induction s as [|c s IH]; intros i; simpl.
  - destruct (starts_with p "") eqn:E; [|done]. intros [= <-].
    apply starts_with_true in E as [t E]. exists "", t. auto with lia.
  - destruct (starts_with p (String c s)) eqn:E.
    + intros [= <-]. apply starts_with_true in E as [t E].
      exists "", t. auto with lia.
    + destruct (find p s) as [j|]; [|done]. intros [= <-].
      destruct (IH j eq_refl) as (a & b & -> & Hl & Hmin).
      exists (String c a), b. rewrite str_app_cons. split_and!; [done|simpl; lia|].
      intros [|c' a'] b' Heq.
      * rewrite str_app_nil_l in Heq.
        assert (starts_with p (String c (a +:+ p +:+ b)) = true) by
          (apply starts_with_true; eauto). congruence.
      * rewrite str_app_cons in Heq. simplify_eq. simpl.
        apply le_n_S. by eapply Hmin.
Qed.

Lemma find_None p s : find p s = None ↔ ∀ a b, s ≠ a +:+ p +:+ b.
Proof.
  split.
  - revert p. induction s as [|c s IH]; intros p; simpl;
      destruct (starts_with p _) eqn:E; try done.
    + intros _ [|??] b Heq; [|done]. rewrite <-not_true_iff_false in E.
      apply E, starts_with_true. eauto.
    + intros H%fmap_None [|c' a] b Heq.
      * rewrite <-not_true_iff_false in E. apply E, starts_with_true. eauto.
      * rewrite str_app_cons in Heq. simplify_eq. by eapply IH.
  - intros H. destruct (find p s) as [i|] eqn:E; [|done].
    apply find_Some in E as (a & b & E & _). naive_solver.
Qed.

Lemma contains_true p s : contains p s = true ↔ ∃ a b, s = a +:+ p +:+ b.
Proof.
  unfold contains. destruct (find p s) eqn:E.
  - apply find_Some in E as (a & b & ? & _). naive_solver.
  - rewrite find_None in E. naive_solver.
Qed.

Lemma str_from_app a b : str_from (String.length a) (a +:+ b) = b.
Proof. induction a; [done|]. by rewrite str_app_cons. Qed.

Lemma ends_with_true p s : ends_with p s = true ↔ ∃ t, s = t +:+ p.
Proof.
  unfold ends_with. rewrite bool_decide_eq_true. split.
  - intros [Hle Hs]. exists (String.substring 0 (String.length s - String.length p) s).
    assert (∀ n s, n ≤ String.length s → s = String.substring 0 n s +:+ str_from n s)
      as Hsplit.
    { clear. induction n as [|n IH]; intros [|c s]; simpl; try (done || lia).
      intros ?. rewrite str_app_cons. f_equal. apply IH. lia. }
    etrans; [apply (Hsplit (String.length s - String.length p)); lia|by rewrite Hs].
  - intros [t ->]. rewrite str_app_length.
    replace (String.length t + String.length p - String.length p)
      with (String.length t) by lia.
    by rewrite str_from_app; auto with lia.
Qed.

(** Two strings with a common extension: one is a prefix of the other. *)
Lemma str_app_eq_inv a b c d :
  a +:+ b = c +:+ d →
  (∃ k, c = a +:+ k ∧ b = k +:+ d) ∨ (∃ k, a = c +:+ k ∧ d = k +:+ b).
Proof.
  revert c. induction a as [|x a IH]; intros c H.
  - left. exists c. done.
  - destruct c as [|y c].
    + right. exists (String x a). done.
    + rewrite !str_app_cons in H. injection H as -> H.
      destruct (IH _ H) as [(k & -> & ->)|(k & -> & ->)]; [left|right]; by exists k.
Qed.

(** ** Comparison functions

    A three-way comparison that is a strict total order, as [Ord] promises. *)

Class CompareOrder {A} (cmp : A → A → comparison) := {
  cmp_antisym x y : cmp x y = CompOpp (cmp y x);
  cmp_eq x y : cmp x y = Eq ↔ x = y;
  cmp_trans x y z : cmp x y = Lt → cmp y z = Lt → cmp x z = Lt
}.

(** A comparison that first looks at one part and, on a tie, at another. *)
Definition then_compare (a b : comparison) : comparison :=
  match a with Eq => b | _ => a end.

Section compare_order.
Context {A} (cmp : A → A → comparison) `{!CompareOrder cmp}.

Lemma cmp_refl x : cmp x x = Eq.
Proof. by apply cmp_eq. Qed.

Fixpoint list_compare (a b : list A) : comparison :=
  match a, b with
  | [], [] => Eq
  | [], _ :: _ => Lt
  | _ :: _, [] => Gt
  | x :: a', y :: b' => then_compare (cmp x y) (list_compare a' b')
  end.

Global Instance list_compare_order : CompareOrder list_compare.
Proof.
  split.
  - induction x as [|x a IH]; intros [|y b]; simpl; [done..|].
    rewrite (cmp_antisym x y), IH. by destruct (cmp y x).
  - induction x as [|x a IH]; intros [|y b]; simpl; [done..|].
    specialize (IH b). pose proof (cmp_eq x y).
    destruct (cmp x y); simpl; naive_solver.
  - induction x as [|x a IH]; intros [|y b] [|z c]; simpl; try done.
    destruct (cmp x y) eqn:Exy; [apply cmp_eq in Exy as ->|..]; simpl.
    + destruct (cmp y z) eqn:Eyz; simpl; [|done..]. apply IH.
    + intros _. destruct (cmp y z) eqn:Eyz; [apply cmp_eq in Eyz as ->|..]; simpl;
        [by rewrite Exy| |done]. intros _. by rewrite (cmp_trans x y z).
    + done.
Qed.

Definition cmp_le (x y : A) : bool := match cmp x y with Gt => false | _ => true end.

Lemma cmp_le_total x y : cmp_le x y = true ∨ cmp_le y x = true.
Proof. unfold cmp_le. rewrite (cmp_antisym y x). destruct (cmp x y); auto. Qed.

Lemma cmp_le_trans x y z : cmp_le x y = true → cmp_le y z = true → cmp_le x z = true.
Proof.
  unfold cmp_le. destruct (cmp x y) eqn:Exy, (cmp y z) eqn:Eyz; intros; simplify_eq.
  all: try (apply cmp_eq in Exy as ->; by rewrite Eyz).
  - apply cmp_eq in Eyz as ->. by rewrite Exy.
  - by rewrite (cmp_trans x y z).
Qed.

Lemma cmp_le_antisym x y : cmp_le x y = true → cmp_le y x = true → x = y.
Proof.
  unfold cmp_le. rewrite (cmp_antisym y x). destruct (cmp x y) eqn:E; try done.
  intros. by apply cmp_eq.
Qed.
End compare_order.

Global Instance N_compare_order : CompareOrder N.compare.
Proof.
  split; intros x y.
  - by rewrite N.compare_antisym.
  - apply N.compare_eq_iff.
  - intros z. rewrite !N.compare_lt_iff. lia.
Qed.

Global Instance nat_compare_order : CompareOrder Nat.compare.
Proof.
  split; intros x y.
  - by rewrite Nat.compare_antisym.
  - apply Nat.compare_eq_iff.
  - intros z. rewrite !Nat.compare_lt_iff. lia.
Qed.

(** A comparison through an injective key. *)
Lemma compare_order_inj {A B} (f : A → B) (cmp : B → B → comparison) `{!CompareOrder cmp} :
  (∀ x y, f x = f y → x = y) → CompareOrder (λ x y, cmp (f x) (f y)).
Proof.
  intros Hf. split; intros x y.
  - apply cmp_antisym.
  - rewrite cmp_eq. split; [apply Hf|by intros ->].
  - intros z. apply cmp_trans.
Qed.

Lemma string_compare_list s t :
  String.compare s t
  = list_compare N.compare (map Ascii.N_of_ascii (String.list_ascii_of_string s))
      (map Ascii.N_of_ascii (String.list_ascii_of_string t)).
Proof.
  revert t. induction s as [|a s IH]; intros [|b t]; simpl; [done..|].
  rewrite IH. unfold Ascii.compare, then_compare. by case_match.
Qed.

Global Instance string_compare_order : CompareOrder String.compare.
Proof.
  assert (∀ s t, map Ascii.N_of_ascii (String.list_ascii_of_string s)
                 = map Ascii.N_of_ascii (String.list_ascii_of_string t) → s = t) as Hinj.
  { induction s as [|a s IH]; intros [|b t] H; try done.
    injection H as Ha Hs. f_equal; [|by apply IH].
    by rewrite <-(Ascii.ascii_N_embedding a), Ha, Ascii.ascii_N_embedding. }
  destruct (compare_order_inj _ (list_compare N.compare) Hinj) as [H1 H2 H3].
  split; intros *; rewrite !string_compare_list; eauto.
Qed.
