(* ===== verification/Text.v ===== *)
(** * Text processing shared by the hub's API and the agent's commands

    Numerals written by [Display] and read back by [parse], separators that do
    not occur in a prefix, splitting at white space, sorted lists without
    repetitions.  The definitions are those of the standard library the sources
    use; the lemmas are what the components above need of them. *)

From S2P Require Import Prelude.

(** ** Characters *)

Definition chars (s : string) : list ascii := String.list_ascii_of_string s.

Definition is_digit (a : ascii) : bool := bool_decide (is_Some (digit_of a)).

Definition digits_only (s : string) : Prop := Forall (λ a, is_digit a = true) (chars s).

(** [s.chars().take_while(..)] on ASCII tests, and the rest. *)
Fixpoint take_while (t : ascii → bool) (s : string) : string * string :=
  match s with
  | String a s' =>
      if t a then let '(u, v) := take_while t s' in (String a u, v) else ("", s)
  | "" => ("", "")
  end.

(** ** Splitting at white space

    [s.split_whitespace()]: the non-empty runs between white space. *)
Fixpoint split_ws_fuel (fuel : nat) (cur s : string) : list string :=
  match fuel with
  | 0 => []
  | S fuel' =>
      let emit := if is_empty cur then [] else [cur] in
      match s with
      | "" => emit
      | String a s' =>
          match strip_any white_space s with
          | Some rest => emit ++ split_ws_fuel fuel' "" rest
          | None => split_ws_fuel fuel' (cur +:+ String a "") s'
          end
      end
  end.
Definition split_whitespace (s : string) : list string :=
  split_ws_fuel (S (String.length s)) "" s.

(** A word: printable ASCII, hence free of white space. *)
Definition graphic (a : ascii) : bool :=
  let n := Ascii.N_of_ascii a in bool_decide (33 ≤ n ∧ n ≤ 126)%N.
Definition word (s : string) : Prop :=
  s ≠ "" ∧ Forall (λ a, graphic a = true) (chars s).

(** [s.lines()], apart from a carriage return at the end of a line. *)
Definition lines (s : string) : list string :=
  let pieces := split_char "010" s in
  match last pieces with
  | Some "" => removelast pieces
  | _ => pieces
  end.

(** [s.trim_end_matches(c)] *)
Fixpoint trim_end_char (c : ascii) (s : string) : string :=
  match s with
  | "" => ""
  | String a s' =>
      let t := trim_end_char c s' in
      if bool_decide (t = "" ∧ a = c) then "" else String a t
  end.

(** ** Lemmas on characters *)

Lemma chars_app s t : chars (s +:+ t) = chars s ++ chars t.
Proof.
  unfold chars. induction s as [|a s IH]; [done|]. rewrite str_app_cons. simpl. by rewrite IH.
Qed.

Lemma digits_only_app s t : digits_only (s +:+ t) ↔ digits_only s ∧ digits_only t.
Proof. unfold digits_only. by rewrite chars_app, Forall_app. Qed.

Lemma is_digit_of a : is_digit a = true ↔ is_Some (digit_of a).
Proof. unfold is_digit. by rewrite bool_decide_eq_true. Qed.

Lemma is_digit_range a :
  is_digit a = true ↔ (48 ≤ Ascii.N_of_ascii a ∧ Ascii.N_of_ascii a ≤ 57)%N.
Proof.
  rewrite is_digit_of. unfold digit_of. case_decide as H; split; [done..| |done]. by intros [].
Qed.

Lemma take_while_app t s r :
  Forall (λ a, t a = true) (chars s) →
  match r with String a _ => t a = false | "" => True end →
  take_while t (s +:+ r) = (s, r).
Proof.
  intros Hs Hr. induction s as [|a s IH].
  - rewrite str_app_nil_l. destruct r as [|b r]; simpl; [done|]. by rewrite Hr.
  - rewrite str_app_cons. inversion Hs as [|?? Ha Hs']; subst. simpl. by rewrite Ha, IH.
Qed.

(** ** Numerals *)

Lemma digit_char_of (x : N) :
  (x < 10)%N → digit_of (pretty_N_char x) = Some x.
Proof.
  intros Hx. assert (x ∈ N.of_nat <$> seq 0 10) as Hin.
  { apply list_elem_of_fmap. exists (N.to_nat x). rewrite N2Nat.id. split; [done|].
    apply elem_of_seq. lia. }
  assert (Forall (λ x, digit_of (pretty_N_char x) = Some x) (N.of_nat <$> seq 0 10)) as Hall
    by (apply (bool_decide_unpack _); vm_compute; exact I).
  rewrite Forall_forall in Hall. by apply Hall.
Qed.

Lemma digits_value_pretty_go x s : digits_value 0 (pretty_N_go x s) = digits_value x s.
Proof.
  revert s. induction x as [x IH] using (well_founded_induction N.lt_wf_0). intros s.
  destruct (decide (x = 0)%N) as [->|Hx]; [done|].
  rewrite pretty_N_go_step by lia. rewrite IH by (apply N.div_lt; lia). simpl.
  rewrite digit_char_of by (apply N.mod_lt; lia). f_equal.
  rewrite N.mul_comm. symmetry. by apply N.div_mod.
Qed.

Lemma pretty_go_digits x s : digits_only s → digits_only (pretty_N_go x s).
Proof.
  revert s. induction x as [x IH] using (well_founded_induction N.lt_wf_0). intros s Hs.
  destruct (decide (x = 0)%N) as [->|Hx]; [done|].
  rewrite pretty_N_go_step by lia. apply IH; [apply N.div_lt; lia|].
  constructor; [|done]. apply is_digit_of. rewrite digit_char_of by (apply N.mod_lt; lia).
  by eexists.
Qed.

Lemma pretty_digits (x : N) : digits_only (pretty x).
Proof.
  unfold pretty, pretty_N. case_decide.
  - apply (bool_decide_unpack _). vm_compute. exact I.
  - apply pretty_go_digits. constructor.
Qed.

Lemma pretty_not_empty (x : N) : pretty x ≠ "".
Proof.
  intros H. assert (digits_value 0 (pretty x) = Some x) as Hv.
  { unfold pretty, pretty_N. case_decide; [by subst|]. by rewrite digits_value_pretty_go. }
  rewrite H in Hv. simpl in Hv. injection Hv as <-. by vm_compute in H.
Qed.

Lemma digits_value_pretty (x : N) : digits_value 0 (pretty x) = Some x.
Proof.
  unfold pretty, pretty_N. case_decide; [by subst|]. by rewrite digits_value_pretty_go.
Qed.

(** A numeral does not start with a sign, so [parse] reads its value. *)
Lemma parse_uint_pretty max (x : N) : (x ≤ max)%N → parse_uint max (pretty x) = Some x.
Proof.
  intros Hx. unfold parse_uint.
  pose proof (pretty_digits x) as Hd. pose proof (pretty_not_empty x) as He.
  pose proof (digits_value_pretty x) as Hv.
  destruct (pretty x) as [|a s] eqn:E; [done|].
  assert (strip_prefix "+" (String a s) = None) as ->.
  { simpl. case_decide; [|done]. subst. inversion Hd as [|?? Hplus _]. by vm_compute in Hplus. }
  simpl is_empty. cbv iota. rewrite Hv. by rewrite decide_True.
Qed.

Lemma parse_u32_pretty (x : N) : (x ≤ u32_max)%N → parse_u32 (pretty x) = Some x.
Proof. apply parse_uint_pretty. Qed.

(** ** Separators *)

(** A separator starting with a character that does not occur before it is
    found right there. *)
Lemma find_fresh c sep s r :
  c ∉ chars s → find (String c sep) (s +:+ String c sep +:+ r) = Some (String.length s).
Proof.
  induction s as [|a s IH]; intros Hc.
  - rewrite str_app_nil_l. simpl.
    assert (starts_with (String c sep) (String c sep +:+ r) = true) as Hst
      by (apply starts_with_true; eauto).
    rewrite str_app_cons in *. simpl. by rewrite Hst.
  - rewrite str_app_cons. simpl. unfold chars in Hc. simpl in Hc.
    apply not_elem_of_cons in Hc as [Hne Hc].
    unfold starts_with. simpl. rewrite decide_False by done. by rewrite IH.
Qed.

Lemma find_absent c sep s : c ∉ chars s → find (String c sep) s = None.
Proof.
  intros Hc. apply find_None. intros a b ->. apply Hc.
  rewrite !chars_app. unfold chars at 2. simpl. set_solver.
Qed.

Lemma substring_app s r : String.substring 0 (String.length s) (s +:+ r) = s.
Proof.
  induction s as [|a s IH]; [by destruct r|]. rewrite str_app_cons. simpl. by rewrite IH.
Qed.

Lemma split_str_absent c sep s : c ∉ chars s → split_str (String c sep) s = [s].
Proof. intros Hc. unfold split_str. simpl. by rewrite find_absent. Qed.

Lemma split_str_two c sep s r :
  c ∉ chars s → c ∉ chars r →
  split_str (String c sep) (s +:+ String c sep +:+ r) = [s; r].
Proof.
  intros Hs Hr. unfold split_str.
  set (n := String.length _). assert (0 < n) as Hn.
  { unfold n. rewrite !str_app_length. simpl. lia. }
  destruct n as [|n]; [lia|]. cbn [split_str_fuel].
  rewrite find_fresh by done. rewrite substring_app.
  replace (String.length s + String.length (String c sep))
    with (String.length (s +:+ String c sep)) by (rewrite str_app_length; done).
  rewrite <-str_app_assoc, str_from_app.
  destruct n; cbn [split_str_fuel]; by rewrite find_absent.
Qed.

Lemma digits_only_fresh c s : is_digit c = false → digits_only s → c ∉ chars s.
Proof.
  intros Hc Hs Hin. unfold digits_only in Hs. rewrite Forall_forall in Hs.
  apply Hs in Hin. congruence.
Qed.

(** ** White space *)

Lemma graphic_not_white a s : graphic a = true → strip_any white_space (String a s) = None.
Proof.
  unfold graphic. rewrite bool_decide_eq_true. intros Ha.
  assert (∀ n r, (n < 33 ∨ 126 < n)%nat → n < 256 →
            strip_prefix (String (Ascii.ascii_of_nat n) r) (String a s) = None) as Hno.
  { intros n r Hn Hlt. simpl. case_decide as Heq; [|done]. exfalso. subst a.
    rewrite <-(Nat2N.id n) in Ha. unfold Ascii.ascii_of_nat in Ha. rewrite Nat2N.id in Ha.
    rewrite Ascii.N_ascii_embedding in Ha by lia. lia. }
  assert (∀ ps, Forall (λ p, ∃ n r, p = String (Ascii.ascii_of_nat n) r
            ∧ (n < 33 ∨ 126 < n)%nat ∧ n < 256) ps → strip_any ps (String a s) = None) as Hall.
  { induction 1 as [|p ps (n & r & -> & ? & ?) _ IH]; cbn [strip_any]; [done|]. by rewrite Hno. }
  apply Hall. repeat constructor; eexists _, _; (split; [reflexivity|]; lia).
Qed.

Lemma split_ws_word fuel cur w s :
  Forall (λ a, graphic a = true) (chars w) → String.length w ≤ fuel →
  split_ws_fuel fuel cur (w +:+ s) = split_ws_fuel (fuel - String.length w) (cur +:+ w) s.
Proof.
  revert fuel cur. induction w as [|a w IH]; intros fuel cur Hw Hf.
  - rewrite str_app_nil_l, str_app_nil_r. simpl. by rewrite Nat.sub_0_r.
  - rewrite str_app_cons. simpl in Hf. destruct fuel as [|fuel]; [lia|].
    inversion Hw; subst. cbn [split_ws_fuel]. rewrite graphic_not_white by done.
    rewrite IH by (done || lia). simpl. by rewrite str_app_assoc.
Qed.

Lemma is_empty_false s : s ≠ "" → is_empty s = false.
Proof. by destruct s. Qed.

(** Words separated by single spaces are split back into the words. *)
Lemma split_whitespace_join ws :
  Forall word ws → split_whitespace (join " " ws) = ws.
Proof.
  intros Hws. unfold split_whitespace.
  enough (∀ fuel, String.length (join " " ws) < fuel → split_ws_fuel fuel "" (join " " ws) = ws)
    as H by (apply H; lia).
  induction Hws as [|w ws [Hne Hw] Hws IH]; intros fuel Hf; [by destruct fuel|].
  destruct ws as [|v ws].
  - simpl in *. rewrite <-(str_app_nil_r w) at 1. rewrite split_ws_word by (done || lia).
    rewrite str_app_nil_l. destruct (fuel - String.length w) as [|n] eqn:En; [lia|].
    cbn [split_ws_fuel]. by rewrite is_empty_false.
  - change (join " " (w :: v :: ws)) with (w +:+ " " +:+ join " " (v :: ws)) in *.
    revert Hf IH. generalize (join " " (v :: ws)) as r. intros r Hf IH.
    rewrite !str_app_length in Hf. simpl in Hf.
    rewrite split_ws_word by (done || lia).
    rewrite str_app_nil_l. destruct (fuel - String.length w) as [|n] eqn:En; [lia|].
    change (" " +:+ r) with (String " " r). cbn [split_ws_fuel].
    rewrite is_empty_false by done. change (strip_any white_space (String " " r)) with (Some r).
    cbv iota. by rewrite IH by lia.
Qed.

(** ** Sorted lists without repetitions *)

Definition str_lt (a b : string) : Prop := String.compare a b = Lt.

Lemma leb_le a b : String.leb a b = true ↔ String.compare a b ≠ Gt.
Proof. unfold String.leb. by destruct (String.compare a b). Qed.

Lemma sort_strings_sorted l : StronglySorted (λ a b, String.leb a b = true) (sort_strings l).
Proof.
  apply stable_sort_sorted.
  - intros a b. rewrite !leb_le, (cmp_antisym (cmp:=String.compare) b a). destruct (String.compare a b); naive_solver.
  - intros a b c. rewrite !leb_le. intros Hab Hbc.
    pose proof (cmp_le_trans String.compare a b c) as H. unfold cmp_le in H.
    destruct (String.compare a b), (String.compare b c), (String.compare a c); naive_solver.
Qed.

Lemma dedup_elem_of x l : x ∈ dedup_consecutive l ↔ x ∈ l.
Proof.
  induction l as [|y [|z l] IH]; [done..|]. cbn [dedup_consecutive].
  case_decide as E; [subst; rewrite IH; set_solver|].
  rewrite !(elem_of_cons _ x y), IH. done.
Qed.

Lemma dedup_sorted l :
  StronglySorted (λ a b, String.leb a b = true) l →
  StronglySorted str_lt (dedup_consecutive l).
Proof.
  induction l as [|y [|z l] IH]; intros Hs; [constructor|repeat constructor|].
  apply StronglySorted_inv in Hs as [Hs Hy]. cbn [dedup_consecutive].
  case_decide as E; [by apply IH|]. constructor; [by apply IH|].
  apply Forall_forall. intros x Hx. apply (proj1 (dedup_elem_of x (z :: l))) in Hx.
  rewrite Forall_forall in Hy. pose proof (Hy x Hx) as Hyx. apply leb_le in Hyx.
  unfold str_lt. destruct (String.compare y x) eqn:Ec; [|done..].
  apply (cmp_eq (cmp:=String.compare)) in Ec as <-. exfalso. apply elem_of_cons in Hx as [->|Hx]; [done|].
  apply StronglySorted_inv in Hs as [_ Hz]. rewrite Forall_forall in Hz.
  specialize (Hz _ Hx). apply leb_le in Hz.
  assert (z ∈ z :: l) as Hzin by by left. specialize (Hy _ Hzin). apply leb_le in Hy.
  rewrite (cmp_antisym (cmp:=String.compare) z y) in Hz. destruct (String.compare y z) eqn:Eyz; simpl in *;
    [by apply (cmp_eq (cmp:=String.compare)) in Eyz|done..].
Qed.

Definition sort_dedup (l : list string) : list string := dedup_consecutive (sort_strings l).

Lemma sort_dedup_elem_of x l : x ∈ sort_dedup l ↔ x ∈ l.
Proof. unfold sort_dedup. rewrite dedup_elem_of. apply elem_of_stable_sort. Qed.

Lemma sort_dedup_sorted l : StronglySorted str_lt (sort_dedup l).
Proof. apply dedup_sorted, sort_strings_sorted. Qed.

Lemma str_lt_sorted_NoDup l : StronglySorted str_lt l → NoDup l.
Proof.
  induction 1 as [|x l Hl IH Hx]; constructor; [|done]. intros Hin.
  rewrite Forall_forall in Hx. apply Hx in Hin. unfold str_lt in Hin. by rewrite (cmp_refl String.compare) in Hin.
Qed.
