(* ===== verification/F64.v ===== *)
(** * IEEE-754 binary64 as the program uses it

    [f64] arithmetic is the Standard Library's executable [spec_float] at
    precision 53 and exponent range 1024, which rounds to nearest, ties to
    even, as the hardware does.  On top of it the file defines what the program
    uses of Rust's [core]: comparison operators (false on NaN), [as f64]
    conversions, [str::parse::<f64>], [Display] (the shortest decimal that
    reads back as the same number) and the fixed-precision format [{:.n}]. *)

From Stdlib Require Import SpecFloat.
From S2P Require Import Prelude.

Abbreviation f64 := spec_float.

Global Instance spec_float_eq_dec : EqDecision spec_float.
Proof. solve_decision. Defined.

Definition f64_add : f64 → f64 → f64 := SFadd 53 1024.
Definition f64_sub : f64 → f64 → f64 := SFsub 53 1024.
Definition f64_mul : f64 → f64 → f64 := SFmul 53 1024.
Definition f64_div : f64 → f64 → f64 := SFdiv 53 1024.
Definition f64_abs : f64 → f64 := SFabs.

(** [a < b], [a > b], [a <= b], [a >= b] *)
Definition f64_lt (a b : f64) : bool := SFltb a b.
Definition f64_gt (a b : f64) : bool := SFltb b a.
Definition f64_le (a b : f64) : bool := SFleb a b.
Definition f64_ge (a b : f64) : bool := SFleb b a.

(** The binary64 number nearest to [m * 10^e]: the value of a decimal literal. *)
Definition f64_of_dec (neg : bool) (m : N) (e : Z) : f64 :=
  match m with
  | N0 => S754_zero neg
  | Npos p =>
      if decide (0 ≤ e)%Z
      then binary_round 53 1024 neg (p * Z.to_pos (10 ^ e)) 0
      else let '(q, e', l) := SFdiv_core_binary 53 1024 (Zpos p) 0 (10 ^ (- e)) 0 in
           binary_round_aux 53 1024 neg q e' l
  end.

(** [n as f64] for an unsigned integer. *)
Definition f64_of_N (n : N) : f64 := f64_of_dec false n 0.

(** [iter.sum::<f64>()]: a left fold from [-0.0], which the sum of an empty
    iterator is; adding any number to it gives that number. *)
Definition f64_sum (l : list f64) : f64 := foldl f64_add (S754_zero true) l.

(** [x.clamp(lo, hi)] of [f64]. *)
Definition f64_clamp (lo hi x : f64) : f64 :=
  let y := if f64_lt x lo then lo else x in
  if f64_gt y hi then hi else y.

(** ** Parsing *)

Fixpoint take_digits (acc : N) (cnt : nat) (s : string) : N * nat * string :=
  match s with
  | "" => (acc, cnt, "")
  | String a s' =>
      match digit_of a with
      | Some d => take_digits (acc * 10 + d)%N (S cnt) s'
      | None => (acc, cnt, s)
      end
  end.

(** The exponent after [e]: a sign and at least one digit, to the end. *)
Definition parse_exponent (s : string) : option Z :=
  let '(neg, body) :=
    match s with
    | String "-" t => (true, t)
    | String "+" t => (false, t)
    | _ => (false, s)
    end%char in
  if is_empty body then None
  else match digits_value 0 body with
       | Some n => Some (if neg then - Z.of_N n else Z.of_N n)%Z
       | None => None
       end.

(** [Digit+ | Digit+ '.' Digit* | Digit* '.' Digit+], then an optional
    exponent: mantissa and decimal exponent. *)
Definition parse_number (s : string) : option (N * Z) :=
  let '(i, ni, s1) := take_digits 0 0 s in
  let '(m, nf, s2) :=
    match s1 with
    | String "." t => take_digits i 0 t
    | _ => (i, 0, s1)
    end%char in
  if decide (ni + nf = 0) then None
  else match s2 with
       | "" => Some (m, (- Z.of_nat nf)%Z)
       | String a t =>
           if decide (a = "e" ∨ a = "E")%char
           then e ← parse_exponent t; Some (m, (e - Z.of_nat nf)%Z)
           else None
       end.

Definition parse_inf_nan (neg : bool) (s : string) : option f64 :=
  let l := to_ascii_lowercase s in
  if decide (l = "nan") then Some S754_nan
  else if decide (l = "inf" ∨ l = "infinity") then Some (S754_infinity neg)
  else None.

(** [s.parse::<f64>().ok()] *)
Definition parse_f64 (s : string) : option f64 :=
  let '(neg, body) :=
    match s with
    | String "-" t => (true, t)
    | String "+" t => (false, t)
    | _ => (false, s)
    end%char in
  match parse_number body with
  | Some (m, e) => Some (f64_of_dec neg m e)
  | None => parse_inf_nan neg body
  end.

(** ** Formatting *)

Definition zeros (n : nat) : string := foldr (λ _ s, String "0" s) "" (seq 0 n).

(** The digits of [m * 10^e] in positional notation. *)
Definition render_dec (m : N) (e : Z) : string :=
  let ds := pretty m in
  if decide (0 ≤ e)%Z then ds +:+ zeros (Z.to_nat e)
  else let k := Z.to_nat (- e) in
       let ds' := if decide (String.length ds ≤ k)
                  then zeros (S k - String.length ds) +:+ ds else ds in
       let i := String.length ds' - k in
       String.substring 0 i ds' +:+ "." +:+ str_from i ds'.

(** Removes the factors of ten of the mantissa. *)
Fixpoint strip_zeros (fuel : nat) (m : N) (e : Z) : N * Z :=
  match fuel with
  | 0 => (m, e)
  | S fuel' => if decide (m mod 10 = 0 ∧ m ≠ 0)%N
               then strip_zeros fuel' (m / 10) (e + 1) else (m, e)
  end.

(** A positive number as a fraction. *)
Definition fraction (m : positive) (e : Z) : N * N :=
  if decide (0 ≤ e)%Z then (Npos m * 2 ^ Z.to_N e, 1)%N
  else (Npos m, 2 ^ Z.to_N (- e))%N.

(** The exponent [d] with [10^(d-1) <= num/den < 10^d]; every binary64 number
    is at least [10^-400]. *)
Definition dec_exponent (num den : N) : Z :=
  Z.of_nat (String.length (pretty (num * 10 ^ 400 / den)%N)) - 400.

(** The two [n]-digit neighbours of [num/den], rounded down and up, and whether
    each reads back as [v]; on success the closer one, the upper one on a tie. *)
Definition shortest_at (v : f64) (num den : N) (d : Z) (n : nat) : option (N * Z) :=
  let e := (d - Z.of_nat n)%Z in
  let '(a, b) := if decide (0 ≤ e)%Z then (num, den * 10 ^ Z.to_N e)%N
                 else (num * 10 ^ Z.to_N (- e), den)%N in
  let lo := (a / b)%N in
  let r := (a mod b)%N in
  let down := bool_decide (f64_of_dec false lo e = v) in
  let up := bool_decide (f64_of_dec false (lo + 1) e = v) in
  if down then if up && bool_decide (b ≤ 2 * r)%N then Some (lo + 1, e)%N else Some (lo, e)
  else if up then Some (lo + 1, e)%N else None.

Fixpoint shortest (v : f64) (num den : N) (d : Z) (n fuel : nat) : N * Z :=
  match fuel with
  | 0 => (0%N, 0%Z)
  | S fuel' => match shortest_at v num den d n with
               | Some r => r
               | None => shortest v num den d (S n) fuel'
               end
  end.

(** [v.to_string()].  Seventeen significant digits identify every binary64
    number. *)
Definition f64_display (v : f64) : string :=
  match v with
  | S754_nan => "NaN"
  | S754_infinity s => if s then "-inf" else "inf"
  | S754_zero s => if s then "-0" else "0"
  | S754_finite s m e =>
      let '(num, den) := fraction m e in
      let '(c, x) := shortest (S754_finite false m e) num den (dec_exponent num den) 1 17 in
      let '(c', x') := strip_zeros 400 c x in
      (if s then "-" else "") +:+ render_dec c' x'
  end.

(** [format!("{:.n}", v)]: the exact value rounded to [n] decimals, half to even. *)
Definition fmt_fixed (n : nat) (v : f64) : string :=
  let out s c := (if s : bool then "-" else "") +:+ render_dec c (- Z.of_nat n) in
  match v with
  | S754_nan => "NaN"
  | S754_infinity s => if s then "-inf" else "inf"
  | S754_zero s => out s 0%N
  | S754_finite s m e =>
      let '(num, den) := fraction m e in
      let a := (num * 10 ^ N.of_nat n)%N in
      let lo := (a / den)%N in
      let r := (a mod den)%N in
      out s (if decide (den < 2 * r ∨ (2 * r = den ∧ N.odd lo))%N then lo + 1 else lo)%N
  end.

(** ** Checks against known values *)

Example parse_85 : parse_f64 "85" = Some (f64_of_N 85).
Proof. vm_compute. reflexivity. Qed.
Example parse_rejects : map parse_f64 ["D"; ""; "."; "1e"; "+-1"; " 1"] = [None; None; None; None; None; None].
Proof. vm_compute. reflexivity. Qed.
Example display_shortest :
  map (λ s, f64_display <$> parse_f64 s) ["0.05"; "12.5"; "1e21"; "0.1"; "-3"; "5e-324"; "123456789.123"]
  = map Some ["0.05"; "12.5"; "1000000000000000000000"; "0.1"; "-3";
              "0." +:+ zeros 323 +:+ "5"; "123456789.123"].
Proof. vm_compute. reflexivity. Qed.
Example fixed_half_even :
  map (λ s, fmt_fixed 0 <$> parse_f64 s) ["2.5"; "3.5"; "0.5"; "99.6"; "-0.2"]
  = map Some ["2"; "4"; "0"; "100"; "-0"].
Proof. vm_compute. reflexivity. Qed.
