(* ===== verification/Json.v ===== *)
(** * JSON values (serde_json::Value)

    The data type of JSON documents and the accessors the sources use on it, as
    documented by the library.  A number is an unsigned integer or a binary64
    number, the two kinds the program writes; an object is the list of its
    entries, whose keys are distinct in every object the program builds. *)

From Stdlib Require Import SpecFloat.
From S2P Require Import Prelude F64.

Inductive Json :=
| JNull
| JBool (b : bool)
| JNum (n : N)
| JFloat (v : f64)
| JStr (s : string)
| JArr (l : list Json)
| JObj (l : list (string * Json)).

(** [v.get(key)]: the entry of an object. *)
Definition jget (k : string) (v : Json) : option Json :=
  match v with JObj l => assoc k l | _ => None end.

(** [v[key]]: [Null] when there is no such entry. *)
Definition jindex (k : string) (v : Json) : Json := default JNull (jget k v).

Definition as_str (v : Json) : option string :=
  match v with JStr s => Some s | _ => None end.
Definition as_u64 (v : Json) : option N :=
  match v with JNum n => Some n | _ => None end.
Definition as_bool (v : Json) : option bool :=
  match v with JBool b => Some b | _ => None end.
Definition as_array (v : Json) : option (list Json) :=
  match v with JArr l => Some l | _ => None end.
Definition as_object (v : Json) : option (list (string * Json)) :=
  match v with JObj l => Some l | _ => None end.

Definition jstrings (l : list string) : Json := JArr (map JStr l).
Definition jopt {A} (f : A → Json) (o : option A) : Json :=
  match o with Some a => f a | None => JNull end.

Lemma omap_as_str l : omap as_str (map JStr l) = l.
Proof. induction l as [|s l IH]; [done|]. exact (f_equal (cons s) IH). Qed.
