(* ===== verification/Event.v ===== *)
(** * Events (core/src/event.rs)

    The event carrier every component exchanges, the textual names of its
    types, and the event bus, whose receiving end can be taken once. *)

From S2P Require Import Prelude.

Inductive EventType :=
| ComputeUtil | ComputeMem
| TransportBw | TransportDrop
| StorageIops | StorageQDepth
| ProcessState
| ErrorHw | ErrorNet
| TopoLinkDown
| IntentRun
| ActionExec.

Global Instance event_type_eq_dec : EqDecision EventType.
Proof. solve_decision. Defined.

(** [impl fmt::Display for EventType] *)
Definition event_type_display (t : EventType) : string :=
  match t with
  | ComputeUtil => "compute.util"
  | ComputeMem => "compute.mem"
  | TransportBw => "transport.bw"
  | TransportDrop => "transport.drop"
  | StorageIops => "storage.iops"
  | StorageQDepth => "storage.qdepth"
  | ProcessState => "process.state"
  | ErrorHw => "error.hw"
  | ErrorNet => "error.net"
  | TopoLinkDown => "topo.link_down"
  | IntentRun => "intent.run"
  | ActionExec => "action.exec"
  end.

(** The [#[serde(rename = ...)]] attributes, in declaration order: the wire
    name of each variant. *)
Definition event_type_wire : list (string * EventType) :=
  [("compute.util", ComputeUtil); ("compute.mem", ComputeMem);
   ("transport.bw", TransportBw); ("transport.drop", TransportDrop);
   ("storage.iops", StorageIops); ("storage.qdepth", StorageQDepth);
   ("process.state", ProcessState);
   ("error.hw", ErrorHw); ("error.net", ErrorNet);
   ("topo.link_down", TopoLinkDown);
   ("intent.run", IntentRun);
   ("action.exec", ActionExec)].

(** Reading a wire name: an unknown name is a deserialization error. *)
Definition event_type_of_wire (s : string) : option EventType :=
  assoc s event_type_wire.

Record Event := mkEvent {
  ev_ts : N;
  ev_type : EventType;
  ev_entity_id : string;
  ev_job_id : option string;
  ev_pid : option N;
  ev_value : string;
  ev_node_id : option string
}.

Global Instance event_eq_dec : EqDecision Event.
Proof. solve_decision. Defined.

(** [Event::new]; the clock is read by the caller.  [as_millis() as u64] keeps
    the low 64 bits of the number of milliseconds. *)
Definition event_new (now_millis : N) (event_type : EventType) (entity_id value : string)
    (job_id : option string) (pid : option N) : Event :=
  mkEvent (now_millis mod 2 ^ 64) event_type entity_id job_id pid value None.

(** [event.node_id = Some(id)] *)
Definition with_node_id (id : option string) (e : Event) : Event :=
  mkEvent (ev_ts e) (ev_type e) (ev_entity_id e) (ev_job_id e) (ev_pid e) (ev_value e) id.

(** ** The event bus *)

Record EventBus := mkEventBus {
  bus_capacity : N;
  bus_rx : bool          (** the receiver has not been taken yet *)
}.

(** [EventBus::new]; [mpsc::channel] panics on capacity zero. *)
Definition event_bus_new (capacity : N) : option EventBus :=
  if decide (capacity = 0)%N then None else Some (mkEventBus capacity true).

(** [EventBus::receiver]: [self.rx.take()]. *)
Definition event_bus_receiver (b : EventBus) : option N * EventBus :=
  (if bus_rx b then Some (bus_capacity b) else None, mkEventBus (bus_capacity b) false).

(** ** Names *)

Lemma event_type_of_wire_display t : event_type_of_wire (event_type_display t) = Some t.
Proof. by destruct t. Qed.

Lemma event_type_display_inj t u : event_type_display t = event_type_display u → t = u.
Proof.
  intros H. apply (f_equal event_type_of_wire) in H.
  rewrite !event_type_of_wire_display in H. congruence.
Qed.

Lemma event_type_of_wire_Some s t :
  event_type_of_wire s = Some t → s = event_type_display t.
Proof.
  intros H%assoc_Some_elem_of. unfold event_type_wire in H.
  repeat (apply elem_of_cons in H as [?|H]; [by simplify_eq|]).
  by apply elem_of_nil in H.
Qed.
