(* ===== verification/Signals.v ===== *)
(** * Signal engine (core/src/signals/)

    Sliding-window aggregation of raw events into named signals.  The engine
    keeps one window per signal and entity and emits a point at most once per
    step.  The main theorems say that, on a stream whose timestamps do not
    decrease, a window holds exactly the samples of the last [window_ms]
    milliseconds, and that two emissions of a signal are a step apart. *)

From Stdlib Require Import SpecFloat.
From S2P Require Import Prelude F64 Event.

Inductive SignalValue :=
| Number (v : f64)
| Bool (b : bool)
| Text (s : string).

Inductive EntityKind := KindNode.

Record EntityRef := mkEntityRef { ent_kind : EntityKind; ent_id : string }.

Record SignalPoint := mkSignalPoint {
  pt_name : string;
  pt_ts : N;
  pt_entity : EntityRef;
  pt_value : SignalValue;
  pt_window_ms : N;
  pt_unit : string
}.

Record WindowSpec := mkWindowSpec { window_ms : N; step_ms : N }.

Inductive Aggregator := CounterRate | GaugeAvg.

Record SignalSpec := mkSignalSpec {
  spec_name : string;
  spec_window : WindowSpec;
  spec_aggregator : Aggregator;
  spec_unit : string
}.

Inductive SignalState :=
| CounterTimestamps (events : list N)
| GaugeSamples (samples : list (N * f64)).

(** [SignalState::for_aggregator] *)
Definition for_aggregator (a : Aggregator) : SignalState :=
  match a with
  | CounterRate => CounterTimestamps []
  | GaugeAvg => GaugeSamples []
  end.

(** [SignalRegistry::default_mvp] *)
Definition default_mvp : list SignalSpec :=
  [mkSignalSpec "network.tcp.retransmit_rate_1m" (mkWindowSpec 60000 1000)
     CounterRate "count/s";
   mkSignalSpec "hardware.gpu.util_avg_1m" (mkWindowSpec 60000 1000)
     GaugeAvg "percent"].

Record SignalEngine := mkSignalEngine {
  registry : list SignalSpec;
  states : gmap string SignalState;
  last_emit_ts : gmap string N
}.

(** [SignalEngine::new] *)
Definition signal_engine_new (r : list SignalSpec) : SignalEngine :=
  mkSignalEngine r ∅ ∅.

Definition extract_sample (spec : SignalSpec) (event : Event) : option f64 :=
  if decide (spec_name spec = "network.tcp.retransmit_rate_1m") then
    if decide (ev_type event = TransportDrop) then
      let lower := to_ascii_lowercase (ev_value event) in
      if contains "retransmit" lower || contains "drop" lower
      then Some (f64_of_N 1) else None
    else None
  else if decide (spec_name spec = "hardware.gpu.util_avg_1m") then
    if decide (ev_type event = ComputeUtil) then parse_f64 (ev_value event) else None
  else None.

Definition entity_from_event (event : Event) : string :=
  match ev_node_id event with
  | Some node_id => node_id
  | None => "local"
  end.

Fixpoint pop_counter (cutoff : N) (events : list N) : list N :=
  match events with
  | t :: events' => if decide (t < cutoff)%N then pop_counter cutoff events' else events
  | [] => []
  end.
Definition trim_counter (events : list N) (now_ts window : N) : list N :=
  pop_counter (saturating_sub now_ts window) events.

Fixpoint pop_gauge (cutoff : N) (samples : list (N * f64)) : list (N * f64) :=
  match samples with
  | (t, v) :: samples' =>
      if decide (t < cutoff)%N then pop_gauge cutoff samples' else samples
  | [] => []
  end.
Definition trim_gauge (samples : list (N * f64)) (now_ts window : N) : list (N * f64) :=
  pop_gauge (saturating_sub now_ts window) samples.

Definition compute_value (state : SignalState) (a : Aggregator) (window : N) : option f64 :=
  match state, a with
  | CounterTimestamps events, CounterRate =>
      Some (f64_div (f64_of_N (N.of_nat (length events)))
                    (f64_div (f64_of_N window) (f64_of_N 1000)))
  | GaugeSamples samples, GaugeAvg =>
      match samples with
      | [] => None
      | _ => Some (f64_div (f64_sum (map snd samples))
                           (f64_of_N (N.of_nat (length samples))))
      end
  | _, _ => None
  end.

(** The update of the window of one signal by one sample. *)
Definition push_sample (spec : SignalSpec) (event : Event) (sample : f64)
    (state : SignalState) : SignalState :=
  match spec_aggregator spec, state with
  | CounterRate, CounterTimestamps events =>
      CounterTimestamps
        (trim_counter (events ++ [ev_ts event]) (ev_ts event) (window_ms (spec_window spec)))
  | GaugeAvg, GaugeSamples samples =>
      GaugeSamples
        (trim_gauge (samples ++ [(ev_ts event, sample)]) (ev_ts event)
                    (window_ms (spec_window spec)))
  | _, _ => state
  end.

Definition signal_key (name entity_id : string) : string := name +:+ "::" +:+ entity_id.

(** One iteration of the loop of [on_event]. *)
Definition on_event_spec (event : Event) (spec : SignalSpec)
    (acc : SignalEngine * list SignalPoint) : SignalEngine * list SignalPoint :=
  let '(eng, out) := acc in
  match extract_sample spec event with
  | None => (eng, out)
  | Some sample =>
      let entity_id := entity_from_event event in
      let key := signal_key (spec_name spec) entity_id in
      let state0 := match states eng !! key with
                    | Some st => st
                    | None => for_aggregator (spec_aggregator spec)
                    end in
      let state := push_sample spec event sample state0 in
      let eng1 := mkSignalEngine (registry eng) (<[key := state]> (states eng))
                                 (last_emit_ts eng) in
      let should_emit :=
        match last_emit_ts eng !! key with
        | None => true
        | Some last => bool_decide (step_ms (spec_window spec)
                                    ≤ saturating_sub (ev_ts event) last)%N
        end in
      if should_emit then
        match compute_value state (spec_aggregator spec) (window_ms (spec_window spec)) with
        | Some v =>
            (mkSignalEngine (registry eng1) (states eng1)
                            (<[key := ev_ts event]> (last_emit_ts eng1)),
             out ++ [mkSignalPoint (spec_name spec) (ev_ts event)
                       (mkEntityRef KindNode entity_id) (Number v)
                       (window_ms (spec_window spec)) (spec_unit spec)])
        | None => (eng1, out)
        end
      else (eng1, out)
  end.

Global Arguments on_event_spec : simpl never.

(** [SignalEngine::on_event] *)
Definition on_event (eng : SignalEngine) (event : Event) : SignalEngine * list SignalPoint :=
  foldl (λ acc spec, on_event_spec event spec acc) (eng, []) (registry eng).

(** The engine after a stream of events. *)
Definition run_signals (eng : SignalEngine) (evs : list Event) : SignalEngine :=
  foldl (λ eng e, (on_event eng e).1) eng evs.

Example counter_rate_emits :
  let ev t := mkEvent t TransportDrop "eth0" None (Some 1%N) "retransmit" (Some "node-a") in
  map pt_value (on_event (run_signals (signal_engine_new default_mvp) [ev 0%N; ev 1000%N])
                         (ev 2000%N)).2
  = [Number (f64_of_dec false 5 (-2))].
Proof. vm_compute. reflexivity. Qed.

(** ** What a window is meant to hold *)

(** The samples of a signal for an entity, in arrival order. *)
Definition samples_of (spec : SignalSpec) (entity : string) (evs : list Event)
    : list (N * f64) :=
  omap (λ e, if decide (entity_from_event e = entity)
             then pair (ev_ts e) <$> extract_sample spec e else None) evs.

(** The samples at most [w] milliseconds older than the last one. *)
Definition in_window (w : N) (l : list (N * f64)) : list (N * f64) :=
  match last l with
  | Some (t, _) => filter (λ p, (t - w ≤ p.1)%N) l
  | None => []
  end.

Definition window_state (spec : SignalSpec) (l : list (N * f64)) : option SignalState :=
  match l with
  | [] => None
  | _ => let win := in_window (window_ms (spec_window spec)) l in
         Some (match spec_aggregator spec with
               | CounterRate => CounterTimestamps (map fst win)
               | GaugeAvg => GaugeSamples win
               end)
  end.

(** ** Trimming *)

Lemma pop_counter_gauge c l : pop_counter c (map fst l) = map fst (pop_gauge c l).
Proof. induction l as [|[t v] l IH]; simpl; [done|]. by case_decide. Qed.

Lemma pop_gauge_sorted c l :
  StronglySorted N.le (map fst l) → pop_gauge c l = filter (λ p, (c ≤ p.1)%N) l.
Proof.
  induction l as [|[t v] l IH]; simpl; [done|]. intros Hs.
  apply StronglySorted_inv in Hs as [Hs Hf]. rewrite filter_cons; simpl.
  case_decide; case_decide; try lia; [auto|]. f_equal.
  symmetry. apply filter_all. intros [u w] Hin; simpl.
  rewrite Forall_forall in Hf. assert (t ≤ u)%N; [|lia].
  apply Hf. apply list_elem_of_fmap. by exists (u, w).
Qed.

Lemma pop_gauge_push c l t v :
  StronglySorted N.le (map fst (l ++ [(t, v)])) →
  pop_gauge c (l ++ [(t, v)]) = filter (λ p, (c ≤ p.1)%N) (l ++ [(t, v)]).
Proof. apply pop_gauge_sorted. Qed.

Lemma sorted_filter_fst (P : N * f64 → Prop) `{!∀ x, Decision (P x)} l :
  StronglySorted N.le (map fst l) → StronglySorted N.le (map fst (filter P l)).
Proof.
  induction l as [|p l IH]; simpl; [done|]. intros [Hs Hf]%StronglySorted_inv.
  rewrite filter_cons. case_decide; [|auto]. simpl. constructor; [auto|].
  rewrite Forall_forall in *. intros x (q & -> & [_ Hq]%list_elem_of_filter)%list_elem_of_fmap.
  apply Hf, list_elem_of_fmap. by exists q.
Qed.

(** Pushing a sample at time [t] onto the window of the samples before it and
    trimming gives the window of all samples. *)
Lemma window_push w l t v :
  StronglySorted N.le (map fst (l ++ [(t, v)])) →
  trim_gauge (in_window w l ++ [(t, v)]) t w = in_window w (l ++ [(t, v)]).
Proof.
  intros Hs. unfold trim_gauge, saturating_sub, in_window at 2. rewrite last_snoc.
  assert (∀ p, p ∈ l → p.1 ≤ t)%N as Hle.
  { intros p Hp. rewrite map_app in Hs.
    eapply StronglySorted_app_1_elem_of; [exact Hs| |by left].
    apply list_elem_of_fmap. eauto. }
  rewrite pop_gauge_sorted.
  - rewrite !filter_app. f_equal. unfold in_window.
    destruct (last l) as [[u x]|] eqn:El; [|by apply last_None in El as ->].
    apply list_filter_filter_l. intros p Hp.
    apply last_Some_elem_of, Hle in El. simpl in *. lia.
  - rewrite map_app in *. apply StronglySorted_app in Hs as (H1 & H2 & H3).
    apply StronglySorted_app. split_and!; [|unfold in_window|done].
    + intros x1 x2 (q & -> & Hq)%list_elem_of_fmap. apply H1.
      apply list_elem_of_fmap. exists q. split; [done|]. unfold in_window in Hq.
      case_match; [|by apply elem_of_nil in Hq]. case_match; simplify_eq.
      by apply list_elem_of_filter in Hq as [_ ?].
    + destruct (last l) as [[u x]|]; [by apply sorted_filter_fst|constructor].
Qed.

(** ** The engine keeps every window exact *)

Lemma on_event_spec_registry ev spec acc :
  registry (on_event_spec ev spec acc).1 = registry acc.1.
Proof. destruct acc as [eng out]. unfold on_event_spec. by repeat case_match. Qed.

Lemma on_event_registry eng ev : registry (on_event eng ev).1 = registry eng.
Proof.
  unfold on_event. change (registry eng) with (registry (eng, [] : list SignalPoint).1) at 2.
  generalize (eng, [] : list SignalPoint). induction (registry eng) as [|s l IH]; [done|].
  intros acc; simpl. by rewrite IH, on_event_spec_registry.
Qed.

Lemma run_signals_registry eng evs : registry (run_signals eng evs) = registry eng.
Proof.
  revert eng. unfold run_signals. induction evs as [|e evs IH]; intros eng; simpl; [done|].
  by rewrite IH, on_event_registry.
Qed.

Lemma signal_key_inj name e1 e2 : signal_key name e1 = signal_key name e2 → e1 = e2.
Proof. unfold signal_key. by intros ?%str_app_eq_l%str_app_eq_l. Qed.

(** The state a sample leaves in the window of its signal. *)
Definition next_state (spec : SignalSpec) (ev : Event) (old : option SignalState)
    : option SignalState :=
  match extract_sample spec ev with
  | None => old
  | Some v => Some (push_sample spec ev v
                      (match old with
                       | Some st => st
                       | None => for_aggregator (spec_aggregator spec)
                       end))
  end.

Lemma on_event_spec_states ev spec acc k :
  states (on_event_spec ev spec acc).1 !! k =
  if decide (k = signal_key (spec_name spec) (entity_from_event ev))
  then next_state spec ev (states acc.1 !! k) else states acc.1 !! k.
Proof.
  destruct acc as [eng out]. unfold on_event_spec, next_state.
  destruct (extract_sample spec ev) as [v|]; [|by case_decide].
  set (st := push_sample _ _ _ _).
  assert (∀ m : gmap string SignalState,
    m = <[signal_key (spec_name spec) (entity_from_event ev):=st]> (states eng) →
    m !! k = if decide (k = signal_key (spec_name spec) (entity_from_event ev))
             then Some st else states eng !! k) as Hm.
  { intros m ->. case_decide; subst; by simplify_map_eq. }
  trans (if decide (k = signal_key (spec_name spec) (entity_from_event ev))
         then Some st else states eng !! k); [|by case_decide; subst].
  destruct (match last_emit_ts eng !! _ with Some _ => _ | None => _ end);
    [destruct (compute_value _ _ _)|]; by apply Hm.
Qed.

Section distinct_signals.
(** Specs whose keys never meet, whatever the entities. *)
Context (reg : list SignalSpec)
  (Hdup : NoDup reg)
  (Hkeys : ∀ s1 s2 e1 e2, s1 ∈ reg → s2 ∈ reg →
     signal_key (spec_name s1) e1 = signal_key (spec_name s2) e2 → s1 = s2).

Lemma fold_states_other ev l acc spec entity :
  (∀ s, s ∈ l → s ∈ reg) → spec ∈ reg → spec ∉ l →
  states (foldl (λ acc s, on_event_spec ev s acc) acc l).1
    !! signal_key (spec_name spec) entity
  = states acc.1 !! signal_key (spec_name spec) entity.
Proof.
  revert acc. induction l as [|s l IH]; intros acc Hl Hs Hn; simpl; [done|].
  apply not_elem_of_cons in Hn as [Hne Hn].
  rewrite IH, on_event_spec_states; [|set_solver..].
  apply decide_False. intros ?%Hkeys; [done..|set_solver].
Qed.

Lemma on_event_states eng ev spec entity :
  registry eng = reg → spec ∈ reg →
  states (on_event eng ev).1 !! signal_key (spec_name spec) entity =
  if decide (entity_from_event ev = entity)
  then next_state spec ev (states eng !! signal_key (spec_name spec) entity)
  else states eng !! signal_key (spec_name spec) entity.
Proof.
  intros Hr Hs. unfold on_event. rewrite Hr.
  destruct (list_elem_of_split _ _ Hs) as (l1 & l2 & Hreg).
  pose proof Hdup as Hnd. rewrite Hreg in Hnd |- *.
  apply NoDup_app in Hnd as (_ & Hn1 & Hnd). apply NoDup_cons in Hnd as [Hn2 _].
  rewrite foldl_app. simpl.
  assert (∀ s, s ∈ l2 → s ∈ reg) by (intros; rewrite Hreg; set_solver).
  assert (∀ s, s ∈ l1 → s ∈ reg) by (intros; rewrite Hreg; set_solver).
  rewrite fold_states_other by done.
  rewrite on_event_spec_states.
  rewrite fold_states_other; [|done|done|].
  - simpl. case_decide as H1; case_decide as H2; try done.
    + by apply signal_key_inj in H1.
    + by subst.
  - intros Hin. by apply (Hn1 _ Hin); left.
Qed.

Lemma samples_of_snoc spec entity evs e :
  samples_of spec entity (evs ++ [e]) =
  samples_of spec entity evs ++
    (if decide (entity_from_event e = entity)
     then match extract_sample spec e with Some v => [(ev_ts e, v)] | None => [] end
     else []).
Proof.
  unfold samples_of. rewrite omap_app. f_equal; simpl.
  by case_decide; [destruct (extract_sample spec e)|].
Qed.

Lemma samples_of_ts spec entity evs p :
  p ∈ samples_of spec entity evs → p.1 ∈ map ev_ts evs.
Proof.
  unfold samples_of. intros (e & He & Hp)%list_elem_of_omap.
  case_decide; [|done]. apply fmap_Some in Hp as (v & _ & ->).
  apply list_elem_of_fmap. by exists e.
Qed.

Lemma samples_of_sorted spec entity evs :
  StronglySorted N.le (map ev_ts evs) →
  StronglySorted N.le (map fst (samples_of spec entity evs)).
Proof.
  induction evs as [|e evs IH] using rev_ind; [constructor|].
  rewrite map_app. intros (H1 & H2 & _)%StronglySorted_app.
  rewrite samples_of_snoc, map_app. apply StronglySorted_app. split_and!; [|auto|].
  - intros x1 x2 (p & -> & Hp%samples_of_ts)%list_elem_of_fmap Hx.
    apply H1; [done|]. revert Hx. simpl. repeat case_match; set_solver.
  - repeat case_match; repeat constructor.
Qed.

Lemma push_window spec ev v l :
  StronglySorted N.le (map fst (l ++ [(ev_ts ev, v)])) →
  Some (push_sample spec ev v
          (match window_state spec l with
           | Some st => st
           | None => for_aggregator (spec_aggregator spec)
           end)) = window_state spec (l ++ [(ev_ts ev, v)]).
Proof.
  intros Hs. pose proof (window_push (window_ms (spec_window spec)) _ _ _ Hs) as Hw.
  assert (window_state spec (l ++ [(ev_ts ev, v)]) =
    Some (match spec_aggregator spec with
          | CounterRate => CounterTimestamps
              (map fst (in_window (window_ms (spec_window spec)) (l ++ [(ev_ts ev, v)])))
          | GaugeAvg => GaugeSamples
              (in_window (window_ms (spec_window spec)) (l ++ [(ev_ts ev, v)]))
          end)) as -> by (by destruct l).
  rewrite <-Hw. unfold trim_gauge. f_equal.
  assert (∀ c x, pop_counter c (map fst x ++ [ev_ts ev])
                 = map fst (pop_gauge c (x ++ [(ev_ts ev, v)]))) as Hc.
  { intros c x. by rewrite <-pop_counter_gauge, map_app. }
  unfold push_sample, window_state, trim_counter, trim_gauge.
  destruct l as [|p l], (spec_aggregator spec); cbn [for_aggregator]; try done.
  - f_equal. apply (Hc _ []).
  - f_equal. apply Hc.
Qed.

Lemma run_signals_window evs spec entity :
  StronglySorted N.le (map ev_ts evs) → spec ∈ reg →
  states (run_signals (signal_engine_new reg) evs) !! signal_key (spec_name spec) entity
  = window_state spec (samples_of spec entity evs).
Proof.
  induction evs as [|e evs IH] using rev_ind; intros Hs Hin; [done|].
  unfold run_signals. rewrite foldl_app. simpl. fold (run_signals (signal_engine_new reg) evs).
  rewrite on_event_states by (done || by rewrite run_signals_registry).
  pose proof (samples_of_sorted spec entity _ Hs) as Hss. rewrite samples_of_snoc in *.
  assert (StronglySorted N.le (map ev_ts evs)) as Hs'
    by (rewrite map_app in Hs; by apply StronglySorted_app_1_l in Hs).
  rewrite IH by done. case_decide; [|by rewrite app_nil_r].
  unfold next_state. destruct (extract_sample spec e) as [v|]; [|by rewrite app_nil_r].
  by apply push_window.
Qed.
End distinct_signals.

Lemma default_mvp_nodup : NoDup default_mvp.
Proof. repeat constructor; set_solver. Qed.

Lemma default_mvp_keys s1 s2 e1 e2 :
  s1 ∈ default_mvp → s2 ∈ default_mvp →
  signal_key (spec_name s1) e1 = signal_key (spec_name s2) e2 → s1 = s2.
Proof.
  unfold default_mvp. intros H1 H2 Hk.
  repeat (apply elem_of_cons in H1 as [->|H1]; [|]); try by apply elem_of_nil in H1.
  all: repeat (apply elem_of_cons in H2 as [->|H2]; [|]); try by apply elem_of_nil in H2.
  all: done.
Qed.

(** ** Emission throttling *)

(** The points of a whole run, in order. *)
Fixpoint run_points (eng : SignalEngine) (evs : list Event) : list SignalPoint :=
  match evs with
  | [] => []
  | e :: evs' => (on_event eng e).2 ++ run_points (on_event eng e).1 evs'
  end.

(** The emission times of one signal for one entity. *)
Definition emitted (name entity : string) (pts : list SignalPoint) : list N :=
  map pt_ts (filter (λ p, pt_name p = name ∧ ent_id (pt_entity p) = entity) pts).

Definition step_apart (spec : SignalSpec) (a b : N) : Prop :=
  (a + step_ms (spec_window spec) ≤ b)%N.

Section throttling.
Context (reg : list SignalSpec)
  (Hkeys : ∀ s1 s2 e1 e2, s1 ∈ reg → s2 ∈ reg →
     signal_key (spec_name s1) e1 = signal_key (spec_name s2) e2 → s1 = s2)
  (Hstep : ∀ s, s ∈ reg → (0 < step_ms (spec_window s))%N).

(** Every signal has emitted a step apart so far, and the engine remembers
    its last emission. *)
Definition throttled (acc : SignalEngine * list SignalPoint) : Prop :=
  ∀ spec entity, spec ∈ reg →
    Sorted (step_apart spec) (emitted (spec_name spec) entity acc.2)
    ∧ last_emit_ts acc.1 !! signal_key (spec_name spec) entity
      = last (emitted (spec_name spec) entity acc.2).

Lemma emitted_app name entity p q :
  emitted name entity (p ++ q) = emitted name entity p ++ emitted name entity q.
Proof. unfold emitted. by rewrite filter_app, map_app. Qed.

Lemma throttled_step acc ev s :
  s ∈ reg → throttled acc → throttled (on_event_spec ev s acc).
Proof.
  intros Hs Hacc spec entity Hspec. destruct acc as [eng out].
  destruct (Hacc spec entity Hspec) as [Hsort Hlast]. unfold on_event_spec.
  destruct (extract_sample s ev) as [v|]; [|done]. simpl in *.
  set (k := signal_key (spec_name s) (entity_from_event ev)).
  destruct (match last_emit_ts eng !! k with Some _ => _ | None => _ end) eqn:Eemit;
    [|done].
  destruct (compute_value _ _ _) as [x|]; [|done]. simpl.
  rewrite emitted_app. unfold emitted at 2 4. rewrite filter_cons. simpl.
  case_decide as Hp; simpl.
  - destruct Hp as [Hname Hent].
    assert (s = spec) as -> by (eapply (Hkeys _ _ entity entity); [done..|];
      unfold signal_key; by rewrite Hname).
    assert (k = signal_key (spec_name spec) entity) as Hk by (unfold k; by rewrite Hent).
    rewrite <-Hk in *. rewrite lookup_insert_eq, last_snoc. split; [|done].
    apply Sorted_snoc; [done|]. rewrite Hlast in Eemit. clear Hlast Hsort.
    destruct (emitted (spec_name spec) entity out) as [|y l _] using rev_ind;
      [constructor|]. rewrite last_snoc in Eemit. constructor.
    apply bool_decide_eq_true in Eemit. unfold step_apart, saturating_sub in *.
    specialize (Hstep _ Hs). lia.
  - rewrite app_nil_r. split; [done|]. rewrite lookup_insert_ne; [done|].
    intros Hk. apply Hp. assert (s = spec) as -> by (by eapply Hkeys).
    split; [done|]. by apply signal_key_inj in Hk.
Qed.

Lemma on_event_spec_out ev s eng p q :
  on_event_spec ev s (eng, p ++ q) =
  ((on_event_spec ev s (eng, q)).1, p ++ (on_event_spec ev s (eng, q)).2).
Proof. unfold on_event_spec. repeat case_match; simpl; by rewrite ?app_assoc. Qed.

Lemma fold_out ev l eng p q :
  foldl (λ acc s, on_event_spec ev s acc) (eng, p ++ q) l =
  ((foldl (λ acc s, on_event_spec ev s acc) (eng, q) l).1,
   p ++ (foldl (λ acc s, on_event_spec ev s acc) (eng, q) l).2).
Proof.
  revert eng q. induction l as [|s l IH]; intros eng q; simpl; [done|].
  rewrite on_event_spec_out. destruct (on_event_spec ev s (eng, q)). apply IH.
Qed.

Lemma throttled_event eng pts ev :
  registry eng = reg → throttled (eng, pts) →
  throttled ((on_event eng ev).1, pts ++ (on_event eng ev).2).
Proof.
  intros Hr. unfold on_event. rewrite <-fold_out, app_nil_r, Hr.
  assert (∀ l acc, (∀ s, s ∈ l → s ∈ reg) → throttled acc →
    throttled (foldl (λ acc s, on_event_spec ev s acc) acc l)) as Hl.
  { induction l as [|s l IH]; intros acc Hin Hacc; simpl; [done|].
    apply IH; [set_solver|]. apply throttled_step; [set_solver|done]. }
  by apply Hl.
Qed.

Lemma throttled_run evs eng pts :
  registry eng = reg → throttled (eng, pts) →
  throttled (run_signals eng evs, pts ++ run_points eng evs).
Proof.
  revert eng pts. induction evs as [|e evs IH]; intros eng pts Hr H; simpl.
  - by rewrite app_nil_r.
  - rewrite app_assoc. apply IH; [by rewrite on_event_registry|].
    by apply throttled_event.
Qed.
End throttling.

(** C8 On an event stream whose timestamps do not decrease, every signal window
    of the default registry is exact: after the stream, the window kept for a
    signal and an entity holds precisely that entity's samples not older than
    [window_ms] before its latest sample, in arrival order (timestamps for the
    retransmit counter, timestamped values for the utilisation gauge), and no
    window exists for an entity without samples. *)
Theorem signal_windows_exact (evs : list Event) (spec : SignalSpec) (entity : string)
    (Hsorted : StronglySorted N.le (map ev_ts evs)) (Hspec : spec ∈ default_mvp) :
  states (run_signals (signal_engine_new default_mvp) evs)
    !! signal_key (spec_name spec) entity
  = window_state spec (samples_of spec entity evs).
Proof.
  apply run_signals_window; [exact default_mvp_nodup|exact default_mvp_keys|done..].
Qed.

Lemma signal_windows_exact_witness :
  let ev t := mkEvent t TransportDrop "eth0" None (Some 1%N) "Retransmit" None in
  states (run_signals (signal_engine_new default_mvp) [ev 1000; ev 62000; ev 62500]%N)
    !! "network.tcp.retransmit_rate_1m::local"
  = Some (CounterTimestamps [62000; 62500]%N).
Proof.
  intros ev.
  refine (eq_trans (signal_windows_exact [ev 1000; ev 62000; ev 62500]%N
    (mkSignalSpec "network.tcp.retransmit_rate_1m" (mkWindowSpec 60000 1000)
       CounterRate "count/s") "local" _ _) _).
  - apply (bool_decide_unpack _). vm_compute. exact I.
  - left.
  - vm_compute. reflexivity.
Defined.

(** Emissions are throttled: over any event stream, in or out of order, the
    timestamps of the points emitted for one signal and entity increase by at
    least the signal's [step_ms] from each point to the next, so a signal is
    emitted at most once per step. *)
Theorem signal_emissions_throttled (evs : list Event) (spec : SignalSpec) (entity : string)
    (Hspec : spec ∈ default_mvp) :
  Sorted (step_apart spec)
    (emitted (spec_name spec) entity (run_points (signal_engine_new default_mvp) evs)).
Proof.
  pose proof (throttled_run default_mvp default_mvp_keys) as H.
  specialize (H ltac:(intros s Hs; unfold default_mvp in Hs; set_solver) evs
    (signal_engine_new default_mvp) [] eq_refl).
  apply H; [|done]. intros s e Hs. split; [constructor|]. apply lookup_empty.
Qed.

Lemma signal_emissions_throttled_witness :
  let ev t := mkEvent t ComputeUtil "gpu-0" None None "80" None in
  Sorted (step_apart (mkSignalSpec "hardware.gpu.util_avg_1m" (mkWindowSpec 60000 1000)
                        GaugeAvg "percent"))
    (emitted "hardware.gpu.util_avg_1m" "local"
       (run_points (signal_engine_new default_mvp) [ev 500; ev 900; ev 1600]%N))
  ∧ emitted "hardware.gpu.util_avg_1m" "local"
       (run_points (signal_engine_new default_mvp) [ev 500; ev 900; ev 1600]%N)
    = [500; 1600]%N.
Proof.
  intros ev. split; [|vm_compute; reflexivity].
  apply (signal_emissions_throttled [ev 500; ev 900; ev 1600]%N
    (mkSignalSpec "hardware.gpu.util_avg_1m" (mkWindowSpec 60000 1000) GaugeAvg "percent")
    "local").
  right. left.
Defined.
