(* ===== verification/Graph.v ===== *)
(** * State graph (core/src/graph.rs): data and operations

    The causal graph built from the event stream.  [HashMap]s are finite maps
    and [HashSet]s finite sets; the iteration order of a [HashMap] is not
    specified in Rust, and the only operations that expose it
    ([get_active_processes], the reply lists built from it) are stated up to
    permutation.  Each operation below is the body of the method of the same
    name, executed under the locks it takes; [cleanup_old_errors] is split at
    the point where it gives up its read lock, so that interleavings with other
    tasks can be expressed (see [GraphTasks]). *)

From S2P Require Import Prelude F64 Event Signals.

Definition EDGE_TTL_MS : N := 60 * 60 * 1000.
Definition MAX_EDGES : N := 100000.
Definition DEFAULT_CLEANUP_INTERVAL_MS : N := 30000.

Inductive EdgeType := Consumes | WaitsOn | BlockedBy.

Global Instance edge_type_eq_dec : EqDecision EdgeType.
Proof. solve_decision. Defined.
Global Instance edge_type_countable : Countable EdgeType.
Proof.
  refine (inj_countable'
    (λ t, match t with Consumes => 0 | WaitsOn => 1 | BlockedBy => 2 end)
    (λ n, match n with 0 => Consumes | 1 => WaitsOn | _ => BlockedBy end) _).
  by intros [].
Defined.

Record Edge := mkEdge {
  edge_type : EdgeType;
  edge_from : string;
  edge_to : string;
  edge_ts : N
}.
Global Instance edge_eq_dec : EqDecision Edge.
Proof. solve_decision. Defined.

Inductive NodeType := Process | Resource | Error.
Global Instance node_type_eq_dec : EqDecision NodeType.
Proof. solve_decision. Defined.

Record Node := mkNode {
  node_key : string;                     (** [id] *)
  node_type : NodeType;
  last_update : N;
  metadata : gmap string string
}.

Record EdgeKey := mkEdgeKey {
  key_type : EdgeType; key_from : string; key_to : string
}.
Global Instance edge_key_eq_dec : EqDecision EdgeKey.
Proof. solve_decision. Defined.
Global Instance edge_key_countable : Countable EdgeKey.
Proof.
  refine (inj_countable' (λ k, (key_type k, key_from k, key_to k))
                         (λ '(t, f, o), mkEdgeKey t f o) _).
  by intros [].
Defined.

Record IndexedEdge := mkIndexedEdge { ie_type : EdgeType; ie_to : string }.
Global Instance indexed_edge_eq_dec : EqDecision IndexedEdge.
Proof. solve_decision. Defined.

(** The edge list and its two indexes, which are always written together. *)
Record EdgeStore := mkEdgeStore {
  edges : list Edge;
  edge_index : gset EdgeKey;
  edge_out_index : gmap string (list IndexedEdge)
}.

Record StateGraph := mkStateGraph {
  nodes : gmap string Node;
  store : EdgeStore;
  signals : SignalEngine;
  error_window_ms : N;
  cleanup_interval_ms : N;
  last_cleanup_ts : N
}.

Definition with_nodes (g : StateGraph) (ns : gmap string Node) : StateGraph :=
  mkStateGraph ns (store g) (signals g) (error_window_ms g) (cleanup_interval_ms g)
    (last_cleanup_ts g).
Definition with_store (g : StateGraph) (st : EdgeStore) : StateGraph :=
  mkStateGraph (nodes g) st (signals g) (error_window_ms g) (cleanup_interval_ms g)
    (last_cleanup_ts g).
Definition with_signals (g : StateGraph) (s : SignalEngine) : StateGraph :=
  mkStateGraph (nodes g) (store g) s (error_window_ms g) (cleanup_interval_ms g)
    (last_cleanup_ts g).
Definition with_last_cleanup (g : StateGraph) (t : N) : StateGraph :=
  mkStateGraph (nodes g) (store g) (signals g) (error_window_ms g) (cleanup_interval_ms g) t.

Definition empty_store : EdgeStore := mkEdgeStore [] ∅ ∅.

(** [StateGraph::new] *)
Definition state_graph_new : StateGraph :=
  mkStateGraph ∅ empty_store (signal_engine_new default_mvp)
    (5 * 60 * 1000) DEFAULT_CLEANUP_INTERVAL_MS 0.

(** ** The edge store *)

Definition edge_key (e : Edge) : EdgeKey :=
  mkEdgeKey (edge_type e) (edge_from e) (edge_to e).

(** [edge_out_index.entry(from).or_default().push(..)] *)
Definition push_out (out : gmap string (list IndexedEdge)) (e : Edge)
    : gmap string (list IndexedEdge) :=
  <[edge_from e := default [] (out !! edge_from e)
                   ++ [mkIndexedEdge (edge_type e) (edge_to e)]]> out.

Definition upsert_edge (st : EdgeStore) (e : Edge) : EdgeStore * bool :=
  if decide (edge_key e ∈ edge_index st) then (st, false)
  else (mkEdgeStore (edges st ++ [e]) ({[edge_key e]} ∪ edge_index st)
          (push_out (edge_out_index st) e), true).

Definition rebuild_indexes (es : list Edge) : EdgeStore :=
  mkEdgeStore es
    (foldl (λ ix e, {[edge_key e]} ∪ ix) ∅ es)
    (foldl push_out ∅ es).

(** ** Handlers *)

Definition namespace_node_id (event : Event) (id : string) : string :=
  match ev_node_id event with
  | Some prefix => prefix +:+ "::" +:+ id
  | None => id
  end.

Definition pid_name (p : N) : string := "pid-" +:+ pretty p.

(** [if !nodes.contains_key(&id) { nodes.insert(id, Node { .. }) }] *)
Definition ensure_node (id : string) (ty : NodeType) (t : N) (meta : gmap string string)
    (ns : gmap string Node) : gmap string Node :=
  match ns !! id with
  | Some _ => ns
  | None => <[id := mkNode id ty t meta]> ns
  end.

(** [node.metadata.insert(key, value); node.last_update = ts] *)
Definition set_meta (key val : string) (t : N) (n : Node) : Node :=
  mkNode (node_key n) (node_type n) t (<[key := val]> (metadata n)).

Definition handle_process_state (g : StateGraph) (event : Event)
    : StateGraph * result string unit :=
  match ev_pid event with
  | Some p =>
      let pid_str := namespace_node_id event (pid_name p) in
      if decide (ev_value event = "start") then
        let meta0 : gmap string string :=
          match ev_job_id event with
          | Some j => <["job_id" := j]> ∅
          | None => ∅
          end in
        let meta := <["state" := "running"]> meta0 in
        (with_nodes g (<[pid_str := mkNode pid_str Process (ev_ts event) meta]> (nodes g)),
         Ok tt)
      else if decide (ev_value event = "exit" ∨ ev_value event = "zombie") then
        (with_nodes g (alter (set_meta "state" (ev_value event) (ev_ts event)) pid_str (nodes g)),
         Ok tt)
      else (g, Ok tt)
  | None => (g, Ok tt)
  end.

Definition handle_compute_event (g : StateGraph) (event : Event)
    : StateGraph * result string unit :=
  let resource_id := namespace_node_id event (ev_entity_id event) in
  let ns1 := ensure_node resource_id Resource (ev_ts event) ∅ (nodes g) in
  let ns2 := alter (set_meta "util" (ev_value event) (ev_ts event)) resource_id ns1 in
  match ev_pid event with
  | Some p =>
      let pid_str := namespace_node_id event (pid_name p) in
      let ns3 := ensure_node pid_str Process (ev_ts event) ∅ ns2 in
      let st := (upsert_edge (store g)
                   (mkEdge Consumes pid_str resource_id (ev_ts event))).1 in
      (with_store (with_nodes g ns3) st, Ok tt)
  | None => (with_nodes g ns2, Ok tt)
  end.

(** The network resource an entity stands for. *)
Definition transport_resource (entity : string) : string :=
  if starts_with "network-" entity then
    match strip_prefix "network-pid-" entity with
    | Some _ => "network"
    | None => entity
    end
  else entity.

(** The process a drop event blocks: the event's PID, else the PID in the
    entity name, else 0. *)
Definition drop_pid (event : Event) : N :=
  match ev_pid event with
  | Some p => p
  | None =>
      match strip_prefix "network-pid-" (ev_entity_id event) with
      | Some pid_str => default 0%N (parse_u32 pid_str)
      | None => 0
      end
  end.

Definition transport_key (t : EventType) : string :=
  match t with
  | TransportBw => "bw"
  | TransportDrop => "drop"
  | _ => "unknown"
  end.

Definition handle_transport_event (g : StateGraph) (event : Event)
    : StateGraph * result string unit :=
  let resource_id := namespace_node_id event (transport_resource (ev_entity_id event)) in
  let ns1 := ensure_node resource_id Resource (ev_ts event) ∅ (nodes g) in
  let ns2 := alter (set_meta (transport_key (ev_type event)) (ev_value event) (ev_ts event))
                   resource_id ns1 in
  let g2 := with_nodes g ns2 in
  let g3 :=
    if decide (ev_type event = TransportDrop) then
      let p := drop_pid event in
      if decide (0 < p)%N then
        let pid_str := namespace_node_id event (pid_name p) in
        let ns3 := ensure_node pid_str Process (ev_ts event)
                     (<["state" := "running"]> ∅) (nodes g2) in
        let st := (upsert_edge (store g2)
                     (mkEdge WaitsOn pid_str resource_id (ev_ts event))).1 in
        with_store (with_nodes g2 ns3) st
      else g2
    else g2 in
  let g4 :=
    if decide (ev_type event = TransportBw) then
      match ev_pid event with
      | Some p =>
          let should_create_waitson :=
            contains "IO_WAIT" (ev_value event)
            || f64_lt (default (f64_of_N 1000) (parse_f64 (ev_value event))) (f64_of_N 1) in
          if should_create_waitson then
            let pid_str := namespace_node_id event (pid_name p) in
            let ns3 := ensure_node pid_str Process (ev_ts event) ∅ (nodes g3) in
            let st := (upsert_edge (store g3)
                         (mkEdge WaitsOn pid_str resource_id (ev_ts event))).1 in
            with_store (with_nodes g3 ns3) st
          else g3
      | None => g3
      end
    else g3 in
  (g4, Ok tt).

Definition handle_storage_event (g : StateGraph) (event : Event)
    : StateGraph * result string unit := handle_transport_event g event.

(** The processes that consume a resource, in edge order. *)
Definition affected_pids (es : list Edge) (resource_id : string) : list string :=
  map edge_from (filter (λ e, edge_type e = Consumes ∧ edge_to e = resource_id) es).

Definition handle_error_event (g : StateGraph) (event : Event)
    : StateGraph * result string unit :=
  let error_id := namespace_node_id event ("error-" +:+ ev_entity_id event) in
  let ns1 := ensure_node error_id Error (ev_ts event)
               (<["error_type" := ev_value event]> ∅) (nodes g) in
  let resource_id := namespace_node_id event (ev_entity_id event) in
  let st := foldl (λ st pid_str,
                     (upsert_edge st (mkEdge BlockedBy pid_str error_id (ev_ts event))).1)
                  (store g) (affected_pids (edges (store g)) resource_id) in
  (with_store (with_nodes g ns1) st, Ok tt).

Definition handle_topo_event (g : StateGraph) (event : Event)
    : StateGraph * result string unit := handle_error_event g event.

(** ** Cleanup *)

Definition node_state (n : Node) : option string := metadata n !! "state".

Definition is_old_error (cutoff_ts : N) (n : Node) : Prop :=
  node_type n = Error ∧ (last_update n < cutoff_ts)%N.

(** Explicitly dead, or stale and not known to be running. *)
Definition is_dead_process (process_cutoff : N) (n : Node) : Prop :=
  node_type n = Process
  ∧ ((node_state n = Some "exit" ∨ node_state n = Some "zombie")
     ∨ ((last_update n < process_cutoff)%N ∧ node_state n ≠ Some "running")).

Global Instance is_old_error_dec c n : Decision (is_old_error c n).
Proof. unfold is_old_error. apply _. Defined.
Global Instance is_dead_process_dec c n : Decision (is_dead_process c n).
Proof. unfold is_dead_process. apply _. Defined.

(** The sets computed under the read lock. *)
Definition cleanup_targets (g : StateGraph) (current_ts : N) : gset string * gset string :=
  let cutoff_ts := saturating_sub current_ts (error_window_ms g) in
  let process_cutoff := saturating_sub current_ts (10 * 60 * 1000) in
  (dom (filter (λ p, is_old_error cutoff_ts p.2) (nodes g)),
   dom (filter (λ p, is_dead_process process_cutoff p.2) (nodes g))).

Definition newest_first (a b : Edge) : bool := bool_decide (edge_ts b ≤ edge_ts a)%N.

(** The three [retain]s and the capacity guard on the edge list. *)
Definition retain_edges (error_ids dead_pids : gset string) (current_ts : N)
    (es : list Edge) : list Edge :=
  let edge_cutoff := saturating_sub current_ts EDGE_TTL_MS in
  let es1 := filter (λ e, ¬ (edge_type e = BlockedBy ∧ edge_to e ∈ error_ids)) es in
  let es2 := filter (λ e, (edge_from e ∉ dead_pids) ∧ (edge_to e ∉ dead_pids)) es1 in
  let es3 := filter (λ e, (edge_cutoff ≤ edge_ts e)%N) es2 in
  if decide (MAX_EDGES < N.of_nat (length es3))%N
  then take (N.to_nat MAX_EDGES) (stable_sort newest_first es3)
  else es3.

(** The removals made under the write locks. *)
Definition cleanup_apply (g : StateGraph) (targets : gset string * gset string)
    (current_ts : N) : StateGraph :=
  let '(error_ids, dead_pids) := targets in
  let ns1 := filter (λ p, p.1 ∉ error_ids) (nodes g) in
  let ns2 := filter (λ p, p.1 ∉ dead_pids) ns1 in
  with_store (with_nodes g ns2)
    (rebuild_indexes (retain_edges error_ids dead_pids current_ts (edges (store g)))).

Definition cleanup_old_errors (g : StateGraph) (current_ts : N) : StateGraph :=
  cleanup_apply g (cleanup_targets g current_ts) current_ts.

(** ** Signals and event processing *)

Definition signal_node (point : SignalPoint) : string * Node :=
  let signal_node_id := "signal::" +:+ pt_name point +:+ "::" +:+ ent_id (pt_entity point) in
  let meta0 : gmap string string :=
    match pt_value point with
    | Number v => <["value" := f64_display v]> ∅
    | _ => ∅
    end in
  let meta := <["unit" := pt_unit point]> (<["window_ms" := pretty (pt_window_ms point)]> meta0) in
  (signal_node_id, mkNode signal_node_id Resource (pt_ts point) meta).

Definition insert_points (points : list SignalPoint) (ns : gmap string Node) : gmap string Node :=
  foldl (λ ns pt, <[(signal_node pt).1 := (signal_node pt).2]> ns) ns points.

Definition update_signals (g : StateGraph) (event : Event) : StateGraph :=
  let '(engine, points) := on_event (signals g) event in
  let g1 := with_signals g engine in
  match points with
  | [] => g1
  | _ => with_nodes g1 (insert_points points (nodes g1))
  end.

Definition handle_event (g : StateGraph) (event : Event) : StateGraph * result string unit :=
  match ev_type event with
  | ProcessState => handle_process_state g event
  | ComputeUtil | ComputeMem => handle_compute_event g event
  | TransportBw | TransportDrop => handle_transport_event g event
  | StorageIops | StorageQDepth => handle_storage_event g event
  | ErrorHw | ErrorNet => handle_error_event g event
  | TopoLinkDown => handle_topo_event g event
  | IntentRun | ActionExec => (g, Ok tt)
  end.

Definition should_cleanup (g : StateGraph) (event : Event) : Prop :=
  last_cleanup_ts g = 0%N
  ∨ (cleanup_interval_ms g ≤ saturating_sub (ev_ts event) (last_cleanup_ts g))%N.
Global Instance should_cleanup_dec g e : Decision (should_cleanup g e).
Proof. unfold should_cleanup. apply _. Defined.

Definition periodic_cleanup (g : StateGraph) (event : Event) : StateGraph :=
  if decide (should_cleanup g event)
  then with_last_cleanup (cleanup_old_errors g (ev_ts event)) (ev_ts event)
  else g.

(** [StateGraph::process_event]; an error of a handler is returned at once. *)
Definition process_event (g : StateGraph) (event : Event) : StateGraph * result string unit :=
  match handle_event g event with
  | (g1, Err e) => (g1, Err e)
  | (g1, Ok _) => (update_signals (periodic_cleanup g1 event) event, Ok tt)
  end.

Definition process_events (g : StateGraph) (evs : list Event) : StateGraph :=
  foldl (λ g e, (process_event g e).1) g evs.

(** ** Queries *)

Definition edge_type_name (t : EdgeType) : string :=
  match t with
  | Consumes => "consumes"
  | WaitsOn => "waits_on"
  | BlockedBy => "blocked_by"
  end.

Record GraphMetrics := mkGraphMetrics {
  nodes_total : nat;
  edges_total : nat;
  edges_by_type : gmap string nat
}.

Definition metrics_snapshot (g : StateGraph) : GraphMetrics :=
  mkGraphMetrics (size (nodes g)) (length (edges (store g)))
    (foldl (λ m e, let ty := edge_type_name (edge_type e) in
                   <[ty := default 0 (m !! ty) + 1]> m) ∅ (edges (store g))).

Definition is_active (n : Node) : Prop :=
  node_type n = Process ∧ node_state n ≠ Some "exit" ∧ node_state n ≠ Some "zombie".
Global Instance is_active_dec n : Decision (is_active n).
Proof. unfold is_active. apply _. Defined.

Definition get_active_processes (g : StateGraph) : list Node :=
  filter is_active (map snd (map_to_list (nodes g))).

Definition get_process_resources (g : StateGraph) (p : N) : list string :=
  match edge_out_index (store g) !! pid_name p with
  | Some es => map ie_to (filter (λ e, ie_type e = Consumes) es)
  | None => []
  end.

(** ** Root causes: backward depth-first search *)

Definition error_desc (to : string) (n : Node) : string :=
  to +:+ ": " +:+ default "未知错误" (metadata n !! "error_type").

Definition wait_desc (to : string) : string := "等待资源: " +:+ to.

Abbreviation dfs_state := (gset string * list string)%type.

(** One iteration of the edge loop, given the recursive call. *)
Definition dfs_edge (ns : gmap string Node)
    (rec : string → dfs_state → option dfs_state)
    (e : IndexedEdge) (st : dfs_state) : option dfs_state :=
  match ie_type e with
  | BlockedBy =>
      match ns !! ie_to e with
      | Some n =>
          let causes := if decide (node_type n = Error)
                        then st.2 ++ [error_desc (ie_to e) n] else st.2 in
          rec (ie_to e) (st.1, causes)
      | None => Some st
      end
  | WaitsOn => Some (st.1, st.2 ++ [wait_desc (ie_to e)])
  | Consumes => Some st
  end.

(** [dfs_backward]; [None] is running out of fuel. *)
Fixpoint dfs_backward (fuel : nat) (out : gmap string (list IndexedEdge))
    (ns : gmap string Node) (node_id : string) (st : dfs_state) : option dfs_state :=
  match fuel with
  | 0 => None
  | S fuel' =>
      if decide (node_id ∈ st.1) then Some st
      else
        let st1 : dfs_state := ({[node_id]} ∪ st.1, st.2) in
        match out !! node_id with
        | Some out_edges =>
            foldl (λ acc e, st ← acc; dfs_edge ns (dfs_backward fuel' out ns) e st)
                  (Some st1) out_edges
        | None => Some st1
        end
  end.

(** Enough fuel for any search: a node is entered at most once, and only nodes
    with outgoing edges recurse. *)
Definition dfs_fuel (out : gmap string (list IndexedEdge)) : nat := S (S (size out)).

Definition find_root_cause_by_id (g : StateGraph) (node_id : string) : option (list string) :=
  snd <$> dfs_backward (dfs_fuel (edge_out_index (store g))) (edge_out_index (store g))
            (nodes g) node_id (∅, []).

Definition find_root_cause (g : StateGraph) (p : N) : option (list string) :=
  find_root_cause_by_id g (pid_name p).

Definition get_all_edges_async (g : StateGraph) : list Edge := edges (store g).
Definition get_nodes_async (g : StateGraph) : gmap string Node := nodes g.

(** ** Example runs *)

Example root_cause_of_gpu_error :
  let g := process_events state_graph_new
    [mkEvent 1000 ProcessState "proc" (Some "job-1") (Some 7%N) "start" None;
     mkEvent 1100 ComputeUtil "gpu-0" None (Some 7%N) "80" None;
     mkEvent 1200 ErrorHw "gpu-0" None None "XID_79" None;
     mkEvent 1300 TransportDrop "network-pid-7" None None "retransmit" None]%N in
  find_root_cause g 7 = Some ["error-gpu-0: XID_79"; "等待资源: network"].
Proof. vm_compute. reflexivity. Qed.
