(* ===== verification/GraphInv.v ===== *)
(** * Invariants of the state graph

    [graph_wf] is the well-formedness every operation of [Graph] preserves: the
    two edge indexes are exactly what [rebuild_indexes] computes from the edge
    list, no edge is stored twice, every node is stored under its own id and
    carries only the metadata keys the handlers write.  On top of it: the
    functional specification of [cleanup_old_errors]. *)

From S2P Require Import Prelude F64 Event Signals Graph.

(** ** The edge store *)

Definition store_wf (st : EdgeStore) : Prop :=
  st = rebuild_indexes (edges st) ∧ NoDup (map edge_key (edges st)).

(** The outgoing edges of a node, in insertion order. *)
Definition out_edges (es : list Edge) (n : string) : list IndexedEdge :=
  map (λ e, mkIndexedEdge (edge_type e) (edge_to e)) (filter (λ e, edge_from e = n) es).

Lemma edges_rebuild es : edges (rebuild_indexes es) = es.
Proof. done. Qed.

Lemma elem_of_rebuilt_index es k :
  k ∈ edge_index (rebuild_indexes es) ↔ k ∈ map edge_key es.
Proof.
  unfold rebuild_indexes. simpl. assert (∀ ix : gset EdgeKey, k ∈ foldl (λ ix e, {[edge_key e]} ∪ ix) ix es
                       ↔ k ∈ ix ∨ k ∈ map edge_key es) as H.
  { induction es as [|e es IH]; intros ix; simpl; [set_solver|].
    rewrite IH. set_solver. }
  rewrite H. set_solver.
Qed.

Lemma rebuild_snoc es e :
  rebuild_indexes (es ++ [e]) =
  mkEdgeStore (es ++ [e]) ({[edge_key e]} ∪ edge_index (rebuild_indexes es))
    (push_out (edge_out_index (rebuild_indexes es)) e).
Proof. unfold rebuild_indexes. by rewrite !foldl_app. Qed.

Lemma rebuild_snoc_out es e :
  edge_out_index (rebuild_indexes (es ++ [e])) =
  push_out (edge_out_index (rebuild_indexes es)) e.
Proof. by rewrite rebuild_snoc. Qed.

(** The out-index lists exactly the outgoing edges of each node. *)
Lemma rebuilt_out_lookup es n :
  edge_out_index (rebuild_indexes es) !! n =
  match out_edges es n with [] => None | l => Some l end.
Proof.
  induction es as [|e es IH] using rev_ind; [done|].
  rewrite rebuild_snoc_out. unfold push_out, out_edges.
  rewrite filter_app, map_app. destruct (decide (edge_from e = n)) as [<-|Hne].
  - rewrite lookup_insert_eq, IH. rewrite filter_cons, decide_True by done.
    unfold out_edges. simpl. by destruct (map _ _).
  - rewrite lookup_insert_ne by done. rewrite filter_cons, decide_False by done.
    simpl. by rewrite app_nil_r.
Qed.

Lemma store_wf_empty : store_wf empty_store.
Proof. split; [done|constructor]. Qed.

Lemma store_wf_rebuild es : NoDup (map edge_key es) → store_wf (rebuild_indexes es).
Proof. done. Qed.

Lemma upsert_edge_fresh st e :
  store_wf st → edge_key e ∉ map edge_key (edges st) →
  upsert_edge st e = (rebuild_indexes (edges st ++ [e]), true).
Proof.
  intros [Hst _] Hk. unfold upsert_edge. rewrite decide_False.
  - rewrite rebuild_snoc, <-Hst. done.
  - by rewrite Hst, elem_of_rebuilt_index.
Qed.

Lemma upsert_edge_known st e :
  store_wf st → edge_key e ∈ map edge_key (edges st) → upsert_edge st e = (st, false).
Proof.
  intros [Hst _] Hk. unfold upsert_edge. rewrite decide_True; [done|].
  by rewrite Hst, elem_of_rebuilt_index.
Qed.

Lemma upsert_edge_wf st e : store_wf st → store_wf (upsert_edge st e).1.
Proof.
  intros Hwf. destruct (decide (edge_key e ∈ map edge_key (edges st))).
  - by rewrite upsert_edge_known.
  - rewrite upsert_edge_fresh by done. apply store_wf_rebuild.
    rewrite map_app. apply NoDup_app. split_and!; [by apply Hwf| |apply NoDup_singleton].
    intros x Hx Hx'%list_elem_of_singleton. by subst.
Qed.

Lemma foldl_upsert_wf (f : string → Edge) l st :
  store_wf st → store_wf (foldl (λ st x, (upsert_edge st (f x)).1) st l).
Proof. revert st. induction l; simpl; auto using upsert_edge_wf. Qed.

(** The edges of a store only grow by an upsert. *)
Lemma upsert_edge_edges st e :
  store_wf st →
  edges (upsert_edge st e).1 =
  edges st ++ (if decide (edge_key e ∈ map edge_key (edges st)) then [] else [e]).
Proof.
  intros Hwf. case_decide.
  - by rewrite upsert_edge_known, app_nil_r.
  - by rewrite upsert_edge_fresh.
Qed.

(** ** Nodes *)

Definition known_keys : list string :=
  ["state"; "job_id"; "util"; "bw"; "drop"; "unknown"; "error_type";
   "value"; "window_ms"; "unit"].

Definition node_wf (id : string) (n : Node) : Prop :=
  node_key n = id ∧ ∀ k, is_Some (metadata n !! k) → k ∈ known_keys.

Abbreviation nodes_wf := (map_Forall (M:=gmap string Node) node_wf).

Lemma meta_empty_known k : is_Some ((∅ : gmap string string) !! k) → k ∈ known_keys.
Proof. intros [v Hv]. by rewrite lookup_empty in Hv. Qed.

Lemma meta_insert_known (m : gmap string string) key v :
  key ∈ known_keys → (∀ k, is_Some (m !! k) → k ∈ known_keys) →
  ∀ k, is_Some (<[key:=v]> m !! k) → k ∈ known_keys.
Proof. intros Hkey Hm k. rewrite lookup_insert. case_decide; [by subst|auto]. Qed.

Lemma ensure_node_wf id ty t m ns :
  (∀ k, is_Some (m !! k) → k ∈ known_keys) →
  nodes_wf ns → nodes_wf (ensure_node id ty t m ns).
Proof.
  intros Hm Hns. unfold ensure_node. case_match; [done|].
  apply map_Forall_insert_2; [by split|done].
Qed.

Lemma alter_set_meta_wf (id key v : string) t (ns : gmap string Node) :
  key ∈ known_keys → nodes_wf ns → nodes_wf (alter (set_meta key v t) id ns).
Proof.
  intros Hk Hns i n. rewrite lookup_alter. case_decide as Hi; [|apply Hns]. subst.
  intros (n' & Hn' & ->)%fmap_Some. destruct (Hns _ _ Hn') as [Hid Hmeta].
  split; [done|]. by apply meta_insert_known.
Qed.

Lemma filter_nodes_wf (P : string * Node → Prop) `{!∀ x, Decision (P x)} (ns : gmap string Node) :
  nodes_wf ns → nodes_wf (filter P ns).
Proof. intros Hns i n [Hi _]%map_lookup_filter_Some. by apply Hns. Qed.

Lemma signal_node_wf pt : node_wf (signal_node pt).1 (signal_node pt).2.
Proof.
  split; [done|]. simpl. destruct (pt_value pt);
    repeat (apply meta_insert_known; [apply (bool_decide_unpack _); vm_compute; exact I|]);
    apply meta_empty_known.
Qed.

Lemma insert_points_wf pts ns : nodes_wf ns → nodes_wf (insert_points pts ns).
Proof.
  unfold insert_points. revert ns. induction pts as [|p pts IH]; intros ns Hns; simpl; [done|].
  apply IH. apply map_Forall_insert_2; [apply signal_node_wf|done].
Qed.

(** Membership in [known_keys] is decided; metadata is known key by key. *)
Ltac solve_known := apply (bool_decide_unpack _); vm_compute; exact I.
Ltac solve_meta :=
  repeat (apply meta_insert_known; [solve_known|]); apply meta_empty_known.

#[export] Hint Resolve ensure_node_wf alter_set_meta_wf filter_nodes_wf
  insert_points_wf upsert_edge_wf foldl_upsert_wf store_wf_empty : ark.
#[export] Hint Extern 1 (_ ∈ known_keys) => solve_known : ark.
#[export] Hint Extern 1 (∀ _, is_Some _ → _ ∈ known_keys) => solve_meta : ark.

(** ** The invariant *)

Record graph_wf (g : StateGraph) : Prop := {
  wf_nodes : nodes_wf (nodes g);
  wf_store : store_wf (store g)
}.
#[export] Hint Resolve wf_nodes wf_store : ark.

Lemma graph_new_wf : graph_wf state_graph_new.
Proof. split; [apply map_Forall_empty|apply store_wf_empty]. Qed.

Lemma handle_process_state_wf g ev : graph_wf g → graph_wf (handle_process_state g ev).1.
Proof.
  intros [Hn Hs]. unfold handle_process_state.
  repeat case_match; simpl; try done; split; simpl; eauto with ark;
    apply map_Forall_insert_2; try done; split; try done;
    solve_meta.
Qed.

Lemma handle_compute_event_wf g ev : graph_wf g → graph_wf (handle_compute_event g ev).1.
Proof. intros [Hn Hs]. unfold handle_compute_event. case_match; split; simpl; eauto 6 with ark. Qed.

(** Ensuring a node and upserting an edge, the step all the handlers share. *)
Lemma link_wf g id ty t m e :
  graph_wf g → (∀ k, is_Some (m !! k) → k ∈ known_keys) →
  graph_wf (with_store (with_nodes g (ensure_node id ty t m (nodes g)))
              (upsert_edge (store g) e).1).
Proof. intros [Hn Hs] Hm. split; simpl; [by apply ensure_node_wf|by apply upsert_edge_wf]. Qed.

Lemma transport_key_known t : transport_key t ∈ known_keys.
Proof. destruct t; simpl; unfold known_keys; set_solver. Qed.
#[export] Hint Resolve transport_key_known : ark.

Lemma handle_transport_event_wf g ev : graph_wf g → graph_wf (handle_transport_event g ev).1.
Proof.
  intros [Hn Hs]. unfold handle_transport_event. cbv zeta.
  set (g2 := with_nodes g _).
  assert (graph_wf g2) as H2 by (split; [simpl; eauto with ark|done]).
  set (g3 := if decide (ev_type ev = TransportDrop) then _ else g2).
  assert (graph_wf g3) as H3.
  { unfold g3. repeat case_decide; try done. apply link_wf; eauto with ark. }
  repeat case_match; simpl; try done. by apply link_wf; eauto with ark.
Qed.

Lemma handle_error_event_wf g ev : graph_wf g → graph_wf (handle_error_event g ev).1.
Proof.
  intros [Hn Hs]. split; simpl; [eauto 6 with ark|].
  by apply (foldl_upsert_wf (λ p, mkEdge BlockedBy p _ _)).
Qed.
#[export] Hint Resolve handle_process_state_wf handle_compute_event_wf
  handle_transport_event_wf handle_error_event_wf : ark.

Lemma handle_event_wf g ev : graph_wf g → graph_wf (handle_event g ev).1.
Proof.
  intros H. unfold handle_event, handle_storage_event, handle_topo_event.
  destruct (ev_type ev); eauto with ark.
Qed.

Lemma retain_edges_subset errs dead t es e :
  e ∈ retain_edges errs dead t es → e ∈ es.
Proof.
  unfold retain_edges. intros He.
  assert (e ∈ filter (λ e, (saturating_sub t EDGE_TTL_MS ≤ edge_ts e)%N)
            (filter (λ e, (edge_from e ∉ dead) ∧ (edge_to e ∉ dead))
              (filter (λ e, ¬ (edge_type e = BlockedBy ∧ edge_to e ∈ errs)) es))) as H.
  { case_decide; [|done]. by apply elem_of_take in He as (i & He & _);
      apply list_elem_of_lookup_2, elem_of_stable_sort in He. }
  by rewrite !list_elem_of_filter in H; destruct_and!.
Qed.

Lemma NoDup_map_filter {A B} (f : A → B) (P : A → Prop) `{!∀ x, Decision (P x)} l :
  NoDup (map f l) → NoDup (map f (filter P l)).
Proof.
  intros Hnd. eapply sublist_NoDup; [exact Hnd|]. apply (fmap_sublist f), sublist_filter.
Qed.

Lemma retain_edges_nodup errs dead t es :
  NoDup (map edge_key es) → NoDup (map edge_key (retain_edges errs dead t es)).
Proof.
  intros Hnd. unfold retain_edges.
  case_decide; [|by do 3 apply NoDup_map_filter].
  eapply sublist_NoDup; [|apply (fmap_sublist edge_key), sublist_take].
  rewrite (stable_sort_perm newest_first). by do 3 apply (NoDup_map_filter edge_key).
Qed.

Lemma cleanup_apply_wf g targets t : graph_wf g → graph_wf (cleanup_apply g targets t).
Proof.
  intros [Hn Hs]. destruct targets as [errs dead]. split; simpl; [eauto with ark|].
  apply store_wf_rebuild, retain_edges_nodup, Hs.
Qed.

Lemma with_last_cleanup_wf g t : graph_wf g → graph_wf (with_last_cleanup g t).
Proof. by intros [??]. Qed.

Lemma with_signals_wf g s : graph_wf g → graph_wf (with_signals g s).
Proof. by intros [??]. Qed.

Lemma insert_points_graph_wf g pts :
  graph_wf g → graph_wf (with_nodes g (insert_points pts (nodes g))).
Proof. intros [??]. split; [by apply insert_points_wf|done]. Qed.

Lemma update_signals_wf g ev : graph_wf g → graph_wf (update_signals g ev).
Proof.
  intros Hg. unfold update_signals. destruct (on_event (signals g) ev) as [eng pts].
  destruct pts; [by apply with_signals_wf|].
  by apply (insert_points_graph_wf (with_signals g eng)), with_signals_wf.
Qed.

Lemma periodic_cleanup_wf g ev : graph_wf g → graph_wf (periodic_cleanup g ev).
Proof.
  intros Hg. unfold periodic_cleanup. case_decide; [|done].
  by apply with_last_cleanup_wf, cleanup_apply_wf.
Qed.

Lemma handle_event_ok g ev : (handle_event g ev).2 = Ok tt.
Proof.
  unfold handle_event, handle_storage_event, handle_topo_event, handle_error_event,
    handle_process_state, handle_compute_event, handle_transport_event.
  by repeat case_match.
Qed.

(** [process_event] is its three phases in sequence: no handler fails. *)
Lemma process_event_eq g ev :
  process_event g ev =
  (update_signals (periodic_cleanup (handle_event g ev).1 ev) ev, Ok tt).
Proof.
  unfold process_event. pose proof (handle_event_ok g ev) as Hok.
  destruct (handle_event g ev) as [g1 r]. simpl in *. by rewrite Hok.
Qed.

Lemma process_event_wf g ev : graph_wf g → graph_wf (process_event g ev).1.
Proof.
  intros Hg. rewrite process_event_eq. simpl.
  by apply update_signals_wf, periodic_cleanup_wf, handle_event_wf.
Qed.
#[export] Hint Resolve cleanup_apply_wf with_last_cleanup_wf with_signals_wf
  insert_points_graph_wf update_signals_wf periodic_cleanup_wf process_event_wf
  handle_event_wf graph_new_wf : ark.

Lemma process_events_wf evs g : graph_wf g → graph_wf (process_events g evs).
Proof.
  revert g. unfold process_events. induction evs as [|e evs IH]; intros g Hg; simpl; [done|].
  apply IH. by apply process_event_wf.
Qed.


(** ** What cleanup removes and keeps *)

Definition error_cutoff (g : StateGraph) (t : N) : N := saturating_sub t (error_window_ms g).
Definition process_cutoff (t : N) : N := saturating_sub t (10 * 60 * 1000).

Lemma elem_of_cleanup_targets g t id :
  (id ∈ (cleanup_targets g t).1
     ↔ ∃ n, nodes g !! id = Some n ∧ is_old_error (error_cutoff g t) n)
  ∧ (id ∈ (cleanup_targets g t).2
     ↔ ∃ n, nodes g !! id = Some n ∧ is_dead_process (process_cutoff t) n).
Proof.
  unfold cleanup_targets, error_cutoff, process_cutoff. simpl.
  rewrite !elem_of_dom. unfold is_Some. setoid_rewrite map_lookup_filter_Some. done.
Qed.

(** The edges cleanup is allowed to keep. *)
Definition edge_live (g : StateGraph) (t : N) (e : Edge) : Prop :=
  ¬ (edge_type e = BlockedBy ∧ edge_to e ∈ (cleanup_targets g t).1)
  ∧ edge_from e ∉ (cleanup_targets g t).2
  ∧ edge_to e ∉ (cleanup_targets g t).2
  ∧ (saturating_sub t EDGE_TTL_MS ≤ edge_ts e)%N.
Global Instance edge_live_dec g t e : Decision (edge_live g t e).
Proof. unfold edge_live. apply _. Defined.

Definition live_edges (g : StateGraph) (t : N) : list Edge :=
  filter (edge_live g t) (edges (store g)).

Lemma cleanup_edges_eq g t :
  edges (store (cleanup_old_errors g t)) =
  if decide (MAX_EDGES < N.of_nat (length (live_edges g t)))%N
  then take (N.to_nat MAX_EDGES) (stable_sort newest_first (live_edges g t))
  else live_edges g t.
Proof.
  unfold cleanup_old_errors, cleanup_apply.
  destruct (cleanup_targets g t) as [errs dead] eqn:E. simpl. unfold retain_edges.
  assert (filter (λ e, (saturating_sub t EDGE_TTL_MS ≤ edge_ts e)%N)
            (filter (λ e, (edge_from e ∉ dead) ∧ (edge_to e ∉ dead))
              (filter (λ e, ¬ (edge_type e = BlockedBy ∧ edge_to e ∈ errs))
                 (edges (store g)))) = live_edges g t) as ->; [|done].
  rewrite !list_filter_filter. apply list_filter_iff. intros e.
  unfold edge_live. rewrite E. simpl. naive_solver.
Qed.

Lemma newest_first_total a b : newest_first a b = true ∨ newest_first b a = true.
Proof. unfold newest_first. rewrite !bool_decide_eq_true. lia. Qed.
Lemma newest_first_trans a b c :
  newest_first a b = true → newest_first b c = true → newest_first a c = true.
Proof. unfold newest_first. rewrite !bool_decide_eq_true. lia. Qed.

Lemma strongly_sorted_take_drop {A} (R : A → A → Prop) n l x y :
  StronglySorted R l → x ∈ take n l → y ∈ drop n l → R x y.
Proof.
  intros Hs. rewrite <-(take_drop n l) in Hs.
  intros. by eapply StronglySorted_app_1_elem_of.
Qed.

(** C2 After any sequence of events, the indexes of the graph agree with its
    edge list and no edge is duplicated: the key set is exactly the set of keys
    of the stored edges, the adjacency list of every node is exactly its
    outgoing edges in insertion order (and absent when it has none), and every
    node is stored under its own id. *)
Theorem graph_indexes_consistent (evs : list Event) :
  let g := process_events state_graph_new evs in
  let st := store g in
  NoDup (map edge_key (edges st))
  ∧ (∀ k, k ∈ edge_index st ↔ ∃ e, e ∈ edges st ∧ edge_key e = k)
  ∧ (∀ n, edge_out_index st !! n =
          match out_edges (edges st) n with [] => None | l => Some l end)
  ∧ (∀ id n, nodes g !! id = Some n → node_key n = id).
Proof.
  intros g st. destruct (process_events_wf evs _ graph_new_wf) as [Hn [Hst Hnd]].
  fold g st in Hn, Hst, Hnd. split_and!; [done|..].
  - intros k. rewrite Hst, elem_of_rebuilt_index. rewrite list_elem_of_fmap. naive_solver.
  - intros n. rewrite Hst. apply rebuilt_out_lookup.
  - intros id n Hid. by apply (Hn id n) in Hid as [? _].
Qed.

(** Processing an event never fails, whatever the graph and the event: every
    handler succeeds, so the error paths of the callers of [process_event]
    (skipped WAL lines, dropped hub events) are never taken. *)
Theorem process_event_never_fails (g : StateGraph) (ev : Event) :
  (process_event g ev).2 = Ok tt.
Proof. by rewrite process_event_eq. Qed.

Lemma cleanup_nodes_lookup g t id n :
  nodes (cleanup_old_errors g t) !! id = Some n ↔
  nodes g !! id = Some n
  ∧ ¬ is_old_error (error_cutoff g t) n
  ∧ ¬ is_dead_process (process_cutoff t) n.
Proof.
  unfold cleanup_old_errors, cleanup_apply.
  destruct (cleanup_targets g t) as [errs dead] eqn:E. simpl.
  rewrite !map_lookup_filter_Some. simpl.
  destruct (elem_of_cleanup_targets g t id) as [H1 H2]. rewrite E in H1, H2. simpl in *.
  rewrite H1, H2. naive_solver.
Qed.

Lemma cleanup_edges_live g t e :
  e ∈ edges (store (cleanup_old_errors g t)) → e ∈ edges (store g) ∧ edge_live g t e.
Proof.
  rewrite cleanup_edges_eq. intros He.
  assert (e ∈ live_edges g t) as [??]%list_elem_of_filter; [|done].
  case_decide; [|done]. apply elem_of_take in He as (i & He & _).
  by apply list_elem_of_lookup_2, elem_of_stable_sort in He.
Qed.

(** Whether a node is still wanted at time [t]: an error as long as its last
    update is within the error window; a process while its state is running, not
    once it is exit or zombie, and in any other state for ten minutes after its
    last update; a resource for ever. *)
Definition wanted (window t : N) (n : Node) : Prop :=
  let state := metadata n !! "state" in
  match node_type n with
  | Error => (t ≤ last_update n + window)%N
  | Process =>
      state = Some "running"
      ∨ state ≠ Some "exit" ∧ state ≠ Some "zombie" ∧ (t ≤ last_update n + 600000)%N
  | Resource => True
  end.

(** C32 Cleanup removes exactly the expired nodes: a node survives a cleanup at
    time [t], unchanged, if and only if it is still wanted: an error for the
    length of the error window, a process while it runs, not at all once it has
    exited or is a zombie, and otherwise for ten minutes after its last sign of
    life, a resource always. *)
Theorem cleanup_nodes_exact (g : StateGraph) (t : N) (id : string) (n : Node) :
  nodes (cleanup_old_errors g t) !! id = Some n ↔
  nodes g !! id = Some n ∧ wanted (error_window_ms g) t n.
Proof.
  rewrite cleanup_nodes_lookup. unfold is_old_error, is_dead_process, error_cutoff, process_cutoff, wanted,
    node_state, saturating_sub. cbn zeta.
  assert ((last_update n < t - error_window_ms g)%N ↔ ¬ (t ≤ last_update n + error_window_ms g)%N) as -> by lia.
  assert ((last_update n < t - 10 * 60 * 1000)%N ↔ ¬ (t ≤ last_update n + 600000)%N) as -> by lia.
  destruct (decide (t ≤ last_update n + error_window_ms g)%N), (decide (t ≤ last_update n + 600000)%N),
    (decide (metadata n !! "state" = Some "running")) as [->|]; destruct (node_type n); naive_solver.
Qed.

(** C33 Cleanup bounds the edge list and keeps the right edges: the result is
    always at most [MAX_EDGES] edges, all of them live (young enough, not to an
    expired error, no endpoint a removed process); when the live edges fit they
    are all kept, in order; otherwise exactly [MAX_EDGES] are kept and no
    discarded live edge is newer than a kept one. *)
Theorem cleanup_edges_exact (g : StateGraph) (t : N) :
  let kept := edges (store (cleanup_old_errors g t)) in
  let live := live_edges g t in
  (N.of_nat (length kept) ≤ MAX_EDGES)%N
  ∧ (∀ e, e ∈ kept → e ∈ edges (store g) ∧ edge_live g t e)
  ∧ (if decide (N.of_nat (length live) ≤ MAX_EDGES)%N then kept = live
     else N.of_nat (length kept) = MAX_EDGES
          ∧ ∃ dropped, kept ++ dropped ≡ₚ live
            ∧ ∀ e e', e ∈ kept → e' ∈ dropped → (edge_ts e' ≤ edge_ts e)%N).
Proof.
  intros kept live. unfold kept. rewrite cleanup_edges_eq. fold live.
  assert (∀ e, e ∈ live → e ∈ edges (store g) ∧ edge_live g t e) as Hlive
    by (by intros e [??]%list_elem_of_filter).
  case_decide as Hbig.
  - assert (N.of_nat (length (take (N.to_nat MAX_EDGES) (stable_sort newest_first live)))
            = MAX_EDGES) as Hlen.
    { rewrite length_take, stable_sort_length. lia. }
    split_and!; [lia| |].
    + intros e (i & He & _)%elem_of_take. apply Hlive.
      by apply list_elem_of_lookup_2, elem_of_stable_sort in He.
    + rewrite decide_False by lia. split; [done|].
      exists (drop (N.to_nat MAX_EDGES) (stable_sort newest_first live)).
      split; [by rewrite take_drop, stable_sort_perm|]. intros e e' He He'.
      assert (newest_first e e' = true) as Hnf; [|by apply bool_decide_eq_true in Hnf].
      eapply (strongly_sorted_take_drop (λ a b, newest_first a b = true));
        [|exact He|exact He'].
      apply stable_sort_sorted; [exact newest_first_total|exact newest_first_trans].
  - split_and!; [lia|done|]. by rewrite decide_True by lia.
Qed.
