(* ===== verification/RootCause.v ===== *)
(** * Root-cause search (core/src/graph.rs, [dfs_backward])

    The backward depth-first search terminates on every graph, cyclic ones
    included, and returns exactly the causes reachable from the queried node
    through [BlockedBy] edges. *)

From S2P Require Import Prelude F64 Event Signals Graph GraphInv.

Section dfs.
Context (out : gmap string (list IndexedEdge)) (ns : gmap string Node).

(** The search moves along [BlockedBy] edges to nodes that still exist. *)
Definition blocked_step (a b : string) : Prop :=
  ∃ es, out !! a = Some es ∧ mkIndexedEdge BlockedBy b ∈ es ∧ is_Some (ns !! b).

(** What one edge contributes to the list of causes. *)
Definition edge_cause (e : IndexedEdge) (c : string) : Prop :=
  (ie_type e = BlockedBy ∧ ∃ n, ns !! ie_to e = Some n ∧ node_type n = Error
                                ∧ c = error_desc (ie_to e) n)
  ∨ (ie_type e = WaitsOn ∧ c = wait_desc (ie_to e)).

(** The specification: a cause attached to an edge of a reachable node. *)
Definition is_root_cause (start c : string) : Prop :=
  ∃ x es e, rtc blocked_step start x ∧ out !! x = Some es ∧ e ∈ es ∧ edge_cause e c.

(** An edge has been dealt with: its cause is listed, its target visited. *)
Definition edge_done (st : dfs_state) (e : IndexedEdge) : Prop :=
  (∀ c, edge_cause e c → c ∈ st.2)
  ∧ (ie_type e = BlockedBy → is_Some (ns !! ie_to e) → ie_to e ∈ st.1).

Definition node_done (st : dfs_state) (x : string) : Prop :=
  ∀ es e, out !! x = Some es → e ∈ es → edge_done st e.

Definition st_le (st st' : dfs_state) : Prop :=
  st.1 ⊆ st'.1 ∧ ∀ c, c ∈ st.2 → c ∈ st'.2.

(** What a search from [start] guarantees between its initial and final states. *)
Record dfs_post (start : string) (st st' : dfs_state) : Prop := {
  post_le : st_le st st';
  post_new : ∀ x, x ∈ st'.1 → x ∉ st.1 → rtc blocked_step start x ∧ node_done st' x;
  post_sound : ∀ c, c ∈ st'.2 → c ∈ st.2 ∨ is_root_cause start c
}.

Global Instance st_le_preorder : PreOrder st_le.
Proof. split; [by intros st|]. intros s1 s2 s3 [??] [??]. split; [set_solver|auto]. Qed.

Lemma edge_done_mono st st' e : st_le st st' → edge_done st e → edge_done st' e.
Proof. intros [Hv Hc] [H1 H2]. split; [auto|]. intros ??. apply Hv. auto. Qed.

Lemma node_done_mono st st' x : st_le st st' → node_done st x → node_done st' x.
Proof. intros Hle H es e He Hin. eapply edge_done_mono; eauto. Qed.

Lemma is_root_cause_step a b c :
  blocked_step a b → is_root_cause b c → is_root_cause a c.
Proof.
  intros Hab (x & es & e & Hr & ?). exists x, es, e. split; [|done].
  by eapply rtc_l.
Qed.

(** One edge of node [a], given that the recursive call satisfies [dfs_post]. *)
Lemma dfs_edge_post a es e rec st st' :
  out !! a = Some es → e ∈ es →
  (∀ id s s', rec id s = Some s' → dfs_post id s s' ∧ id ∈ s'.1) →
  dfs_edge ns rec e st = Some st' →
  dfs_post a st st' ∧ edge_done st' e.
Proof.
  intros Ha He Hrec Hd. unfold dfs_edge in Hd.
  destruct (ie_type e) eqn:Et.
  - simplify_eq. split; [split; auto; [done|set_solver]|].
    split; [|congruence]. by intros c [[? _]|[? _]]; congruence.
  - simplify_eq. split; [split; simpl|].
    + split; set_solver.
    + set_solver.
    + intros c [?|Hc]%elem_of_app; [by left|right].
      apply list_elem_of_singleton in Hc as ->. exists a, es, e. split; [done|]. split; [done|]. split; [done|]. by right.
    + split; [|simpl; congruence]. intros c [[? _]|[_ ->]]; [congruence|]. set_solver.
  - destruct (ns !! ie_to e) as [n|] eqn:En.
    + assert (blocked_step a (ie_to e)) as Hab.
      { exists es. split_and!; [done| |eauto]. by destruct e; simplify_eq/=. }
      apply Hrec in Hd as [[Hle Hnew Hsound] Hin]. split; [split|].
      * etrans; [|exact Hle]. split; simpl; [done|]. case_decide; set_solver.
      * intros x Hx Hnx. destruct (Hnew x Hx Hnx) as [Hr Hdone].
        split; [by eapply rtc_l|done].
      * intros c [Hc|Hc]%Hsound; [|right; by eapply is_root_cause_step].
        simpl in Hc. case_decide as Herr; [|by left].
        apply elem_of_app in Hc as [?|Hc]; [by left|].
        apply list_elem_of_singleton in Hc as ->. right. exists a, es, e. split_and!; [done..|]. left. eauto.
      * split; [|done]. intros c [[_ (n' & Hn' & Herr & ->)]|[? _]]; [|congruence].
        simplify_eq. apply Hle. simpl. rewrite decide_True by done. set_solver.
    + simplify_eq. split; [split; auto; [done|set_solver]|].
      split; [|by rewrite En; intros _ []].
      intros c [[_ (n & ? & _)]|[? _]]; congruence.
Qed.

Lemma dfs_post_trans a s1 s2 s3 :
  dfs_post a s1 s2 → dfs_post a s2 s3 → dfs_post a s1 s3.
Proof.
  intros [L1 N1 S1] [L2 N2 S2]. split.
  - by etrans.
  - intros x Hx Hn. destruct (decide (x ∈ s2.1)) as [H2|H2]; [|by apply N2].
    destruct (N1 x H2 Hn). split; [done|]. by eapply node_done_mono.
  - intros c [?%S1|?]%S2; auto.
Qed.

Lemma dfs_edges_post a es rec l st st' :
  out !! a = Some es → (∀ e, e ∈ l → e ∈ es) →
  (∀ id s s', rec id s = Some s' → dfs_post id s s' ∧ id ∈ s'.1) →
  foldl (λ acc e, st ← acc; dfs_edge ns rec e st) (Some st) l = Some st' →
  dfs_post a st st' ∧ ∀ e, e ∈ l → edge_done st' e.
Proof.
  intros Ha Hl Hrec. revert st. induction l as [|e l IH]; intros st Hf; simpl in Hf.
  - simplify_eq. split; [split; [done|set_solver|by left]|set_solver].
  - destruct (dfs_edge ns rec e st) as [s1|] eqn:E1; simpl in Hf.
    2: { exfalso. clear -Hf. by induction l. }
    eapply dfs_edge_post in E1 as [P1 D1]; [|done|apply Hl; by left|done].
    apply IH in Hf as [P2 D2]; [|intros; apply Hl; by right].
    split; [by eapply dfs_post_trans|].
    intros e' [->|He']%elem_of_cons; [|by apply D2].
    eapply edge_done_mono; [apply P2|done].
Qed.

Lemma dfs_backward_post fuel a st st' :
  dfs_backward fuel out ns a st = Some st' → dfs_post a st st' ∧ a ∈ st'.1.
Proof.
  revert a st st'. induction fuel as [|fuel IH]; intros a st st' Hd; simpl in Hd; [done|].
  case_decide as Hv.
  { simplify_eq. split; [split; [done|done|by left]|done]. }
  destruct (out !! a) as [es|] eqn:Ea.
  - eapply dfs_edges_post in Hd as [P D]; [|done|done|exact IH].
    destruct P as [[Lv Lc] Hnew Hsound]. simpl in *.
    split; [split|set_solver]; [split; [set_solver|done]| |done].
    intros x Hx Hnx. destruct (decide (x = a)) as [->|Hne].
    + split; [done|]. intros es' e Hes' He. simplify_eq. by apply D.
    + apply Hnew; set_solver.
  - simplify_eq. split; [split|]; simpl; [split; set_solver| |by left|set_solver].
    intros x Hx Hnx. assert (x = a) as -> by set_solver.
    split; [done|]. intros es e Hes. congruence.
Qed.

(** ** Termination *)

(** The nodes a search can still expand. *)
Definition unvisited (V : gset string) : nat := size (dom out ∖ V).

Lemma dfs_backward_total fuel a st :
  unvisited st.1 < fuel → is_Some (dfs_backward fuel out ns a st).
Proof.
  revert a st. induction fuel as [|fuel IH]; intros a st Hf; [lia|]. simpl.
  case_decide as Hv; [by eexists|]. destruct (out !! a) as [es|] eqn:Ea; [|by eexists].
  set (st1 := ({[a]} ∪ st.1, st.2)).
  assert (unvisited st1.1 < fuel) as H1.
  { unfold unvisited in *. simpl.
    assert (size (dom out ∖ ({[a]} ∪ st.1)) < size (dom out ∖ st.1)); [|lia].
    apply subset_size. apply elem_of_dom_2 in Ea. set_solver. }
  clearbody st1. clear Ea Hf. revert st1 H1.
  induction es as [|e es IHes]; intros st1 H1; simpl; [by eexists|].
  assert (∃ s2, dfs_edge ns (dfs_backward fuel out ns) e st1 = Some s2
                ∧ st1.1 ⊆ s2.1) as (s2 & E2 & Hsub).
  { unfold dfs_edge. destruct (ie_type e); [by eexists|by eexists|].
    destruct (ns !! ie_to e) as [n|]; [|by eexists].
    destruct (IH (ie_to e) (st1.1, if decide (node_type n = Error)
      then st1.2 ++ [error_desc (ie_to e) n] else st1.2) H1) as [s2 E2].
    exists s2. split; [done|].
    apply dfs_backward_post in E2 as [[[Hle _] _ _] _]. done. }
  rewrite E2. simpl. apply IHes. unfold unvisited in *.
  assert (size (dom out ∖ s2.1) ≤ size (dom out ∖ st1.1)); [|lia].
  apply subseteq_size. set_solver.
Qed.

(** ** Exactness *)

Lemma dfs_backward_exact fuel a st' :
  dfs_backward fuel out ns a (∅, []) = Some st' →
  ∀ c, c ∈ st'.2 ↔ is_root_cause a c.
Proof.
  intros [[Hle Hnew Hsound] Ha]%dfs_backward_post c. split.
  - intros [Hc|?]%Hsound; [by apply elem_of_nil in Hc|done].
  - intros (x & es & e & Hr & Hes & He & Hc).
    assert (x ∈ st'.1) as Hx.
    { eapply (rtc_ind_r (R:=blocked_step) (λ x, x ∈ st'.1) a); [done| |done].
      intros y z _ (es' & Hes' & He' & Hz) Hy.
      destruct (Hnew y Hy ltac:(set_solver)) as [_ Hd].
      by apply (Hd _ _ Hes' He'). }
    destruct (Hnew x Hx ltac:(set_solver)) as [_ Hd].
    by apply (Hd _ _ Hes He).
Qed.
End dfs.

Lemma find_root_cause_by_id_spec (g : StateGraph) (node_id : string) :
  ∃ causes, find_root_cause_by_id g node_id = Some causes
    ∧ ∀ c, c ∈ causes ↔ is_root_cause (edge_out_index (store g)) (nodes g) node_id c.
Proof.
  unfold find_root_cause_by_id.
  destruct (dfs_backward_total (edge_out_index (store g)) (nodes g)
              (dfs_fuel (edge_out_index (store g))) node_id (∅, [])) as [st' Hst].
  { unfold unvisited, dfs_fuel. simpl. rewrite difference_empty_L, size_dom. lia. }
  exists st'.2. rewrite Hst. split; [done|]. by eapply dfs_backward_exact.
Qed.

(** C1 Root-cause analysis terminates on every graph and is exact: for any graph
    state (indexes and nodes arbitrary, cycles allowed) and any starting node
    the search returns, and the causes it reports are precisely those attached
    to a node reachable through [BlockedBy] edges to existing nodes, an
    [Error] target giving its description and a [WaitsOn] edge the resource
    waited for. *)
Theorem root_cause_search_exact (g : StateGraph) (node_id : string) :
  ∃ causes, find_root_cause_by_id g node_id = Some causes
    ∧ ∀ c, c ∈ causes ↔ is_root_cause (edge_out_index (store g)) (nodes g) node_id c.
Proof. apply find_root_cause_by_id_spec. Qed.
