(* ===== verification/GraphEffects.v ===== *)
(** * What the event handlers do to the graph

    The functional behaviour of the handlers of core/src/graph.rs, from the
    edges they add to what a later root-cause query reports, and the ageing of
    errors and edges that keep being reported. *)

From S2P Require Import Prelude F64 Event Signals Graph GraphInv RootCause.

Definition has_edge (g : StateGraph) (t : EdgeType) (from to : string) : Prop :=
  mkEdgeKey t from to ∈ map edge_key (edges (store g)).

Global Instance has_edge_dec g t f o : Decision (has_edge g t f o).
Proof. unfold has_edge. apply _. Defined.

Definition is_error_event (ev : Event) : Prop :=
  ev_type ev = ErrorHw ∨ ev_type ev = ErrorNet ∨ ev_type ev = TopoLinkDown.
Global Instance is_error_event_dec ev : Decision (is_error_event ev).
Proof. unfold is_error_event. apply _. Defined.

Definition event_resource (ev : Event) : string := namespace_node_id ev (ev_entity_id ev).
Definition event_error (ev : Event) : string :=
  namespace_node_id ev ("error-" +:+ ev_entity_id ev).

Lemma has_edge_elem g t from to :
  has_edge g t from to ↔
  ∃ e, e ∈ edges (store g) ∧ edge_type e = t ∧ edge_from e = from ∧ edge_to e = to.
Proof.
  unfold has_edge. rewrite list_elem_of_fmap. split.
  - intros (e & Hk & He). exists e. unfold edge_key in Hk. by simplify_eq.
  - intros (e & He & <- & <- & <-). by exists e.
Qed.

(** An edge of a well-formed graph is visible in the out-index. *)
Lemma has_edge_out g t from to :
  graph_wf g → has_edge g t from to →
  ∃ es, edge_out_index (store g) !! from = Some es ∧ mkIndexedEdge t to ∈ es.
Proof.
  intros [_ [Hst _]] (e & He & Ht & Hf & Ho)%has_edge_elem.
  rewrite Hst, rebuilt_out_lookup.
  assert (mkIndexedEdge t to ∈ out_edges (edges (store g)) from) as Hin.
  { unfold out_edges. apply list_elem_of_fmap. exists e. subst.
    split; [done|]. by apply list_elem_of_filter. }
  destruct (out_edges _ from) as [|i l]; [by apply elem_of_nil in Hin|]. eauto.
Qed.

Lemma upsert_keys st e k :
  store_wf st →
  k ∈ map edge_key (edges (upsert_edge st e).1)
  ↔ k ∈ map edge_key (edges st) ∨ k = edge_key e.
Proof.
  intros Hwf. rewrite upsert_edge_edges by done. rewrite map_app, elem_of_app.
  case_decide; simpl; [|rewrite list_elem_of_singleton; naive_solver].
  split; [intros [?|[]%elem_of_nil]; auto|]. intros [?| ->]; auto.
Qed.

Lemma foldl_upsert_keys (f : string → Edge) l st k :
  store_wf st →
  k ∈ map edge_key (edges (foldl (λ st x, (upsert_edge st (f x)).1) st l))
  ↔ k ∈ map edge_key (edges st) ∨ ∃ x, x ∈ l ∧ k = edge_key (f x).
Proof.
  revert st. induction l as [|x l IH]; intros st Hwf; simpl.
  - split; [by left|]. intros [?|(x & []%elem_of_nil & _)]; done.
  - rewrite IH by auto with ark. rewrite upsert_keys by done.
    setoid_rewrite elem_of_cons. naive_solver.
Qed.

Lemma upsert_prefix st e : store_wf st → edges st `prefix_of` edges (upsert_edge st e).1.
Proof. intros. rewrite upsert_edge_edges by done. by apply prefix_app_r. Qed.

Lemma foldl_upsert_prefix (f : string → Edge) l st :
  store_wf st →
  edges st `prefix_of` edges (foldl (λ st x, (upsert_edge st (f x)).1) st l).
Proof.
  revert st. induction l as [|x l IH]; intros st Hwf; simpl; [done|].
  etrans; [by apply upsert_prefix|apply IH; auto with ark].
Qed.

(** ** Error events *)

Lemma handle_event_error g ev :
  is_error_event ev → handle_event g ev = handle_error_event g ev.
Proof. unfold handle_event, handle_topo_event. by intros [->|[->| ->]]. Qed.

Lemma affected_pids_elem g r p :
  p ∈ affected_pids (edges (store g)) r ↔ has_edge g Consumes p r.
Proof.
  rewrite has_edge_elem. unfold affected_pids. rewrite list_elem_of_fmap.
  setoid_rewrite list_elem_of_filter. naive_solver.
Qed.

Lemma error_event_edges g ev t from to :
  graph_wf g → is_error_event ev →
  has_edge (handle_event g ev).1 t from to
  ↔ has_edge g t from to
    ∨ (t = BlockedBy ∧ to = event_error ev ∧ has_edge g Consumes from (event_resource ev)).
Proof.
  intros [_ Hst] Herr. rewrite handle_event_error by done. unfold has_edge at 1. simpl.
  rewrite (foldl_upsert_keys (λ p, mkEdge BlockedBy p (event_error ev) (ev_ts ev))) by done.
  fold (has_edge g t from to). setoid_rewrite affected_pids_elem.
  unfold edge_key. simpl. split.
  - intros [?|(p & Hp & ?)]; [by left|]. simplify_eq. by right.
  - intros [?|(-> & -> & Hp)]; [by left|]. right. by exists from.
Qed.

Lemma ensure_node_lookup id ty t m ns :
  ensure_node id ty t m ns !! id = Some (default (mkNode id ty t m) (ns !! id)).
Proof. unfold ensure_node. destruct (ns !! id) eqn:E; [done|]. by rewrite lookup_insert_eq. Qed.

Lemma ensure_node_lookup_ne id id' ty t m ns :
  id ≠ id' → ensure_node id ty t m ns !! id' = ns !! id'.
Proof. intros. unfold ensure_node. case_match; [done|]. by rewrite lookup_insert_ne. Qed.

Lemma ensure_node_is_Some id ty t m (ns : gmap string Node) i :
  is_Some (ns !! i) → is_Some (ensure_node id ty t m ns !! i).
Proof.
  intros. destruct (decide (id = i)) as [->|].
  - rewrite ensure_node_lookup. eauto.
  - by rewrite ensure_node_lookup_ne.
Qed.

Definition error_node (g : StateGraph) (ev : Event) : Node :=
  default (mkNode (event_error ev) Error (ev_ts ev) (<["error_type" := ev_value ev]> ∅))
          (nodes g !! event_error ev).

Lemma error_event_node g ev :
  is_error_event ev → nodes (handle_event g ev).1 !! event_error ev = Some (error_node g ev).
Proof. intros. rewrite handle_event_error by done. apply ensure_node_lookup. Qed.

(** An error event blocks exactly the processes that use the failing
    resource: after a hardware, network or topology error, the graph has a
    [BlockedBy] edge from a process to the error node if it had one before or
    the process consumes the resource, every other edge is as before, and the
    stored edges keep their order and timestamps. *)
Theorem error_event_blocks_consumers (evs : list Event) (ev : Event)
    (Herr : is_error_event ev) :
  let g := process_events state_graph_new evs in
  let g' := (handle_event g ev).1 in
  (∀ t from to, has_edge g' t from to
     ↔ has_edge g t from to
       ∨ (t = BlockedBy ∧ to = event_error ev
          ∧ has_edge g Consumes from (event_resource ev)))
  ∧ edges (store g) `prefix_of` edges (store g')
  ∧ nodes g' !! event_error ev = Some (error_node g ev)
  ∧ (∀ id, id ≠ event_error ev → nodes g' !! id = nodes g !! id).
Proof.
  intros g g'. pose proof (process_events_wf evs _ graph_new_wf) as Hwf. fold g in Hwf.
  unfold g'. split_and!.
  - intros. by apply error_event_edges.
  - rewrite handle_event_error by done. simpl.
    apply (foldl_upsert_prefix (λ p, mkEdge BlockedBy p (event_error ev) (ev_ts ev))), Hwf.
  - by apply error_event_node.
  - intros id Hid. rewrite handle_event_error by done. simpl.
    by rewrite ensure_node_lookup_ne.
Qed.

Lemma error_event_blocks_consumers_witness :
  let evs := [mkEvent 1000 ComputeUtil "gpu-0" None (Some 7%N) "80" None]%N in
  let ev := mkEvent 1200 ErrorHw "gpu-0" None None "XID_79" None in
  has_edge (handle_event (process_events state_graph_new evs) ev).1
    BlockedBy "pid-7" "error-gpu-0".
Proof.
  intros evs ev.
  refine (proj2 (proj1 (error_event_blocks_consumers evs ev _) BlockedBy "pid-7"
                   "error-gpu-0") _).
  - left. reflexivity.
  - right. split; [reflexivity|]. split; [reflexivity|].
    apply (bool_decide_unpack _). vm_compute. exact I.
Defined.

Lemma error_desc_found g id to n :
  graph_wf g → has_edge g BlockedBy id to → nodes g !! to = Some n → node_type n = Error →
  is_root_cause (edge_out_index (store g)) (nodes g) id (error_desc to n).
Proof.
  intros Hwf He Hn Hty. apply has_edge_out in He as (es & Hes & Hin); [|done].
  exists id, es, (mkIndexedEdge BlockedBy to). split_and!; [done..|]. left. eauto.
Qed.

Lemma wait_desc_found g id to :
  graph_wf g → has_edge g WaitsOn id to →
  is_root_cause (edge_out_index (store g)) (nodes g) id (wait_desc to).
Proof.
  intros Hwf He. apply has_edge_out in He as (es & Hes & Hin); [|done].
  exists id, es, (mkIndexedEdge WaitsOn to). split_and!; [done..|]. by right.
Qed.

(** ** From events to diagnosis *)

(** Events that are neither drops nor utilisation samples feed no signal. *)
Lemma on_event_silent eng ev :
  ev_type ev ≠ TransportDrop → ev_type ev ≠ ComputeUtil → on_event eng ev = (eng, []).
Proof.
  intros H1 H2. unfold on_event. generalize (registry eng). intros l.
  induction l as [|s l IH]; simpl; [done|].
  assert (extract_sample s ev = None) as Hs.
  { unfold extract_sample. repeat case_decide; congruence. }
  unfold on_event_spec at 2. by rewrite Hs.
Qed.

Lemma update_signals_silent g ev :
  ev_type ev ≠ TransportDrop → ev_type ev ≠ ComputeUtil → update_signals g ev = g.
Proof.
  intros. unfold update_signals. rewrite on_event_silent by done. by destruct g.
Qed.

Lemma update_signals_store g ev : store (update_signals g ev) = store g.
Proof. unfold update_signals. by repeat case_match. Qed.

(** Handlers touch neither the clocks nor the signal engine. *)
Lemma handle_event_clock g ev :
  last_cleanup_ts (handle_event g ev).1 = last_cleanup_ts g
  ∧ cleanup_interval_ms (handle_event g ev).1 = cleanup_interval_ms g
  ∧ error_window_ms (handle_event g ev).1 = error_window_ms g.
Proof.
  unfold handle_event, handle_storage_event, handle_topo_event, handle_error_event,
    handle_process_state, handle_compute_event, handle_transport_event.
  by repeat case_match.
Qed.

Lemma should_cleanup_handled g ev :
  should_cleanup (handle_event g ev).1 ev ↔ should_cleanup g ev.
Proof. unfold should_cleanup. destruct (handle_event_clock g ev) as (-> & -> & _). done. Qed.

Lemma process_event_no_cleanup g ev :
  ¬ should_cleanup g ev →
  (process_event g ev).1 = update_signals (handle_event g ev).1 ev.
Proof.
  intros Hn. rewrite process_event_eq. unfold periodic_cleanup. simpl.
  by rewrite decide_False by (by rewrite should_cleanup_handled).
Qed.

Lemma process_event_cleanup g ev :
  should_cleanup g ev →
  (process_event g ev).1 =
  update_signals (with_last_cleanup (cleanup_old_errors (handle_event g ev).1 (ev_ts ev))
                    (ev_ts ev)) ev.
Proof.
  intros Hn. rewrite process_event_eq. unfold periodic_cleanup. simpl.
  by rewrite decide_True by (by rewrite should_cleanup_handled).
Qed.

Lemma is_error_event_silent ev :
  is_error_event ev → ev_type ev ≠ TransportDrop ∧ ev_type ev ≠ ComputeUtil.
Proof. unfold is_error_event. naive_solver congruence. Qed.

(** C6 Diagnosis closes the loop for hardware faults: in any graph built from
    events, if a process consumes a resource and an error is reported on that
    resource (between two cleanups, the error node not being shadowed by a node
    of another type), then the root causes found for the process include the
    error node with its recorded error type. *)
Theorem error_is_diagnosed (evs : list Event) (ev : Event) (proc : string)
    (Herr : is_error_event ev)
    (Hdue : ¬ should_cleanup (process_events state_graph_new evs) ev)
    (Huse : has_edge (process_events state_graph_new evs) Consumes proc (event_resource ev))
    (Hty : node_type (error_node (process_events state_graph_new evs) ev) = Error) :
  let g := process_events state_graph_new evs in
  ∃ causes, find_root_cause_by_id (process_event g ev).1 proc = Some causes
    ∧ error_desc (event_error ev) (error_node g ev) ∈ causes.
Proof.
  intros g. pose proof (process_events_wf evs _ graph_new_wf) as Hwf.
  destruct (is_error_event_silent ev Herr) as [H1 H2].
  rewrite process_event_no_cleanup by done. rewrite update_signals_silent by done.
  destruct (find_root_cause_by_id_spec (handle_event g ev).1 proc) as (causes & Hc & Hex).
  exists causes. split; [done|]. apply Hex. apply error_desc_found; [by apply handle_event_wf|
    |by apply error_event_node|done].
  apply error_event_edges; auto.
Qed.

Lemma error_is_diagnosed_witness :
  let evs := [mkEvent 1000 ComputeUtil "gpu-0" None (Some 7%N) "80" None]%N in
  let ev := mkEvent 1200 ErrorHw "gpu-0" None None "XID_79" None in
  ∃ causes, find_root_cause_by_id
              (process_event (process_events state_graph_new evs) ev).1 "pid-7" = Some causes
    ∧ "error-gpu-0: XID_79" ∈ causes.
Proof.
  intros evs ev. apply (error_is_diagnosed evs ev "pid-7").
  - left. reflexivity.
  - apply (bool_decide_unpack _). vm_compute. exact I.
  - apply (bool_decide_unpack _). vm_compute. exact I.
  - vm_compute. reflexivity.
Defined.

(** ** Drops and utilisation samples *)

Lemma handle_drop_edge g ev :
  graph_wf g → ev_type ev = TransportDrop → (0 < drop_pid ev)%N →
  has_edge (handle_event g ev).1 WaitsOn (namespace_node_id ev (pid_name (drop_pid ev)))
    (namespace_node_id ev (transport_resource (ev_entity_id ev))).
Proof.
  intros [_ Hst] Hty Hp. unfold handle_event, handle_transport_event. rewrite Hty. simpl.
  rewrite decide_True by done. unfold has_edge. simpl.
  apply upsert_keys; [done|]. by right.
Qed.

(** A network drop makes its process wait: whatever the history, once a
    [transport.drop] event names a process (in its PID field or in an entity
    [network-pid-N]) and no cleanup is due, the root causes of that process
    include waiting for the network resource of the event. *)
Theorem drop_is_diagnosed (evs : list Event) (ev : Event)
    (Hty : ev_type ev = TransportDrop) (Hpid : (0 < drop_pid ev)%N)
    (Hdue : ¬ should_cleanup (process_events state_graph_new evs) ev) :
  let g := process_events state_graph_new evs in
  ∃ causes,
    find_root_cause_by_id (process_event g ev).1
      (namespace_node_id ev (pid_name (drop_pid ev))) = Some causes
    ∧ wait_desc (namespace_node_id ev (transport_resource (ev_entity_id ev))) ∈ causes.
Proof.
  intros g. pose proof (process_events_wf evs _ graph_new_wf) as Hwf.
  destruct (find_root_cause_by_id_spec (process_event g ev).1
    (namespace_node_id ev (pid_name (drop_pid ev)))) as (causes & Hc & Hex).
  exists causes. split; [done|]. apply Hex.
  apply wait_desc_found; [by apply process_event_wf|].
  rewrite process_event_no_cleanup by done. unfold has_edge. rewrite update_signals_store.
  by apply handle_drop_edge.
Qed.

Lemma drop_is_diagnosed_witness :
  let evs := [mkEvent 1000 IntentRun "job" None None "" None]%N in
  let ev := mkEvent 1200 TransportDrop "network-pid-42" None None "retransmit" (Some "node-a") in
  ∃ causes, find_root_cause_by_id
              (process_event (process_events state_graph_new evs) ev).1
              "node-a::pid-42" = Some causes
    ∧ "等待资源: node-a::network" ∈ causes.
Proof.
  intros evs ev. apply (drop_is_diagnosed evs ev).
  - reflexivity.
  - vm_compute. reflexivity.
  - apply (bool_decide_unpack _). vm_compute. exact I.
Defined.

(** ** Ageing of what keeps being reported *)

(** A repeated error is forgotten when it is reported: when an error event
    hits a resource whose error node is older than the error window and a
    cleanup is due, the error node is absent after the event, although the
    error has just been reported again.  (The handler does not refresh an
    existing error node.) *)
Theorem repeated_error_is_forgotten (g : StateGraph) (ev : Event) (n : Node)
    (Herr : is_error_event ev)
    (Hn : nodes g !! event_error ev = Some n) (Hty : node_type n = Error)
    (Hold : (last_update n < error_cutoff g (ev_ts ev))%N)
    (Hdue : should_cleanup g ev) :
  nodes (process_event g ev).1 !! event_error ev = None.
Proof.
  destruct (is_error_event_silent ev Herr) as [H1 H2].
  rewrite process_event_cleanup by done. rewrite update_signals_silent by done.
  change (nodes (with_last_cleanup ?g _)) with (nodes g).
  destruct (nodes (cleanup_old_errors _ _) !! _) as [m|] eqn:E; [|done].
  apply cleanup_nodes_lookup in E as (Hm & Hno & _). exfalso. apply Hno.
  rewrite error_event_node in Hm by done. unfold error_node in Hm. rewrite Hn in Hm.
  simplify_eq/=. split; [done|]. unfold error_cutoff in *.
  by destruct (handle_event_clock g ev) as (_ & _ & ->).
Qed.

Lemma repeated_error_is_forgotten_witness :
  let ev t := mkEvent t ErrorHw "gpu-0" None None "XID_79" None in
  nodes (process_event (process_events state_graph_new [ev 1000; ev 200000]%N) (ev 400000%N)).1
    !! "error-gpu-0" = None.
Proof.
  intros ev.
  refine (repeated_error_is_forgotten
    (process_events state_graph_new [ev 1000; ev 200000]%N) (ev 400000%N)
    (mkNode "error-gpu-0" Error 1000 (<["error_type" := "XID_79"]> ∅)) _ _ _ _ _).
  - left. reflexivity.
  - vm_compute. reflexivity.
  - reflexivity.
  - vm_compute. reflexivity.
  - apply (bool_decide_unpack _). vm_compute. exact I.
Defined.

(** A consumption that keeps being observed loses its edge: when a utilisation
    sample arrives for a process and a resource whose [Consumes] edge is older
    than the edge TTL and a cleanup is due, the edge is absent after the event,
    although the consumption has just been observed again.  ([upsert_edge] does
    not refresh the timestamp of a known edge.) *)
Theorem observed_edge_expires (g : StateGraph) (ev : Event) (p : N) (e : Edge)
    (Hwf : graph_wf g)
    (Hty : ev_type ev = ComputeUtil ∨ ev_type ev = ComputeMem)
    (Hpid : ev_pid ev = Some p)
    (He : e ∈ edges (store g))
    (Hkey : edge_key e = mkEdgeKey Consumes (namespace_node_id ev (pid_name p))
                           (event_resource ev))
    (Hold : (edge_ts e < saturating_sub (ev_ts ev) EDGE_TTL_MS)%N)
    (Hdue : should_cleanup g ev) :
  ¬ has_edge (process_event g ev).1 Consumes (namespace_node_id ev (pid_name p))
      (event_resource ev).
Proof.
  rewrite process_event_cleanup by done. unfold has_edge. rewrite update_signals_store.
  change (store (with_last_cleanup ?g _)) with (store g).
  assert (edges (store (handle_event g ev).1) = edges (store g)) as Hst.
  { assert (handle_event g ev = handle_compute_event g ev) as ->
      by (unfold handle_event; by destruct Hty as [->| ->]).
    unfold handle_compute_event. rewrite Hpid. simpl.
    rewrite upsert_edge_known; [done|apply Hwf|].
    apply list_elem_of_fmap. exists e. by rewrite Hkey. }
  intros (e' & Hk & He')%list_elem_of_fmap.
  apply cleanup_edges_live in He' as [He' (_ & _ & _ & Hlive)]. rewrite Hst in He'.
  assert (e' = e) as ->; [|lia].
  eapply (NoDup_map_inj edge_key); [apply Hwf|done|done|]. by rewrite <-Hk.
Qed.

Lemma observed_edge_expires_witness :
  let ev t := mkEvent t ComputeUtil "gpu-0" None (Some 7%N) "80" None in
  ¬ has_edge (process_event (process_events state_graph_new [ev 1000]%N) (ev 3700000%N)).1
      Consumes "pid-7" "gpu-0".
Proof.
  intros ev.
  refine (observed_edge_expires (process_events state_graph_new [ev 1000]%N) (ev 3700000%N)
    7 (mkEdge Consumes "pid-7" "gpu-0" 1000) _ _ _ _ _ _ _).
  - apply process_events_wf, graph_new_wf.
  - left. reflexivity.
  - reflexivity.
  - apply (bool_decide_unpack _). vm_compute. exact I.
  - reflexivity.
  - vm_compute. reflexivity.
  - apply (bool_decide_unpack _). vm_compute. exact I.
Defined.
