(* ===== verification/Generators.v ===== *)
(** * Made-up events (core/src/event.rs [dummy_probe], agent/src/probe/,
    core/src/bin/graph-stress.rs)

    The three producers that make their events themselves: the probe the daemon
    falls back to, the placeholders of the native probes, and the load generator.
    The draws of the random generator and the clock are given.  The theorems:
    what reaches the channel before it closes and how the producers end; the
    process ids they use; and on which arguments the load generator runs to its
    end. *)

From S2P Require Import Prelude Text Event Signals Graph GraphInv.

(** ** Sending into a channel *)

(** [accepts] is the number of events taken before the receiver goes away
    ([None]: it stays).  The events sent, what is left of the count, and whether
    a send failed. *)
Fixpoint send_all (evs : list Event) (accepts : option nat) : list Event * option nat * bool :=
  match evs with
  | [] => ([], accepts, false)
  | e :: evs' =>
      match accepts with
      | Some 0 => ([], accepts, true)
      | Some (S n) => let '(sent, rest, failed) := send_all evs' (Some n) in (e :: sent, rest, failed)
      | None => let '(sent, rest, failed) := send_all evs' None in (e :: sent, rest, failed)
      end
  end.

(** ** The fallback probe *)

(** The draws for one event: [gen_bool] and the ranges of each branch. *)
Inductive Draw := DrawUtil (gpu util offset : N) | DrawStart (job : N).

Definition draw_ok (d : Draw) : Prop :=
  match d with
  | DrawUtil gpu util offset => (gpu ≤ 7 ∧ util ≤ 100 ∧ offset ≤ 10)%N
  | DrawStart job => (1000 ≤ job ≤ 9999)%N
  end.

(** [{:02}] *)
Definition pad2 (n : N) : string := if decide (n < 10)%N then "0" +:+ pretty n else pretty n.

(** [pid_counter] is a [u32]. *)
Definition dummy_event (now pid_counter : N) (d : Draw) : Event * N :=
  match d with
  | DrawUtil gpu util offset =>
      (event_new now ComputeUtil ("gpu-" +:+ pad2 gpu) (pretty util) None
         (Some ((pid_counter + offset) mod 2 ^ 32)%N), pid_counter)
  | DrawStart job =>
      let pid_counter := ((pid_counter + 1) mod 2 ^ 32)%N in
      (event_new now ProcessState ("proc-" +:+ pretty pid_counter) "start"
         (Some ("job-" +:+ pretty job)) (Some pid_counter), pid_counter)
  end.

(** One round, an event for each draw; a failed send ends the probe. *)
Fixpoint dummy_round (pid_counter : N) (accepts : option nat) (draws : list (N * Draw))
  : list Event * option (N * option nat) :=
  match draws with
  | [] => ([], Some (pid_counter, accepts))
  | (now, d) :: draws' =>
      let '(event, pid_counter) := dummy_event now pid_counter d in
      match accepts with
      | Some 0 => ([], None)
      | _ =>
          let '(sent, r) := dummy_round pid_counter (Nat.pred <$> accepts) draws' in (event :: sent, r)
      end
  end.

(** The rounds so far: the events sent, and the error when the probe has ended. *)
Fixpoint dummy_rounds (pid_counter : N) (accepts : option nat) (rounds : list (list (N * Draw)))
  : list Event * option string :=
  match rounds with
  | [] => ([], None)
  | draws :: rounds' =>
      match dummy_round pid_counter accepts draws with
      | (sent, None) => (sent, Some "channel closed")
      | (sent, Some (pid_counter, accepts)) =>
          let '(sent', r) := dummy_rounds pid_counter accepts rounds' in (sent ++ sent', r)
      end
  end.
Definition dummy_probe : option nat → list (list (N * Draw)) → list Event * option string :=
  dummy_rounds 1000.

(** ** The native probes *)

Inductive ProbeType := Nvml | Cann.
Definition probe_name (t : ProbeType) : string :=
  match t with Nvml => "nvml-native" | Cann => "cann-native" end.
Definition native_entity (t : ProbeType) : string := match t with Nvml => "gpu-0" | Cann => "npu-0" end.

Definition native_event (t : ProbeType) (now : N) : Event :=
  mkEvent (now mod 2 ^ 64) ComputeUtil (native_entity t) None None "0" None.

(** The ticks so far. *)
Definition native_probe (t : ProbeType) (accepts : option nat) (ticks : list N)
  : list Event * option string :=
  let '(sent, _, failed) := send_all (map (native_event t) ticks) accepts in
  (sent, if failed then Some "发送事件失败（通道已关闭）: channel closed" else None).

Definition start_nvml_probe : option nat → list N → list Event * option string := native_probe Nvml.
Definition start_cann_probe : option nat → list N → list Event * option string := native_probe Cann.
Definition native_start_stream (t : ProbeType) : option nat → list N → list Event * option string :=
  match t with Nvml => start_nvml_probe | Cann => start_cann_probe end.

(** ** The load generator *)

Record StressArgs := mkStressArgs { st_events : N; st_resources : N; st_pids : N }.
Definition stress_defaults : StressArgs := mkStressArgs 100000 8 1024.

(** The loop over the arguments; [None] is the usage text. *)
Fixpoint stress_args (a : StressArgs) (args : list string) : option StressArgs :=
  match args with
  | [] => Some a
  | arg :: rest =>
      if decide (arg = "--events") then
        match rest with
        | v :: rest' => stress_args (mkStressArgs (default (st_events a) (parse_u64 v)) (st_resources a) (st_pids a)) rest'
        | [] => Some a
        end
      else if decide (arg = "--resources") then
        match rest with
        | v :: rest' => stress_args (mkStressArgs (st_events a) (default (st_resources a) (parse_u64 v)) (st_pids a)) rest'
        | [] => Some a
        end
      else if decide (arg = "--pids") then
        match rest with
        | v :: rest' => stress_args (mkStressArgs (st_events a) (st_resources a) (default (st_pids a) (parse_u64 v))) rest'
        | [] => Some a
        end
      else if decide (arg ∈ ["--help"; "-h"]) then None
      else stress_args a rest
  end.

(** The event of step [n]; [None] is the panic of a remainder by zero. *)
Definition stress_event (a : StressArgs) (base_ts n : N) : option Event :=
  if decide (st_pids a = 0%N ∨ st_resources a = 0%N) then None
  else
    Some (mkEvent (base_ts + n)
            (if decide (n mod 10 = 0)%N then TransportDrop else ComputeUtil)
            ("gpu-" +:+ pretty (n mod st_resources a)%N) (Some ("job-" +:+ pretty (n mod 64)%N))
            (Some ((1000 + n mod st_pids a) mod 2 ^ 32)%N) (pretty (n mod 100)%N)
            (Some ("node-" +:+ pretty (n mod 16)%N))).

Inductive StressEnd := Usage | Panicked (g : StateGraph) | Failed (e : string) | Finished (g : StateGraph).

Fixpoint stress_loop (a : StressArgs) (base_ts : N) (g : StateGraph) (n : N) (todo : nat) : StressEnd :=
  match todo with
  | 0 => Finished g
  | S todo' =>
      match stress_event a base_ts n with
      | None => Panicked g
      | Some event =>
          match process_event g event with
          | (g', Ok _) => stress_loop a base_ts g' (n + 1) todo'
          | (_, Err e) => Failed e
          end
      end
  end.

Definition graph_stress (base_ts : N) (args : list string) : StressEnd :=
  match stress_args stress_defaults args with
  | None => Usage
  | Some a => stress_loop a base_ts state_graph_new 0 (N.to_nat (st_events a))
  end.

(** The counts printed at the end. *)
Definition stress_lines (events : N) (g : StateGraph) : list string :=
  let m := metrics_snapshot g in
  ["graph_stress.events=" +:+ pretty events; "graph_stress.nodes_total=" +:+ pretty (nodes_total m);
   "graph_stress.edges_total=" +:+ pretty (edges_total m)]
  ++ map (λ tc, "graph_stress.edges_by_type." +:+ tc.1 +:+ "=" +:+ pretty tc.2) (map_to_list (edges_by_type m)).

(** ** What is sent *)

Lemma send_all_spec evs accepts :
  let '(sent, _, failed) := send_all evs accepts in
  sent = (if accepts is Some n then take n evs else evs)
  ∧ failed = (if accepts is Some n then bool_decide (n < length evs) else false).
Proof.
  revert accepts. induction evs as [|e evs IH]; intros [[|n]|]; simpl; try done.
  - specialize (IH (Some n)). destruct (send_all evs (Some n)) as [[sent rest] failed].
    destruct IH as [-> ->]. split; [done|]. apply bool_decide_ext. lia.
  - specialize (IH None). destruct (send_all evs None) as [[sent rest] failed].
    destruct IH as [-> ->]. done.
Qed.

(** The events of a run of draws, and the counter after them. *)
Fixpoint dummy_events (pid_counter : N) (draws : list (N * Draw)) : list Event * N :=
  match draws with
  | [] => ([], pid_counter)
  | (now, d) :: draws' =>
      let '(event, c) := dummy_event now pid_counter d in
      let '(evs, c') := dummy_events c draws' in (event :: evs, c')
  end.

Lemma dummy_events_app c d1 d2 :
  dummy_events c (d1 ++ d2)
  = (let '(e1, c1) := dummy_events c d1 in let '(e2, c2) := dummy_events c1 d2 in (e1 ++ e2, c2)).
Proof.
  revert c. induction d1 as [|[now d] d1 IH]; intros c; simpl.
  { by destruct (dummy_events c d2). }
  destruct (dummy_event now c d) as [e c']. rewrite IH. destruct (dummy_events c' d1) as [e1 c1].
  by destruct (dummy_events c1 d2).
Qed.

Lemma dummy_events_length c ds : length (dummy_events c ds).1 = length ds.
Proof.
  revert c. induction ds as [|[now d] ds IH]; intros c; simpl; [done|].
  destruct (dummy_event now c d) as [e c']. specialize (IH c').
  destruct (dummy_events c' ds). simpl in *. by rewrite IH.
Qed.

Lemma dummy_round_spec c accepts ds :
  let '(evs, c') := dummy_events c ds in
  dummy_round c accepts ds =
    match accepts with
    | None => (evs, Some (c', None))
    | Some n => (take n evs, if decide (n < length ds) then None else Some (c', Some (n - length ds)))
    end.
Proof.
  revert c accepts. induction ds as [|[now d] ds IH]; intros c accepts; simpl.
  { destruct accepts as [n|]; [|done]. by rewrite Nat.sub_0_r, take_nil. }
  destruct (dummy_event now c d) as [e c1]. specialize (IH c1 (Nat.pred <$> accepts)).
  destruct (dummy_events c1 ds) as [evs c']. destruct accepts as [[|n]|]; simpl in *.
  - done.
  - rewrite IH. f_equal. repeat case_decide; done || lia.
  - by rewrite IH.
Qed.

(** The fallback probe sends the events of its draws, in order, until the channel
    is closed, and then ends with an error; it never ends otherwise. *)
Theorem dummy_probe_sends_its_draws accepts rounds :
  let evs := (dummy_events 1000 (concat rounds)).1 in
  dummy_probe accepts rounds
  = match accepts with
    | None => (evs, None)
    | Some n => (take n evs, if decide (n < length evs) then Some "channel closed" else None)
    end.
Proof.
  cbn zeta. rewrite dummy_events_length. unfold dummy_probe. generalize 1000%N as c.
  revert accepts. induction rounds as [|ds rounds IH]; intros accepts c; simpl.
  { destruct accepts; [|done]. by rewrite take_nil. }
  pose proof (dummy_round_spec c accepts ds) as Hr. rewrite dummy_events_app, length_app.
  pose proof (dummy_events_length c ds) as Hlen.
  destruct (dummy_events c ds) as [evs c1]. simpl in Hlen. rewrite Hr.
  destruct accepts as [n|]; [destruct (decide (n < length ds)) as [Hn|Hn]|].
  - destruct (dummy_events c1 (concat rounds)) as [evs' c2]. simpl.
    rewrite take_app_le by lia. case_decide; [done|lia].
  - specialize (IH (Some (n - length ds)) c1). rewrite IH.
    destruct (dummy_events c1 (concat rounds)) as [evs' c2]. simpl.
    rewrite take_app, (take_ge evs), Hlen by lia. f_equal.
    repeat case_decide; done || lia.
  - specialize (IH None c1). rewrite IH. by destruct (dummy_events c1 (concat rounds)).
Qed.

(** The processes it starts get the process ids 1001, 1002, ... in order, each
    once; readings are for one of the eleven ids from the last one started. *)
Definition started (evs : list Event) : list (option N) :=
  map ev_pid (filter (λ e, ev_type e = ProcessState) evs).

Lemma dummy_pids ds c :
  (c + N.of_nat (length ds) < 2 ^ 32)%N →
  started (dummy_events c ds).1
  = map (λ i, Some (c + 1 + N.of_nat i)%N) (seq 0 (length (started (dummy_events c ds).1))).
Proof.
  unfold started. rewrite length_map. revert c. induction ds as [|[now d] ds IH]; intros c Hc; [done|].
  cbn [length] in Hc. cbn [dummy_events]. destruct d as [gpu util off|job]; cbn [dummy_event].
  - specialize (IH c ltac:(lia)). destruct (dummy_events c ds) as [evs c']. exact IH.
  - rewrite N.mod_small by lia. specialize (IH (c + 1)%N ltac:(lia)).
    destruct (dummy_events (c + 1) ds) as [evs c']. cbn [fst] in *.
    rewrite filter_cons_True by done. cbn [map length seq ev_pid event_new]. rewrite IH at 1.
    f_equal; [by rewrite N.add_0_r|]. rewrite <-seq_shift, map_map. apply map_ext. intros i. f_equal. lia.
Qed.

Theorem dummy_probe_counts_up rounds
  (Hshort : (1000 + N.of_nat (length (concat rounds)) < 2 ^ 32)%N) :
  started (dummy_probe None rounds).1
  = map (λ i, Some (1001 + N.of_nat i)%N) (seq 0 (length (started (dummy_probe None rounds).1))).
Proof. rewrite dummy_probe_sends_its_draws. by apply dummy_pids. Qed.

(** The native probes report an idle device at every tick, whatever is there,
    until the channel is closed. *)
Theorem native_probe_is_constant t accepts ticks :
  let n := if accepts is Some n then n else length ticks in
  native_start_stream t accepts ticks
  = (map (native_event t) (take n ticks),
     if decide (n < length ticks) then Some "发送事件失败（通道已关闭）: channel closed" else None).
Proof.
  cbn zeta. transitivity (native_probe t accepts ticks); [by destruct t|].
  unfold native_probe. pose proof (send_all_spec (map (native_event t) ticks) accepts) as H.
  destruct (send_all _ accepts) as [[sent rest] failed]. destruct H as [-> ->].
  destruct accepts as [n|].
  - rewrite length_map, <-fmap_take. case_bool_decide; case_decide; done || lia.
  - rewrite take_ge by lia. case_decide; done || lia.
Qed.

(** The events of the load, in order. *)
Definition stress_events (a : StressArgs) (base_ts : N) (from todo : nat) : list Event :=
  omap (λ i, stress_event a base_ts (N.of_nat i)) (seq from todo).

Lemma stress_loop_ok a base_ts todo from g :
  st_pids a ≠ 0%N → st_resources a ≠ 0%N →
  stress_loop a base_ts g (N.of_nat from) todo
  = Finished (process_events g (stress_events a base_ts from todo)).
Proof.
  intros Hp Hr. revert from g. induction todo as [|todo IH]; intros from g; [done|].
  unfold stress_events. cbn [stress_loop seq].
  assert (∃ e, stress_event a base_ts (N.of_nat from) = Some e) as [e He].
  { unfold stress_event. rewrite decide_False by tauto. by eexists. }
  change (omap ?f (from :: ?l)) with (match f from with Some y => y :: omap f l | None => omap f l end).
  rewrite He, process_event_eq.
  replace (N.of_nat from + 1)%N with (N.of_nat (S from)) by lia. rewrite IH.
  unfold process_events, stress_events. cbn beta. rewrite He. cbn [foldl]. by rewrite process_event_eq.
Qed.

(** The load generator runs to its end exactly when it has nothing to do or
    there is at least one process and one resource to use: then the graph is the
    one of its events, and well-formed.  Otherwise it panics on the first event. *)
Theorem stress_ends_exactly base_ts args :
  graph_stress base_ts args
  = match stress_args stress_defaults args with
    | None => Usage
    | Some a =>
        if decide (st_events a = 0%N ∨ (st_pids a ≠ 0%N ∧ st_resources a ≠ 0%N))
        then Finished (process_events state_graph_new (stress_events a base_ts 0 (N.to_nat (st_events a))))
        else Panicked state_graph_new
    end
  ∧ ∀ g, graph_stress base_ts args = Finished g → graph_wf g.
Proof.
  assert (graph_stress base_ts args
  = match stress_args stress_defaults args with
    | None => Usage
    | Some a =>
        if decide (st_events a = 0%N ∨ (st_pids a ≠ 0%N ∧ st_resources a ≠ 0%N))
        then Finished (process_events state_graph_new (stress_events a base_ts 0 (N.to_nat (st_events a))))
        else Panicked state_graph_new
    end) as E.
  { unfold graph_stress. destruct (stress_args _ args) as [a|]; [|done]. case_decide as Hd.
    - destruct Hd as [->|[Hp Hr]]; [done|]. apply (stress_loop_ok a base_ts _ 0); done.
    - destruct (N.to_nat (st_events a)) eqn:En; [lia|]. cbn [stress_loop]. unfold stress_event.
      by rewrite decide_True by lia. }
  split; [done|]. intros g Hg. rewrite E in Hg. destruct (stress_args _ args); [|done].
  case_decide; [|done]. injection Hg as <-. apply process_events_wf, graph_new_wf.
Qed.

Lemma dummy_probe_counts_up_witness :
  started (dummy_probe None [[(0, DrawStart 1234)%N]; [(1, DrawUtil 3 50 2)%N; (1, DrawStart 1235)%N]]).1
  = [Some 1001; Some 1002]%N.
Proof.
  rewrite (dummy_probe_counts_up [[(0, DrawStart 1234)%N]; [(1, DrawUtil 3 50 2)%N; (1, DrawStart 1235)%N]]
             ltac:(vm_compute; reflexivity)).
  vm_compute. reflexivity.
Defined.
