(* ===== verification/GraphTasks.v ===== *)
(** * Concurrent event processing (core/src/graph.rs, [process_event])

    The hub runs one task per connection and all of them call [process_event]
    on the same graph.  The method is not atomic: it releases its locks between
    the handler, the decision to clean up, the computation of the cleanup sets,
    their removal, the update of the clock, and the two parts of
    [update_signals].  Here each such critical section is one step of a task,
    and tasks interleave arbitrarily. *)

From S2P Require Import Prelude F64 Event Signals Graph GraphInv.

(** Where a task processing an event stands, with its local variables. *)
Inductive task :=
| THandle (ev : Event)                                   (** before the handler *)
| TDecide (ev : Event)                                   (** reads [last_cleanup_ts] *)
| TScan (ev : Event)                                     (** [cleanup_old_errors], read lock *)
| TSweep (ev : Event) (targets : gset string * gset string) (** its write locks *)
| TStamp (ev : Event)                                    (** writes [last_cleanup_ts] *)
| TSignal (ev : Event)                                   (** [signals.write()] *)
| TPublish (points : list SignalPoint)                   (** [nodes.write()] *)
| TDone.

Definition task_step (g : StateGraph) (t : task) : option (StateGraph * task) :=
  match t with
  | THandle ev => Some ((handle_event g ev).1, TDecide ev)
  | TDecide ev => Some (g, if decide (should_cleanup g ev) then TScan ev else TSignal ev)
  | TScan ev => Some (g, TSweep ev (cleanup_targets g (ev_ts ev)))
  | TSweep ev targets => Some (cleanup_apply g targets (ev_ts ev), TStamp ev)
  | TStamp ev => Some (with_last_cleanup g (ev_ts ev), TSignal ev)
  | TSignal ev =>
      let '(engine, points) := on_event (signals g) ev in
      Some (with_signals g engine,
            match points with [] => TDone | _ => TPublish points end)
  | TPublish points => Some (with_nodes g (insert_points points (nodes g)), TDone)
  | TDone => None
  end.

(** The hub: a shared graph and the tasks in flight. *)
Abbreviation hub := (StateGraph * list task)%type.

Inductive hub_step : hub → hub → Prop :=
| hub_run g g' ts i t t' :
    ts !! i = Some t → task_step g t = Some (g', t') →
    hub_step (g, ts) (g', <[i := t']> ts)
| hub_spawn g ts ev :
    hub_step (g, ts) (g, ts ++ [THandle ev]).

(** The hub with no task in flight and an empty graph. *)
Definition hub_init : hub := (state_graph_new, []).

(** ** One task alone is [process_event] *)

Fixpoint run_task (fuel : nat) (g : StateGraph) (t : task) : StateGraph * task :=
  match fuel with
  | 0 => (g, t)
  | S fuel' => match task_step g t with
               | Some (g', t') => run_task fuel' g' t'
               | None => (g, t)
               end
  end.

Lemma run_task_process_event g ev :
  run_task 7 g (THandle ev) = ((process_event g ev).1, TDone).
Proof.
  rewrite process_event_eq. unfold periodic_cleanup, update_signals. simpl.
  set (g1 := (handle_event g ev).1). clearbody g1.
  case_decide; simpl;
    match goal with |- context [on_event ?s ev] => destruct (on_event s ev) as [eng pts] end;
    by destruct pts.
Qed.

(** ** Invariants under every interleaving *)

Lemma task_step_wf g t g' t' :
  graph_wf g → task_step g t = Some (g', t') → graph_wf g'.
Proof.
  intros Hg Hstep. destruct t; simpl in Hstep; try (simplify_eq; by eauto with ark).
  destruct (on_event _ _) as [eng pts]. simplify_eq. eauto with ark.
Qed.

Lemma hub_step_wf h h' : graph_wf h.1 → hub_step h h' → graph_wf h'.1.
Proof. intros Hg Hs. destruct Hs; simpl in *; [by eapply task_step_wf|done]. Qed.

Lemma hub_reachable_wf h h' : rtc hub_step h h' → graph_wf h.1 → graph_wf h'.1.
Proof. induction 1; eauto using hub_step_wf. Qed.

(** C9 The graph stays well formed under every interleaving of any number of
    concurrent [process_event] calls: indexes consistent with the edge list, no
    duplicate edge, nodes under their own ids, whatever the scheduling. *)
Theorem concurrent_graph_wf (h : hub) (Hreach : rtc hub_step hub_init h) :
  graph_wf h.1.
Proof. eapply hub_reachable_wf; [exact Hreach|]. apply graph_new_wf. Qed.

(** A schedule as a list of task indices. *)
Fixpoint run_schedule (h : hub) (sched : list nat) : hub :=
  match sched with
  | [] => h
  | i :: sched' =>
      match h.2 !! i with
      | Some t => match task_step h.1 t with
                  | Some (g', t') => run_schedule (g', <[i := t']> h.2) sched'
                  | None => run_schedule h sched'
                  end
      | None => run_schedule h sched'
      end
  end.

Lemma run_schedule_steps sched h : rtc hub_step h (run_schedule h sched).
Proof.
  revert h. induction sched as [|i sched IH]; intros [g ts]; simpl; [done|].
  destruct (ts !! i) as [t|] eqn:Ei; [|apply IH].
  destruct (task_step g t) as [[g' t']|] eqn:Es; [|apply IH].
  eapply rtc_l; [|apply IH]. by econstructor.
Qed.

Lemma spawn_steps evs h : rtc hub_step h (h.1, h.2 ++ map THandle evs).
Proof.
  revert h. induction evs as [|e evs IH]; intros [g ts]; simpl; [by rewrite app_nil_r|].
  eapply rtc_l; [constructor|]. specialize (IH (g, ts ++ [THandle e])).
  simpl in IH. by rewrite <-app_assoc in IH.
Qed.

Definition util_event (t : N) : Event :=
  mkEvent t ComputeUtil "gpu-0" None (Some 7%N) "80" None.

Lemma concurrent_graph_wf_witness :
  graph_wf (run_schedule (state_graph_new, [THandle (util_event 1000); THandle (util_event 2000)])
              [0; 1; 1; 0; 0; 1; 1; 0; 1; 0; 1; 0; 0; 1]).1.
Proof.
  refine (concurrent_graph_wf _ _).
  etransitivity; [|apply run_schedule_steps].
  exact (spawn_steps [util_event 1000; util_event 2000] hub_init).
Defined.

(** ** A lost restart *)

Definition exit_ev := mkEvent 1000 ProcessState "p" None (Some 7%N) "exit" None.
Definition start_ev := mkEvent 40000 ProcessState "p" (Some "job-2") (Some 7%N) "start" None.
Definition tick_ev := mkEvent 40001 IntentRun "j" None None "" None.

(** The graph just after process 7 has exited. *)
Definition exited_graph : StateGraph :=
  process_events state_graph_new
    [mkEvent 500 ProcessState "p" (Some "job-1") (Some 7%N) "start" None; exit_ev].

(** Interleaving can lose a restarted process: there is a schedule of a
    [start] event and an unrelated event in which both calls complete and the
    restarted process is missing, while in both serial orders it is present.
    (The cleanup sets are computed under a read lock that is released before
    the removals, and the removals do not look at the nodes again.) *)
Theorem restart_can_be_lost :
  (∃ g, rtc hub_step (exited_graph, [THandle start_ev; THandle tick_ev]) (g, [TDone; TDone])
        ∧ nodes g !! "pid-7" = None)
  ∧ is_Some (nodes (process_events exited_graph [start_ev; tick_ev]) !! "pid-7")
  ∧ is_Some (nodes (process_events exited_graph [tick_ev; start_ev]) !! "pid-7").
Proof.
  split; [|by split; vm_compute; eexists].
  pose (h := run_schedule (exited_graph, [THandle start_ev; THandle tick_ev])
               [1; 1; 1; 0; 1; 1; 1; 0; 0]).
  exists h.1. split; [|vm_compute; reflexivity].
  replace (h.1, [TDone; TDone]) with h; [apply run_schedule_steps|].
  vm_compute. reflexivity.
Qed.
