(* ===== verification/GraphLocks.v ===== *)
(** * Locking discipline of the state graph (core/src/graph.rs)

    The graph is guarded by six [RwLock]s.  Each method is abstracted to the
    sequence of lock acquisitions its body performs, in program order, with a
    release of everything at the end of each guard scope.  Every method but one
    acquires in the order nodes, edges, edge_index, edge_out_index and cannot
    deadlock with its likes; [find_root_cause_by_id] takes [edge_out_index]
    before [nodes] and can. *)

From S2P Require Import Prelude Event.

Inductive lock := LNodes | LEdges | LEdgeIndex | LEdgeOutIndex | LSignals | LLastCleanup.
Inductive mode := R | W.

Global Instance lock_eq_dec : EqDecision lock.
Proof. solve_decision. Defined.
Global Instance mode_eq_dec : EqDecision mode.
Proof. solve_decision. Defined.

Inductive instr := Acquire (l : lock) (m : mode) | ReleaseAll.
Abbreviation program := (list instr).

(** ** The lock programs of the methods *)

Definition graph_write_locks : program :=
  [Acquire LNodes W; Acquire LEdges W; Acquire LEdgeIndex W; Acquire LEdgeOutIndex W;
   ReleaseAll].

Definition handler_locks (t : EventType) : program :=
  match t with
  | ProcessState => [Acquire LNodes W; ReleaseAll]
  | ComputeUtil | ComputeMem | TransportBw | TransportDrop
  | StorageIops | StorageQDepth | ErrorHw | ErrorNet | TopoLinkDown => graph_write_locks
  | IntentRun | ActionExec => []
  end.

Definition cleanup_locks : program :=
  [Acquire LNodes R; ReleaseAll] ++ graph_write_locks ++ [Acquire LLastCleanup W; ReleaseAll].

Definition update_signals_locks (has_points : bool) : program :=
  [Acquire LSignals W; ReleaseAll] ++
  (if has_points then [Acquire LNodes W; ReleaseAll] else []).

(** A [handle_process_state] without PID takes no lock; [lockless] says so. *)
Definition process_event_locks (t : EventType) (lockless cleanup has_points : bool) : program :=
  (if lockless then [] else handler_locks t)
  ++ [Acquire LLastCleanup R; ReleaseAll]
  ++ (if cleanup then cleanup_locks else [])
  ++ update_signals_locks has_points.

Definition metrics_snapshot_locks : program :=
  [Acquire LNodes R; Acquire LEdges R; ReleaseAll].
Definition get_active_processes_locks : program := [Acquire LNodes R; ReleaseAll].
Definition get_process_resources_locks : program := [Acquire LEdgeOutIndex R; ReleaseAll].
Definition find_root_cause_by_id_locks : program :=
  [Acquire LEdgeOutIndex R; Acquire LNodes R; ReleaseAll].
Definition get_all_edges_async_locks : program := [Acquire LEdges R; ReleaseAll].
Definition get_nodes_async_locks : program := [Acquire LNodes R; ReleaseAll].

(** ** Execution of tasks over the locks *)

Record thread := mkThread { prog : program; held : list (lock * mode) }.

Definition compatible (m m' : mode) : Prop := m = R ∧ m' = R.
Global Instance compatible_dec m m' : Decision (compatible m m').
Proof. unfold compatible. apply _. Defined.

(** No other task holds the lock in a conflicting mode. *)
Definition grantable (ts : list thread) (i : nat) (l : lock) (m : mode) : Prop :=
  ∀ j th m', j ≠ i → ts !! j = Some th → (l, m') ∈ held th → compatible m m'.

(** A task steps when its next acquisition can be granted; [tokio]'s locks are
    not re-entrant, so it must not hold the lock already. *)
Inductive lock_step : list thread → list thread → Prop :=
| step_acquire ts i l m p h :
    ts !! i = Some (mkThread (Acquire l m :: p) h) →
    (∀ m', (l, m') ∉ h) → grantable ts i l m →
    lock_step ts (<[i := mkThread p ((l, m) :: h)]> ts)
| step_release ts i p h :
    ts !! i = Some (mkThread (ReleaseAll :: p) h) →
    lock_step ts (<[i := mkThread p []]> ts).

Definition start (ps : list program) : list thread := map (λ p, mkThread p []) ps.

Definition finished (ts : list thread) : Prop := ∀ th, th ∈ ts → prog th = [].

(** Tasks wait for each other forever: not finished, and no step is possible. *)
Definition deadlocked (ts : list thread) : Prop :=
  ¬ finished ts ∧ ∀ ts', ¬ lock_step ts ts'.

(** ** The ordering discipline *)

Definition rank (l : lock) : nat :=
  match l with
  | LNodes => 0
  | LEdges => 1
  | LEdgeIndex => 2
  | LEdgeOutIndex => 3
  | LSignals => 4
  | LLastCleanup => 5
  end.

(** Every acquisition is above all the locks held, and the program ends with
    nothing held. *)
Fixpoint ordered (p : program) (h : list lock) : bool :=
  match p with
  | [] => bool_decide (h = [])
  | Acquire l _ :: p' => forallb (λ l', rank l' <? rank l) h && ordered p' (l :: h)
  | ReleaseAll :: p' => ordered p' []
  end.

Definition thread_ok (th : thread) : Prop := ordered (prog th) (map fst (held th)) = true.

Lemma thread_ok_acquire l m p h :
  thread_ok (mkThread (Acquire l m :: p) h) →
  (∀ l' m', (l', m') ∈ h → rank l' < rank l) ∧ thread_ok (mkThread p ((l, m) :: h)).
Proof.
  unfold thread_ok. simpl. intros [Hall Hrest]%andb_true_iff. split; [|done].
  intros l' m' Hin. rewrite forallb_forall in Hall. apply Nat.ltb_lt, Hall.
  apply list_elem_of_In, list_elem_of_fmap. by exists (l', m').
Qed.

Lemma lock_step_ok ts ts' :
  lock_step ts ts' → (∀ th, th ∈ ts → thread_ok th) → ∀ th, th ∈ ts' → thread_ok th.
Proof.
  intros Hs Hok th Hin. destruct Hs as [ts i l m p h Hi _ _|ts i p h Hi];
    apply list_elem_of_lookup_2 in Hi as Hi'; apply Hok in Hi';
    apply list_elem_of_lookup in Hin as (j & Hj);
    (destruct (decide (i = j)) as [->|Hne];
      [rewrite list_lookup_insert_eq in Hj by (by eapply lookup_lt_Some); simplify_eq
      |rewrite list_lookup_insert_ne in Hj by done;
       by eapply Hok, list_elem_of_lookup_2]).
  - by apply thread_ok_acquire in Hi' as [_ ?].
  - exact Hi'.
Qed.

Lemma reachable_ok ts ts' :
  rtc lock_step ts ts' → (∀ th, th ∈ ts → thread_ok th) → ∀ th, th ∈ ts' → thread_ok th.
Proof. induction 1 as [|???? _ IH]; [done|]. intros. apply IH; [|done]. by eapply lock_step_ok. Qed.

(** If an ordered task waits for a lock, some task can move: the owner of the
    lock runs, or waits for a lock of higher rank. *)
Lemma waiter_progress n ts i l m p h :
  (∀ th, th ∈ ts → thread_ok th) →
  ts !! i = Some (mkThread (Acquire l m :: p) h) → 5 - rank l < n →
  ∃ ts', lock_step ts ts'.
Proof.
  revert i l m p h. induction n as [|n IH]; intros i l m p h Hok Hi Hn; [lia|].
  assert (Hthis := Hok _ (list_elem_of_lookup_2 _ _ _ Hi)).
  apply thread_ok_acquire in Hthis as [Hbelow _].
  destruct (decide (Exists (λ th, Exists (λ x, x.1 = l) (held th)) ts)) as [Hex|Hno].
  - apply Exists_exists in Hex as (th & Hth & ([l' m'] & Hin & Hl)%Exists_exists).
    simpl in Hl. subst l'. apply list_elem_of_lookup in Hth as Hj. destruct Hj as (j & Hj).
    destruct th as [q hq]. simpl in *. specialize (Hok _ Hth) as Hthok.
    destruct q as [|[l2 m2|] q].
    + unfold thread_ok in Hthok. simpl in Hthok. apply bool_decide_eq_true in Hthok.
      apply (f_equal length) in Hthok. destruct hq; [by apply elem_of_nil in Hin|done].
    + apply thread_ok_acquire in Hthok as [Hlt _]. specialize (Hlt _ _ Hin).
      eapply (IH j l2); [done|exact Hj|]. destruct l, l2; simpl in *; lia.
    + eexists. by eapply step_release.
  - eexists. eapply step_acquire; [exact Hi| |].
    + intros m' Hin. specialize (Hbelow _ _ Hin). lia.
    + intros j th m' _ Hj Hin. destruct Hno. apply Exists_exists. exists th.
      split; [by eapply list_elem_of_lookup_2|]. apply Exists_exists. by exists (l, m').
Qed.

Lemma ordered_progress ts :
  (∀ th, th ∈ ts → thread_ok th) → ¬ finished ts → ∃ ts', lock_step ts ts'.
Proof.
  intros Hok Hnf.
  destruct (decide (Forall (λ th, prog th = []) ts)) as [Hf|Hf].
  { destruct Hnf. intros th Hth. by eapply Forall_forall in Hf. }
  apply not_Forall_Exists in Hf; [|apply _].
  apply Exists_exists in Hf as (th & Hth & Hp). apply list_elem_of_lookup in Hth as (i & Hi).
  destruct th as [[|[l m|] p] h]; simpl in Hp; [done|..].
  - by eapply (waiter_progress 6); [done|exact Hi|lia].
  - eexists. by eapply step_release.
Qed.

(** The methods that respect the order. *)
Inductive ordered_method : program → Prop :=
| om_process_event t b c s : ordered_method (process_event_locks t b c s)
| om_metrics : ordered_method metrics_snapshot_locks
| om_active : ordered_method get_active_processes_locks
| om_resources : ordered_method get_process_resources_locks
| om_edges : ordered_method get_all_edges_async_locks
| om_nodes : ordered_method get_nodes_async_locks.

Lemma ordered_method_ok p : ordered_method p → ordered p [] = true.
Proof. by intros []; try (destruct t, b, c, s). Qed.

(** C10 Without root-cause queries the graph cannot deadlock: from any number of
    tasks each running [process_event] (any event type, with or without
    cleanup), [metrics_snapshot], [get_active_processes],
    [get_process_resources], [get_all_edges_async] or [get_nodes_async], every
    reachable state either has all tasks finished or lets some task proceed. *)
Theorem ordered_methods_never_deadlock (ps : list program) (ts : list thread)
    (Hps : ∀ p, p ∈ ps → ordered_method p) (Hreach : rtc lock_step (start ps) ts) :
  ¬ deadlocked ts.
Proof.
  intros [Hnf Hstuck]. destruct (ordered_progress ts) as [ts' Hs]; [|done|by eapply Hstuck].
  eapply reachable_ok; [exact Hreach|]. unfold start.
  intros th (p & -> & Hp)%list_elem_of_fmap. by apply ordered_method_ok, Hps.
Qed.

Lemma ordered_methods_never_deadlock_witness :
  ¬ deadlocked (start [process_event_locks ErrorHw false true false; metrics_snapshot_locks]).
Proof.
  apply (ordered_methods_never_deadlock
    [process_event_locks ErrorHw false true false; metrics_snapshot_locks]).
  - intros p Hp. apply elem_of_cons in Hp as [->|Hp]; [constructor|].
    apply list_elem_of_singleton in Hp as ->. constructor.
  - reflexivity.
Defined.

(** A root-cause query can deadlock with event processing: a task in
    [find_root_cause_by_id] that holds [edge_out_index] and wants [nodes], and
    a task in the handler of a utilisation event that holds [nodes], [edges]
    and [edge_index] and wants [edge_out_index], wait for each other forever;
    that state is reachable from the two calls just started. *)
Theorem root_cause_query_can_deadlock :
  ∃ ts, rtc lock_step
          (start [process_event_locks ComputeUtil false false true; find_root_cause_by_id_locks])
          ts
        ∧ deadlocked ts.
Proof.
  pose (w := mkThread (drop 3 (process_event_locks ComputeUtil false false true))
               [(LEdgeIndex, W); (LEdges, W); (LNodes, W)]).
  pose (r := mkThread [Acquire LNodes R; ReleaseAll] [(LEdgeOutIndex, R)]).
  exists [w; r]. split.
  - eapply rtc_l; [eapply (step_acquire _ 1 LEdgeOutIndex R); [reflexivity|set_solver|]|].
    { intros [|[|j]] th m' Hj Hth Hin; simplify_eq/=; by apply elem_of_nil in Hin. }
    simpl. do 3 (eapply rtc_l; [eapply (step_acquire _ 0); [reflexivity|set_solver|]|];
      [intros [|[|j]] th m' Hj Hth Hin; simplify_eq/=; set_solver|simpl]).
    reflexivity.
  - split.
    + intros Hf. specialize (Hf w ltac:(by left)). done.
    + intros ts' Hs. inversion Hs as [? i l m p h Hi Hnew Hg|? i p h Hi]; subst.
      * destruct i as [|[|i]]; simplify_eq/=.
        -- destruct (Hg 1 r R); [done|done|by left|done].
        -- destruct (Hg 0 w W); [done|done|set_solver|done].
      * by destruct i as [|[|i]]; simplify_eq/=.
Qed.
