(* ===== verification/Rule.v ===== *)
(** * Rules (core/src/rules/rule.rs)

    The rule data model and the normalisation of the two syntaxes a rule file
    may use for its conditions. *)

From Stdlib Require Import SpecFloat.
From S2P Require Import Prelude F64.

Inductive ComparisonOp := Gt | Lt | Eq | Gte | Lte | Ne | Contains.
Inductive ValueType := Numeric | VString | Auto.

Definition default_value_type : ValueType := Auto.

Record MetricCondition := mkMetricCondition {
  mc_key : string;
  mc_op : ComparisonOp;
  mc_target : string;
  mc_value_type : ValueType
}.

(** The conditions of a rule; [CAny] and [CAll] nest. *)
Inductive Condition :=
| CEvent (event_type : string) (entity_id_pattern value_pattern : option string)
    (value_threshold : option f64)
| CGraph (edge_type : string) (from_pattern to_pattern : option string)
| CMetric (node_type entity_id_pattern : option string) (metrics : list MetricCondition)
| CSignal (signal : string) (entity_id_pattern : option string) (op : ComparisonOp)
    (target : string) (value_type : ValueType)
| CAny (conditions : list Condition)
| CAll (conditions : list Condition).

(** Induction that reaches the nested conditions. *)
Definition condition_ind' (P : Condition → Prop)
    (HE : ∀ t e v th, P (CEvent t e v th))
    (HG : ∀ t f o, P (CGraph t f o))
    (HM : ∀ t e ms, P (CMetric t e ms))
    (HS : ∀ s e op tg vt, P (CSignal s e op tg vt))
    (HAny : ∀ cs, Forall P cs → P (CAny cs))
    (HAll : ∀ cs, Forall P cs → P (CAll cs)) : ∀ c, P c :=
  fix go c :=
    let go_list := fix go_list cs : Forall P cs :=
      match cs with
      | [] => Forall_nil_2 P
      | c :: cs' => Forall_cons_2 P c cs' (go c) (go_list cs')
      end in
    match c with
    | CEvent t e v th => HE t e v th
    | CGraph t f o => HG t f o
    | CMetric t e ms => HM t e ms
    | CSignal s e op tg vt => HS s e op tg vt
    | CAny cs => HAny cs (go_list cs)
    | CAll cs => HAll cs (go_list cs)
    end.

Record RootCausePattern := mkRootCausePattern {
  primary : string;
  secondary : option (list string)
}.

Record SolutionStep := mkSolutionStep {
  step : N;
  action : string;
  command : option string;
  manual : bool
}.

Record Applicability := mkApplicability {
  min_confidence : f64;
  required_events : option (list string)
}.

Definition default_min_confidence : f64 := f64_of_dec false 8 (-1).

Record Rule := mkRule {
  rule_id : option string;
  rule_name : string;
  rule_scene : string;
  rule_priority : N;
  rule_reason_codes : list string;
  rule_conditions : list Condition;
  rule_root_cause_pattern : RootCausePattern;
  rule_solution_steps : list SolutionStep;
  rule_related_evidences : list string;
  rule_applicability : Applicability
}.

(** ** Wire form *)

Record ConditionsLegacyWire := mkConditionsLegacyWire {
  legacy_all : option (list Condition);
  legacy_any : option (list Condition)
}.

Inductive ConditionsWire :=
| New (cs : list Condition)
| Legacy (l : ConditionsLegacyWire).

Record RuleWire := mkRuleWire {
  wire_id : option string;
  wire_name : string;
  wire_scene : string;
  wire_priority : N;
  wire_reason_codes : list string;
  wire_conditions : ConditionsWire;
  wire_root_cause_pattern : RootCausePattern;
  wire_solution_steps : list SolutionStep;
  wire_related_evidences : list string;
  wire_applicability : Applicability
}.

Inductive LegacySyntaxStatus := NoLegacy | Migrated.
Global Instance legacy_syntax_status_eq_dec : EqDecision LegacySyntaxStatus.
Proof. solve_decision. Defined.

(** [RuleWire::normalize] *)
Definition normalize (w : RuleWire) : result string (Rule * LegacySyntaxStatus) :=
  let conditions :=
    match wire_conditions w with
    | New v => Ok (v, NoLegacy)
    | Legacy legacy =>
        match legacy_all legacy, legacy_any legacy with
        | Some cs, None => Ok ([CAll cs], Migrated)
        | None, Some cs => Ok ([CAny cs], Migrated)
        | Some _, Some _ => Err "legacy conditions 不能同时包含 all 和 any"
        | None, None => Err "legacy conditions 必须包含 all 或 any"
        end
    end in
  match conditions with
  | Ok (cs, legacy) =>
      Ok (mkRule (wire_id w) (wire_name w) (wire_scene w) (wire_priority w)
            (wire_reason_codes w) cs (wire_root_cause_pattern w) (wire_solution_steps w)
            (wire_related_evidences w) (wire_applicability w), legacy)
  | Err e => Err e
  end.

Definition with_rule_id (id : option string) (r : Rule) : Rule :=
  mkRule id (rule_name r) (rule_scene r) (rule_priority r) (rule_reason_codes r)
    (rule_conditions r) (rule_root_cause_pattern r) (rule_solution_steps r)
    (rule_related_evidences r) (rule_applicability r).
