(* ===== verification/Matcher.v ===== *)
(** * Rule matching (core/src/rules/matcher.rs)

    Wildcard patterns, value comparison and the evaluation of rule conditions
    over a snapshot of the graph.  The main theorems: the cursor-based wildcard
    matcher decides the textbook glob relation, and the evaluator decides the
    declarative meaning of a condition. *)

From Stdlib Require Import SpecFloat.
From S2P Require Import Prelude F64 Event Signals Graph Rule.

(** ** Patterns *)

(** The part loop of [matches_single_pattern]: [cursor] is the offset after the
    last part matched.  Parts are found whole, so the offset always lies on a
    character boundary. *)
Fixpoint match_parts (text : string) (anchored_start : bool) (idx cursor : nat)
    (parts : list string) : bool :=
  match parts with
  | [] => true
  | part :: rest =>
      if (idx =? 0) && anchored_start then
        if starts_with part (str_from cursor text)
        then match_parts text anchored_start (S idx) (cursor + String.length part) rest
        else false
      else
        match find part (str_from cursor text) with
        | Some found =>
            match_parts text anchored_start (S idx) (cursor + (found + String.length part)) rest
        | None => false
        end
  end.

Definition matches_single_pattern (text pattern : string) : bool :=
  if is_empty pattern then is_empty text
  else if decide (pattern = "*") then true
  else if negb (contains "*" pattern) then bool_decide (text = pattern)
  else
    let anchored_start := negb (starts_with "*" pattern) in
    let anchored_end := negb (ends_with "*" pattern) in
    let parts := filter (λ p, is_empty p = false) (split_char "*" pattern) in
    match parts with
    | [] => true
    | _ =>
        if match_parts text anchored_start 0 0 parts then
          if anchored_end then
            match last parts with
            | Some l => ends_with l text
            | None => true
            end
          else true
        else false
    end.

Definition matches_pattern (text pattern : string) : bool :=
  existsb (λ p, matches_single_pattern text (trim p)) (split_char "|" pattern).

Definition matches_value_pattern (text pattern : string) : bool :=
  existsb (λ p, negb (is_empty p) && contains p text) (map trim (split_char "|" pattern)).

(** ** Values *)

Definition compare_numeric (actual_str target : string) (op : ComparisonOp) (a t : f64) : bool :=
  let eps := f64_of_dec false 1 (-3) in
  match op with
  | Gt => f64_gt a t
  | Lt => f64_lt a t
  | Eq => f64_lt (f64_abs (f64_sub a t)) eps
  | Gte => f64_ge a t
  | Lte => f64_le a t
  | Ne => f64_ge (f64_abs (f64_sub a t)) eps
  | Contains => contains target actual_str
  end.

Definition compare_string (actual_str target : string) (op : ComparisonOp) : bool :=
  match op with
  | Eq => bool_decide (actual_str = target)
  | Ne => bool_decide (actual_str ≠ target)
  | Contains => contains target actual_str
  | _ => false
  end.

Definition compare_value (actual_str target : string) (op : ComparisonOp) (vt : ValueType) : bool :=
  match vt with
  | Numeric =>
      match parse_f64 actual_str with
      | Some a => match parse_f64 target with
                  | Some t => compare_numeric actual_str target op a t
                  | None => false
                  end
      | None => false
      end
  | VString => compare_string actual_str target op
  | Auto =>
      match parse_f64 actual_str, parse_f64 target with
      | Some a, Some t => compare_numeric actual_str target op a t
      | _, _ => compare_string actual_str target op
      end
  end.

Definition match_metric_condition (metric : MetricCondition) (meta : gmap string string) : bool :=
  match meta !! mc_key metric with
  | Some v => compare_value v (mc_target metric) (mc_op metric) (mc_value_type metric)
  | None => false
  end.

(** ** Conditions *)

Definition opt_test {A} (o : option A) (f : A → bool) : bool :=
  match o with Some x => f x | None => true end.

(** The closure of [Condition::Event]: its early returns in order. *)
Definition match_event (event_type : string) (entity_id_pattern value_pattern : option string)
    (value_threshold : option f64) (event : Event) : bool :=
  if decide (event_type_display (ev_type event) ≠ event_type) then false
  else if negb (opt_test entity_id_pattern (matches_pattern (ev_entity_id event))) then false
  else if negb (opt_test value_pattern (matches_value_pattern (ev_value event))) then false
  else match value_threshold with
       | Some threshold =>
           match parse_f64 (ev_value event) with
           | Some v => if f64_lt v threshold then false else true
           | None => false
           end
       | None => true
       end.

Definition match_edge (edge_type_name' : string) (from_pattern to_pattern : option string)
    (e : Edge) : bool :=
  if decide (edge_type_name (edge_type e) ≠ edge_type_name') then false
  else if negb (opt_test from_pattern (matches_pattern (edge_from e))) then false
  else if negb (opt_test to_pattern (matches_pattern (edge_to e))) then false
  else true.

Definition node_type_name (t : NodeType) : string :=
  match t with
  | Process => "process"
  | Resource => "resource"
  | Error => "error"
  end.

Definition match_node (nt entity_id_pattern : option string) (metrics : list MetricCondition)
    (n : Node) : bool :=
  if negb (opt_test nt (λ t, bool_decide (node_type_name (node_type n) = t))) then false
  else if negb (opt_test entity_id_pattern (matches_pattern (node_key n))) then false
  else forallb (λ m, match_metric_condition m (metadata n)) metrics.

Definition older_first (a b : Node) : bool := bool_decide (last_update a ≤ last_update b)%N.

(** One candidate of a signal condition. *)
Definition match_signal_node (prefix : string) (entity_id_pattern : option string)
    (op : ComparisonOp) (target : string) (vt : ValueType) (n : Node) : bool :=
  let entity_part := default "" (strip_prefix prefix (node_key n)) in
  if negb (opt_test entity_id_pattern (matches_pattern entity_part)) then false
  else match metadata n !! "value" with
       | Some actual => compare_value actual target op vt
       | None => false
       end.

Definition match_signal (ns : list Node) (signal : string) (entity_id_pattern : option string)
    (op : ComparisonOp) (target : string) (vt : ValueType) : bool :=
  let prefix := "signal::" +:+ signal +:+ "::" in
  let candidates := filter (λ n, starts_with prefix (node_key n) = true) ns in
  match candidates with
  | [] => false
  | _ => existsb (match_signal_node prefix entity_id_pattern op target vt)
           (rev (stable_sort older_first candidates))
  end.

Fixpoint match_condition_with_snapshot (condition : Condition) (events : list Event)
    (es : list Edge) (ns : gmap string Node) : bool :=
  match condition with
  | CEvent t e v th => existsb (match_event t e v th) events
  | CGraph t f o => existsb (match_edge t f o) es
  | CMetric t e ms => existsb (match_node t e ms) (map snd (map_to_list ns))
  | CSignal s e op tg vt => match_signal (map snd (map_to_list ns)) s e op tg vt
  | CAny conditions =>
      existsb (λ c, match_condition_with_snapshot c events es ns) conditions
  | CAll conditions =>
      forallb (λ c, match_condition_with_snapshot c events es ns) conditions
  end.

(** [RuleMatcher::match_condition] *)
Definition match_condition (condition : Condition) (events : list Event) (g : StateGraph) : bool :=
  match_condition_with_snapshot condition events (get_all_edges_async g) (get_nodes_async g).

(** [RuleMatcher::match_all_conditions] *)
Definition match_all_conditions (conditions : list Condition) (events : list Event)
    (g : StateGraph) : bool :=
  forallb (λ c, match_condition_with_snapshot c events (get_all_edges_async g) (get_nodes_async g))
    conditions.

Example pattern_examples :
  map (λ '(t, p), matches_pattern t p)
    [("gpu-0", "gpu-*"); ("cpu-0", "gpu-*"); ("mlx5_0", "mlx5_*");
     ("node-a::roce-mlx5_0", "*roce-*"); ("eth0", "roce-*|eth*"); ("ib0", "roce-*| eth* ")]
  = [true; false; true; true; true; false].
Proof. vm_compute. reflexivity. Qed.

(** ** The wildcard relation

    The textbook meaning of a pattern: a [*] stands for any text, every other
    character for itself. *)

Inductive glob : string → string → Prop :=
| glob_nil : glob "" ""
| glob_char a p t : a ≠ "*"%char → glob p t → glob (String a p) (String a t)
| glob_star_end p t : glob p t → glob (String "*" p) t
| glob_star_take a p t : glob (String "*" p) t → glob (String "*" p) (String a t).
#[export] Hint Constructors glob : ark.

Lemma glob_star p t : glob (String "*" p) t ↔ ∃ a b, t = a +:+ b ∧ glob p b.
Proof.
  split.
  - remember (String "*" p) as q eqn:Eq. induction 1; simplify_eq.
    + by exists "", t.
    + destruct IHglob as (a' & b & -> & ?); [done|]. by exists (String a a'), b.
  - intros (a & b & -> & Hg). induction a; simpl; [by constructor|].
    rewrite str_app_cons. by constructor.
Qed.

(** The pieces between the stars, matched in order with anything between. *)
Fixpoint segments (ws : list string) (r : string) : Prop :=
  match ws with
  | [] => r = ""
  | w :: ws' => ∃ a b, r = a +:+ w +:+ b ∧ segments ws' b
  end.

Lemma split_char_not_nil c s : split_char c s ≠ [].
Proof. destruct s; simpl; [done|]. by split_all. Qed.

Lemma glob_segments p t w ws :
  split_char "*" p = w :: ws → glob p t ↔ ∃ r, t = w +:+ r ∧ segments ws r.
Proof.
  revert t w ws. induction p as [|c p IH]; intros t w ws; simpl.
  - intros [= <- <-]. split.
    + inversion 1. by exists "".
    + intros (r & -> & ->). constructor.
  - case_decide as Hc.
    + intros [= <- <-]. subst. rewrite glob_star. setoid_rewrite str_app_nil_l.
      destruct (split_char "*" p) as [|w0 ws0] eqn:E; [by apply split_char_not_nil in E|].
      specialize (IH). setoid_rewrite (λ t, IH t _ _ eq_refl). simpl. split.
      * intros (a & b & -> & r & -> & ?). eauto 10.
      * intros (? & <- & a & b & -> & ?). eauto 10.
    + destruct (split_char "*" p) as [|w0 ws0] eqn:E; [by apply split_char_not_nil in E|].
      intros [= <- <-]. split.
      * inversion 1; simplify_eq. destruct (IH t0 _ _ eq_refl) as [(r & -> & ?) _]; [done|].
        exists r. by rewrite str_app_cons.
      * intros (r & -> & ?). rewrite str_app_cons. constructor; [done|].
        apply (IH _ _ _ eq_refl). eauto.
Qed.

(** ** The cursor loop *)

(** Parts found in order, with nothing said about the end of the text. *)
Fixpoint found_in_order (ps : list string) (r : string) : Prop :=
  match ps with
  | [] => True
  | p :: ps' => ∃ a b, r = a +:+ p +:+ b ∧ found_in_order ps' b
  end.

Lemma found_in_order_prepend ps k r :
  found_in_order ps r → found_in_order ps (k +:+ r).
Proof.
  destruct ps; simpl; [done|]. intros (a & b & -> & ?).
  exists (k +:+ a), b. by rewrite !str_app_assoc.
Qed.

Lemma found_in_order_length ps r p :
  found_in_order ps r → p ∈ ps → String.length p ≤ String.length r.
Proof.
  revert r. induction ps as [|q ps IH]; intros r; simpl; [by intros _ ?%elem_of_nil|].
  intros (a & b & -> & Hf) [->|Hp]%elem_of_cons; rewrite !str_app_length; [lia|].
  specialize (IH _ Hf Hp). lia.
Qed.

(** Of two splits of a text, the one cut earlier leaves a longer rest. *)
Lemma suffix_of_longer a b c d :
  a +:+ b = c +:+ d → String.length a ≤ String.length c → ∃ k, b = k +:+ d.
Proof.
  intros H Hl. destruct (str_app_eq_inv _ _ _ _ H) as [(k & -> & ->)|(k & -> & ->)]; [eauto|].
  rewrite str_app_length in Hl. destruct k; simpl in Hl; [|lia]. by exists "".
Qed.

(** Taking the first occurrence of each part loses no match. *)
Lemma match_parts_found text anch idx a r ps :
  text = a +:+ r → (idx =? 0) && anch = false →
  match_parts text anch idx (String.length a) ps = true ↔ found_in_order ps r.
Proof.
  revert idx a r. induction ps as [|p ps IH]; intros idx a r Ht Hi; simpl; [done|].
  rewrite Hi, Ht, str_from_app. destruct (find p r) as [i|] eqn:Ef.
  - apply find_Some in Ef as (a0 & b0 & -> & <- & Hmin).
    rewrite <-str_app_length, <-str_app_length, <-Ht, (IH _ (a +:+ a0 +:+ p) b0)
      by (subst; rewrite ?str_app_assoc; auto using andb_false_l).
    split; [eauto|]. intros (a' & b & Hr & Hb). specialize (Hmin _ _ Hr).
    rewrite <-!str_app_assoc in Hr. apply suffix_of_longer in Hr as [k ->];
      [by apply found_in_order_prepend|rewrite !str_app_length; lia].
  - rewrite find_None in Ef. split; [done|]. intros (a' & b & ? & _). by destruct (Ef a' b).
Qed.

Lemma is_empty_true s : is_empty s = true ↔ s = "".
Proof. by destruct s. Qed.

Lemma segments_found ws r l :
  last ws = Some l →
  segments ws r ↔ found_in_order (filter (λ p, is_empty p = false) ws) r ∧ ∃ t, r = t +:+ l.
Proof.
  revert r. induction ws as [|w [|w' ws] IH]; intros r Hl; [done|..].
  - simplify_eq/=. split.
    + intros (a & b & -> & ->). rewrite str_app_nil_r. split; [|eauto].
      rewrite filter_cons. case_decide; simpl; [|done]. exists a, "". by rewrite str_app_nil_r.
    + intros [_ [t ->]]. exists t, "". by rewrite str_app_nil_r.
  - cbn [segments]. rewrite last_cons_cons in Hl.
    rewrite filter_cons. setoid_rewrite (λ r, IH r Hl). split.
    + intros (a & b & -> & Hf & t & ->). split; [|exists (a +:+ w +:+ t); by rewrite !str_app_assoc].
      case_decide; [simpl; eauto|]. rewrite <-str_app_assoc. by apply found_in_order_prepend.
    + intros [Hf [t Ht]]. case_decide as Hw.
      * destruct Hf as (a & b & Hr & Hf). exists a, b. split_and!; [done..|].
        subst r. rewrite <-str_app_assoc in Ht. symmetry in Ht.
        destruct (str_app_eq_inv _ _ _ _ Ht) as [(k & Hk & Hlk)|(k & -> & ->)];
          [|exact (ex_intro _ k eq_refl)].
        destruct (is_empty l) eqn:El; [apply is_empty_true in El as ->; exists b; by rewrite str_app_nil_r|].
        assert (l ∈ filter (λ p, is_empty p = false) (w' :: ws)) as Hin.
        { apply list_elem_of_filter. split; [done|]. by apply last_Some_elem_of. }
        pose proof (found_in_order_length _ _ _ Hf Hin) as Hlen.
        rewrite Hlk, str_app_length in Hlen. destruct k; simpl in Hlen; [|lia]. by exists "".
      * apply not_false_is_true in Hw. apply is_empty_true in Hw as ->.
        exists "", r. eauto.
Qed.

(** How the tests on the whole pattern read off its pieces. *)
Lemma split_char_ends p w ws :
  split_char "*" p = w :: ws →
  (contains "*" p = true ↔ ws ≠ [])
  ∧ (starts_with "*" p = true ↔ w = "" ∧ ws ≠ [])
  ∧ (ends_with "*" p = true ↔ last ws = Some "")
  ∧ (ws = [] → w = p).
Proof.
  revert w ws. induction p as [|c p IH]; intros w ws; simpl.
  - intros [= <- <-]. by vm_compute; naive_solver.
  - destruct (split_char "*" p) as [|w0 ws0] eqn:E; [by apply split_char_not_nil in E|].
    destruct (IH _ _ eq_refl) as (IHc & IHs & IHe & IHp).
    rewrite contains_true, starts_with_true, ends_with_true in *.
    case_decide as Hc; intros [= <- <-]; [subst c|].
    + split_and!; [split; [done|by exists "", p]|split; [done|by exists p]| |done].
      split.
      * intros [[|c t] Ht]; rewrite ?str_app_cons, ?str_app_nil_l in Ht; simplify_eq.
        { by inversion E. }
        destruct ws0; [|rewrite last_cons_cons; by apply IHe; eauto].
        discriminate (proj1 IHe (ex_intro _ t eq_refl)).
      * destruct ws0; simpl; [intros [= ->]; rewrite IHp by done; by exists ""|].
        intros [t ->]%IHe. by exists (String "*" t).
    + split_and!.
      * rewrite <-IHc. split.
        { intros ([|??] & b & Ht); rewrite ?str_app_cons, ?str_app_nil_l in Ht; simplify_eq; eauto. }
        intros (a & b & ->). by exists (String c a), b.
      * split; [intros [t Ht]; rewrite str_app_cons in Ht; by simplify_eq|by intros []].
      * rewrite <-IHe. split.
        { intros [[|??] Ht]; rewrite ?str_app_cons, ?str_app_nil_l in Ht; simplify_eq; eauto. }
        intros [t ->]. by exists (String c t).
      * intros ->. by rewrite IHp.
Qed.

Lemma match_parts_anchored text w ps :
  match_parts text true 0 0 (w :: ps) = true ↔
  ∃ r, text = w +:+ r ∧ found_in_order ps r.
Proof.
  simpl. destruct (starts_with w text) eqn:Es.
  - apply starts_with_true in Es as [r ->]. rewrite match_parts_found by done.
    split; [eauto|]. intros (r' & ->%str_app_eq_l & ?). done.
  - split; [done|]. intros (r & -> & _). rewrite <-not_true_iff_false in Es.
    destruct Es. apply starts_with_true. eauto.
Qed.

(** The loop over the non-empty pieces of a pattern with a star. *)
Lemma match_parts_pieces text w ws :
  match_parts text (negb (is_empty w)) 0 0 (filter (λ p, is_empty p = false) (w :: ws)) = true ↔
  ∃ r, text = w +:+ r ∧ found_in_order (filter (λ p, is_empty p = false) ws) r.
Proof.
  rewrite filter_cons. case_decide as Hw.
  - rewrite Hw. apply match_parts_anchored.
  - apply not_false_is_true in Hw. rewrite Hw. apply is_empty_true in Hw as ->.
    rewrite (match_parts_found _ _ _ "" text) by done. split; [by eauto|].
    intros (r & -> & ?). done.
Qed.

Lemma last_filter_non_empty w ws l :
  last ws = Some l → is_empty l = false →
  last (filter (λ p, is_empty p = false) (w :: ws)) = Some l.
Proof.
  intros [ws' ->]%last_Some Hl. rewrite app_comm_cons, filter_app, last_app.
  by rewrite filter_cons, decide_True.
Qed.

(** The pattern contains a star: the loop and the final test together. *)
Lemma starred_glob text p w ws l :
  split_char "*" p = w :: ws → last ws = Some l →
  glob p text ↔
  match_parts text (negb (is_empty w)) 0 0 (filter (λ q, is_empty q = false) (w :: ws)) = true
  ∧ (is_empty l = false → ends_with l text = true).
Proof.
  intros Hs Hl. rewrite (glob_segments _ _ _ _ Hs), match_parts_pieces, ends_with_true.
  setoid_rewrite (λ r, segments_found _ r _ Hl). split.
  - intros (r & -> & Hf & t & ->). split; [eauto|]. intros _. exists (w +:+ t).
    by rewrite str_app_assoc.
  - intros [(r & -> & Hf) He]. exists r. split_and!; [done..|].
    destruct (is_empty l) eqn:El; [apply is_empty_true in El as ->; exists r; by rewrite str_app_nil_r|].
    destruct (He eq_refl) as [t Ht]. apply eq_sym in Ht.
    assert (String.length l ≤ String.length r) as Hlen.
    { eapply found_in_order_length; [exact Hf|]. apply list_elem_of_filter.
      split; [done|]. by apply last_Some_elem_of. }
    apply eq_sym, suffix_of_longer in Ht; [done|].
    apply (f_equal String.length) in Ht. rewrite !str_app_length in Ht. lia.
Qed.

Lemma matches_single_pattern_glob text pattern :
  matches_single_pattern text pattern = true ↔ glob pattern text.
Proof.
  destruct (split_char "*" pattern) as [|w ws] eqn:Es; [by apply split_char_not_nil in Es|].
  destruct (split_char_ends _ _ _ Es) as (Hc & Hst & Hen & Hp).
  unfold matches_single_pattern. destruct (is_empty pattern) eqn:Ee.
  { apply is_empty_true in Ee as ->. rewrite is_empty_true. split; [intros ->; constructor|].
    by inversion 1. }
  case_decide as Hstar.
  { subst. split; [|done]. intros _. apply glob_star. exists text, "".
    split; [by rewrite str_app_nil_r|constructor]. }
  destruct (contains "*" pattern) eqn:Ec; simpl.
  2: { destruct ws; [|by discriminate (proj2 Hc ltac:(done))]. rewrite bool_decide_eq_true.
       rewrite (glob_segments _ _ _ _ Es). rewrite Hp by done. simpl. split.
       - intros ->. exists "". by rewrite str_app_nil_r.
       - intros (r & -> & ->). by rewrite str_app_nil_r. }
  destruct Hc as [Hc _]. specialize (Hc eq_refl).
  destruct (last ws) as [l|] eqn:El; [|by apply last_None in El].
  rewrite (starred_glob _ _ _ _ _ Es El), Es.
  replace (negb (starts_with "*" pattern)) with (negb (is_empty w)).
  2: { f_equal. apply eq_bool_prop_intro. rewrite !Is_true_true, Hst, is_empty_true. naive_solver. }
  replace (negb (ends_with "*" pattern)) with (negb (is_empty l)).
  2: { f_equal. apply eq_bool_prop_intro. rewrite !Is_true_true, Hen, is_empty_true. naive_solver. }
  pose proof (last_filter_non_empty w _ _ El) as Hlf. revert Hlf.
  generalize (filter (λ q, is_empty q = false) (w :: ws)) as parts. intros parts Hlf.
  destruct parts as [|q parts].
  - destruct (is_empty l); [simpl; naive_solver|]. by specialize (Hlf eq_refl).
  - destruct (match_parts _ _ _ _ _); [|naive_solver].
    destruct (is_empty l); cbn [negb]; [naive_solver|]. rewrite Hlf by done. naive_solver.
Qed.

(** ** The meaning of a condition *)

Definition pattern_holds (pattern text : string) : Prop :=
  ∃ alternative, alternative ∈ split_char "|" pattern ∧ glob (trim alternative) text.

Definition value_pattern_holds (pattern text : string) : Prop :=
  ∃ alternative, alternative ∈ split_char "|" pattern ∧ trim alternative ≠ ""
    ∧ ∃ a b, text = a +:+ trim alternative +:+ b.

Lemma existsb_elem_of {A} (f : A → bool) l : existsb f l = true ↔ ∃ x, x ∈ l ∧ f x = true.
Proof.
  rewrite existsb_exists. by setoid_rewrite list_elem_of_In.
Qed.

Lemma forallb_elem_of {A} (f : A → bool) l : forallb f l = true ↔ ∀ x, x ∈ l → f x = true.
Proof.
  rewrite forallb_forall. by setoid_rewrite list_elem_of_In.
Qed.

Lemma matches_pattern_holds text pattern :
  matches_pattern text pattern = true ↔ pattern_holds pattern text.
Proof.
  unfold matches_pattern. rewrite existsb_elem_of.
  by setoid_rewrite matches_single_pattern_glob.
Qed.

Lemma matches_value_pattern_holds text pattern :
  matches_value_pattern text pattern = true ↔ value_pattern_holds pattern text.
Proof.
  unfold matches_value_pattern, value_pattern_holds. rewrite existsb_elem_of.
  setoid_rewrite list_elem_of_fmap. setoid_rewrite andb_true_iff.
  setoid_rewrite contains_true. setoid_rewrite negb_true_iff. split.
  - intros (p & (q & -> & Hq) & He & Hc). exists q. split_and!; [done| |done].
    by intros Ht; rewrite Ht in He.
  - intros (q & Hq & He & Hc). exists (trim q). split_and!; [eauto| |done].
    by destruct (trim q).
Qed.

Section meaning.
Context (events : list Event) (es : list Edge) (ns : gmap string Node).

Definition opt_holds {A} (o : option A) (P : A → Prop) : Prop :=
  match o with Some x => P x | None => True end.

Definition threshold_holds (value : string) (threshold : f64) : Prop :=
  ∃ v, parse_f64 value = Some v ∧ f64_lt v threshold = false.

Inductive holds : Condition → Prop :=
| holds_event t ep vp th e :
    e ∈ events → event_type_display (ev_type e) = t →
    opt_holds ep (λ p, pattern_holds p (ev_entity_id e)) →
    opt_holds vp (λ p, value_pattern_holds p (ev_value e)) →
    opt_holds th (threshold_holds (ev_value e)) →
    holds (CEvent t ep vp th)
| holds_graph t fp tp e :
    e ∈ es → edge_type_name (edge_type e) = t →
    opt_holds fp (λ p, pattern_holds p (edge_from e)) →
    opt_holds tp (λ p, pattern_holds p (edge_to e)) →
    holds (CGraph t fp tp)
| holds_metric nt ep ms id n :
    ns !! id = Some n →
    opt_holds nt (λ t, node_type_name (node_type n) = t) →
    opt_holds ep (λ p, pattern_holds p (node_key n)) →
    (∀ m, m ∈ ms → ∃ v, metadata n !! mc_key m = Some v
       ∧ compare_value v (mc_target m) (mc_op m) (mc_value_type m) = true) →
    holds (CMetric nt ep ms)
| holds_signal s ep op tg vt id n entity v :
    ns !! id = Some n → node_key n = "signal::" +:+ s +:+ "::" +:+ entity →
    opt_holds ep (λ p, pattern_holds p entity) →
    metadata n !! "value" = Some v → compare_value v tg op vt = true →
    holds (CSignal s ep op tg vt)
| holds_any cs c : c ∈ cs → holds c → holds (CAny cs)
| holds_all cs : (∀ c, c ∈ cs → holds c) → holds (CAll cs).

Lemma opt_test_holds {A} (o : option A) f (P : A → Prop) :
  (∀ x, f x = true ↔ P x) → opt_test o f = true ↔ opt_holds o P.
Proof. intros H. destruct o; [apply H|done]. Qed.

(** A chain of early returns is a conjunction. *)
Lemma early_return (b c : bool) : (if negb b then false else c) = b && c.
Proof. by destruct b. Qed.

Lemma node_elem_of n : n ∈ map snd (map_to_list ns) ↔ ∃ id, ns !! id = Some n.
Proof.
  rewrite list_elem_of_fmap. split.
  - intros ([id n'] & -> & ?%elem_of_map_to_list). eauto.
  - intros [id ?%elem_of_map_to_list]. by exists (id, n).
Qed.

Lemma match_event_holds t ep vp th e :
  match_event t ep vp th e = true ↔
  event_type_display (ev_type e) = t ∧ opt_holds ep (λ p, pattern_holds p (ev_entity_id e))
  ∧ opt_holds vp (λ p, value_pattern_holds p (ev_value e))
  ∧ opt_holds th (threshold_holds (ev_value e)).
Proof.
  unfold match_event. rewrite !early_return.
  rewrite <-(opt_test_holds _ _ _ (matches_pattern_holds (ev_entity_id e))).
  rewrite <-(opt_test_holds _ _ _ (matches_value_pattern_holds (ev_value e))).
  case_decide as Ht; [by split; [|intros [? _]]|]. rewrite !andb_true_iff.
  destruct th as [th|]; simpl; [|naive_solver].
  unfold threshold_holds. destruct (parse_f64 _) as [v|]; [|naive_solver].
  destruct (f64_lt v th) eqn:E; naive_solver congruence.
Qed.

Lemma match_edge_holds t fp tp e :
  match_edge t fp tp e = true ↔
  edge_type_name (edge_type e) = t ∧ opt_holds fp (λ p, pattern_holds p (edge_from e))
  ∧ opt_holds tp (λ p, pattern_holds p (edge_to e)).
Proof.
  unfold match_edge. rewrite !early_return.
  rewrite <-(opt_test_holds _ _ _ (matches_pattern_holds (edge_from e))).
  rewrite <-(opt_test_holds _ _ _ (matches_pattern_holds (edge_to e))).
  case_decide as Ht; [by split; [|intros [? _]]|]. rewrite !andb_true_iff. naive_solver.
Qed.

Lemma match_node_holds nt ep ms n :
  match_node nt ep ms n = true ↔
  opt_holds nt (λ t, node_type_name (node_type n) = t)
  ∧ opt_holds ep (λ p, pattern_holds p (node_key n))
  ∧ (∀ m, m ∈ ms → ∃ v, metadata n !! mc_key m = Some v
       ∧ compare_value v (mc_target m) (mc_op m) (mc_value_type m) = true).
Proof.
  unfold match_node. rewrite !early_return, !andb_true_iff, forallb_elem_of.
  rewrite <-(opt_test_holds _ _ _ (matches_pattern_holds (node_key n))).
  rewrite (opt_test_holds nt _ (λ t, node_type_name (node_type n) = t))
    by (intros; apply bool_decide_eq_true).
  unfold match_metric_condition. do 2 apply and_iff_compat_l.
  apply forall_proper; intros m. apply forall_proper; intros _.
  destruct (metadata n !! mc_key m); naive_solver.
Qed.

Lemma match_signal_holds s ep op tg vt :
  match_signal (map snd (map_to_list ns)) s ep op tg vt = true ↔
  ∃ id n entity v, ns !! id = Some n ∧ node_key n = "signal::" +:+ s +:+ "::" +:+ entity
    ∧ opt_holds ep (λ p, pattern_holds p entity)
    ∧ metadata n !! "value" = Some v ∧ compare_value v tg op vt = true.
Proof.
  unfold match_signal. set (prefix := "signal::" +:+ s +:+ "::").
  set (candidates := filter _ _).
  transitivity (∃ n, n ∈ candidates ∧ match_signal_node prefix ep op tg vt n = true).
  { transitivity (existsb (match_signal_node prefix ep op tg vt)
                    (rev (stable_sort older_first candidates)) = true);
      [by destruct candidates|].
    rewrite existsb_elem_of. apply exist_proper; intros n.
    by rewrite <-Permutation_rev, elem_of_stable_sort. }
  unfold candidates, match_signal_node. setoid_rewrite list_elem_of_filter.
  setoid_rewrite node_elem_of. setoid_rewrite early_return. setoid_rewrite andb_true_iff.
  split.
  - intros (n & [Hp [id Hid]] & He & Hv). apply starts_with_true in Hp as [entity Hk].
    rewrite (proj2 (strip_prefix_Some _ _ _) Hk) in He.
    rewrite (opt_test_holds _ _ _ (matches_pattern_holds entity)) in He.
    destruct (metadata n !! "value") as [v|] eqn:Em; [|done].
    exists id, n, entity, v. unfold prefix in Hk. by rewrite !str_app_assoc in Hk.
  - intros (id & n & entity & v & Hid & Hk & He & Hm & Hv).
    assert (node_key n = prefix +:+ entity) as Hk'
      by (unfold prefix; by rewrite !str_app_assoc).
    exists n. rewrite (proj2 (strip_prefix_Some _ _ _) Hk'), Hm.
    rewrite (opt_test_holds _ _ _ (matches_pattern_holds entity)), starts_with_true. eauto 10.
Qed.

Lemma match_condition_holds c :
  match_condition_with_snapshot c events es ns = true ↔ holds c.
Proof.
  induction c as [t ep vp th|t fp tp|nt ep ms|s ep op tg vt|cs IH|cs IH] using condition_ind';
    simpl; rewrite ?existsb_elem_of, ?forallb_elem_of.
  - setoid_rewrite match_event_holds. split; [|inversion 1; simplify_eq; eauto 10].
    intros (e & ? & ? & ? & ? & ?). by econstructor.
  - setoid_rewrite match_edge_holds. split; [|inversion 1; simplify_eq; eauto 10].
    intros (e & ? & ? & ? & ?). by econstructor.
  - setoid_rewrite match_node_holds. setoid_rewrite node_elem_of.
    split; [|inversion 1; simplify_eq; eauto 10].
    intros (n & [id ?] & ? & ? & ?). by econstructor.
  - rewrite match_signal_holds. split; [|inversion 1; simplify_eq; eauto 10].
    intros (id & n & en & v & ? & ? & ? & ? & ?). by econstructor.
  - rewrite Forall_forall in IH. split.
    + intros (c & Hc & ?). econstructor; [done|]. by apply IH.
    + inversion 1; simplify_eq. eexists. split; [done|]. by apply IH.
  - rewrite Forall_forall in IH. split.
    + intros H. constructor. intros c Hc. by apply IH, H.
    + inversion 1; simplify_eq. intros c Hc. apply IH; auto.
Qed.
End meaning.

(** ** Claims *)

(** C5 The cursor-based wildcard matcher decides the textbook meaning of a
    pattern: [matches_pattern] accepts a text exactly when one of the
    alternatives between the bars, trimmed, matches the whole text with every
    star standing for an arbitrary run of bytes.  Taking the first occurrence
    of each part never misses a match. *)
Theorem wildcard_matching_exact text pattern :
  matches_pattern text pattern = true ↔
  ∃ alternative, alternative ∈ split_char "|" pattern ∧ glob (trim alternative) text.
Proof. apply matches_pattern_holds. Qed.

(** C4 The evaluator decides the declarative meaning of a condition against
    the state of the graph: an event, edge, node or signal of the snapshot
    satisfies all the stated parts; [Any] and [All] nest. In particular the
    order in which the hash map of nodes is traversed and the order in which
    signal candidates are tried do not matter. *)
Theorem condition_evaluation_exact c events g :
  match_condition c events g = true ↔ holds events (edges (store g)) (nodes g) c.
Proof. apply match_condition_holds. Qed.
