(* ===== verification/RuleFiles.v ===== *)
(** * Rule files (core/src/rules/mod.rs: manifest, packs and directory walks)

    Paths as the standard library compares and joins them, a directory tree as
    the program sees it through [read_dir], and the collection of the rule
    files of a directory: packs of the manifest first, then the legacy files,
    sorted by path.  The theorems: the stack-driven walk ends and finds exactly
    the rule files below its root, and the collected list is strictly sorted by
    path, without duplicates. *)

From S2P Require Import Prelude.

(** ** Paths

    A [PathBuf] is its text.  Comparison, equality and hashing go through
    [components]: repeated separators and inner [.] disappear. *)

Inductive component := RootDir | CurDir | ParentDir | Normal (s : string).
Global Instance component_eq_dec : EqDecision component.
Proof. solve_decision. Defined.

Definition component_of (s : string) : component :=
  if decide (s = "..") then ParentDir else Normal s.

Definition components (p : string) : list component :=
  let pieces := filter (λ s, is_empty s = false) (split_char "/" p) in
  let inner := map component_of (filter (λ s, s ≠ ".") pieces) in
  if starts_with "/" p then RootDir :: inner
  else if decide (head pieces = Some ".") then CurDir :: inner
  else inner.

Definition component_rank (c : component) : nat :=
  match c with RootDir => 1 | CurDir => 2 | ParentDir => 3 | Normal _ => 4 end.

(** [Component]'s derived order. *)
Definition component_compare (a b : component) : comparison :=
  match a, b with
  | Normal s, Normal t => String.compare s t
  | _, _ => Nat.compare (component_rank a) (component_rank b)
  end.

Definition components_compare : list component → list component → comparison :=
  list_compare component_compare.

Definition path_compare (a b : string) : comparison :=
  components_compare (components a) (components b).
Definition path_eqb (a b : string) : bool := bool_decide (components a = components b).

(** [base.join(p)]: an absolute [p] replaces the base. *)
Definition path_join (base p : string) : string :=
  if starts_with "/" p then p
  else if is_empty base || ends_with "/" base then base +:+ p
  else base +:+ "/" +:+ p.

(** [path.file_name()] of a path that ends in a normal component. *)
Definition file_name (p : string) : option string :=
  match last (components p) with Some (Normal s) => Some s | _ => None end.

(** [path.extension()]: what follows the last dot of the file name, unless the
    name has no other part. *)
Definition extension (p : string) : option string :=
  match file_name p with
  | None => None
  | Some name =>
      match rev (split_char "." name) with
      | after :: before => match before with
                           | [] => None
                           | _ => if is_empty (join "." (rev before)) then None else Some after
                           end
      | [] => None
      end
  end.

(** [path.with_extension(ext)], for the path of a file. *)
Definition with_extension (p ext : string) : string :=
  match extension p with
  | Some e => String.substring 0 (String.length p - String.length e) p +:+ ext
  | None => p +:+ "." +:+ ext
  end.

(** [path.file_stem()]: the file name without its extension. *)
Definition file_stem (p : string) : option string :=
  match file_name p, extension p with
  | Some name, Some e => Some (String.substring 0 (String.length name - String.length e - 1) name)
  | name, None => name
  | None, _ => None
  end.

(** [path.set_file_name(name)], for a path that ends in its file name. *)
Definition with_file_name (p name : string) : string :=
  match file_name p with
  | Some old => String.substring 0 (String.length p - String.length old) p +:+ name
  | None => path_join p name
  end.

(** ** Directory trees

    What [is_dir], [is_file], [read_dir] and [read_to_string] report; a path
    taken from a listing is kept together with the node it names.  [FBroken] is
    an entry that is neither a file nor a directory and cannot be read (a
    dangling link).  The trees are finite: links to directories above are left
    out. *)

Inductive fnode :=
| FFile (content : result string string)
| FDir (entries : result string (list (result string (string * fnode))))
| FBroken (error : string).

Definition is_dir (n : fnode) : bool := match n with FDir _ => true | _ => false end.
Definition is_file (n : fnode) : bool := match n with FFile _ => true | _ => false end.

Definition read_to_string (n : fnode) : result string string :=
  match n with
  | FFile c => c
  | FDir _ => Err "Is a directory (os error 21)"
  | FBroken e => Err e
  end.

(** The child of a directory with a given name. *)
Fixpoint find_entry (name : string) (es : list (result string (string * fnode))) : option fnode :=
  match es with
  | [] => None
  | Ok (n, c) :: es' => if decide (n = name) then Some c else find_entry name es'
  | Err _ :: es' => find_entry name es'
  end.

Definition child (name : string) (n : fnode) : option fnode :=
  match n with FDir (Ok es) => find_entry name es | _ => None end.

(** Resolution of a path: the directories entered so far are a stack, which
    [..] pops. *)
Fixpoint walk (stack : list fnode) (cs : list component) : option fnode :=
  match cs with
  | [] => head stack
  | (RootDir | CurDir) :: cs' => walk stack cs'
  | ParentDir :: cs' => walk (match stack with _ :: (_ :: _) as s => s | _ => stack end) cs'
  | Normal name :: cs' =>
      match stack with
      | n :: _ => match child name n with
                  | Some c => walk (c :: stack) cs'
                  | None => None
                  end
      | [] => None
      end
  end.

(** The file system seen by the process: its tree and the directories from the
    current one up to the root. *)
Record FileSystem := mkFileSystem {
  fs_cwd : list fnode
}.

Definition resolve (fs : FileSystem) (p : string) : option fnode :=
  let cs := components p in
  if starts_with "/" p
  then walk (match last (fs_cwd fs) with Some r => [r] | None => [] end) cs
  else walk (fs_cwd fs) cs.

(** [path.exists()] *)
Definition exists_path (fs : FileSystem) (p : string) : bool :=
  match resolve fs p with
  | Some (FBroken _) | None => false
  | Some _ => true
  end.

(** [fs::read_to_string] on a path. *)
Definition read_path (fs : FileSystem) (p : string) : result string string :=
  match resolve fs p with
  | Some n => read_to_string n
  | None => Err "No such file or directory (os error 2)"
  end.

(** [fs::read_dir] on a resolved path. *)
Definition read_dir (n : option fnode) : result string (list (result string (string * fnode))) :=
  match n with
  | Some (FDir es) => es
  | Some (FFile _) => Err "Not a directory (os error 20)"
  | Some (FBroken e) => Err e
  | None => Err "No such file or directory (os error 2)"
  end.

(** ** Collection *)

Definition is_rule_file (path : string) : bool :=
  match extension path with
  | Some e => bool_decide (e = "yaml") || bool_decide (e = "yml")
  | None => false
  end.

(** A collected file: its path, its pack, and the node the path names. *)
Record RuleFile := mkRuleFile { rf_path : string; rf_pack : string; rf_node : fnode }.

(** The [seen] set, tested with the path equality, and the [out] vector. *)
Definition acc : Type := list string * list RuleFile.

(** [seen.insert(path)], then [out.push]. *)
Definition insert_file (a : acc) (path pack : string) (n : fnode) : acc :=
  let '(seen, out) := a in
  if existsb (path_eqb path) seen then (seen, out)
  else (path :: seen, out ++ [mkRuleFile path pack n]).

(** The entries of one directory: subdirectories are pushed (the top of the
    stack is the head of the list), rule files are recorded. *)
Fixpoint visit_entries (pack dir : string) (es : list (result string (string * fnode)))
    (stack : list (string * fnode)) (a : acc) : result string (list (string * fnode) * acc) :=
  match es with
  | [] => Ok (stack, a)
  | Err e :: _ => Err ("读取目录项失败: " +:+ e)
  | Ok (name, n) :: es' =>
      let path := path_join dir name in
      if is_dir n then visit_entries pack dir es' ((path, n) :: stack) a
      else visit_entries pack dir es' stack
             (if is_rule_file path then insert_file a path pack n else a)
  end.

Fixpoint collect_loop (fuel : nat) (pack : string) (stack : list (string * fnode)) (a : acc)
  : option (result string acc) :=
  match stack with
  | [] => Some (Ok a)
  | (dir, n) :: stack' =>
      match fuel with
      | 0 => None
      | S fuel' =>
          match read_dir (Some n) with
          | Err e => Some (Err ("读取规则目录失败 " +:+ dir +:+ ": " +:+ e))
          | Ok es =>
              match visit_entries pack dir es stack' a with
              | Err e => Some (Err e)
              | Ok (stack'', a') => collect_loop fuel' pack stack'' a'
              end
          end
      end
  end.

(** The number of nodes of a tree bounds the directories the walk opens. *)
Fixpoint tree_size (n : fnode) : nat :=
  match n with
  | FDir (Ok es) =>
      S (list_sum (map (λ r, match r with Ok (_, c) => tree_size c | Err _ => 0 end) es))
  | _ => 1
  end.

Definition collect_rules_recursively (fs : FileSystem) (root pack : string) (a : acc)
  : result string acc :=
  match resolve fs root with
  | Some n =>
      match collect_loop (tree_size n) pack [(root, n)] a with
      | Some r => r
      | None => Err "out of fuel"
      end
  | None => Err ("读取规则目录失败 " +:+ root +:+ ": No such file or directory (os error 2)")
  end.

(** The files directly in the rule directory. *)
Fixpoint legacy_entries (dir : string) (es : list (result string (string * fnode))) (a : acc)
  : result string acc :=
  match es with
  | [] => Ok a
  | Err e :: _ => Err ("读取目录项失败: " +:+ e)
  | Ok (name, n) :: es' =>
      let path := path_join dir name in
      legacy_entries dir es'
        (if is_file n && is_rule_file path && bool_decide (file_name path ≠ Some "manifest.yaml")
         then insert_file a path "legacy" n else a)
  end.

Definition collect_legacy_rules (fs : FileSystem) (dir_path : string) (a : acc)
  : result string acc :=
  match read_dir (resolve fs dir_path) with
  | Err e => Err ("读取规则目录失败: " +:+ e)
  | Ok es =>
      match legacy_entries dir_path es a with
      | Err e => Err e
      | Ok a' =>
          let legacy_dir := path_join dir_path "legacy" in
          if exists_path fs legacy_dir
          then collect_rules_recursively fs legacy_dir "legacy" a'
          else Ok a'
      end
  end.

(** ** The manifest

    The wire form keeps which optional fields the file has; the defaults are
    those of the source's attributes: a field missing in a table takes
    [default_true] or the empty vector, a missing [legacy] table is
    [ManifestLegacy::default()], whose derived [enabled] is [false]. *)

Record ManifestPackWire := mkManifestPackWire {
  mpw_name : string; mpw_enabled : option bool; mpw_dir : string }.
Record RulesManifestWire := mkRulesManifestWire {
  mw_version : N; mw_packs : option (list ManifestPackWire); mw_legacy : option (option bool) }.

Record ManifestPack := mkManifestPack { pack_name : string; pack_enabled : bool; pack_dir : string }.
Record RulesManifest := mkRulesManifest {
  mf_version : N; mf_packs : list ManifestPack; mf_legacy_enabled : bool }.

Definition default_true : bool := true.

Definition manifest_of_wire (w : RulesManifestWire) : RulesManifest :=
  mkRulesManifest (mw_version w)
    (map (λ p, mkManifestPack (mpw_name p) (default default_true (mpw_enabled p)) (mpw_dir p))
       (default [] (mw_packs w)))
    (match mw_legacy w with
     | Some enabled => default default_true enabled
     | None => false
     end).

Section collect.
(** The YAML parser of the manifest. *)
Context (parse_manifest : string → result string RulesManifestWire).

Fixpoint collect_packs (fs : FileSystem) (dir_path : string) (packs : list ManifestPack) (a : acc)
  : result string acc :=
  match packs with
  | [] => Ok a
  | p :: packs' =>
      if pack_enabled p then
        let pack_dir := path_join dir_path (pack_dir p) in
        if exists_path fs pack_dir then
          match collect_rules_recursively fs pack_dir (pack_name p) a with
          | Ok a' => collect_packs fs dir_path packs' a'
          | Err e => Err e
          end
        else collect_packs fs dir_path packs' a
      else collect_packs fs dir_path packs' a
  end.

(** [a.0.cmp(&b.0)] is not [Greater]. *)
Definition file_le (x y : RuleFile) : bool :=
  match path_compare (rf_path x) (rf_path y) with Gt => false | _ => true end.

Definition collect_rule_files (fs : FileSystem) (dir_path : string)
  : result string (list RuleFile) :=
  let manifest_path := path_join dir_path "manifest.yaml" in
  let collected :=
    if exists_path fs manifest_path then
      match read_path fs manifest_path with
      | Err e => Err ("读取规则 manifest 失败 " +:+ manifest_path +:+ ": " +:+ e)
      | Ok manifest_raw =>
          match parse_manifest manifest_raw with
          | Err e => Err ("解析规则 manifest 失败 " +:+ manifest_path +:+ ": " +:+ e)
          | Ok w =>
              let manifest := manifest_of_wire w in
              if decide (mf_version manifest ≠ 1%N) then
                Err ("规则 manifest version 不支持: " +:+ pretty (mf_version manifest)
                     +:+ " (expected 1)")
              else
                match collect_packs fs dir_path (mf_packs manifest) ([], []) with
                | Err e => Err e
                | Ok a => if mf_legacy_enabled manifest
                          then collect_legacy_rules fs dir_path a else Ok a
                end
          end
      end
    else collect_legacy_rules fs dir_path ([], []) in
  match collected with
  | Err e => Err e
  | Ok (_, files) => Ok (stable_sort file_le files)
  end.
End collect.

Section collect_example.
Let yaml (s : string) := FFile (Ok s).
Let dir (es : list (string * fnode)) := FDir (Ok (map Ok es)).
Let fs := mkFileSystem [dir [("rules", dir
  [("zz.yml", yaml "z"); ("manifest.yaml", yaml "m"); ("notes.md", yaml "n");
   ("legacy", dir [("old.yaml", yaml "o"); ("deep", dir [("x.yaml", yaml "x")])]);
   ("core", dir [("b.yaml", yaml "b"); ("a.yaml", yaml "a"); (".yaml", yaml "h")])])]].
Let manifest := mkRulesManifestWire 1
  (Some [mkManifestPackWire "core" None "core"; mkManifestPackWire "gone" None "gone"]) (Some None).

Example collect_rule_files_example :
  match collect_rule_files (λ _, Ok manifest) fs "rules" with
  | Ok files => map (λ f, (rf_path f, rf_pack f)) files
  | Err _ => []
  end =
  [("rules/core/a.yaml", "core"); ("rules/core/b.yaml", "core");
   ("rules/legacy/deep/x.yaml", "legacy"); ("rules/legacy/old.yaml", "legacy");
   ("rules/zz.yml", "legacy")].
Proof. vm_compute. reflexivity. Qed.
End collect_example.

(** ** What the walk finds *)

Global Instance component_compare_order : CompareOrder component_compare.
Proof.
  split.
  - intros [] []; simpl; try done. apply cmp_antisym.
  - intros [] []; simpl; try done. rewrite cmp_eq. naive_solver.
  - intros [] [] []; simpl; try done. apply cmp_trans.
Qed.

(** Every directory of the tree can be listed. *)
Fixpoint readable (n : fnode) : bool :=
  match n with
  | FDir (Ok es) => forallb (λ r, match r with Ok (_, c) => readable c | Err _ => false end) es
  | FDir (Err _) => false
  | _ => true
  end.

(** [below dir n p m]: the path [p] names the file [m] under [n], listed as [dir]. *)
Inductive below : string → fnode → string → fnode → Prop :=
| below_entry dir es name c :
    Ok (name, c) ∈ es → is_dir c = false → below dir (FDir (Ok es)) (path_join dir name) c
| below_dir dir es name c p m :
    Ok (name, c) ∈ es → below (path_join dir name) c p m → below dir (FDir (Ok es)) p m.

Definition entry_dir (dir : string) (r : result string (string * fnode))
  : option (string * fnode) :=
  match r with
  | Ok (name, c) => if is_dir c then Some (path_join dir name, c) else None
  | Err _ => None
  end.
Definition entry_file (dir : string) (r : result string (string * fnode))
  : option (string * fnode) :=
  match r with
  | Ok (name, c) => if negb (is_dir c) && is_rule_file (path_join dir name)
                    then Some (path_join dir name, c) else None
  | Err _ => None
  end.

Definition insert_files (pack : string) (a : acc) (l : list (string * fnode)) : acc :=
  foldl (λ a '(p, n), insert_file a p pack n) a l.

Lemma visit_entries_ok pack dir es stack a :
  forallb is_ok es = true →
  visit_entries pack dir es stack a
  = Ok (rev (omap (entry_dir dir) es) ++ stack, insert_files pack a (omap (entry_file dir) es)).
Proof.
  revert stack a. induction es as [|[[name c]|e] es IH]; intros stack a Hok; simpl; [done|..|done].
  destruct (is_dir c); simpl; rewrite IH by done.
  - by rewrite <-app_assoc.
  - by destruct (is_rule_file _).
Qed.

Lemma visit_entries_err pack dir es stack a :
  forallb is_ok es = false → ∃ e, visit_entries pack dir es stack a = Err e.
Proof.
  revert stack a. induction es as [|[[name c]|e] es IH]; intros stack a Hok; simpl; [done|..|by eexists].
  destruct (is_dir c); by apply IH.
Qed.

Definition stack_size (stack : list (string * fnode)) : nat :=
  list_sum (map (λ x, tree_size x.2) stack).

Lemma stack_size_app s t : stack_size (s ++ t) = stack_size s + stack_size t.
Proof. unfold stack_size. by rewrite map_app, list_sum_app. Qed.

Definition entry_size (r : result string (string * fnode)) : nat :=
  match r with Ok (_, c) => tree_size c | Err _ => 0 end.

Lemma tree_size_dir es : tree_size (FDir (Ok es)) = S (list_sum (map entry_size es)).
Proof. done. Qed.

Lemma subdirs_size dir es :
  stack_size (rev (omap (entry_dir dir) es)) < tree_size (FDir (Ok es)).
Proof.
  assert (stack_size (rev (omap (entry_dir dir) es)) = stack_size (omap (entry_dir dir) es)) as ->.
  { unfold stack_size. rewrite map_rev. by rewrite <-Permutation_rev. }
  rewrite tree_size_dir. apply Nat.lt_succ_r. induction es as [|r es IH]; [done|].
  change (r :: es) with ([r] ++ es). rewrite omap_app, stack_size_app, map_app, list_sum_app.
  apply Nat.add_le_mono; [|done]. destruct r as [[name c]|e]; [|done].
  simpl. destruct (is_dir c); unfold stack_size; simpl; lia.
Qed.

Lemma stack_size_cons d n s : stack_size ((d, n) :: s) = tree_size n + stack_size s.
Proof. done. Qed.

Lemma tree_size_pos n : 0 < tree_size n.
Proof. destruct n as [|[]|]; [simpl; lia|rewrite tree_size_dir; lia|simpl; lia..]. Qed.

Definition entry_readable (r : result string (string * fnode)) : bool :=
  match r with Ok (_, c) => readable c | Err _ => false end.

Lemma readable_dir es : readable (FDir (Ok es)) = forallb entry_readable es.
Proof. done. Qed.

Lemma elem_of_subdirs dir (es : list (result string (string * fnode))) p c :
  (p, c) ∈ rev (omap (entry_dir dir) es) ↔
  ∃ name, Ok (name, c) ∈ es ∧ is_dir c = true ∧ p = path_join dir name.
Proof.
  rewrite <-Permutation_rev, list_elem_of_omap. split.
  - intros ([[name c']|e] & Hin & Hr); simpl in Hr; [|done].
    destruct (is_dir c') eqn:E; simplify_eq. eauto.
  - intros (name & Hin & Hd & ->). exists (Ok (name, c)). simpl. by rewrite Hd.
Qed.

Lemma elem_of_files dir (es : list (result string (string * fnode))) p c :
  (p, c) ∈ omap (entry_file dir) es ↔
  ∃ name, Ok (name, c) ∈ es ∧ is_dir c = false ∧ is_rule_file p = true ∧ p = path_join dir name.
Proof.
  rewrite list_elem_of_omap. split.
  - intros ([[name c']|e] & Hin & Hr); simpl in Hr; [|done].
    destruct (is_dir c') eqn:E, (is_rule_file _) eqn:E'; simplify_eq/=. eauto.
  - intros (name & Hin & Hd & Hr & ->). exists (Ok (name, c)). simpl. by rewrite Hd, Hr.
Qed.

(** What is below a directory: its files, and what is below its subdirectories. *)
Lemma below_split dir es p m :
  below dir (FDir (Ok es)) p m ↔
  (∃ name, Ok (name, m) ∈ es ∧ is_dir m = false ∧ p = path_join dir name)
  ∨ (∃ name c, Ok (name, c) ∈ es ∧ is_dir c = true ∧ below (path_join dir name) c p m).
Proof.
  split.
  - inversion 1 as [? ? name|? ? ? ? ? ? ? Hb]; simplify_eq; [left; by exists name|].
    right. eexists _, _. split_and!; [done| |done]. by inversion Hb.
  - intros [(name & ? & ? & ->)|(name & c & ? & ? & ?)]; [by econstructor|by eapply below_dir].
Qed.

Lemma below_file dir n p m : below dir n p m → is_dir m = false.
Proof. by induction 1. Qed.

Lemma collect_loop_ok fuel pack stack a :
  stack_size stack ≤ fuel →
  (∀ d n, (d, n) ∈ stack → is_dir n = true ∧ readable n = true) →
  ∃ l, collect_loop fuel pack stack a = Some (Ok (insert_files pack a l))
    ∧ ∀ p m, (p, m) ∈ l ↔ is_rule_file p = true ∧ ∃ d n, (d, n) ∈ stack ∧ below d n p m.
Proof.
  revert stack a. induction fuel as [|fuel IH]; intros [|[d n] stack] a Hs Hok; simpl.
  1,3: exists []; split; [done|]; intros p m; split; [by intros ?%elem_of_nil|];
       intros (_ & ? & ? & ?%elem_of_nil & _); done.
  { rewrite stack_size_cons in Hs. pose proof (tree_size_pos n). lia. }
  destruct (Hok d n) as [Hd Hr]; [by left|].
  destruct n as [|[es|]|]; try done. cbn [read_dir]. rewrite readable_dir in Hr.
  rewrite visit_entries_ok.
  2: { rewrite forallb_forall in *. intros r Hin%Hr. by destruct r as [[]|]. }
  destruct (IH (rev (omap (entry_dir d) es) ++ stack)
              (insert_files pack a (omap (entry_file d) es))) as (l & Hl & Hm).
  - rewrite stack_size_app. pose proof (subdirs_size d es).
    rewrite stack_size_cons in Hs. lia.
  - intros d' n' [Hin|Hin]%elem_of_app; [|apply (Hok d'); by right].
    apply elem_of_subdirs in Hin as (name & Hin & Hd' & _). split; [done|].
    rewrite forallb_forall in Hr. by apply list_elem_of_In, Hr in Hin.
  - exists (omap (entry_file d) es ++ l). split.
    + rewrite Hl. unfold insert_files. by rewrite foldl_app.
    + intros p m. rewrite elem_of_app, Hm, elem_of_files. split.
      * intros [(name & ? & ? & ? & ->)|(? & d' & n' & [Hin|Hin]%elem_of_app & ?)];
          (split; [done|]).
        -- eexists _, _. split; [by left|]. by econstructor.
        -- apply elem_of_subdirs in Hin as (name & ? & ? & ->).
           eexists _, _. split; [by left|]. by eapply below_dir.
        -- eexists _, _. split; [by right|done].
      * intros (? & d' & n' & [[= -> ->]|Hin]%elem_of_cons & Hb).
        -- apply below_split in Hb as [(name & ? & ? & ->)|(name & c & ? & ? & ?)];
             [left; by exists name|].
           right. split; [done|]. eexists _, _. split; [|done]. apply elem_of_app. left.
           apply elem_of_subdirs. by exists name.
        -- right. split; [done|]. eexists _, _. split; [|done]. apply elem_of_app. by right.
Qed.

Lemma unreadable_is_dir n : readable n = false → is_dir n = true.
Proof. by destruct n as [|[]|]. Qed.

Lemma collect_loop_err fuel pack stack a d n :
  stack_size stack ≤ fuel → (d, n) ∈ stack → is_dir n && readable n = false →
  ∃ e, collect_loop fuel pack stack a = Some (Err e).
Proof.
  revert stack a d n.
  induction fuel as [|fuel IH]; intros [|[d0 n0] stack] a d n Hs Hin Hr;
    [by apply elem_of_nil in Hin| |by apply elem_of_nil in Hin|].
  { rewrite stack_size_cons in Hs. pose proof (tree_size_pos n0). lia. }
  simpl. destruct n0 as [c|[es|e]|e]; simpl; try by eexists.
  destruct (forallb is_ok es) eqn:Eok.
  2: { destruct (visit_entries_err pack d0 es stack a Eok) as [e ->]. by eexists. }
  rewrite visit_entries_ok by done. rewrite stack_size_cons in Hs.
  pose proof (subdirs_size d0 es). apply elem_of_cons in Hin as [[= -> ->]|Hin].
  - simpl is_dir in Hr. rewrite andb_true_l, readable_dir in Hr.
    assert (∃ name c, Ok (name, c) ∈ es ∧ readable c = false) as (name & c & Hc & Hrc).
    { clear -Hr Eok. induction es as [|[[name c]|] es IHes]; simpl in *; [done|..|done].
      destruct (readable c) eqn:E; [|exists name, c; split; [by left|done]].
      destruct (IHes Hr Eok) as (name' & c' & ? & ?). exists name', c'. split; [by right|done]. }
    eapply (IH _ _ (path_join d0 name) c); [rewrite stack_size_app; lia| |by rewrite Hrc, andb_false_r].
    apply elem_of_app. left. apply elem_of_subdirs. exists name.
    split_and!; [done|by apply unreadable_is_dir|done].
  - eapply (IH _ _ d n); [rewrite stack_size_app; lia| |done]. apply elem_of_app. by right.
Qed.

(** The [seen] set and the output agree, and no file is recorded twice. *)
Definition acc_wf (a : acc) : Prop :=
  NoDup (map (λ f, components (rf_path f)) a.2)
  ∧ ∀ p, existsb (path_eqb p) a.1 = true ↔ ∃ f, f ∈ a.2 ∧ components (rf_path f) = components p.

Lemma acc_wf_nil : acc_wf ([], []).
Proof.
  split; [constructor|]. intros p. split; [done|]. by intros (f & ?%elem_of_nil & _).
Qed.
#[export] Hint Resolve acc_wf_nil : ark.

Lemma insert_file_wf a p pack n : acc_wf a → acc_wf (insert_file a p pack n).
Proof.
  destruct a as [seen out]. intros [Hnd Hs]; simpl in *.
  destruct (existsb (path_eqb p) seen) eqn:E; [done|]. split; simpl.
  - rewrite map_app. apply NoDup_app. split_and!; [done| |apply NoDup_singleton].
    intros c (f & -> & Hf)%list_elem_of_fmap Hc%list_elem_of_singleton.
    rewrite <-not_true_iff_false in E. apply E, Hs. eauto.
  - intros q. rewrite orb_true_iff, Hs. unfold path_eqb. rewrite bool_decide_eq_true.
    setoid_rewrite elem_of_app. setoid_rewrite list_elem_of_singleton. split.
    + intros [Hq|(f & ? & ?)]; [|by eauto]. eexists. split; [by right|done].
    + intros (f & [?| ->] & ?); [right; eauto|by left].
Qed.

Lemma insert_file_elem a p pack n f :
  f ∈ (insert_file a p pack n).2 → f ∈ a.2 ∨ f = mkRuleFile p pack n.
Proof.
  destruct a as [seen out]. simpl. case_match; simpl; [auto|].
  by intros [?|?%list_elem_of_singleton]%elem_of_app; auto.
Qed.

Lemma insert_file_incl a p pack n f : f ∈ a.2 → f ∈ (insert_file a p pack n).2.
Proof. destruct a as [seen out]. simpl. case_match; simpl; [auto|]. intros. apply elem_of_app. auto. Qed.

Lemma insert_file_covers a p pack n :
  acc_wf a → ∃ f, f ∈ (insert_file a p pack n).2 ∧ components (rf_path f) = components p.
Proof.
  destruct a as [seen out]. intros [_ Hs]. simpl in *.
  destruct (existsb (path_eqb p) seen) eqn:E; [by apply Hs|].
  eexists. split; [apply elem_of_app; right; by left|done].
Qed.

Lemma insert_files_spec pack a l :
  acc_wf a → let a' := insert_files pack a l in
  acc_wf a' ∧ (∀ f, f ∈ a.2 → f ∈ a'.2)
  ∧ (∀ f, f ∈ a'.2 → f ∈ a.2 ∨ (rf_path f, rf_node f) ∈ l ∧ rf_pack f = pack)
  ∧ (∀ p m, (p, m) ∈ l → ∃ f, f ∈ a'.2 ∧ components (rf_path f) = components p).
Proof.
  revert a. induction l as [|[p n] l IH]; intros a Hwf; simpl.
  { split_and!; [done|auto..|]. by intros p m ?%elem_of_nil. }
  destruct (IH (insert_file a p pack n)) as (Hwf' & Hin & Hel & Hcov);
    [by apply insert_file_wf|]. split_and!; [done|..].
  - intros f Hf. by apply Hin, insert_file_incl.
  - intros f [Hf|[Hf Hp]]%Hel; [|right; split; [by right|done]].
    apply insert_file_elem in Hf as [Hf| ->]; [by left|]. right. split; [by left|done].
  - intros q m [[= -> ->]|Hq]%elem_of_cons; [|by eapply Hcov].
    destruct (insert_file_covers a p pack n Hwf) as (f & Hf & Hc). eauto.
Qed.

Lemma collect_rules_recursively_wf fs root pack a a' :
  acc_wf a → collect_rules_recursively fs root pack a = Ok a' → acc_wf a'.
Proof.
  intros Hwf. unfold collect_rules_recursively. destruct (resolve fs root) as [n|]; [|done].
  destruct (is_dir n && readable n) eqn:E.
  - apply andb_true_iff in E as [Hd Hr].
    destruct (collect_loop_ok (tree_size n) pack [(root, n)] a) as (l & -> & _).
    { rewrite stack_size_cons. unfold stack_size; simpl. lia. }
    { intros d m [= -> ->]%list_elem_of_singleton. done. }
    intros [= <-]. by apply insert_files_spec.
  - destruct (collect_loop_err (tree_size n) pack [(root, n)] a root n) as [e ->];
      [rewrite stack_size_cons; unfold stack_size; simpl; lia|by left|done|done].
Qed.

Lemma legacy_entries_wf dir es a a' :
  acc_wf a → legacy_entries dir es a = Ok a' → acc_wf a'.
Proof.
  revert a. induction es as [|[[name n]|e] es IH]; intros a Hwf; simpl;
    [by intros [= <-]|..|done].
  apply IH. case_match; [by apply insert_file_wf|done].
Qed.

Lemma collect_legacy_rules_wf fs dir a a' :
  acc_wf a → collect_legacy_rules fs dir a = Ok a' → acc_wf a'.
Proof.
  intros Hwf. unfold collect_legacy_rules. case_match; [|done].
  destruct (legacy_entries _ _ _) eqn:E; [|done]. apply legacy_entries_wf in E; [|done].
  case_match; [by apply collect_rules_recursively_wf|by intros [= <-]].
Qed.

Lemma collect_packs_wf fs dir packs a a' :
  acc_wf a → collect_packs fs dir packs a = Ok a' → acc_wf a'.
Proof.
  revert a. induction packs as [|p packs IH]; intros a Hwf; simpl; [by intros [= <-]|].
  case_match; [|by apply IH]. case_match; [|by apply IH].
  destruct (collect_rules_recursively _ _ _ _) eqn:E; [|done].
  apply collect_rules_recursively_wf in E; [by apply IH|done].
Qed.

Lemma file_le_sorted l :
  NoDup (map (λ f, components (rf_path f)) l) →
  StronglySorted (λ f g, path_compare (rf_path f) (rf_path g) = Lt) (stable_sort file_le l).
Proof.
  intros Hnd. assert (NoDup (map (λ f, components (rf_path f)) (stable_sort file_le l))) as Hnd'.
  { by rewrite (stable_sort_perm file_le l). }
  pose proof (stable_sort_sorted file_le
    (λ x y, cmp_le_total components_compare (components (rf_path x)) (components (rf_path y)))
    (λ x y z, cmp_le_trans components_compare (components (rf_path x)) (components (rf_path y))
                (components (rf_path z))) l) as Hs.
  revert Hnd'. induction Hs as [|f l' Hs IH Hf]; intros Hn; [constructor|].
  simpl in Hn. apply NoDup_cons in Hn as [Hn1 Hn2]. constructor; [by apply IH|].
  apply Forall_forall. intros g Hg. rewrite Forall_forall in Hf. specialize (Hf g Hg).
  unfold file_le, path_compare in *. destruct (components_compare _ _) eqn:E; [|done..].
  apply cmp_eq in E. destruct Hn1. rewrite E. apply list_elem_of_fmap. eauto.
Qed.

Lemma collect_rule_files_sorted parse fs dir files :
  collect_rule_files parse fs dir = Ok files →
  StronglySorted (λ f g, path_compare (rf_path f) (rf_path g) = Lt) files.
Proof.
  unfold collect_rule_files. set (collected := if exists_path _ _ then _ else _).
  assert (∀ a, collected = Ok a → acc_wf a) as Hwf.
  { intros a. unfold collected. repeat (case_match; try done);
      try (apply collect_legacy_rules_wf; eauto using collect_packs_wf with ark).
    intros [= <-]. eauto using collect_packs_wf with ark. }
  destruct collected as [[seen out]|e]; [|done]. intros [= <-].
  apply file_le_sorted. by destruct (Hwf _ eq_refl).
Qed.

(** ** Claims *)

(** C36 The stack-driven directory walk always ends.  When every directory under
    the pack can be listed it returns, for every rule file below the root and
    for nothing else, exactly one entry (paths compared by their components),
    labelled with the pack; when some directory cannot be listed it fails. *)
Theorem pack_walk_exact fs root pack n :
  resolve fs root = Some n →
  if is_dir n && readable n then
    ∃ seen out, collect_rules_recursively fs root pack ([], []) = Ok (seen, out)
      ∧ NoDup (map (λ f, components (rf_path f)) out)
      ∧ (∀ f, f ∈ out → rf_pack f = pack ∧ is_rule_file (rf_path f) = true
           ∧ below root n (rf_path f) (rf_node f))
      ∧ (∀ p m, below root n p m → is_rule_file p = true →
           ∃ f, f ∈ out ∧ components (rf_path f) = components p)
  else ∃ e, collect_rules_recursively fs root pack ([], []) = Err e.
Proof.
  intros Hn. unfold collect_rules_recursively. rewrite Hn.
  assert (stack_size [(root, n)] ≤ tree_size n) as Hsz
    by (rewrite stack_size_cons; unfold stack_size; simpl; lia).
  destruct (is_dir n && readable n) eqn:E.
  - apply andb_true_iff in E as [Hd Hr].
    destruct (collect_loop_ok _ pack [(root, n)] ([], []) Hsz) as (l & -> & Hl).
    { by intros d m [= -> ->]%list_elem_of_singleton. }
    destruct (insert_files_spec pack ([], []) l acc_wf_nil) as ([Hnd _] & _ & Hel & Hcov).
    destruct (insert_files _ _ _) as [seen out]. exists seen, out. split_and!; [done..| |].
    + intros f [?%elem_of_nil|[Hf Hp]]%Hel; [done|]. apply Hl in Hf as (? & d & m & Hm & ?).
      apply list_elem_of_singleton in Hm as [= -> ->]. done.
    + intros p m Hb Hp. apply (Hcov p m), Hl. split; [done|]. exists root, n.
      split; [by left|done].
  - destruct (collect_loop_err _ pack [(root, n)] ([], []) root n Hsz) as [e ->];
      [by left|done|by eexists].
Qed.

(** The collected rule files come out strictly ordered by path: sorted, and
    no file twice, whichever packs and listings they were found through. *)
Theorem rule_files_sorted_unique parse_manifest fs dir files :
  collect_rule_files parse_manifest fs dir = Ok files →
  StronglySorted (λ f g, path_compare (rf_path f) (rf_path g) = Lt) files.
Proof. apply collect_rule_files_sorted. Qed.

(** A small rule directory. *)
Definition listed (es : list (string * fnode)) := FDir (Ok (map Ok es)).
Definition small_fs := mkFileSystem [listed [("rules", listed [("b.yaml", FFile (Ok "b")); ("a.yml", FFile (Ok "a"))])]].

Lemma pack_walk_exact_witness :
  ∃ n, resolve small_fs "rules" = Some n ∧ ∃ seen out,
    collect_rules_recursively small_fs "rules" "core" ([], []) = Ok (seen, out)
    ∧ NoDup (map (λ f, components (rf_path f)) out).
Proof.
  eexists. split; [reflexivity|].
  destruct (pack_walk_exact small_fs "rules" "core" _ eq_refl) as (seen & out & H & Hn & _).
  exists seen, out. split; [exact H|exact Hn].
Defined.

Lemma rule_files_sorted_unique_witness :
  ∃ files, collect_rule_files Err small_fs "rules" = Ok files ∧ length files = 2
    ∧ StronglySorted (λ f g, path_compare (rf_path f) (rf_path g) = Lt) files.
Proof.
  eexists. split; [reflexivity|]. split; [reflexivity|].
  exact (rule_files_sorted_unique Err small_fs "rules" _ eq_refl).
Defined.
