(* ===== verification/RuleEngine.v ===== *)
(** * The rule engine (core/src/rules/mod.rs: loading and matching)

    Loading reads the collected files, parses and normalises them, gives every
    rule an id, refuses duplicate ids, counts what it skips and sorts by
    priority.  Matching walks the rules in that order.  The YAML parser is a
    parameter.  The theorems: what a successful load holds, when a load fails,
    that the counters account for every file, and that the rule returned first
    has the highest priority among those that match. *)

From Stdlib Require Import SpecFloat.
From S2P Require Import Prelude F64 Event Signals Graph RuleFiles Rule Matcher.

(** ** Loading *)

Record RuleSkipSample := mkRuleSkipSample {
  sample_path : string; sample_reason : string; sample_detail : string }.

Record RuleLoadStats := mkRuleLoadStats {
  loaded_rules : nat;
  legacy_total : nat;
  legacy_migratable_total : nat;
  legacy_unsupported_total : nat;
  skipped_rules : nat;
  skipped_by_reason : gmap string nat;
  skipped_samples : list RuleSkipSample
}.

Definition stats_default : RuleLoadStats := mkRuleLoadStats 0 0 0 0 0 ∅ [].

Record RuleEngine := mkRuleEngine { engine_rules : list Rule; load_stats : RuleLoadStats }.

Definition rule_count (e : RuleEngine) : nat := length (engine_rules e).

Definition count_migrated (s : RuleLoadStats) : RuleLoadStats :=
  mkRuleLoadStats (loaded_rules s) (S (legacy_total s)) (S (legacy_migratable_total s))
    (legacy_unsupported_total s) (skipped_rules s) (skipped_by_reason s) (skipped_samples s).

Definition count_unsupported (s : RuleLoadStats) : RuleLoadStats :=
  mkRuleLoadStats (loaded_rules s) (S (legacy_total s)) (legacy_migratable_total s)
    (S (legacy_unsupported_total s)) (skipped_rules s) (skipped_by_reason s) (skipped_samples s).

Definition count_loaded (s : RuleLoadStats) : RuleLoadStats :=
  mkRuleLoadStats (S (loaded_rules s)) (legacy_total s) (legacy_migratable_total s)
    (legacy_unsupported_total s) (skipped_rules s) (skipped_by_reason s) (skipped_samples s).

(** The reason counter, the total and the sample of one skipped file. *)
Definition count_skipped (path reason detail : string) (s : RuleLoadStats) : RuleLoadStats :=
  mkRuleLoadStats (loaded_rules s) (legacy_total s) (legacy_migratable_total s)
    (legacy_unsupported_total s) (S (skipped_rules s))
    (<[reason := S (default 0 (skipped_by_reason s !! reason))]> (skipped_by_reason s))
    (skipped_samples s ++ [mkRuleSkipSample path reason detail]).

Definition classify_skip_reason (err : string) : string :=
  if contains "invalid type: map, expected a sequence" err then "unsupported_syntax"
  else if contains "missing field" err then "missing_field"
  else "deserialize_error".

Definition maybe_fail_in_strict_mode (strict_var : option string) (s : RuleLoadStats)
  : result string unit :=
  let strict := match strict_var with
                | Some v => bool_decide (v = "1") || eq_ignore_ascii_case v "true"
                | None => false
                end in
  if strict && (0 <? skipped_rules s)
  then Err ("严格模式启用 (ARK_RULES_STRICT=1)，规则加载跳过 " +:+ pretty (skipped_rules s)
            +:+ " 条，请修复后重试")
  else Ok ().

(** [print_load_summary]: the lines on the standard output and on the error
    output.  [iteration] is the order in which the map of reasons is walked. *)
Definition skip_reasons (iteration : list (string * nat)) : list (string * nat) :=
  stable_sort (λ a b, b.2 <=? a.2) iteration.
Definition reason_line (r : string * nat) : string :=
  "[rule-engine] skipped reason=" +:+ r.1 +:+ " count=" +:+ pretty r.2.
Definition sample_line (x : RuleSkipSample) : string :=
  "[rule-engine] skipped file=" +:+ sample_path x +:+ " reason=" +:+ sample_reason x
  +:+ " detail=" +:+ sample_detail x.
Definition print_load_summary (s : RuleLoadStats) (iteration : list (string * nat))
  : list string * list string :=
  let total := "[rule-engine] loaded_rules=" +:+ pretty (loaded_rules s)
    +:+ " skipped_rules=" +:+ pretty (skipped_rules s)
    +:+ " legacy_total=" +:+ pretty (legacy_total s)
    +:+ " legacy_migratable=" +:+ pretty (legacy_migratable_total s)
    +:+ " legacy_unsupported=" +:+ pretty (legacy_unsupported_total s) in
  if skipped_rules s =? 0 then ([total], [])
  else (total :: map reason_line (skip_reasons iteration), map sample_line (take 10 (skipped_samples s))).

(** The id of a rule: its own, unless it is blank, or one made from the pack. *)
Definition final_id (pack : string) (r : Rule) : option string :=
  match rule_id r with
  | Some id => if is_empty (trim id) then None else Some id
  | None => Some (pack +:+ "." +:+ rule_scene r)
  end.

(** [b.priority.cmp(&a.priority)] is not [Greater]. *)
Definition higher_priority (a b : Rule) : bool :=
  bool_decide (rule_priority b ≤ rule_priority a)%N.

Record LoadState := mkLoadState {
  ld_rules : list Rule; ld_stats : RuleLoadStats; id_owner : gmap string string }.

Section load.
(** The YAML parsers; an error is the parser's message. *)
Context (parse_rule : string → result string RuleWire)
        (parse_manifest : string → result string RulesManifestWire).

(** One iteration of the loop over the files. *)
Definition load_file (st : LoadState) (f : RuleFile) : result string LoadState :=
  let path := rf_path f in
  match read_to_string (rf_node f) with
  | Err e => Err ("读取规则文件失败 " +:+ path +:+ ": " +:+ e)
  | Ok content =>
      match parse_rule content with
      | Ok wire =>
          match normalize wire with
          | Ok (rule, legacy_status) =>
              let stats := if decide (legacy_status = Migrated)
                           then count_migrated (ld_stats st) else ld_stats st in
              match final_id (rf_pack f) rule with
              | None => Ok (mkLoadState (ld_rules st) stats (id_owner st))
              | Some id =>
                  match id_owner st !! id with
                  | Some owner =>
                      Err ("规则 ID 冲突: id=`" +:+ id +:+ "` 文件冲突: " +:+ owner
                           +:+ " <-> " +:+ path)
                  | None =>
                      Ok (mkLoadState (ld_rules st ++ [with_rule_id (Some id) rule])
                            (count_loaded stats) (<[id := path]> (id_owner st)))
                  end
              end
          | Err e =>
              Ok (mkLoadState (ld_rules st)
                    (count_skipped path "unsupported_legacy_condition" e
                       (count_unsupported (ld_stats st)))
                    (id_owner st))
          end
      | Err e =>
          Ok (mkLoadState (ld_rules st)
                (count_skipped path (classify_skip_reason e) e (ld_stats st)) (id_owner st))
      end
  end.

Fixpoint load_files (st : LoadState) (fs : list RuleFile) : result string LoadState :=
  match fs with
  | [] => Ok st
  | f :: fs' => match load_file st f with
                | Ok st' => load_files st' fs'
                | Err e => Err e
                end
  end.

Definition load_from_dir (fs : FileSystem) (strict_var : option string) (dir : string)
  : result string RuleEngine :=
  if negb (exists_path fs dir) then Ok (mkRuleEngine [] stats_default)
  else
    match collect_rule_files parse_manifest fs dir with
    | Err e => Err e
    | Ok files =>
        match load_files (mkLoadState [] stats_default ∅) files with
        | Err e => Err e
        | Ok st =>
            let rules := stable_sort higher_priority (ld_rules st) in
            match maybe_fail_in_strict_mode strict_var (ld_stats st) with
            | Err e => Err e
            | Ok _ => Ok (mkRuleEngine rules (ld_stats st))
            end
        end
    end.
End load.

(** ** Matching *)

Fixpoint match_rules_loop (rules : list Rule) (g : StateGraph) (events : list Event)
    (matched : list Rule) : list Rule :=
  match rules with
  | [] => matched
  | r :: rules' =>
      match_rules_loop rules' g events
        (if match_all_conditions (rule_conditions r) events g then matched ++ [r] else matched)
  end.

Definition match_rules (e : RuleEngine) (g : StateGraph) (events : list Event) : list Rule :=
  match_rules_loop (engine_rules e) g events [].

Fixpoint first_match (rules : list Rule) (g : StateGraph) (events : list Event) : option Rule :=
  match rules with
  | [] => None
  | r :: rules' =>
      if match_all_conditions (rule_conditions r) events g then Some r
      else first_match rules' g events
  end.

Definition match_first (e : RuleEngine) (g : StateGraph) (events : list Event) : option Rule :=
  first_match (engine_rules e) g events.

(** The engine's own copy of the pattern functions: the part loop is a fold
    over the enumerated parts, [None] once it has returned [false]. *)
Definition copied_part_step (text : string) (anchored_start : bool)
    (cursor : option nat) (p : nat * string) : option nat :=
  let '(idx, part) := p in
  match cursor with
  | None => None
  | Some cursor =>
      if (idx =? 0) && anchored_start then
        if negb (starts_with part (str_from cursor text)) then None
        else Some (cursor + String.length part)
      else
        match find part (str_from cursor text) with
        | Some found => Some (cursor + (found + String.length part))
        | None => None
        end
  end.

Definition copied_matches_single_pattern (text pattern : string) : bool :=
  if is_empty pattern then is_empty text
  else if decide (pattern = "*") then true
  else if negb (contains "*" pattern) then bool_decide (text = pattern)
  else
    let anchored_start := negb (starts_with "*" pattern) in
    let anchored_end := negb (ends_with "*" pattern) in
    let parts := filter (λ p, is_empty p = false) (split_char "*" pattern) in
    if decide (parts = []) then true
    else
      match foldl (copied_part_step text anchored_start) (Some 0) (imap pair parts) with
      | None => false
      | Some _ =>
          match last parts with
          | Some l => if anchored_end then ends_with l text else true
          | None => true
          end
      end.

Definition copied_matches_pattern (text pattern : string) : bool :=
  existsb (λ p, copied_matches_single_pattern text (trim p)) (split_char "|" pattern).

Definition copied_matches_value_pattern (text pattern : string) : bool :=
  existsb (λ p, negb (is_empty p) && contains p text) (map trim (split_char "|" pattern)).

(** An event condition against one event, as [match_first_simple] writes it. *)
Definition simple_event_test (event_type : string) (entity_id_pattern value_pattern : option string)
    (value_threshold : option f64) (event : Event) : bool :=
  if decide (event_type_display (ev_type event) ≠ event_type) then false
  else if negb (opt_test entity_id_pattern (copied_matches_pattern (ev_entity_id event))) then false
  else if negb (opt_test value_pattern (copied_matches_value_pattern (ev_value event))) then false
  else opt_test value_threshold (λ threshold,
         match parse_f64 (ev_value event) with
         | Some value => negb (f64_lt value threshold)
         | None => false
         end).

Definition is_event_condition (c : Condition) : bool :=
  match c with CEvent _ _ _ _ => true | _ => false end.

Definition simple_condition_test (events : list Event) (c : Condition) : bool :=
  match c with
  | CEvent t e v th => existsb (simple_event_test t e v th) events
  | _ => false
  end.

Fixpoint first_match_simple (rules : list Rule) (events : list Event) : option Rule :=
  match rules with
  | [] => None
  | r :: rules' =>
      let event_conditions := filter (λ c, is_event_condition c = true) (rule_conditions r) in
      if decide (event_conditions = []) then first_match_simple rules' events
      else if forallb (simple_condition_test events) event_conditions then Some r
      else first_match_simple rules' events
  end.

Definition match_first_simple (e : RuleEngine) (events : list Event) : option Rule :=
  first_match_simple (engine_rules e) events.

(** ** What a load does with one file *)

Section outcome.
Context (parse_rule : string → result string RuleWire).

Definition file_readable (f : RuleFile) : bool := is_ok (read_to_string (rf_node f)).

(** The normalised rule of a file, when it has one. *)
Definition file_rule (f : RuleFile) : option (Rule * LegacySyntaxStatus) :=
  match read_to_string (rf_node f) with
  | Ok content => match parse_rule content with
                  | Ok w => match normalize w with Ok x => Some x | Err _ => None end
                  | Err _ => None
                  end
  | Err _ => None
  end.

(** The rule loaded from a file: it has an id that is not blank. *)
Definition accepted (f : RuleFile) : option Rule :=
  match file_rule f with
  | Some (r, _) => (λ id, with_rule_id (Some id) r) <$> final_id (rf_pack f) r
  | None => None
  end.

(** A file whose rule has a blank id. *)
Definition blank_id (f : RuleFile) : bool :=
  match file_rule f with
  | Some (r, _) => match final_id (rf_pack f) r with Some _ => false | None => true end
  | None => false
  end.

Definition skipped (f : RuleFile) : bool :=
  match file_rule f with Some _ => false | None => true end.

Definition count (t : RuleFile → bool) (l : list RuleFile) : nat :=
  length (filter (λ f, t f = true) l).

Definition map_total (m : gmap string nat) : nat :=
  list_sum (map snd (map_to_list m)).

(** The counters add up to what was read, and the owners are the loaded ids. *)
Record load_inv (fs : list RuleFile) (st : LoadState) : Prop := {
  li_rules : ld_rules st = omap accepted fs;
  li_unique : NoDup (map rule_id (ld_rules st));
  li_owner id : is_Some (id_owner st !! id) ↔ Some id ∈ map rule_id (ld_rules st);
  li_loaded : loaded_rules (ld_stats st) = length (ld_rules st);
  li_skipped : skipped_rules (ld_stats st) = count skipped fs;
  li_samples : map sample_path (skipped_samples (ld_stats st))
               = map rf_path (filter (λ f, skipped f = true) fs);
  li_reasons : map_total (skipped_by_reason (ld_stats st)) = skipped_rules (ld_stats st);
  li_legacy : legacy_total (ld_stats st)
              = legacy_migratable_total (ld_stats st) + legacy_unsupported_total (ld_stats st)
}.

Lemma map_total_insert m k :
  map_total (<[k := S (default 0 (m !! k))]> m) = S (map_total m).
Proof.
  unfold map_total. destruct (m !! k) as [n|] eqn:E; simpl.
  - rewrite <-(insert_id m k n E) at 2. rewrite <-!(insert_delete_eq m).
    rewrite !map_to_list_insert by apply lookup_delete_eq. simpl. lia.
  - by rewrite map_to_list_insert.
Qed.

Lemma rule_id_with id r : rule_id (with_rule_id id r) = id.
Proof. done. Qed.

Lemma count_app t l1 l2 : count t (l1 ++ l2) = count t l1 + count t l2.
Proof. unfold count. by rewrite filter_app, length_app. Qed.

Lemma load_inv_nil : load_inv [] (mkLoadState [] stats_default ∅).
Proof.
  split; simpl; try done; [constructor|]. intros id. rewrite lookup_empty. split.
  - by intros [].
  - by intros ?%elem_of_nil.
Qed.

(** A file without a rule changes only the counters of skipped files. *)
Lemma load_inv_skip fs f st stats path reason detail :
  load_inv fs st → skipped f = true → rf_path f = path →
  stats = count_skipped path reason detail (ld_stats st)
  ∨ stats = count_skipped path reason detail (count_unsupported (ld_stats st)) →
  load_inv (fs ++ [f]) (mkLoadState (ld_rules st) stats (id_owner st)).
Proof.
  intros [] Hs <- Hst.
  assert (accepted f = None) as Ha by (unfold accepted, skipped in *; by case_match).
  assert (omap accepted (fs ++ [f]) = omap accepted fs) as Ho
    by (rewrite omap_app; simpl; rewrite Ha; by rewrite app_nil_r).
  assert (filter (λ f, skipped f = true) [f] = [f]) as Hf by (by rewrite filter_cons_True).
  destruct Hst as [-> | ->]; split; simpl; rewrite ?Ho, ?count_app, ?filter_app, ?map_app,
    ?map_total_insert, ?Hf; unfold count; rewrite ?Hf; simpl; auto; unfold count in *; try lia.
  all: by rewrite li_samples0.
Qed.

Lemma load_inv_migrated fs st (b : bool) :
  load_inv fs st →
  load_inv fs (mkLoadState (ld_rules st)
                 (if b then count_migrated (ld_stats st) else ld_stats st) (id_owner st)).
Proof. intros []. destruct b; split; simpl; auto with lia. Qed.

Lemma filter_not_skipped fs f :
  skipped f = false → filter (λ f, skipped f = true) (fs ++ [f]) = filter (λ f, skipped f = true) fs.
Proof.
  intros Hf. rewrite filter_app, filter_cons_False, app_nil_r; [done|]. by rewrite Hf.
Qed.

Lemma load_inv_blank fs f st :
  load_inv fs st → skipped f = false → accepted f = None → load_inv (fs ++ [f]) st.
Proof.
  intros [] Hs Ha. split; auto; unfold count; rewrite ?filter_not_skipped by done; auto.
  rewrite omap_app, li_rules0. simpl. by rewrite Ha, app_nil_r.
Qed.

Lemma load_inv_accept fs f st id r path :
  load_inv fs st → skipped f = false → accepted f = Some r → rule_id r = Some id →
  id_owner st !! id = None →
  load_inv (fs ++ [f]) (mkLoadState (ld_rules st ++ [r]) (count_loaded (ld_stats st))
                          (<[id := path]> (id_owner st))).
Proof.
  intros [] Hs Ha Hid Ho.
  assert (Some id ∉ map rule_id (ld_rules st)) as Hnew by (intros [? ?]%li_owner0; congruence).
  split; simpl; unfold count; rewrite ?filter_not_skipped, ?length_app, ?map_app by done; auto.
  - rewrite omap_app, li_rules0. simpl. by rewrite Ha.
  - apply NoDup_app. split_and!; [done| |apply NoDup_singleton].
    intros x Hx ->%list_elem_of_singleton. by rewrite Hid in Hx.
  - intros id'. rewrite elem_of_app, <-li_owner0. simpl. rewrite list_elem_of_singleton, Hid.
    destruct (decide (id' = id)) as [->|Hne].
    + rewrite lookup_insert_eq. naive_solver.
    + rewrite lookup_insert_ne by done. naive_solver.
  - simpl. rewrite li_loaded0. lia.
Qed.

Lemma load_file_spec fs f st :
  load_inv fs st →
  match load_file parse_rule st f with
  | Ok st' => file_readable f = true ∧ load_inv (fs ++ [f]) st'
  | Err _ => file_readable f = false ∨ ∃ r, accepted f = Some r ∧ rule_id r ∈ map rule_id (ld_rules st)
  end.
Proof.
  intros Hinv. unfold load_file, file_readable.
  destruct (read_to_string (rf_node f)) as [content|e] eqn:Er; [|by left].
  destruct (parse_rule content) as [w|e] eqn:Ep.
  2: { split; [done|]. eapply load_inv_skip; eauto. unfold skipped, file_rule. by rewrite Er, Ep. }
  destruct (normalize w) as [[r ls]|e] eqn:En.
  2: { split; [done|]. eapply load_inv_skip; eauto. unfold skipped, file_rule. by rewrite Er, Ep, En. }
  assert (file_rule f = Some (r, ls)) as Hf by (unfold file_rule; by rewrite Er, Ep, En).
  assert (skipped f = false) as Hsk by (unfold skipped; by rewrite Hf).
  apply (load_inv_migrated _ _ (bool_decide (ls = Migrated))) in Hinv as Hm.
  rewrite decide_bool_decide.
  destruct (final_id (rf_pack f) r) as [id|] eqn:Eid.
  - assert (accepted f = Some (with_rule_id (Some id) r)) as Ha
      by (unfold accepted; by rewrite Hf, Eid).
    destruct (id_owner st !! id) as [owner|] eqn:Eo.
    + right. eexists. split; [exact Ha|]. apply (li_owner _ _ Hinv). by rewrite Eo.
    + split; [done|]. by apply (load_inv_accept _ _ _ _ _ _ Hm Hsk Ha).
  - split; [done|]. apply load_inv_blank; [done..|]. unfold accepted. by rewrite Hf, Eid.
Qed.

Lemma load_files_spec fs0 fs st :
  load_inv fs0 st →
  match load_files parse_rule st fs with
  | Ok st' => (∀ f, f ∈ fs → file_readable f = true) ∧ load_inv (fs0 ++ fs) st'
  | Err _ => (∃ f, f ∈ fs ∧ file_readable f = false)
             ∨ ¬ NoDup (map rule_id (omap accepted (fs0 ++ fs)))
  end.
Proof.
  revert fs0 st. induction fs as [|f fs IH]; intros fs0 st Hinv; simpl.
  { rewrite app_nil_r. split; [|done]. by intros f ?%elem_of_nil. }
  pose proof (load_file_spec fs0 f st Hinv) as Hf.
  destruct (load_file parse_rule st f) as [st'|e].
  - destruct Hf as [Hr Hinv']. specialize (IH _ _ Hinv'). rewrite <-app_assoc in IH.
    destruct (load_files parse_rule st' fs).
    + destruct IH as [? ?]. split; [|done]. by intros g [->|?]%elem_of_cons; auto.
    + destruct IH as [(g & ? & ?)|?]; [|by right]. left. exists g. split; [by right|done].
  - destruct Hf as [?|(r & Ha & Hin)]; [left; exists f; split; [by left|done]|]. right.
    rewrite omap_app, map_app. simpl. rewrite Ha. simpl. rewrite NoDup_app.
    rewrite (li_rules _ _ Hinv) in Hin. intros (_ & Hd & _). apply (Hd _ Hin). by left.
Qed.

Lemma accepted_id f r :
  accepted f = Some r → ∃ id, rule_id r = Some id
    ∧ final_id (rf_pack f) (default r (fst <$> file_rule f)) = Some id.
Proof.
  unfold accepted. destruct (file_rule f) as [[r0 ls]|]; [|done]. simpl.
  destruct (final_id _ r0) as [id|] eqn:E; [|done]. intros [= <-]. eauto.
Qed.

(** Every file is loaded, skipped, or has a blank id. *)
Lemma file_cases f :
  (∃ r, accepted f = Some r ∧ skipped f = false ∧ blank_id f = false)
  ∨ (accepted f = None ∧ skipped f = true ∧ blank_id f = false)
  ∨ (accepted f = None ∧ skipped f = false ∧ blank_id f = true).
Proof.
  unfold accepted, skipped, blank_id. destruct (file_rule f) as [[r ls]|]; [|auto].
  destruct (final_id _ r); simpl; eauto.
Qed.

Lemma files_partition fs :
  length fs = length (omap accepted fs) + count skipped fs + count blank_id fs.
Proof.
  induction fs as [|f fs IH]; [done|]. change (f :: fs) with ([f] ++ fs).
  rewrite omap_app, !count_app, !length_app, IH. unfold count. simpl.
  destruct (file_cases f) as [(r & Ha & Hs & Hb)|[(Ha & Hs & Hb)|(Ha & Hs & Hb)]];
    rewrite Ha, !filter_cons, Hs, Hb; simpl; lia.
Qed.
End outcome.

(** Whether the strict-mode variable is set to a true value. *)
Definition strict_mode (strict_var : option string) : bool :=
  match strict_var with
  | Some v => bool_decide (v = "1") || eq_ignore_ascii_case v "true"
  | None => false
  end.

Lemma strict_mode_spec v s :
  is_ok (maybe_fail_in_strict_mode v s) = negb (strict_mode v && (0 <? skipped_rules s)).
Proof. unfold maybe_fail_in_strict_mode. fold (strict_mode v). by destruct (_ && _). Qed.

Section loaded.
Context (parse_rule : string → result string RuleWire)
        (parse_manifest : string → result string RulesManifestWire)
        (fs : FileSystem) (strict_var : option string) (dir : string).

Lemma load_from_dir_spec files :
  exists_path fs dir = true → collect_rule_files parse_manifest fs dir = Ok files →
  match load_from_dir parse_rule parse_manifest fs strict_var dir with
  | Ok e => ∃ st, load_inv parse_rule files st ∧ (∀ f, f ∈ files → file_readable f = true)
      ∧ is_ok (maybe_fail_in_strict_mode strict_var (ld_stats st)) = true
      ∧ e = mkRuleEngine (stable_sort higher_priority (ld_rules st)) (ld_stats st)
  | Err _ => (∃ f, f ∈ files ∧ file_readable f = false)
             ∨ ¬ NoDup (map rule_id (omap (accepted parse_rule) files))
             ∨ strict_mode strict_var = true ∧ ∃ f, f ∈ files ∧ skipped parse_rule f = true
  end.
Proof.
  intros He Hc. unfold load_from_dir. rewrite He, Hc. simpl.
  pose proof (load_files_spec parse_rule [] files _ (load_inv_nil parse_rule)) as Hl.
  simpl in Hl. destruct (load_files _ _ _) as [st|e]; [|naive_solver].
  destruct Hl as [Hr Hinv]. pose proof (strict_mode_spec strict_var (ld_stats st)) as Hs.
  destruct (maybe_fail_in_strict_mode strict_var (ld_stats st)) eqn:Em.
  - exists st. by rewrite Em.
  - right; right. simpl in Hs. symmetry in Hs. apply negb_false_iff, andb_true_iff in Hs as [Hs Hk].
    split; [done|]. apply Nat.ltb_lt in Hk. rewrite (li_skipped _ _ _ Hinv) in Hk.
    unfold count in Hk. destruct (filter _ files) as [|f l] eqn:Ef; simpl in Hk; [lia|].
    exists f. assert (f ∈ filter (λ f, skipped parse_rule f = true) files) as Hin
      by (rewrite Ef; by left).
    by apply list_elem_of_filter in Hin as [? ?].
Qed.

Lemma higher_priority_total x y : higher_priority x y = true ∨ higher_priority y x = true.
Proof. unfold higher_priority. rewrite !bool_decide_eq_true. lia. Qed.
Lemma higher_priority_trans x y z :
  higher_priority x y = true → higher_priority y z = true → higher_priority x z = true.
Proof. unfold higher_priority. rewrite !bool_decide_eq_true. lia. Qed.

Lemma load_sorted e :
  load_from_dir parse_rule parse_manifest fs strict_var dir = Ok e →
  StronglySorted (λ a b, rule_priority b ≤ rule_priority a)%N (engine_rules e).
Proof.
  unfold load_from_dir. repeat (case_match; try done); intros; simplify_eq/=; [constructor|].
  eapply StronglySorted_impl;
    [|apply (stable_sort_sorted _ higher_priority_total higher_priority_trans)].
  intros x y. unfold higher_priority. by rewrite bool_decide_eq_true.
Qed.
End loaded.

(** ** What matching returns *)

Section matching.
Context (g : StateGraph) (events : list Event).

Definition rule_matches (r : Rule) : Prop :=
  ∀ c, c ∈ rule_conditions r → holds events (edges (store g)) (nodes g) c.

Lemma match_all_holds r :
  match_all_conditions (rule_conditions r) events g = true ↔ rule_matches r.
Proof.
  unfold match_all_conditions, rule_matches. rewrite forallb_elem_of.
  by setoid_rewrite match_condition_holds.
Qed.

Notation matching r := (match_all_conditions (rule_conditions r) events g = true).

Lemma match_rules_loop_filter rules acc :
  match_rules_loop rules g events acc = acc ++ filter (λ r, matching r) rules.
Proof.
  revert acc. induction rules as [|r rules IH]; intros acc; simpl; [by rewrite app_nil_r|].
  rewrite IH, filter_cons. destruct (match_all_conditions _ _ _); simpl; [|done].
  by rewrite <-app_assoc.
Qed.

Lemma first_match_head rules :
  first_match rules g events = head (filter (λ r, matching r) rules).
Proof.
  induction rules as [|r rules IH]; simpl; [done|]. rewrite filter_cons, IH.
  by destruct (match_all_conditions _ _ _).
Qed.

(** The head of a filtered list sorted by priority is a maximum. *)
Lemma head_filter_max (rules : list Rule) (P : Rule → Prop) `{!∀ r, Decision (P r)} :
  StronglySorted (λ a b, rule_priority b ≤ rule_priority a)%N rules →
  match head (filter P rules) with
  | Some r => r ∈ rules ∧ P r ∧ ∀ r', r' ∈ rules → P r' → (rule_priority r' ≤ rule_priority r)%N
  | None => ∀ r, r ∈ rules → ¬ P r
  end.
Proof.
  induction 1 as [|r rules Hs IH Hr]; simpl; [by intros r ?%elem_of_nil|].
  rewrite filter_cons. case_decide as HP; simpl.
  - split_and!; [by left|done|]. intros r' [->|Hin]%elem_of_cons _; [done|].
    rewrite Forall_forall in Hr. by apply Hr.
  - destruct (head (filter P rules)) as [x|].
    + destruct IH as (Hx & HPx & Hmax). split_and!; [by right|done|].
      intros r' [->|?]%elem_of_cons ?; [done|auto].
    + intros r' [->|?]%elem_of_cons; auto.
Qed.
End matching.

(** ** The copied pattern functions *)

Lemma copied_part_step_none text anch ps :
  foldl (copied_part_step text anch) None ps = None.
Proof. induction ps as [|[i p] ps IH]; simpl; done. Qed.

Lemma copied_parts text anch idx cursor ps :
  is_Some (foldl (copied_part_step text anch) (Some cursor) (imap (λ i p, (idx + i, p)) ps))
  ↔ match_parts text anch idx cursor ps = true.
Proof.
  revert idx cursor. induction ps as [|p ps IH]; intros idx cursor; simpl; [naive_solver|].
  rewrite Nat.add_0_r.
  assert (∀ c, is_Some (foldl (copied_part_step text anch) c
                          (imap ((λ i p, (idx + i, p)) ∘ S) ps))
     ↔ ∃ c', c = Some c' ∧ match_parts text anch (S idx) c' ps = true) as Hnext.
  { intros [c|].
    - rewrite <-(imap_ext (λ i p, (S idx + i, p))); [rewrite IH; naive_solver|].
      intros i x _. simpl. by rewrite Nat.add_succ_r.
    - rewrite copied_part_step_none. split; [by intros []|naive_solver]. }
  rewrite Hnext. destruct ((idx =? 0) && anch).
  - destruct (starts_with p _); simpl; naive_solver.
  - destruct (find p _); naive_solver.
Qed.

Lemma copied_single_eq text pattern :
  copied_matches_single_pattern text pattern = matches_single_pattern text pattern.
Proof.
  unfold copied_matches_single_pattern, matches_single_pattern.
  case_match; [done|]. case_decide; [done|]. case_match; [done|].
  generalize (filter (λ p, is_empty p = false) (split_char "*" pattern)) as parts.
  intros parts. case_decide as Hp; [by rewrite Hp|].
  pose proof (copied_parts text (negb (starts_with "*" pattern)) 0 0 parts) as Hc.
  rewrite (imap_ext _ pair) in Hc by done.
  destruct parts as [|p parts]; [done|].
  destruct (foldl _ _ _), (match_parts _ _ _ _ _); simpl.
  - destruct (negb (ends_with "*" pattern)), (last (p :: parts)); done.
  - destruct Hc as [Hc _]. by specialize (Hc (ex_intro _ _ eq_refl)).
  - destruct Hc as [_ Hc]. by destruct (Hc eq_refl).
  - done.
Qed.

Lemma simple_event_test_eq t e v th event :
  simple_event_test t e v th event = match_event t e v th event.
Proof.
  unfold simple_event_test, match_event. case_decide; [done|].
  assert (∀ x p, copied_matches_pattern x p = matches_pattern x p) as Hp.
  { intros x p. unfold copied_matches_pattern, matches_pattern.
    induction (split_char "|" p) as [|q qs IH]; simpl; [done|]. by rewrite copied_single_eq, IH. }
  assert (opt_test e (copied_matches_pattern (ev_entity_id event))
          = opt_test e (matches_pattern (ev_entity_id event))) as -> by (destruct e; simpl; auto).
  case_match; [done|].
  change (copied_matches_value_pattern (ev_value event)) with (matches_value_pattern (ev_value event)).
  case_match; [done|]. destruct th; simpl; [|done]. case_match; [|done]. by destruct (f64_lt _ _).
Qed.

Lemma existsb_ext_eq {A} (f h : A → bool) l : (∀ x, f x = h x) → existsb f l = existsb h l.
Proof. intros H. induction l as [|x l IH]; simpl; [done|]. by rewrite H, IH. Qed.

(** On a rule whose conditions are all event conditions the shortened test is
    the full one. *)
Lemma simple_conditions_eq g events cs :
  (∀ c, c ∈ cs → is_event_condition c = true) →
  forallb (simple_condition_test events) cs = match_all_conditions cs events g.
Proof.
  intros H. unfold match_all_conditions. induction cs as [|c cs IH]; simpl; [done|].
  rewrite IH by (intros; apply H; by right). f_equal.
  specialize (H c ltac:(by left)). destruct c; try done. simpl.
  apply existsb_ext_eq, simple_event_test_eq.
Qed.

(** ** Claims *)

(** C31 What a successful load holds: exactly the rules of the files that parse,
    normalise and have a non-blank id, each under an id of its own (given, or
    [pack.scene]), ids pairwise distinct, sorted by descending priority and,
    within one priority, in the order of the file paths. *)
Theorem rule_load_contents parse_rule parse_manifest fs strict_var dir files e
  (Hdir : exists_path fs dir = true)
  (Hfiles : collect_rule_files parse_manifest fs dir = Ok files)
  (Hload : load_from_dir parse_rule parse_manifest fs strict_var dir = Ok e) :
  engine_rules e ≡ₚ omap (accepted parse_rule) files
  ∧ NoDup (map rule_id (engine_rules e))
  ∧ (∀ r, r ∈ engine_rules e → ∃ id, rule_id r = Some id)
  ∧ StronglySorted (λ a b, rule_priority b ≤ rule_priority a)%N (engine_rules e)
  ∧ ∀ p, filter (λ r, rule_priority r = p) (engine_rules e)
         = filter (λ r, rule_priority r = p) (omap (accepted parse_rule) files).
Proof.
  pose proof (load_from_dir_spec parse_rule _ _ strict_var _ _ Hdir Hfiles) as H.
  pose proof (load_sorted _ _ _ _ _ _ Hload) as Hsort.
  rewrite Hload in H. destruct H as (st & [] & _ & _ & ->). simpl in *.
  rewrite <-li_rules0. split_and!; [apply stable_sort_perm| | |done|].
  - by rewrite stable_sort_perm.
  - intros r Hr%elem_of_stable_sort. rewrite li_rules0 in Hr.
    apply list_elem_of_omap in Hr as (f & _ & (id & Hid & _)%accepted_id). eauto.
  - intros p. apply stable_sort_stable. intros a b <- Hb. unfold higher_priority.
    apply bool_decide_eq_true. by rewrite Hb.
Qed.

(** C35 When a load succeeds: exactly when every collected file can be read, no
    two accepted rules have the same id, and, in strict mode, no file was
    skipped.  A bad rule file alone never makes a non-strict load fail. *)
Theorem rule_load_succeeds_iff parse_rule parse_manifest fs strict_var dir files
  (Hdir : exists_path fs dir = true)
  (Hfiles : collect_rule_files parse_manifest fs dir = Ok files) :
  is_ok (load_from_dir parse_rule parse_manifest fs strict_var dir) = true ↔
  (∀ f, f ∈ files → file_readable f = true)
  ∧ NoDup (map rule_id (omap (accepted parse_rule) files))
  ∧ (strict_mode strict_var = true → ∀ f, f ∈ files → skipped parse_rule f = false).
Proof.
  pose proof (load_from_dir_spec parse_rule _ _ strict_var _ _ Hdir Hfiles) as H.
  destruct (load_from_dir _ _ _ _ _) as [e|msg]; simpl.
  - destruct H as (st & [] & Hr & Hs & _). split; [|done]. intros _.
    split_and!; [done|by rewrite <-li_rules0|]. intros Hst f Hf.
    rewrite strict_mode_spec, Hst, negb_true_iff, andb_true_l, Nat.ltb_ge in Hs.
    destruct (skipped parse_rule f) eqn:E; [|done]. exfalso.
    assert (f ∈ filter (λ f, skipped parse_rule f = true) files) as Hin
      by by apply list_elem_of_filter.
    rewrite li_skipped0 in Hs. unfold count in Hs. destruct (filter _ files); simpl in Hs; [|lia].
    by apply elem_of_nil in Hin.
  - split; [done|]. intros (Hr & Hnd & Hst). exfalso.
    destruct H as [(f & Hf & E)|[?|[Hs (f & Hf & E)]]]; [|done|].
    + by rewrite Hr in E.
    + by rewrite Hst in E.
Qed.

(** The load statistics account for every file: each is loaded, skipped (with
    one sample and one count of its reason), or silently dropped for a blank id;
    and the legacy total is the migratable plus the unsupported ones. *)
Theorem rule_load_statistics parse_rule parse_manifest fs strict_var dir files e
  (Hdir : exists_path fs dir = true)
  (Hfiles : collect_rule_files parse_manifest fs dir = Ok files)
  (Hload : load_from_dir parse_rule parse_manifest fs strict_var dir = Ok e) :
  let s := load_stats e in
  loaded_rules s = rule_count e
  ∧ loaded_rules s + skipped_rules s + count (blank_id parse_rule) files = length files
  ∧ map sample_path (skipped_samples s)
    = map rf_path (filter (λ f, skipped parse_rule f = true) files)
  ∧ map_total (skipped_by_reason s) = skipped_rules s
  ∧ length (skipped_samples s) = skipped_rules s
  ∧ legacy_total s = legacy_migratable_total s + legacy_unsupported_total s.
Proof.
  pose proof (load_from_dir_spec parse_rule _ _ strict_var _ _ Hdir Hfiles) as H.
  rewrite Hload in H. destruct H as (st & [] & _ & _ & ->). unfold rule_count. simpl.
  rewrite stable_sort_length. split_and!; try done.
  - rewrite li_loaded0, li_skipped0, li_rules0. symmetry. apply files_partition.
  - rewrite <-(length_map sample_path), li_samples0, length_map. by rewrite li_skipped0.
Qed.

(** The summary of a load accounts for every skipped file: in whatever order the
    map of reasons is walked, it prints one line per reason, the most frequent
    first, with counts that add up to the number of skipped files, and one line
    for each of the first ten of them in the order they were read. *)
Theorem load_summary_accounts parse_rule parse_manifest fs strict_var dir files e iteration
  (Hdir : exists_path fs dir = true)
  (Hfiles : collect_rule_files parse_manifest fs dir = Ok files)
  (Hload : load_from_dir parse_rule parse_manifest fs strict_var dir = Ok e)
  (Hiter : iteration ≡ₚ map_to_list (skipped_by_reason (load_stats e))) :
  let s := load_stats e in
  let '(out, err) := print_load_summary s iteration in
  (skipped_rules s = 0 → length out = 1 ∧ err = [])
  ∧ (skipped_rules s ≠ 0 →
      ∃ reasons, tail out = map reason_line reasons
        ∧ reasons ≡ₚ map_to_list (skipped_by_reason s)
        ∧ StronglySorted (λ a b, b.2 ≤ a.2) reasons
        ∧ list_sum (map snd reasons) = skipped_rules s
        ∧ err = map sample_line (take 10 (skipped_samples s))
        ∧ length err = skipped_rules s `min` 10).
Proof.
  pose proof (rule_load_statistics parse_rule parse_manifest fs strict_var dir files e Hdir Hfiles Hload)
    as (_ & _ & _ & Htot & Hlen & _).
  cbn zeta in *. unfold print_load_summary. destruct (Nat.eqb_spec (skipped_rules (load_stats e)) 0) as [Hz|Hz].
  { split; [done|]. by intros []. }
  split; [done|]. intros _. assert (skip_reasons iteration ≡ₚ map_to_list (skipped_by_reason (load_stats e))) as Hp
    by (unfold skip_reasons; by rewrite stable_sort_perm).
  exists (skip_reasons iteration). split_and!; [done|done| | |done|].
  - eapply StronglySorted_impl; [|apply stable_sort_sorted].
    + intros a b H. by apply Nat.leb_le.
    + intros a b. destruct (Nat.le_ge_cases a.2 b.2); [right|left]; by apply Nat.leb_le.
    + intros a b c H1%Nat.leb_le H2%Nat.leb_le. apply Nat.leb_le. lia.
  - rewrite <-Htot. unfold map_total. by rewrite Hp.
  - rewrite length_map, length_take, Hlen. lia.
Qed.

(** C7 The rule a loaded engine returns first matches and has the highest
    priority among the matching rules; it returns none only when no rule
    matches; and it is the head of the list [match_rules] returns. *)
Theorem first_match_highest_priority parse_rule parse_manifest fs strict_var dir e g events
  (Hload : load_from_dir parse_rule parse_manifest fs strict_var dir = Ok e) :
  match_first e g events = head (match_rules e g events)
  ∧ match match_first e g events with
    | Some r => r ∈ engine_rules e ∧ rule_matches g events r
        ∧ ∀ r', r' ∈ engine_rules e → rule_matches g events r' →
            (rule_priority r' ≤ rule_priority r)%N
    | None => ∀ r, r ∈ engine_rules e → ¬ rule_matches g events r
    end.
Proof.
  unfold match_first, match_rules. rewrite match_rules_loop_filter, first_match_head.
  split; [done|]. apply load_sorted in Hload.
  pose proof (head_filter_max _ (λ r, match_all_conditions (rule_conditions r) events g = true)
                Hload) as H.
  destruct (head _) as [r|].
  - destruct H as (? & ? & Hmax). split_and!; [done|by apply match_all_holds|].
    intros r' ? ?. by apply Hmax, match_all_holds.
  - intros r Hr Hm. by apply (H r Hr), match_all_holds.
Qed.

(** The graph-free shortcut agrees with the full evaluation on an engine
    whose rules only use event conditions, whatever the graph: the second copy
    of the pattern code behaves like the first. *)
Theorem simple_match_agrees e g events
  (Hevents : ∀ r, r ∈ engine_rules e → rule_conditions r ≠ []
     ∧ ∀ c, c ∈ rule_conditions r → is_event_condition c = true) :
  match_first_simple e events = match_first e g events.
Proof.
  unfold match_first_simple, match_first. revert Hevents.
  induction (engine_rules e) as [|r rules IH]; intros H; simpl; [done|].
  destruct (H r) as [Hne Hev]; [by left|]. rewrite (filter_all _ _ Hev), decide_False by done.
  rewrite (simple_conditions_eq g) by done.
  rewrite IH by (intros; apply H; by right). done.
Qed.

(** Normalising a rule file keeps its meaning: the conditions of the resulting
    rule hold exactly when the conditions written in the file do, a list or the
    legacy [all] form meaning every one of them, the legacy [any] form at least
    one; id and priority are kept; and a legacy table is refused exactly when it
    has both keys or neither. *)
Theorem normalize_meaning g events w :
  match normalize w with
  | Ok (r, status) =>
      (status = Migrated ↔ ∃ l, wire_conditions w = Legacy l)
      ∧ rule_id r = wire_id w ∧ rule_priority r = wire_priority w
      ∧ match wire_conditions w with
        | New cs | Legacy (mkConditionsLegacyWire (Some cs) None) =>
            rule_matches g events r ↔
              ∀ c, c ∈ cs → holds events (edges (store g)) (nodes g) c
        | Legacy (mkConditionsLegacyWire None (Some cs)) =>
            rule_matches g events r ↔
              ∃ c, c ∈ cs ∧ holds events (edges (store g)) (nodes g) c
        | Legacy _ => False
        end
  | Err _ => ∃ all any, wire_conditions w = Legacy (mkConditionsLegacyWire all any)
      ∧ (is_Some all ↔ is_Some any)
  end.
Proof.
  unfold normalize, rule_matches. destruct (wire_conditions w) as [cs|[[all|] [any|]]]; simpl.
  - split_and!; [naive_solver|done..].
  - eexists _, _. split; [done|]. split; eauto.
  - split_and!; [naive_solver|done..|]. setoid_rewrite list_elem_of_singleton. split.
    + intros H. specialize (H _ eq_refl). by inversion H.
    + intros H c ->. by constructor.
  - split_and!; [naive_solver|done..|]. setoid_rewrite list_elem_of_singleton. split.
    + intros H. specialize (H _ eq_refl). inversion H; simplify_eq. eauto.
    + intros (c' & ? & ?) c ->. by econstructor.
  - eexists _, _. split; [done|]. split; by intros [].
Qed.

(** ** Concrete rule directories *)

Definition demo_wire (id : option string) (scene : string) (priority : N) : RuleWire :=
  mkRuleWire id scene scene priority [] (New [CEvent "transport.drop" (Some "roce-*") None None])
    (mkRootCausePattern scene None) [] [] (mkApplicability default_min_confidence None).

Definition demo_parse (content : string) : result string RuleWire :=
  if decide (content = "a") then Ok (demo_wire None "alpha" 1)
  else if decide (content = "b") then Ok (demo_wire (Some "custom.b") "beta" 9)
  else if decide (content = "blank") then Ok (demo_wire (Some "  ") "gamma" 5)
  else Err "missing field `name`".

Definition demo_fs : FileSystem :=
  mkFileSystem [listed [("rules", listed
    [("b.yaml", FFile (Ok "b")); ("broken.yaml", FFile (Ok "?")); ("a.yml", FFile (Ok "a"))])]].
Definition demo_files : list RuleFile :=
  [mkRuleFile "rules/a.yml" "legacy" (FFile (Ok "a"));
   mkRuleFile "rules/b.yaml" "legacy" (FFile (Ok "b"));
   mkRuleFile "rules/broken.yaml" "legacy" (FFile (Ok "?"))].
Definition demo_engine : RuleEngine :=
  match load_from_dir demo_parse Err demo_fs None "rules" with
  | Ok e => e
  | Err _ => mkRuleEngine [] stats_default
  end.

Definition blank_fs : FileSystem :=
  mkFileSystem [listed [("rules", listed [("x.yaml", FFile (Ok "blank"))])]].

(** A rule with a blank id is dropped without a trace: the load succeeds even
    in strict mode, with no rule loaded and no file counted as skipped, so the
    strict-mode check does not see it. *)
Theorem blank_id_escapes_strict_mode :
  ∃ e, load_from_dir demo_parse Err blank_fs (Some "1") "rules" = Ok e
    ∧ rule_count e = 0 ∧ skipped_rules (load_stats e) = 0 ∧ skipped_samples (load_stats e) = []
    ∧ is_ok (collect_rule_files Err blank_fs "rules") = true
    ∧ collect_rule_files Err blank_fs "rules" ≠ Ok [].
Proof. eexists. split; [vm_compute; reflexivity|]. split_and!; by vm_compute. Qed.

Lemma rule_load_contents_witness :
  map rule_id (engine_rules demo_engine) = [Some "custom.b"; Some "legacy.alpha"]
  ∧ NoDup (map rule_id (engine_rules demo_engine)).
Proof.
  split; [vm_compute; reflexivity|].
  apply (rule_load_contents demo_parse Err demo_fs None "rules" demo_files);
    vm_compute; reflexivity.
Defined.

Lemma rule_load_succeeds_iff_witness :
  is_ok (load_from_dir demo_parse Err demo_fs None "rules") = true
  ∧ ∀ f, f ∈ demo_files → file_readable f = true.
Proof.
  split; [vm_compute; reflexivity|].
  apply (rule_load_succeeds_iff demo_parse Err demo_fs None "rules" demo_files);
    vm_compute; reflexivity.
Defined.

Lemma rule_load_statistics_witness :
  loaded_rules (load_stats demo_engine) = 2
  ∧ loaded_rules (load_stats demo_engine) = rule_count demo_engine.
Proof.
  split; [vm_compute; reflexivity|].
  apply (rule_load_statistics demo_parse Err demo_fs None "rules" demo_files);
    vm_compute; reflexivity.
Defined.

Definition drop_event : Event :=
  mkEvent 1 TransportDrop "roce-mlx5_0" None None "7" None.

Lemma first_match_highest_priority_witness :
  match_first demo_engine state_graph_new [drop_event]
  = head (match_rules demo_engine state_graph_new [drop_event])
  ∧ rule_id <$> match_first demo_engine state_graph_new [drop_event] = Some (Some "custom.b").
Proof.
  split; [|vm_compute; reflexivity].
  apply (first_match_highest_priority demo_parse Err demo_fs None "rules");
    vm_compute; reflexivity.
Defined.

Lemma simple_match_agrees_witness :
  match_first_simple demo_engine [drop_event] = match_first demo_engine state_graph_new [drop_event]
  ∧ match_first_simple demo_engine [drop_event] ≠ None.
Proof.
  split; [|vm_compute; discriminate].
  apply simple_match_agrees. intros r Hr.
  change (r ∈ [mkRule (Some "custom.b") "beta" "beta" 9 []
      [CEvent "transport.drop" (Some "roce-*") None None] (mkRootCausePattern "beta" None) [] []
      (mkApplicability default_min_confidence None);
    mkRule (Some "legacy.alpha") "alpha" "alpha" 1 []
      [CEvent "transport.drop" (Some "roce-*") None None] (mkRootCausePattern "alpha" None) [] []
      (mkApplicability default_min_confidence None)]) in Hr.
  apply elem_of_cons in Hr as [->|Hr%list_elem_of_singleton]; [|subst r];
    (split; [done|]); by intros c ->%list_elem_of_singleton.
Defined.
