(* ===== verification/Migrate.v ===== *)
(** * The rule migration tool (core/src/bin/rules-migrate.rs)

    Rewrites rule files that use the legacy [all]/[any] tables into the list
    syntax, on YAML values.  The theorems: migration is idempotent,
    keeps the meaning of the conditions it translates, and refuses the signal
    conditions the rule engine accepts. *)

From Stdlib Require Import SpecFloat.
From S2P Require Import Prelude F64 Event Signals Graph RuleFiles Rule Matcher RuleEngine.

(** ** YAML values *)

Inductive Value :=
| VNull
| VBool (b : bool)
| VNumber (text : string)
| VText (s : string)
| VSequence (l : list Value)
| VMapping (m : list (Value * Value))
| VTagged (tag : string) (v : Value).

(** The accessors look through tags. *)
Fixpoint as_str (v : Value) : option string :=
  match v with VText s => Some s | VTagged _ v' => as_str v' | _ => None end.
Fixpoint as_sequence (v : Value) : option (list Value) :=
  match v with VSequence l => Some l | VTagged _ v' => as_sequence v' | _ => None end.
Fixpoint as_mapping (v : Value) : option (list (Value * Value)) :=
  match v with VMapping m => Some m | VTagged _ v' => as_mapping v' | _ => None end.

(** [*v.as_mapping_mut() = m] *)
Fixpoint set_mapping (v : Value) (m : list (Value * Value)) : Value :=
  match v with VTagged t v' => VTagged t (set_mapping v' m) | _ => VMapping m end.

Definition is_key (s : string) (k : Value) : bool :=
  match k with VText t => bool_decide (t = s) | _ => false end.

(** [map.get(key(s))] *)
Fixpoint get (s : string) (m : list (Value * Value)) : option Value :=
  match m with
  | [] => None
  | (k, v) :: m' => if is_key s k then Some v else get s m'
  end.

(** [map.insert(key(s), v)]: in place when the key is there, else at the end. *)
Fixpoint insert (s : string) (v : Value) (m : list (Value * Value)) : list (Value * Value) :=
  match m with
  | [] => [(VText s, v)]
  | (k, w) :: m' => if is_key s k then (k, v) :: m' else (k, w) :: insert s v m'
  end.

(** ** Arguments *)

Record Cli := mkCli {
  cli_input : option string; cli_out_dir : option string; cli_in_place : bool;
  cli_dry_run : bool; cli_filter_pack : option string; cli_strict : bool }.
Definition cli_default : Cli := mkCli None None false false None false.

Definition usage : string :=
  "Usage: rules-migrate <INPUT> [--out-dir <DIR>] [--in-place] [--dry-run] [--filter-pack <pack>] [--strict]".
Definition nl : string := String "010" "".

Fixpoint parse_loop (fuel : nat) (cli : Cli) (args : list string) : result string Cli :=
  match args, fuel with
  | [], _ => Ok cli
  | _, 0 => Ok cli
  | arg :: rest, S fuel' =>
      let '(mkCli input out_dir in_place dry_run filter_pack strict) := cli in
      if decide (arg = "--out-dir") then
        match rest with
        | dir :: rest' => parse_loop fuel' (mkCli input (Some dir) in_place dry_run filter_pack strict) rest'
        | [] => Err "--out-dir requires value"
        end
      else if decide (arg = "--in-place") then
        parse_loop fuel' (mkCli input out_dir true dry_run filter_pack strict) rest
      else if decide (arg = "--dry-run") then
        parse_loop fuel' (mkCli input out_dir in_place true filter_pack strict) rest
      else if decide (arg = "--filter-pack") then
        match rest with
        | pack :: rest' => parse_loop fuel' (mkCli input out_dir in_place dry_run (Some pack) strict) rest'
        | [] => Err "--filter-pack requires value"
        end
      else if decide (arg = "--strict") then
        parse_loop fuel' (mkCli input out_dir in_place dry_run filter_pack true) rest
      else if decide (arg ∈ ["-h"; "--help"]) then Err usage
      else if starts_with "-" arg then Err ("unknown option: " +:+ arg +:+ nl +:+ usage)
      else match input with
           | Some _ => Err ("multiple input paths provided" +:+ nl +:+ usage)
           | None => parse_loop fuel' (mkCli (Some arg) out_dir in_place dry_run filter_pack strict) rest
           end
  end.

Definition parse_args (args : list string) : result string Cli :=
  match parse_loop (length args) cli_default args with
  | Err e => Err e
  | Ok cli =>
      match cli_input cli with
      | None => Err usage
      | Some _ =>
          if cli_in_place cli && bool_decide (is_Some (cli_out_dir cli))
          then Err "--in-place cannot be used with --out-dir"
          else Ok cli
      end
  end.

(** ** Files *)

Definition is_yaml_file (path : string) : bool :=
  match extension path with
  | Some e => bool_decide (e = "yaml") || bool_decide (e = "yml")
  | None => false
  end.

Definition matches_pack_filter (path : string) (filter_pack : option string) : bool :=
  match filter_pack with
  | None => true
  | Some pack =>
      let normalized := replace "\" "/" path in
      contains ("/rules/" +:+ pack +:+ "/") normalized || ends_with ("/rules/" +:+ pack) normalized
  end.

Definition component_text (c : component) : string :=
  match c with RootDir => "/" | CurDir => "." | ParentDir => ".." | Normal s => s end.

Fixpoint pack_after_rules (parts : list string) : option string :=
  match parts with
  | "rules" :: ((p :: _) as rest) =>
      if decide (p ∈ ["core"; "nvidia"; "ascend"; "k8s"; "legacy"]) then Some p
      else pack_after_rules rest
  | _ :: rest => pack_after_rules rest
  | [] => None
  end.

Definition infer_pack (path : string) : string :=
  default "legacy" (pack_after_rules (map component_text (components path))).

(** ** Conditions *)

(** The result, and the unsupported constructs met, in order. *)
Fixpoint supports_condition (cond : Value) : bool * list string :=
  match cond with
  | VMapping map =>
      match get "type" map with
      | None => (false, ["condition_missing_type"])
      | Some t =>
          match as_str t with
          | None => (false, ["condition_type_not_string"])
          | Some ty =>
              if decide (ty ∈ ["event"; "graph"; "metric"]) then (true, [])
              else if decide (ty ∈ ["all"; "any"]) then
                (fix conditions (m : list (Value * Value)) : bool * list string :=
                   match m with
                   | [] => (false, [ty +:+ "_missing_conditions"])
                   | (k, v) :: m' =>
                       if is_key "conditions" k then
                         (fix nested (v : Value) : bool * list string :=
                            match v with
                            | VSequence l =>
                                (fix each (l : list Value) : bool * list string :=
                                   match l with
                                   | [] => (true, [])
                                   | c :: l' =>
                                       let '(ok, u) := supports_condition c in
                                       let '(oks, us) := each l' in (ok && oks, u ++ us)
                                   end) l
                            | VTagged _ v' => nested v'
                            | _ => (false, [ty +:+ "_missing_conditions"])
                            end) v
                       else conditions m'
                   end) map
              else (false, ["unsupported_type_" +:+ ty])
          end
      end
  | VTagged _ v => supports_condition v
  | _ => (false, ["condition_not_mapping"])
  end.

(** The loop over a list of conditions: all are tested. *)
Fixpoint supports_all (l : list Value) : bool * list string :=
  match l with
  | [] => (true, [])
  | c :: l' => let '(ok, u) := supports_condition c in
               let '(oks, us) := supports_all l' in (ok && oks, u ++ us)
  end.

Definition ensure_rule_id (map : list (Value * Value)) (pack : string) : list (Value * Value) :=
  match get "id" map with
  | Some _ => map
  | None =>
      let scene := default "unknown_scene" (match get "scene" map with
                                            | Some v => as_str v
                                            | None => None
                                            end) in
      insert "id" (VText (pack +:+ "." +:+ scene)) map
  end.

Inductive MigrateStatus := Migrated | Partial | Unchanged.
Record MigrateResult := mkMigrateResult { status : MigrateStatus; unsupported_ops : list string }.

Definition get_sequence (k : string) (m : list (Value * Value)) : option (list Value) :=
  match get k m with Some v => as_sequence v | None => None end.

(** The new conditions, or a note why there are none; [None]: nothing to do. *)
Definition translate_conditions (legacy_map : list (Value * Value))
  : option (result string Value * list string) :=
  match get_sequence "all" legacy_map, get_sequence "any" legacy_map with
  | Some all_seq, None =>
      let '(ok, unsupported) := supports_all all_seq in
      Some (if ok then Ok (VSequence all_seq)
            else Err "legacy all-conditions contains unsupported condition", unsupported)
  | None, Some any_seq =>
      let '(ok, unsupported) := supports_all any_seq in
      Some (if ok
            then Ok (VSequence [VMapping (insert "conditions" (VSequence any_seq)
                                            (insert "type" (VText "any") []))])
            else Err "legacy any-conditions contains unsupported condition", unsupported)
  | Some _, Some _ =>
      Some (Err "legacy conditions contains both all and any", ["legacy_all_and_any"])
  | None, None => None
  end.

Definition migrate_rule_value (path : string) (value : Value)
  : result string (Value * MigrateResult) :=
  match as_mapping value with
  | None => Err "rule must be YAML mapping"
  | Some map0 =>
      let map := ensure_rule_id map0 (infer_pack path) in
      let unchanged := Ok (set_mapping value map, mkMigrateResult Unchanged []) in
      match get "conditions" map with
      | None => unchanged
      | Some conditions =>
          match as_mapping conditions with
          | None => unchanged
          | Some legacy_map =>
              match translate_conditions legacy_map with
              | None => unchanged
              | Some (Err note, unsupported) =>
                  Ok (set_mapping value
                        (insert "migration_legacy_conditions" conditions
                           (insert "migration_notes" (VSequence [VText note])
                              (insert "migration_incomplete" (VBool true) map))),
                      mkMigrateResult Partial unsupported)
              | Some (Ok new_conditions, unsupported) =>
                  Ok (set_mapping value
                        (insert "migration_notes"
                           (VSequence [VText "migrated legacy conditions (all/any) to normalized syntax"])
                           (insert "migration_incomplete" (VBool false)
                              (insert "conditions" new_conditions map))),
                      mkMigrateResult Migrated unsupported)
              end
          end
      end
  end.

(** ** Lemmas on mappings *)

Lemma is_key_text s t : is_key s (VText t) = bool_decide (t = s).
Proof. done. Qed.

Lemma get_insert_eq s v m : get s (insert s v m) = Some v.
Proof.
  induction m as [|[k w] m IH]; simpl.
  - by rewrite bool_decide_eq_true_2.
  - destruct (is_key s k) eqn:E; simpl; by rewrite E.
Qed.

Lemma get_insert_ne s t v m : s ≠ t → get s (insert t v m) = get s m.
Proof.
  intros Hne. induction m as [|[k w] m IH]; simpl.
  - by rewrite bool_decide_eq_false_2.
  - destruct (is_key t k) eqn:E; simpl; [|by rewrite IH].
    destruct k; try done. simpl in *. apply bool_decide_eq_true in E as ->.
    by rewrite bool_decide_eq_false_2.
Qed.

Lemma insert_get s v m : get s m = Some v → insert s v m = m.
Proof.
  induction m as [|[k w] m IH]; simpl; [done|]. destruct (is_key s k); [by intros [= ->]|].
  intros H. by rewrite IH.
Qed.

Lemma as_mapping_set v m m' : as_mapping v = Some m → as_mapping (set_mapping v m') = Some m'.
Proof. induction v; simpl; auto; done. Qed.

Lemma set_mapping_twice v m m' : set_mapping (set_mapping v m) m' = set_mapping v m'.
Proof. induction v; simpl; try done. by rewrite IHv. Qed.

Lemma ensure_rule_id_has m pack : is_Some (get "id" (ensure_rule_id m pack)).
Proof.
  unfold ensure_rule_id. destruct (get "id" m) eqn:E; [by rewrite E|]. rewrite get_insert_eq. eauto.
Qed.

Lemma ensure_rule_id_ok m pack : is_Some (get "id" m) → ensure_rule_id m pack = m.
Proof. intros [v H]. unfold ensure_rule_id. by rewrite H. Qed.

Lemma ensure_rule_id_get m pack k : k ≠ "id" → get k (ensure_rule_id m pack) = get k m.
Proof. intros Hk. unfold ensure_rule_id. case_match; [done|]. by apply get_insert_ne. Qed.

Lemma translate_sequence lm cs u :
  translate_conditions lm = Some (Ok cs, u) → ∃ l, cs = VSequence l.
Proof.
  unfold translate_conditions. repeat case_match; intros; simplify_eq; eauto.
Qed.

(** ** The meaning of conditions as written *)

Section meaning.
Context (decode : Value → option Condition) (g : StateGraph) (events : list Event).

Local Notation cond_holds := (holds events (edges (store g)) (nodes g)).

(** What a [conditions] value is read as: a list, or the legacy table. *)
Definition decode_field (k : string) (m : list (Value * Value)) : option (option (list Condition)) :=
  match get k m with
  | None | Some VNull => Some None
  | Some v => match as_sequence v with
              | Some l => Some <$> mapM decode l
              | None => None
              end
  end.

Definition decode_conditions (v : Value) : option ConditionsWire :=
  match as_sequence v with
  | Some l => New <$> mapM decode l
  | None =>
      match as_mapping v with
      | Some m => match decode_field "all" m, decode_field "any" m with
                  | Some a, Some o => Some (Legacy (mkConditionsLegacyWire a o))
                  | _, _ => None
                  end
      | None => None
      end
  end.

Definition wire_meaning (w : ConditionsWire) : Prop :=
  match w with
  | New cs => ∀ c, c ∈ cs → cond_holds c
  | Legacy l => match legacy_all l, legacy_any l with
                | Some cs, None => ∀ c, c ∈ cs → cond_holds c
                | None, Some cs => ∃ c, c ∈ cs ∧ cond_holds c
                | _, _ => False
                end
  end.

(** How the reader takes the [any] entry the tool writes. *)
Hypothesis decode_any : ∀ l,
  decode (VMapping [(VText "type", VText "any"); (VText "conditions", VSequence l)])
  = CAny <$> mapM decode l.

Lemma sequence_not_mapping v l : as_sequence v = Some l → as_mapping v = None.
Proof. induction v; simpl; auto; done. Qed.

Lemma mapping_not_sequence v m : as_mapping v = Some m → as_sequence v = None.
Proof. induction v; simpl; auto; done. Qed.

Lemma decode_field_cases k m r :
  decode_field k m = Some r →
  (get_sequence k m = None ∧ r = None)
  ∨ ∃ l cs, get_sequence k m = Some l ∧ mapM decode l = Some cs ∧ r = Some cs.
Proof.
  unfold decode_field, get_sequence. destruct (get k m) as [v|]; simpl; [|intros [= <-]; by left].
  destruct (as_sequence v) as [l|] eqn:E; [|destruct v; intros [= <-]; by left].
  destruct v; try done; destruct (mapM decode l) as [cs|] eqn:Em; intros [= <-]; right; eauto.
Qed.

Lemma translate_meaning v lm cs u w :
  as_mapping v = Some lm → translate_conditions lm = Some (Ok cs, u) →
  decode_conditions v = Some w →
  ∃ w', decode_conditions cs = Some w' ∧ (wire_meaning w ↔ wire_meaning w').
Proof.
  intros Hm Ht. unfold decode_conditions at 1. rewrite (mapping_not_sequence _ _ Hm), Hm.
  destruct (decode_field "all" lm) as [a|] eqn:Ea; [|done].
  destruct (decode_field "any" lm) as [o|] eqn:Eo; [|done]. intros [= <-].
  unfold translate_conditions in Ht.
  apply decode_field_cases in Ea as [[Ea ->]|(la & ca & Ea & Ca & ->)], Eo as [[Eo ->]|(lo & co & Eo & Co & ->)];
    rewrite Ea, Eo in Ht; try done.
  - destruct (supports_all lo) as [ok us]. destruct ok; simplify_eq. simpl.
    exists (New [CAny co]). unfold decode_conditions. simpl. rewrite decode_any, Co. simpl.
    split; [done|]. setoid_rewrite list_elem_of_singleton. split.
    + intros (c & ? & ?) ? ->. by econstructor.
    + intros H. specialize (H _ eq_refl). inversion H; simplify_eq. eauto.
  - destruct (supports_all la) as [ok us]. destruct ok; simplify_eq. simpl.
    exists (New ca). unfold decode_conditions. simpl. by rewrite Ca.
Qed.

End meaning.

(** Migrating twice is migrating once: the second run leaves the value as it
    is, and finds nothing to migrate in a file that was migrated. *)
Theorem migration_idempotent path path' v v' r
  (Hmig : migrate_rule_value path v = Ok (v', r)) :
  ∃ r', migrate_rule_value path' v' = Ok (v', r')
    ∧ (status r = Migrated ∨ status r = Unchanged → status r' = Unchanged).
Proof.
  unfold migrate_rule_value in Hmig. destruct (as_mapping v) as [m0|] eqn:Em; [|done].
  set (m := ensure_rule_id m0 (infer_pack path)) in Hmig.
  pose proof (ensure_rule_id_has m0 (infer_pack path)) as Hid. fold m in Hid. clearbody m.
  assert (∀ m', as_mapping (set_mapping v m') = Some m') as Hset
    by (intros; by eapply as_mapping_set).
  destruct (get "conditions" m) as [conditions|] eqn:Ec.
  2: { simplify_eq/=. unfold migrate_rule_value. rewrite Hset, ensure_rule_id_ok, Ec by done.
       rewrite set_mapping_twice. by eexists. }
  destruct (as_mapping conditions) as [lm|] eqn:El.
  2: { simplify_eq/=. unfold migrate_rule_value. rewrite Hset, ensure_rule_id_ok, Ec, El by done.
       rewrite set_mapping_twice. by eexists. }
  destruct (translate_conditions lm) as [[[cs|note] us]|] eqn:Et; simplify_eq/=;
    unfold migrate_rule_value; rewrite Hset.
  - rewrite ensure_rule_id_ok by (by rewrite !get_insert_ne).
    rewrite !get_insert_ne, get_insert_eq by done.
    apply translate_sequence in Et as [l ->]. simpl. rewrite set_mapping_twice. by eexists.
  - rewrite ensure_rule_id_ok by (by rewrite !get_insert_ne).
    rewrite !(get_insert_ne "conditions"), Ec, El, Et by done.
    eexists. split; [|by intros [|]]. rewrite set_mapping_twice. do 3 f_equal.
    rewrite (insert_get "migration_incomplete");
      [|by rewrite !get_insert_ne, get_insert_eq by done].
    rewrite (insert_get "migration_notes");
      [|by rewrite !get_insert_ne, get_insert_eq by done].
    by rewrite (insert_get "migration_legacy_conditions"); [|apply get_insert_eq].
  - rewrite ensure_rule_id_ok, Ec, El, Et by done. rewrite set_mapping_twice. by eexists.
Qed.

(** ** Concrete rules *)

Definition event_condition : Value :=
  VMapping [(VText "type", VText "event"); (VText "event_type", VText "transport.drop")].
Definition signal_condition : Value :=
  VMapping [(VText "type", VText "signal"); (VText "signal", VText "net.drop_rate");
            (VText "op", VText "gt"); (VText "target", VText "5")].
Definition any_rule (cs : list Value) : Value :=
  VMapping [(VText "scene", VText "network_stall");
            (VText "conditions", VMapping [(VText "any", VSequence cs)])].

(** The migration tool refuses what the engine accepts: a legacy rule with a
    signal condition is left untranslated, as an unsupported type, although
    [Condition] has the variant and the matcher evaluates it. *)
Theorem migration_refuses_signal_conditions :
  supports_condition signal_condition = (false, ["unsupported_type_signal"])
  ∧ ∃ v, migrate_rule_value "rules/core/x.yaml" (any_rule [signal_condition])
         = Ok (v, mkMigrateResult Partial ["unsupported_type_signal"]).
Proof. split; [vm_compute; reflexivity|]. eexists. vm_compute. reflexivity. Qed.

(** A reader of event conditions and of the [any] entry. *)
Fixpoint demo_decode (v : Value) : option Condition :=
  match v with
  | VMapping [(VText "type", VText "event"); (VText "event_type", VText t)] =>
      Some (CEvent t None None None)
  | VMapping [(VText "type", VText "any"); (VText "conditions", VSequence l)] =>
      CAny <$> (fix go (l : list Value) : option (list Condition) :=
                  match l with
                  | [] => Some []
                  | x :: l' => match demo_decode x, go l' with
                               | Some c, Some cs => Some (c :: cs)
                               | _, _ => None
                               end
                  end) l
  | _ => None
  end.

Lemma demo_decode_any l :
  demo_decode (VMapping [(VText "type", VText "any"); (VText "conditions", VSequence l)])
  = CAny <$> mapM demo_decode l.
Proof.
  done.
Qed.

Definition migrated (v : Value) : Value :=
  match migrate_rule_value "rules/core/x.yaml" v with Ok (v', _) => v' | Err _ => v end.


Lemma migration_idempotent_witness :
  ∃ r', migrate_rule_value "rules/core/y.yaml" (migrated (any_rule [event_condition]))
        = Ok (migrated (any_rule [event_condition]), r')
    ∧ (Migrated = Migrated ∨ Migrated = Unchanged → status r' = Unchanged).
Proof.
  exact (migration_idempotent "rules/core/x.yaml" "rules/core/y.yaml" (any_rule [event_condition])
           (migrated (any_rule [event_condition])) (mkMigrateResult Migrated []) eq_refl).
Defined.
