(* ===== verification/MigrateRun.v ===== *)
(** * Running the migration tool (core/src/bin/rules-migrate.rs, [run] and [main])

    The walk that collects the rule files, where the result of a file is
    written, the loop over the files with its summary, and the exit status.
    Files written by the run are seen by later reads.  The YAML codec and the
    failure of a write are parameters.  The theorems: the walk ends and finds
    exactly the YAML files below its root other than manifests; the summary
    accounts for every file; what is written, and that a dry run writes
    nothing; and when the exit status is failure. *)

From S2P Require Import Prelude Text Rule Matcher RuleFiles Migrate.

(** ** Collecting files *)

Definition selected (path : string) : bool :=
  is_yaml_file path && bool_decide (file_name path ≠ Some "manifest.yaml").

(** The entries of one directory; the top of the stack is the head. *)
Fixpoint scan_entries (dir : string) (es : list (result string (string * fnode)))
    (stack : list (string * fnode)) (files : list string)
  : result string (list (string * fnode) * list string) :=
  match es with
  | [] => Ok (stack, files)
  | Err e :: _ => Err ("read_dir entry failed: " +:+ e)
  | Ok (name, n) :: es' =>
      let path := path_join dir name in
      if is_dir n then scan_entries dir es' ((path, n) :: stack) files
      else scan_entries dir es' stack (if selected path then files ++ [path] else files)
  end.

Fixpoint scan_loop (fuel : nat) (stack : list (string * fnode)) (files : list string)
  : option (result string (list string)) :=
  match stack with
  | [] => Some (Ok files)
  | (dir, n) :: stack' =>
      match fuel with
      | 0 => None
      | S fuel' =>
          match read_dir (Some n) with
          | Err e => Some (Err ("read_dir failed " +:+ dir +:+ ": " +:+ e))
          | Ok es =>
              match scan_entries dir es stack' files with
              | Err e => Some (Err e)
              | Ok (stack'', files') => scan_loop fuel' stack'' files'
              end
          end
      end
  end.

(** [files.sort()] *)
Definition path_le (a b : string) : bool :=
  match path_compare a b with Datatypes.Gt => false | _ => true end.

Definition collect_files (fs : FileSystem) (input : string) : result string (list string) :=
  match resolve fs input with
  | Some (FFile _) => Ok (if is_yaml_file input then [input] else [])
  | Some (FDir _ as n) =>
      match scan_loop (tree_size n) [(input, n)] [] with
      | Some (Ok files) => Ok (stable_sort path_le files)
      | Some (Err e) => Err e
      | None => Err "out of fuel"
      end
  | _ => Err ("input does not exist: " +:+ input)
  end.

(** ** Where results go *)

(** [file.strip_prefix(base)], with the file itself when it is not below. *)
Definition relative_to (base : list component) (file : string) : string :=
  if decide (take (length base) (components file) = base)
  then join "/" (map component_text (drop (length base) (components file)))
  else file.

Definition output_path (cli : Cli) (input_base : list component) (file : string)
  : result string string :=
  if cli_in_place cli then Ok file
  else match cli_out_dir cli with
       | Some out_dir =>
           let out := path_join out_dir (relative_to input_base file) in
           Ok (match extension out with Some _ => out | None => with_extension out "yaml" end)
       | None =>
           match file_stem file with
           | Some stem => Ok (with_file_name file (stem +:+ ".migrated.yaml"))
           | None => Err ("invalid file name: " +:+ file)
           end
       end.

Record Summary := mkSummary {
  migrated_rules : nat; partial_rules : nat; failed_rules : nat; unchanged_rules : nat;
  sum_unsupported_ops : gmap string nat }.
Definition summary_default : Summary := mkSummary 0 0 0 0 ∅.

Definition count_failed (s : Summary) : Summary :=
  mkSummary (migrated_rules s) (partial_rules s) (S (failed_rules s)) (unchanged_rules s)
    (sum_unsupported_ops s).

Definition count_op (m : gmap string nat) (op : string) : gmap string nat :=
  <[op := S (default 0 (m !! op))]> m.

Definition count_result (s : Summary) (r : MigrateResult) : Summary :=
  let ops := foldl count_op (sum_unsupported_ops s) (unsupported_ops r) in
  match status r with
  | Unchanged => mkSummary (migrated_rules s) (partial_rules s) (failed_rules s)
                   (S (unchanged_rules s)) ops
  | Migrated => mkSummary (S (migrated_rules s)) (partial_rules s) (failed_rules s)
                  (unchanged_rules s) ops
  | Partial => mkSummary (migrated_rules s) (S (partial_rules s)) (failed_rules s)
                 (unchanged_rules s) ops
  end.

(** Files written so far, the newest first. *)
Abbreviation written := (list (string * string)).

Section run.
Context (from_str : string → result string Value) (to_string : Value → result string string)
        (dir_error write_error : string → option string).
(** The error of creating the directory of a path and of writing the path, if
    they fail. *)

Definition migrated_content (body : string) (st : MigrateStatus) : string :=
  "# Migrated from legacy conditions (all/any) by rules-migrate" +:+ nl
  +:+ (match st with
       | Partial => "# WARNING: migration incomplete, see migration_notes" +:+ nl
       | _ => ""
       end)
  +:+ body.

Definition write_migrated (w : written) (path : string) (value : Value) (st : MigrateStatus)
  : result string written :=
  match dir_error path with
  | Some e => Err e
  | None =>
      match to_string value with
      | Err e => Err ("serialize yaml failed " +:+ path +:+ ": " +:+ e)
      | Ok body =>
          match write_error path with
          | Some e => Err ("write failed " +:+ path +:+ ": " +:+ e)
          | None => Ok ((path, migrated_content body st) :: w)
          end
      end
  end.

(** A file as a read finds it during the run. *)
Definition read_now (fs : FileSystem) (w : written) (path : string) : result string string :=
  match filter (λ pc, path_eqb path pc.1 = true) w with
  | (_, content) :: _ => Ok content
  | [] => read_path fs path
  end.

(** What one file comes to: parsed and migrated, or a failure that is counted. *)
Definition migrate_text (file raw : string) : option (Value * MigrateResult) :=
  match from_str raw with
  | Err _ => None
  | Ok value => match migrate_rule_value file value with
                | Ok vr => Some vr
                | Err _ => None
                end
  end.

Fixpoint run_files (cli : Cli) (fs : FileSystem) (input_base : list component)
    (files : list string) (s : Summary) (w : written) : result string Summary * written :=
  match files with
  | [] => (Ok s, w)
  | file :: files' =>
      if negb (matches_pack_filter file (cli_filter_pack cli))
      then run_files cli fs input_base files' s w
      else
        match read_now fs w file with
        | Err e => (Err ("read failed " +:+ file +:+ ": " +:+ e), w)
        | Ok raw =>
            match migrate_text file raw with
            | None => run_files cli fs input_base files' (count_failed s) w
            | Some (value, r) =>
                let s' := count_result s r in
                if cli_dry_run cli then run_files cli fs input_base files' s' w
                else
                  match output_path cli input_base file with
                  | Err e => (Err e, w)
                  | Ok out =>
                      match write_migrated w out value (status r) with
                      | Err e => (Err e, w)
                      | Ok w' => run_files cli fs input_base files' s' w'
                      end
                  end
            end
        end
  end.

Definition input_base (fs : FileSystem) (input : string) : list component :=
  match resolve fs input with
  | Some (FDir _) => components input
  | _ => removelast (components input)
  end.

Definition run (cli : Cli) (fs : FileSystem) : result string Summary * written :=
  let input := default "" (cli_input cli) in
  match collect_files fs input with
  | Err e => (Err e, [])
  | Ok files => run_files cli fs (input_base fs input) files summary_default []
  end.

(** [main]: the exit status, and the files written. *)
Definition main_status (args : list string) (fs : FileSystem) : N * written :=
  match parse_args args with
  | Err _ => (2%N, [])
  | Ok cli =>
      match run cli fs with
      | (Ok summary, w) =>
          (if cli_strict cli && (bool_decide (0 < partial_rules summary)
                                 || bool_decide (0 < failed_rules summary))
           then 1%N else 0%N, w)
      | (Err _, w) => (1%N, w)
      end
  end.

(** The part of [print_summary] that is computed: the most frequent constructs. *)
Definition more_frequent (a b : string * nat) : bool := bool_decide (b.2 ≤ a.2).
Definition unsupported_top (s : Summary) : list (string * nat) :=
  take 10 (stable_sort more_frequent (map_to_list (sum_unsupported_ops s))).
End run.

(** ** The walk is exact *)

Definition scanned (dir : string) (r : result string (string * fnode)) : option string :=
  match r with
  | Ok (name, c) => if negb (is_dir c) && selected (path_join dir name)
                    then Some (path_join dir name) else None
  | Err _ => None
  end.

Lemma scan_entries_ok dir es stack files :
  forallb is_ok es = true →
  scan_entries dir es stack files
  = Ok (rev (omap (entry_dir dir) es) ++ stack, files ++ omap (scanned dir) es).
Proof.
  revert stack files. induction es as [|[[name c]|e] es IH]; intros stack files Hok; simpl;
    [by rewrite app_nil_r|..|done].
  destruct (is_dir c); simpl; rewrite IH by done.
  - by rewrite <-app_assoc.
  - destruct (selected _); by rewrite <-?app_assoc.
Qed.

Lemma elem_of_scanned dir (es : list (result string (string * fnode))) p :
  p ∈ omap (scanned dir) es ↔
  selected p = true ∧ ∃ name c, Ok (name, c) ∈ es ∧ is_dir c = false ∧ p = path_join dir name.
Proof.
  rewrite list_elem_of_omap. split.
  - intros ([[name c]|e] & Hin & Hr); simpl in Hr; [|done].
    destruct (is_dir c) eqn:E, (selected _) eqn:E'; simplify_eq/=. split; [done|]. by exists name, c.
  - intros (Hs & name & c & Hin & Hd & ->). exists (Ok (name, c)). simpl. by rewrite Hd, Hs.
Qed.

Lemma scan_loop_ok fuel stack files :
  stack_size stack ≤ fuel →
  (∀ d n, (d, n) ∈ stack → is_dir n = true ∧ readable n = true) →
  ∃ l, scan_loop fuel stack files = Some (Ok (files ++ l))
    ∧ ∀ p, p ∈ l ↔ selected p = true ∧ ∃ d n m, (d, n) ∈ stack ∧ below d n p m.
Proof.
  revert stack files. induction fuel as [|fuel IH]; intros [|[d n] stack] files Hs Hok; simpl.
  1,3: exists []; split; [by rewrite app_nil_r|]; intros p; split; [by intros ?%elem_of_nil|];
       intros (_ & ? & ? & ? & ?%elem_of_nil & _); done.
  { rewrite stack_size_cons in Hs. pose proof (tree_size_pos n). lia. }
  destruct (Hok d n) as [Hd Hr]; [by left|].
  destruct n as [|[es|]|]; try done. cbn [read_dir]. rewrite readable_dir in Hr.
  rewrite scan_entries_ok.
  2: { rewrite forallb_forall in *. intros r Hin%Hr. by destruct r as [[]|]. }
  destruct (IH (rev (omap (entry_dir d) es) ++ stack) (files ++ omap (scanned d) es)) as (l & Hl & Hm).
  - rewrite stack_size_app. pose proof (subdirs_size d es). rewrite stack_size_cons in Hs. lia.
  - intros d' n' [Hin|Hin]%elem_of_app; [|apply (Hok d'); by right].
    apply elem_of_subdirs in Hin as (name & Hin & Hd' & _). split; [done|].
    rewrite forallb_forall in Hr. by apply list_elem_of_In, Hr in Hin.
  - exists (omap (scanned d) es ++ l). rewrite Hl, app_assoc. split; [done|].
    intros p. rewrite elem_of_app, Hm, elem_of_scanned. split.
    + intros [(Hsel & name & c & ? & ? & ->)|(? & d' & n' & m & [Hin|Hin]%elem_of_app & ?)];
        (split; [done|]).
      * eexists _, _, c. split; [by left|]. by econstructor.
      * apply elem_of_subdirs in Hin as (name & ? & ? & ->).
        eexists _, _, m. split; [by left|]. by eapply below_dir.
      * eexists _, _, m. split; [by right|done].
    + intros (Hsel & d' & n' & m & [[= -> ->]|Hin]%elem_of_cons & Hb).
      * apply below_split in Hb as [(name & ? & ? & ->)|(name & c & ? & ? & ?)];
          [left; split; [done|]; by exists name, m|].
        right. split; [done|]. eexists _, _, m. split; [|done]. apply elem_of_app. left.
        apply elem_of_subdirs. by exists name.
      * right. split; [done|]. eexists _, _, m. split; [|done]. apply elem_of_app. by right.
Qed.

(** The migration tool's walk ends and is exact: on a directory tree that can
    be listed it returns, and what it returns is exactly the YAML files at any
    depth below the input, those called manifest.yaml apart, sorted by path. *)
Theorem migration_collects_exactly fs input n
  (Hres : resolve fs input = Some n) (Hdir : is_dir n = true) (Hread : readable n = true) :
  ∃ files, collect_files fs input = Ok files
    ∧ StronglySorted (λ a b, path_le a b = true) files
    ∧ ∀ p, p ∈ files ↔ is_yaml_file p = true ∧ file_name p ≠ Some "manifest.yaml"
                       ∧ ∃ m, below input n p m.
Proof.
  unfold collect_files. rewrite Hres. destruct n as [|es|]; [done| |done].
  destruct (scan_loop_ok (tree_size (FDir es)) [(input, FDir es)] []) as (l & -> & Hl).
  - rewrite stack_size_cons. unfold stack_size. simpl. lia.
  - intros d n [= -> ->]%list_elem_of_singleton. done.
  - eexists. split_and!; [done| |].
    { apply (stable_sort_sorted path_le
        (λ x y, cmp_le_total components_compare (components x) (components y))
        (λ x y z, cmp_le_trans components_compare (components x) (components y) (components z))). }
    intros p. rewrite elem_of_stable_sort. simpl. rewrite Hl.
    unfold selected. rewrite andb_true_iff, bool_decide_eq_true.
    setoid_rewrite list_elem_of_singleton. naive_solver.
Qed.

(** ** The summary *)

Section account.
Context (from_str : string → result string Value) (to_string : Value → result string string)
        (dir_error write_error : string → option string) (cli : Cli) (fs : FileSystem)
        (base : list component).

Notation run_all := (run_files from_str to_string dir_error write_error cli fs base).

Definition processed (files : list string) : list string :=
  filter (λ f, matches_pack_filter f (cli_filter_pack cli) = true) files.

Definition summary_total (s : Summary) : nat :=
  migrated_rules s + partial_rules s + failed_rules s + unchanged_rules s.

Lemma processed_cons f files :
  processed (f :: files)
  = (if matches_pack_filter f (cli_filter_pack cli) then [f] else []) ++ processed files.
Proof.
  unfold processed. rewrite filter_cons. destruct (matches_pack_filter _ _); by case_decide.
Qed.

Lemma count_result_total s r : summary_total (count_result s r) = S (summary_total s).
Proof. unfold summary_total, count_result. destruct (status r); simpl; lia. Qed.

Lemma count_failed_total s : summary_total (count_failed s) = S (summary_total s).
Proof. unfold summary_total. simpl. lia. Qed.

(** The summary of a completed run accounts for every file: the four counts
    add up to the number of collected files that pass the pack filter, and the
    number of files written is that of the processed files less the failed ones,
    or none at all in a dry run. *)
Theorem migration_summary_accounts files s w s' w'
  (Hrun : run_all files s w = (Ok s', w')) :
  summary_total s' = summary_total s + length (processed files)
  ∧ (if cli_dry_run cli then w' = w
     else length w' + (failed_rules s' - failed_rules s) = length w + length (processed files)
          ∧ failed_rules s ≤ failed_rules s').
Proof.
  revert s w Hrun. induction files as [|f files IH]; intros s w Hrun; cbn [run_files] in Hrun.
  { simplify_eq. unfold processed. simpl. destruct (cli_dry_run cli); split; [lia|done|lia..]. }
  rewrite processed_cons, length_app. destruct (matches_pack_filter f (cli_filter_pack cli));
    simpl in Hrun; [|by apply IH in Hrun].
  destruct (read_now fs w f) as [raw|e]; [|done].
  destruct (migrate_text from_str f raw) as [[v r]|].
  - assert (failed_rules (count_result s r) = failed_rules s) as Hf
      by (unfold count_result; by destruct (status r)).
    destruct (cli_dry_run cli) eqn:Ed.
    + apply IH in Hrun as [Ht ->]. rewrite count_result_total in Ht. simpl. split; [lia|done].
    + destruct (output_path cli base f) as [out|e]; [|done]. unfold write_migrated in Hrun.
      destruct (dir_error out); [done|]. destruct (to_string v) as [body|]; [|done].
      destruct (write_error out); [done|]. apply IH in Hrun as [Ht [Hl Hle]].
      rewrite count_result_total in Ht. rewrite Hf in Hl, Hle. simpl in *. split; [lia|]. lia.
  - apply IH in Hrun as [Ht Hw]. rewrite count_failed_total in Ht. simpl in *. split; [lia|].
    destruct (cli_dry_run cli); [done|]. lia.
Qed.

(** ** What is written *)

(** The write that the file as it was before the run leads to. *)
Definition planned (f : string) : option (string * string) :=
  match read_path fs f with
  | Err _ => None
  | Ok raw =>
      match migrate_text from_str f raw with
      | None => None
      | Some (v, r) =>
          match output_path cli base f, to_string v with
          | Ok out, Ok body => Some (out, migrated_content body (status r))
          | _, _ => None
          end
      end
  end.

(** No output goes over a file that is still to be read. *)
Definition outputs_apart : list string → Prop :=
  StronglySorted (λ f f', ∀ out, output_path cli base f = Ok out → path_eqb f' out = false).

Lemma read_now_apart w f :
  Forall (λ pc, path_eqb f pc.1 = false) w → read_now fs w f = read_path fs f.
Proof.
  intros Hw. unfold read_now.
  assert (filter (λ pc, path_eqb f pc.1 = true) w = []) as ->; [|done].
  induction Hw as [|pc w Hpc Hw IH]; [done|]. rewrite filter_cons, decide_False by congruence. done.
Qed.

Lemma run_files_writes files s w s' w' :
  cli_dry_run cli = false → outputs_apart files →
  (∀ f, f ∈ files → Forall (λ pc, path_eqb f pc.1 = false) w) →
  run_all files s w = (Ok s', w') → w' = rev (omap planned (processed files)) ++ w.
Proof.
  intros Hdry Hap. revert s w. induction Hap as [|f files Hap IH Hf]; intros s w Hw Hrun;
    cbn [run_files] in Hrun; [by simplify_eq|].
  rewrite processed_cons. assert (∀ f', f' ∈ files → Forall (λ pc, path_eqb f' pc.1 = false) w) as Hw'
    by (intros; apply Hw; by right).
  destruct (matches_pack_filter f (cli_filter_pack cli)); simpl in Hrun; [|by apply IH in Hrun].
  rewrite read_now_apart in Hrun by (apply Hw; by left). simpl. unfold planned at 1.
  destruct (read_path fs f) as [raw|e]; [|done].
  destruct (migrate_text from_str f raw) as [[v r]|]; [|by apply IH in Hrun].
  rewrite Hdry in Hrun. destruct (output_path cli base f) as [out|e] eqn:Eo; [|done].
  unfold write_migrated in Hrun. destruct (dir_error out); [done|].
  destruct (to_string v) as [body|]; [|done]. destruct (write_error out); [done|].
  apply IH in Hrun; [rewrite Hrun; simpl; by rewrite <-app_assoc|].
  intros f' Hin. constructor; [|by apply Hw']. rewrite Forall_forall in Hf. by apply (Hf f').
Qed.

(** What a run writes: when it completes, is not a dry run, and no output goes
    over an input that is still to be read, the files written are exactly the
    planned ones, in order: for every file that passes the filter and can be
    migrated, its translation under the header, at the place the options name. *)
Theorem migration_writes_exactly files s s' w'
  (Hdry : cli_dry_run cli = false) (Hap : outputs_apart files)
  (Hrun : run_all files s [] = (Ok s', w')) :
  rev w' = omap planned (processed files).
Proof.
  apply run_files_writes in Hrun; [|done..]. by rewrite Hrun, app_nil_r, rev_involutive.
Qed.
End account.

(** In place, the outputs are apart as soon as the files differ. *)
Lemma in_place_apart cli base files :
  cli_in_place cli = true → NoDup (map components files) → outputs_apart cli base files.
Proof.
  intros Hip Hnd. induction files as [|f files IH]; [constructor|].
  simpl in Hnd. apply NoDup_cons in Hnd as [Hf Hnd]. constructor; [by apply IH|].
  apply Forall_forall. intros f' Hin out. unfold output_path. rewrite Hip. intros [= <-].
  apply bool_decide_eq_false. intros E. apply Hf. rewrite <-E. by apply list_elem_of_fmap_2.
Qed.

(** ** Examples *)

(** A codec for the two demonstration rules. *)
Definition demo_from_str (s : string) : result string Value :=
  if decide (s = "legacy") then Ok (any_rule [event_condition])
  else if decide (s = "signal") then Ok (any_rule [signal_condition])
  else Err "invalid type".
Definition demo_yaml (v : Value) : result string string := Ok "body".

Definition demo_rules_fs : FileSystem :=
  mkFileSystem [listed [("rules", listed
    [("b.yaml", FFile (Ok "signal")); ("manifest.yaml", FFile (Ok "m"));
     ("a.yml", FFile (Ok "legacy")); ("bad.yaml", FFile (Ok "?")); ("readme.md", FFile (Ok "r"))])]].

Lemma migration_collects_exactly_witness :
  collect_files demo_rules_fs "rules" = Ok ["rules/a.yml"; "rules/b.yaml"; "rules/bad.yaml"]
  ∧ ∃ files, collect_files demo_rules_fs "rules" = Ok files
      ∧ StronglySorted (λ a b, path_le a b = true) files
      ∧ ∀ p, p ∈ files ↔ is_yaml_file p = true ∧ file_name p ≠ Some "manifest.yaml"
          ∧ ∃ m, below "rules" (listed
              [("b.yaml", FFile (Ok "signal")); ("manifest.yaml", FFile (Ok "m"));
               ("a.yml", FFile (Ok "legacy")); ("bad.yaml", FFile (Ok "?"));
               ("readme.md", FFile (Ok "r"))]) p m.
Proof.
  split; [vm_compute; reflexivity|].
  apply (migration_collects_exactly demo_rules_fs "rules"); vm_compute; reflexivity.
Defined.

Definition demo_cli (dry : bool) : Cli := mkCli (Some "rules") None false dry None false.
Definition demo_run (dry : bool) : result string Summary * written :=
  run demo_from_str demo_yaml (λ _, None) (λ _, None) (demo_cli dry) demo_rules_fs.
Definition demo_summary : Summary := mkSummary 1 1 1 0 {["unsupported_type_signal" := 1]}.

Lemma migration_summary_accounts_witness :
  demo_run true = (Ok demo_summary, [])
  ∧ summary_total demo_summary
    = 0 + length (processed (demo_cli true) ["rules/a.yml"; "rules/b.yaml"; "rules/bad.yaml"]).
Proof.
  split; [vm_compute; reflexivity|].
  apply (migration_summary_accounts demo_from_str demo_yaml (λ _, None) (λ _, None) (demo_cli true)
           demo_rules_fs (components "rules") ["rules/a.yml"; "rules/b.yaml"; "rules/bad.yaml"]
           summary_default [] demo_summary []).
  vm_compute. reflexivity.
Defined.

Lemma migration_writes_exactly_witness :
  rev (demo_run false).2
  = omap (planned demo_from_str demo_yaml (demo_cli false) demo_rules_fs (components "rules"))
      (processed (demo_cli false) ["rules/a.yml"; "rules/b.yaml"; "rules/bad.yaml"])
  ∧ map fst (rev (demo_run false).2) = ["rules/a.migrated.yaml"; "rules/b.migrated.yaml"].
Proof.
  split; [|vm_compute; reflexivity].
  apply (migration_writes_exactly demo_from_str demo_yaml (λ _, None) (λ _, None) (demo_cli false)
           demo_rules_fs (components "rules") ["rules/a.yml"; "rules/b.yaml"; "rules/bad.yaml"]
           summary_default demo_summary); [reflexivity| |vm_compute; reflexivity].
  repeat first [apply SSorted_nil | apply SSorted_cons];
    repeat first [apply Forall_nil | apply Forall_cons; split; [intros out [= <-]; reflexivity|]];
    done.
Defined.
