(* ===== verification/Dedup.v ===== *)
(** * Event de-duplication (hub/src/dedup.rs)

    The hub drops an event it has already seen within a sliding window.  The
    hash function of the standard library is a parameter: its algorithm is not
    specified, only that equal inputs hash equally.  The theorems: a repeated
    event is dropped as long as no event beyond the window came between, and,
    when no two fingerprints collide, nothing else is dropped. *)

From S2P Require Import Prelude Event.

(** What is fed to the hasher, in order. *)
Definition fingerprint_input : Type :=
  N * string * string * option string * option N * string * option string.

Definition event_fields (event : Event) : fingerprint_input :=
  (ev_ts event, event_type_display (ev_type event), ev_entity_id event, ev_job_id event,
   ev_pid event, ev_value event, ev_node_id event).

(** [DedupStore], the seen fingerprints with the timestamp of their event, is a
    [gmap N N]. *)

(** [store.retain(|_, ts| *ts >= cutoff)] *)
Definition purge (cutoff : N) (store : gmap N N) : gmap N N :=
  filter (λ kv, cutoff ≤ kv.2)%N store.

Section dedup.
Context (hasher : fingerprint_input → N).

Definition event_fingerprint (event : Event) : N := hasher (event_fields event).

Definition accept_event_with_dedup (event : Event) (store : gmap N N) (window_ms : N)
  : bool * gmap N N :=
  let key := event_fingerprint event in
  let cutoff := saturating_sub (ev_ts event) window_ms in
  let store := purge cutoff store in
  if decide (is_Some (store !! key)) then (false, store)
  else (true, <[key := ev_ts event]> store).

(** A run of the filter: the accepted events, in order. *)
Fixpoint dedup_run (store : gmap N N) (window_ms : N) (evs : list Event)
  : list Event * gmap N N :=
  match evs with
  | [] => ([], store)
  | e :: evs' =>
      let '(ok, store') := accept_event_with_dedup e store window_ms in
      let '(acc, store'') := dedup_run store' window_ms evs' in
      (if ok then e :: acc else acc, store'')
  end.

Lemma event_fields_inj e f : event_fields e = event_fields f → e = f.
Proof.
  destruct e, f. unfold event_fields. simpl. intros [= -> Ht%event_type_display_inj]. by subst.
Qed.

Lemma purge_lookup cutoff (store : gmap N N) k t :
  purge cutoff store !! k = Some t ↔ store !! k = Some t ∧ (cutoff ≤ t)%N.
Proof. unfold purge. by rewrite map_lookup_filter_Some. Qed.

(** Every entry comes from an event of the history and carries its timestamp. *)
Definition store_from (history : list Event) (store : gmap N N) : Prop :=
  ∀ k t, store !! k = Some t → ∃ e, e ∈ history ∧ event_fingerprint e = k ∧ ev_ts e = t.

Lemma accept_store_from history store e w :
  store_from history store →
  store_from (history ++ [e]) (accept_event_with_dedup e store w).2.
Proof.
  intros H k t. unfold accept_event_with_dedup. case_decide; simpl; intros Hk.
  - apply purge_lookup in Hk as [Hk _]. destruct (H _ _ Hk) as (e' & ? & ?).
    exists e'. split; [apply elem_of_app; by left|done].
  - destruct (decide (k = event_fingerprint e)) as [->|Hne].
    + rewrite lookup_insert_eq in Hk. simplify_eq. exists e.
      split; [apply elem_of_app; right; by left|done].
    + rewrite lookup_insert_ne in Hk by done. apply purge_lookup in Hk as [Hk _].
      destruct (H _ _ Hk) as (e' & ? & ?). exists e'. split; [apply elem_of_app; by left|done].
Qed.

(** The entry of an event survives every event that is not beyond the window. *)
Lemma accept_keeps e store w k t :
  store !! k = Some t → (ev_ts e ≤ t + w)%N →
  (accept_event_with_dedup e store w).2 !! k = Some t.
Proof.
  intros Hk Hle. unfold accept_event_with_dedup.
  assert (purge (saturating_sub (ev_ts e) w) store !! k = Some t) as Hp.
  { apply purge_lookup. split; [done|]. unfold saturating_sub. lia. }
  case_decide as Hs; simpl; [done|]. rewrite lookup_insert_ne; [done|].
  intros Heq. apply Hs. rewrite Heq. eauto.
Qed.

Lemma accept_rejects e store w :
  store !! event_fingerprint e = Some (ev_ts e) → (accept_event_with_dedup e store w).1 = false.
Proof.
  intros Hk. unfold accept_event_with_dedup. rewrite decide_True; [done|].
  exists (ev_ts e). apply purge_lookup. split; [done|]. unfold saturating_sub. lia.
Qed.

Lemma dedup_run_keeps evs store w k t :
  store !! k = Some t → (∀ e, e ∈ evs → ev_ts e ≤ t + w)%N →
  (dedup_run store w evs).2 !! k = Some t.
Proof.
  revert store. induction evs as [|e evs IH]; intros store Hk Hw; simpl; [done|].
  destruct (accept_event_with_dedup e store w) as [ok store'] eqn:Ea.
  destruct (dedup_run store' w evs) as [acc store''] eqn:Er. simpl.
  change store'' with ((acc, store'').2). rewrite <-Er. apply IH.
  - change store' with ((ok, store').2). rewrite <-Ea. apply accept_keeps; [done|].
    apply Hw. by left.
  - intros f Hf. apply Hw. by right.
Qed.

Lemma dedup_run_store_from evs history store w :
  store_from history store → store_from (history ++ evs) (dedup_run store w evs).2.
Proof.
  revert history store. induction evs as [|e evs IH]; intros history store H; simpl.
  { by rewrite app_nil_r. }
  pose proof (accept_store_from history store e w H) as Ha.
  destruct (accept_event_with_dedup e store w) as [ok store']. specialize (IH _ _ Ha).
  rewrite <-app_assoc in IH. simpl in *. by destruct (dedup_run store' w evs).
Qed.

(** ** Claims *)

(** A repeated event is dropped: after an event has been accepted, any run of
    events none of which is more than the window ahead of it leaves it marked,
    so that a re-delivery of the same event is rejected. *)
Theorem dedup_drops_repeats store w e evs
  (Hacc : (accept_event_with_dedup e store w).1 = true)
  (Hwin : ∀ f, f ∈ evs → (ev_ts f ≤ ev_ts e + w)%N) :
  let later := (dedup_run (accept_event_with_dedup e store w).2 w evs).2 in
  (accept_event_with_dedup e later w).1 = false.
Proof.
  simpl. apply accept_rejects, dedup_run_keeps; [|done].
  unfold accept_event_with_dedup in *. case_decide; [done|]. simpl. by rewrite lookup_insert_eq.
Qed.

(** Nothing else is dropped: when the fingerprint of an event differs from
    those of all earlier, different events, an event that has not occurred
    before is accepted, whatever came before it. *)
Theorem dedup_keeps_new w e evs
  (Hnew : e ∉ evs)
  (Hcoll : ∀ f, f ∈ evs → event_fingerprint f = event_fingerprint e → event_fields f = event_fields e) :
  (accept_event_with_dedup e (dedup_run ∅ w evs).2 w).1 = true.
Proof.
  unfold accept_event_with_dedup. rewrite decide_False; [done|]. intros [t Ht].
  apply purge_lookup in Ht as [Ht _].
  destruct (dedup_run_store_from evs [] ∅ w) with (k := event_fingerprint e) (t := t)
    as (f & Hf & Hfp & _); [|done|].
  - intros k t' Hk. by rewrite lookup_empty in Hk.
  - apply Hnew. apply Hcoll, event_fields_inj in Hfp; [|done]. by subst.
Qed.
End dedup.

(** A hash function for concrete runs. *)
Definition demo_hasher (x : fingerprint_input) : N :=
  let '(ts, _, entity, _, _, _, _) := x in (ts * 1000 + N.of_nat (String.length entity))%N.
Definition demo_event (ts : N) (entity : string) : Event :=
  mkEvent ts TransportDrop entity None None "1" None.

Lemma dedup_drops_repeats_witness :
  (accept_event_with_dedup demo_hasher (demo_event 1000 "eth0")
     (dedup_run demo_hasher
        (accept_event_with_dedup demo_hasher (demo_event 1000 "eth0") ∅ 500).2 500
        [demo_event 1400 "eth1"; demo_event 1200 "roce-0"]).2 500).1 = false.
Proof.
  apply (dedup_drops_repeats demo_hasher ∅ 500 (demo_event 1000 "eth0")
           [demo_event 1400 "eth1"; demo_event 1200 "roce-0"]).
  - vm_compute. reflexivity.
  - intros f [->|[->|?%elem_of_nil]%elem_of_cons]%elem_of_cons; [..|done]; vm_compute; discriminate.
Defined.

Lemma dedup_keeps_new_witness :
  (accept_event_with_dedup demo_hasher (demo_event 1000 "eth0")
     (dedup_run demo_hasher ∅ 500 [demo_event 900 "eth0"; demo_event 1000 "roce-0"]).2 500).1 = true.
Proof.
  apply dedup_keeps_new.
  - apply (bool_decide_unpack _). vm_compute. exact I.
  - intros f [->|[->|?%elem_of_nil]%elem_of_cons]%elem_of_cons; [..|done]; vm_compute; discriminate.
Defined.
