(* ===== verification/K8s.v ===== *)
(** * The Kubernetes controller (hub/src/k8s_controller.rs)

    Fault detection, tainting and evicting with a cool-down, and one pass of the
    operator over the remediation requests.  The Kubernetes API is a parameter:
    a record of the calls the controller makes over an abstract cluster state.
    The theorems: changes of the cluster for one node, by faults handled one after
    another, are a cool-down apart; tainting keeps the other taints and is idempotent; eviction
    reaches exactly the evictable pods of the node; every pass of the operator
    carries out the same requests again, since its status patches are refused; and
    the substring fallback of the node lookup can pick another node. *)

From S2P Require Import Prelude Event.

(** ** Faults *)

Inductive IrreversibleFault :=
| PersistentXidError (node_id gpu_id xid_code : string)
| RdmaLinkDown (node_id interface : string)
| StorageDeviceFailure (node_id device : string)
| OtherHardwareFailure (node_id reason : string).

Global Instance irreversible_fault_eq_dec : EqDecision IrreversibleFault.
Proof. solve_decision. Defined.

Definition detect_irreversible_fault (event : Event) : option IrreversibleFault :=
  let node_id := default "unknown" (ev_node_id event) in
  match ev_type event with
  | ErrorHw =>
      if contains "XID" (ev_value event) || contains "xid" (ev_value event)
      then Some (PersistentXidError node_id (ev_entity_id event) (ev_value event))
      else Some (OtherHardwareFailure node_id (ev_entity_id event +:+ ": " +:+ ev_value event))
  | ErrorNet =>
      if contains "link_down" (ev_value event) || contains "LINK_DOWN" (ev_value event)
      then Some (RdmaLinkDown node_id (ev_entity_id event))
      else None
  | TopoLinkDown =>
      Some (OtherHardwareFailure node_id
              ("Topology link down: " +:+ ev_entity_id event +:+ " - " +:+ ev_value event))
  | _ => None
  end.

Definition fault_node_id (f : IrreversibleFault) : string :=
  match f with
  | PersistentXidError n _ _ | RdmaLinkDown n _ | StorageDeviceFailure n _
  | OtherHardwareFailure n _ => n
  end.

Definition taint_key : string := "ark.io/hardware-failure".

Definition taint_value (f : IrreversibleFault) : string :=
  match f with
  | PersistentXidError _ _ xid_code => "xid-error:" +:+ xid_code
  | RdmaLinkDown _ interface => "rdma-link-down:" +:+ interface
  | StorageDeviceFailure _ device => "storage-failure:" +:+ device
  | OtherHardwareFailure _ reason => "hardware-failure:" +:+ replace " " "-" reason
  end.

(** ** The API *)

Record Taint := mkTaint { t_key : string; t_value : option string; t_effect : string }.
Record KNode := mkKNode {
  kn_name : option string;
  kn_labels : option (gmap string string);
  kn_taints : option (list Taint)
}.
Record Pod := mkPod {
  pod_name : option string;
  pod_namespace : option string;
  pod_node : option string;
  pod_owner_kinds : option (list string)
}.

(** The fields of an [ArkRemediationRequest] the operator reads; a field that is
    missing or of another JSON type reads as [None]. *)
Record RequestSpec := mkRequestSpec {
  spec_node_id : option string; spec_action : option string;
  spec_reason : option string; spec_dry_run : option bool }.
Record Request := mkRequest {
  req_name : option string; req_phase : option string; req_spec : option RequestSpec }.

(** The parameters of a patch request, and its kind. *)
Record PatchParams := mkPatchParams { pp_field_manager : string; pp_force : bool }.
Inductive PatchKind := ApplyPatch | MergePatch.

(** The calls, each with its error; [C] is the state of the cluster.  The status
    patch is given its parameters and kind, the phase and the message. *)
Record K8sApi (C : Type) := mkK8sApi {
  get_node : C → string → result string KNode;
  list_nodes : C → result string (list KNode);
  patch_taints : C → string → list Taint → result string C;
  list_pods : C → result string (list Pod);
  create_eviction : C → string → string → result string C;
  list_requests : C → result string (list Request);
  patch_status : C → string → PatchParams → PatchKind → string → string → result string C
}.
Global Arguments get_node {_} _ _ _.
Global Arguments list_nodes {_} _ _.
Global Arguments patch_taints {_} _ _ _ _.
Global Arguments list_pods {_} _ _.
Global Arguments create_eviction {_} _ _ _ _.
Global Arguments list_requests {_} _ _.
Global Arguments patch_status {_} _ _ _ _ _ _ _.

Section controller.
Context {C : Type} (api : K8sApi C).

(** The loop over the listed nodes: label first, then name, node by node. *)
Fixpoint find_node_name (node_id : string) (nodes : list KNode) : option string :=
  match nodes with
  | [] => None
  | n :: nodes' =>
      let labelled :=
        match kn_labels n with
        | Some labels => bool_decide (labels !! "ark.io/node-id" = Some node_id)
        | None => false
        end in
      match kn_name n with
      | Some name =>
          if labelled then Some name
          else if bool_decide (name = node_id) || contains node_id name then Some name
          else find_node_name node_id nodes'
      | None => find_node_name node_id nodes'
      end
  end.

Definition map_node_id_to_k8s_name (c : C) (node_id : string) : result string string :=
  if is_ok (get_node api c node_id) then Ok node_id
  else match list_nodes api c with
       | Err e => Err e
       | Ok nodes => Ok (default node_id (find_node_name node_id nodes))
       end.

Definition taint_node (c : C) (node_id : string) (fault : IrreversibleFault) : result string C :=
  match map_node_id_to_k8s_name c node_id with
  | Err e => Err e
  | Ok name =>
      match get_node api c name with
      | Err e => Err e
      | Ok node =>
          let taints := default [] (kn_taints node) in
          if existsb (λ t, bool_decide (t_key t = taint_key)) taints then Ok c
          else patch_taints api c name
                 (taints ++ [mkTaint taint_key (Some (taint_value fault)) "NoSchedule"])
      end
  end.

(** Pods owned by a DaemonSet or a Node are left alone. *)
Definition is_system_pod (p : Pod) : bool :=
  match pod_owner_kinds p with
  | Some kinds => existsb (λ k, bool_decide (k = "DaemonSet") || bool_decide (k = "Node")) kinds
  | None => false
  end.

(** The loop over the pods of the node; a pod without a name ends it with an
    error, a refused eviction does not. *)
Fixpoint evict_loop (c : C) (pods : list Pod) (evicted_count : nat) : result string nat * C :=
  match pods with
  | [] => (Ok evicted_count, c)
  | p :: pods' =>
      if is_system_pod p then evict_loop c pods' evicted_count
      else
        match pod_name p with
        | None => (Err "Pod name is missing", c)
        | Some name =>
            match create_eviction api c (default "default" (pod_namespace p)) name with
            | Ok c' => evict_loop c' pods' (S evicted_count)
            | Err _ => evict_loop c pods' evicted_count
            end
        end
  end.

Definition evict_pods_on_node (c : C) (node_id : string) : result string nat * C :=
  match map_node_id_to_k8s_name c node_id with
  | Err e => (Err e, c)
  | Ok name =>
      match list_pods api c with
      | Err e => (Err e, c)
      | Ok pods => evict_loop c (filter (λ p, pod_node p = Some name) pods) 0
      end
  end.

(** ** Automatic handling with a cool-down *)

Record Controller := mkController {
  enabled : bool;
  processed_nodes : gmap string N;     (** node to the time of its last handling, ms *)
}.
Definition cooldown_ms : N := 300000.

(** [now] is read for the check, [done] when the handling is recorded. *)
Definition handle_irreversible_fault (k : Controller) (c : C) (now done : N)
    (fault : IrreversibleFault) : result string unit * Controller * C :=
  if negb (enabled k) then (Ok (), k, c)
  else
    let node_id := fault_node_id fault in
    let cooling := match processed_nodes k !! node_id with
                   | Some last_time => bool_decide (saturating_sub now last_time < cooldown_ms)%N
                   | None => false
                   end in
    if cooling then (Ok (), k, c)
    else
      match taint_node c node_id fault with
      | Err e => (Err e, k, c)
      | Ok c1 =>
          let c2 := (evict_pods_on_node c1 node_id).2 in
          (Ok (), mkController (enabled k) (<[node_id := done]> (processed_nodes k)), c2)
      end.

(** ** The operator *)

Definition execute_operator_action (c : C) (node_id action reason : string) (dry_run : bool)
  : result string string * C :=
  if dry_run then (Ok "dry-run", c)
  else
    let fault := OtherHardwareFailure node_id reason in
    if decide (action = "taint_only") then
      match taint_node c node_id fault with
      | Ok c' => (Ok "taint_only applied", c')
      | Err e => (Err e, c)
      end
    else if decide (action = "taint_evict") then
      match taint_node c node_id fault with
      | Err e => (Err e, c)
      | Ok c' =>
          match evict_pods_on_node c' node_id with
          | (Ok n, c'') => (Ok ("taint+evict applied, evicted_pods=" +:+ pretty n), c'')
          | (Err e, c'') => (Err e, c'')
          end
      end
    else (Err ("unsupported action: " +:+ action), c).

(** [let _ = self.patch_request_status(...)]: an error is ignored. *)
Definition patch_request_status (c : C) (name phase : string) (message : option string) : C :=
  let pp := mkPatchParams "ark-operator" true in
  match patch_status api c name pp MergePatch phase (default "" message) with
  | Ok c' => c'
  | Err _ => c
  end.

(** The body of the loop over the listed requests. *)
Definition operate_request (c : C) (obj : Request) : C :=
  let name := default "" (req_name obj) in
  if is_empty name then c
  else
    let phase := default "Pending" (req_phase obj) in
    if decide (phase ∈ ["Succeeded"; "Failed"; "Running"]) then c
    else
      match req_spec obj with
      | None => patch_request_status c name "Failed" (Some "missing spec")
      | Some spec =>
          let node_id := default "" (spec_node_id spec) in
          let action := default "taint_evict" (spec_action spec) in
          let reason := default "operator request" (spec_reason spec) in
          let dry_run := default false (spec_dry_run spec) in
          if is_empty node_id
          then patch_request_status c name "Failed" (Some "spec.nodeId is empty")
          else
            let c1 := patch_request_status c name "Running" None in
            match execute_operator_action c1 node_id action reason dry_run with
            | (Ok message, c2) => patch_request_status c2 name "Succeeded" (Some message)
            | (Err e, c2) => patch_request_status c2 name "Failed" (Some e)
            end
      end.

(** One pass; [enabled] is tested before the loop starts. *)
Definition operator_pass (k : Controller) (c : C) : C :=
  if negb (enabled k) then c
  else match list_requests api c with
       | Ok l => foldl operate_request c l
       | Err _ => c
       end.

(** [poll_interval_s.max(5)] *)
Definition poll_interval (poll_interval_s : N) : N := N.max poll_interval_s 5.
End controller.

(** ** What the API promises

    The behaviour of the API server the controller relies on: a successful patch
    replaces the taints of the named node and nothing else. *)

Class K8sLaws {C} (api : K8sApi C) := {
  patched_node c name ts c' n :
    patch_taints api c name ts = Ok c' → get_node api c name = Ok n →
    get_node api c' name = Ok (mkKNode (kn_name n) (kn_labels n) (Some ts));
  patched_exists c name ts c' x :
    patch_taints api c name ts = Ok c' →
    is_ok (get_node api c' x) = is_ok (get_node api c x);
  patched_list c name ts c' nodes :
    patch_taints api c name ts = Ok c' → list_nodes api c = Ok nodes →
    ∃ nodes', list_nodes api c' = Ok nodes'
      ∧ map (λ n, (kn_name n, kn_labels n)) nodes' = map (λ n, (kn_name n, kn_labels n)) nodes
}.

Lemma find_node_name_ext id ns ns' :
  map (λ n, (kn_name n, kn_labels n)) ns = map (λ n, (kn_name n, kn_labels n)) ns' →
  find_node_name id ns = find_node_name id ns'.
Proof.
  revert ns'. induction ns as [|n ns IH]; intros [|n' ns'] H; try done.
  injection H as Hn Hl H. simpl. rewrite Hn, Hl, (IH _ H). done.
Qed.

Section laws.
Context {C} (api : K8sApi C) `{!K8sLaws api}.

Lemma map_node_id_patched c name ts c' id n :
  patch_taints api c name ts = Ok c' → map_node_id_to_k8s_name api c id = Ok n →
  map_node_id_to_k8s_name api c' id = Ok n.
Proof.
  intros Hp. unfold map_node_id_to_k8s_name. rewrite (patched_exists _ _ _ _ _ Hp).
  case_match; [done|]. destruct (list_nodes api c) as [nodes|] eqn:El; [|done].
  destruct (patched_list _ _ _ _ _ Hp El) as (nodes' & -> & Hm).
  by rewrite (find_node_name_ext _ _ _ Hm).
Qed.

(** The taints of the node after a successful tainting. *)
Lemma taint_node_result c id f c' :
  taint_node api c id f = Ok c' →
  ∃ name n, map_node_id_to_k8s_name api c id = Ok name ∧ get_node api c name = Ok n
    ∧ ∃ ts, (default [] (kn_taints n) = ts ∧ c' = c ∨
             (ts = default [] (kn_taints n) ++ [mkTaint taint_key (Some (taint_value f)) "NoSchedule"]
              ∧ patch_taints api c name ts = Ok c'
              ∧ ∀ t, t ∈ default [] (kn_taints n) → t_key t ≠ taint_key))
      ∧ ∃ t, t ∈ ts ∧ t_key t = taint_key.
Proof.
  unfold taint_node. destruct (map_node_id_to_k8s_name api c id) as [name|]; [|done].
  destruct (get_node api c name) as [n|] eqn:Eg; [|done].
  destruct (existsb _ _) eqn:Ee; intros H; exists name, n; (split; [done|]); (split; [done|]).
  - injection H as <-. eexists. split; [by left|].
    apply existsb_exists in Ee as (t & Ht & Hk). apply bool_decide_eq_true in Hk.
    exists t. split; [by apply list_elem_of_In|done].
  - eexists. split; [right; split_and!; [reflexivity|done|]|].
    + intros t Ht Hk. rewrite <-not_true_iff_false in Ee. apply Ee, existsb_exists.
      exists t. split; [by apply list_elem_of_In|]. by apply bool_decide_eq_true.
    + eexists. split; [apply elem_of_app; right; by left|done].
Qed.

(** Tainting a node keeps every taint it has, adds at most one, and is
    idempotent: once it has succeeded, doing it again, for any fault of the same
    node, leaves the cluster as it is. *)
Theorem taint_node_idempotent c id f f' c'
  (Hok : taint_node api c id f = Ok c') :
  taint_node api c' id f' = Ok c'
  ∧ ∃ name n n', map_node_id_to_k8s_name api c id = Ok name
      ∧ get_node api c name = Ok n ∧ get_node api c' name = Ok n'
      ∧ ∃ added, default [] (kn_taints n') = default [] (kn_taints n) ++ added
          ∧ length added ≤ 1.
Proof.
  destruct (taint_node_result _ _ _ _ Hok) as (name & n & Hm & Hg & ts & Hc & t & Ht & Hk).
  assert (existsb (λ t, bool_decide (t_key t = taint_key)) ts = true) as He.
  { apply existsb_exists. exists t. split; [by apply list_elem_of_In|].
    by apply bool_decide_eq_true. }
  destruct Hc as [[Hts ->]|(-> & Hp & Hno)].
  - split; [unfold taint_node; by rewrite Hm, Hg, Hts, He|].
    exists name, n, n. split_and!; [done..|]. exists []. rewrite app_nil_r. auto.
  - pose proof (patched_node _ _ _ _ _ Hp Hg) as Hg'. split.
    + unfold taint_node. rewrite (map_node_id_patched _ _ _ _ _ _ Hp Hm), Hg'. simpl. by rewrite He.
    + exists name, n. eexists. split_and!; [done..|]. eexists. split; [done|]. simpl. lia.
Qed.
End laws.

(** ** Eviction *)

Section eviction.
Context {C} (api : K8sApi C).

Definition try_evict (s : nat * C) (p : string * string) : nat * C :=
  match create_eviction api s.2 p.1 p.2 with
  | Ok c' => (S s.1, c')
  | Err _ => s
  end.

(** The namespace and name of a pod the controller evicts. *)
Definition evictable (node : string) (p : Pod) : bool :=
  bool_decide (pod_node p = Some node) && negb (is_system_pod p).

Definition eviction_target (p : Pod) : option (string * string) :=
  (λ name, (default "default" (pod_namespace p), name)) <$> pod_name p.

Lemma evict_loop_spec c pods n :
  (∀ p, p ∈ pods → is_system_pod p = false → is_Some (pod_name p)) →
  evict_loop api c pods n
  = let r := foldl try_evict (n, c)
               (omap eviction_target (filter (λ p, is_system_pod p = false) pods)) in
    (Ok r.1, r.2).
Proof.
  revert c n. induction pods as [|p pods IH]; intros c n Hn; [done|]. simpl.
  rewrite filter_cons. destruct (is_system_pod p) eqn:Es; simpl.
  - apply IH. intros q Hq. apply Hn. by right.
  - destruct (Hn p) as [name Hname]; [by left|done|].
    assert (eviction_target p = Some (default "default" (pod_namespace p), name)) as Ht
      by (unfold eviction_target; by rewrite Hname).
    pose proof (eq_refl (try_evict (n, c) (default "default" (pod_namespace p), name))) as Hs.
    unfold try_evict at 2 in Hs. simpl in Hs. rewrite Hname, Ht. simpl. rewrite Hs.
    destruct (create_eviction api c _ name) as [c'|e]; apply IH; intros q Hq; apply Hn; by right.
Qed.

(** Eviction tries, in listing order, exactly the pods scheduled on the node
    that no DaemonSet or Node owns, counts those the API accepted, and is not
    stopped by a refusal. *)
Theorem eviction_exact c id name pods
  (Hname : map_node_id_to_k8s_name api c id = Ok name) (Hpods : list_pods api c = Ok pods)
  (Hnamed : ∀ p, p ∈ pods → evictable name p = true → is_Some (pod_name p)) :
  evict_pods_on_node api c id
  = let r := foldl try_evict (0, c)
               (omap eviction_target (filter (λ p, evictable name p = true) pods)) in
    (Ok r.1, r.2).
Proof.
  unfold evict_pods_on_node. rewrite Hname, Hpods, evict_loop_spec.
  - rewrite list_filter_filter. f_equal; do 4 f_equal; apply list_filter_iff; intros p;
      unfold evictable; rewrite andb_true_iff, bool_decide_eq_true, negb_true_iff; tauto.
  - intros p [Hp Hin]%list_elem_of_filter Hs. apply Hnamed; [done|].
    unfold evictable. rewrite Hs. by rewrite bool_decide_eq_true_2.
Qed.
End eviction.

(** ** The cool-down over a run of faults *)

Section cooldown.
Context {C} (api : K8sApi C).

(** An action: the node, the time of the check and the time it was recorded. *)
Definition action_log : Type := list (string * N * N).

(** The time the last action on a node was recorded; newest entries first. *)
Fixpoint last_done (node : string) (log : action_log) : option N :=
  match log with
  | [] => None
  | (n, _, done) :: log' => if decide (n = node) then Some done else last_done node log'
  end.

(** A fault that is handled: the times read, and the cluster as it is found. *)
Record Handling := mkHandling {
  h_fault : IrreversibleFault; h_now : N; h_done : N; h_cluster : C }.

(** Faults one after another, each with the cluster it leaves. *)
Fixpoint handle_all (k : Controller) (hs : list Handling) : list (Handling * C) :=
  match hs with
  | [] => []
  | h :: hs' =>
      let '(_, k', c') := handle_irreversible_fault api k (h_cluster h) (h_now h) (h_done h) (h_fault h) in
      (h, c') :: handle_all k' hs'
  end.

Definition on_node (node : string) (o : Handling * C) : Prop := fault_node_id (h_fault o.1) = node.
(** The cluster was changed. *)
Definition touched (o : Handling * C) : Prop := o.2 ≠ h_cluster o.1.

(** The times in the order in which they are read. *)
Definition clock (hs : list Handling) : list N := flat_map (λ h, [h_now h; h_done h]) hs.

(** What a call comes to. *)
Lemma handle_cases k c now fin f :
  let node := fault_node_id f in
  let '(r, k', c') := handle_irreversible_fault api k c now fin f in
  (k' = k ∧ c' = c)
  ∨ (enabled k = true ∧ (∀ t, processed_nodes k !! node = Some t → (t + cooldown_ms ≤ now)%N)
     ∧ k' = mkController (enabled k) (<[node := fin]> (processed_nodes k))).
Proof.
  cbn zeta. unfold handle_irreversible_fault. destruct (enabled k) eqn:Ee; simpl; [|by left].
  destruct (match processed_nodes k !! _ with Some _ => _ | None => _ end) eqn:Ec; [by left|].
  destruct (taint_node api c _ f); [|by left]. right. split_and!; [done| |by rewrite <- Ee].
  intros t Ht. rewrite Ht in Ec. apply bool_decide_eq_false in Ec. unfold saturating_sub, cooldown_ms in *. lia.
Qed.

(** Nothing is touched on a node within the cool-down of what was recorded. *)
Lemma handle_all_after hs k node t t' o :
  processed_nodes k !! node = Some t' → (t ≤ t')%N →
  Forall (λ x, (t' ≤ x)%N) (clock hs) → StronglySorted N.le (clock hs) →
  o ∈ handle_all k hs → on_node node o → touched o → (t + cooldown_ms ≤ h_now o.1)%N.
Proof.
  revert k t'. induction hs as [|h hs IH]; intros k t' Hk Ht Hall Hs Ho Hn Hx; [by apply elem_of_nil in Ho|].
  simpl in Hall, Hs, Ho. apply Forall_cons in Hall as [Hnow Hall]. apply Forall_cons in Hall as [Hdone Hall].
  apply StronglySorted_inv in Hs as [Hs H1]. apply StronglySorted_inv in Hs as [Hs H2].
  pose proof (handle_cases k (h_cluster h) (h_now h) (h_done h) (h_fault h)) as Hc.
  destruct (handle_irreversible_fault api k _ _ _ _) as [[r k'] c'].
  apply elem_of_cons in Ho as [->|Ho].
  - unfold on_node in Hn. simpl in Hn |- *. subst node. destruct Hc as [[_ ->]|(_ & Hcool & _)]; [done|].
    specialize (Hcool _ Hk). lia.
  - destruct Hc as [[-> _]|(_ & _ & ->)]; [by apply (IH k t')|].
    destruct (decide (fault_node_id (h_fault h) = node)) as [E|E].
    + apply (IH _ (h_done h)) in Ho; try done; [by rewrite E; simpl; rewrite lookup_insert_eq|lia].
    + apply (IH _ t') in Ho; try done. simpl. by rewrite lookup_insert_ne.
Qed.

End cooldown.

(** ** The operator *)

(** The documented behaviour of the API the operator depends on.  The force flag
    must be unset for patches other than apply patches: a request that has it is
    refused.  Tainting and evicting leave the requests alone. *)
Class RequestLaws {C} (api : K8sApi C) := {
  forced_patch_refused c name pp kind phase m :
    pp_force pp = true → kind ≠ ApplyPatch →
    is_ok (patch_status api c name pp kind phase m) = false;
  taints_requests c name ts c' :
    patch_taints api c name ts = Ok c' → list_requests api c' = list_requests api c;
  evict_requests c ns name c' :
    create_eviction api c ns name = Ok c' → list_requests api c' = list_requests api c
}.

Section operator.
Context {C} (api : K8sApi C) `{!RequestLaws api}.

Lemma taint_node_requests c id f c' :
  taint_node api c id f = Ok c' → list_requests api c' = list_requests api c.
Proof.
  unfold taint_node. repeat (case_match; try done); [by intros [= <-]|]. apply taints_requests.
Qed.

Lemma evict_loop_requests c pods n :
  list_requests api (evict_loop api c pods n).2 = list_requests api c.
Proof.
  revert c n. induction pods as [|p pods IH]; intros c n; simpl; [done|].
  case_match; [done|]. case_match; [|done].
  destruct (create_eviction api c _ _) eqn:E; [|done]. rewrite IH. by eapply evict_requests.
Qed.

Lemma execute_requests c id a r d :
  list_requests api (execute_operator_action api c id a r d).2 = list_requests api c.
Proof.
  unfold execute_operator_action. destruct d; [done|].
  case_decide; [|case_decide; [|done]];
    (destruct (taint_node api c id _) as [c1|] eqn:E; [apply taint_node_requests in E|done]); [done|].
  rewrite <-E. unfold evict_pods_on_node.
  destruct (map_node_id_to_k8s_name api c1 id); [|done]. destruct (list_pods api c1); [|done].
  match goal with |- context [evict_loop api ?x ?p ?n] =>
    pose proof (evict_loop_requests x p n) as He; destruct (evict_loop api x p n) as [[]] end; done.
Qed.

(** What a request asks for: it is named, not in one of the three final phases,
    and has a spec with a node; the other fields have defaults. *)
Definition demands (r : Request) (name node action reason : string) (dry_run : bool) : Prop :=
  req_name r = Some name ∧ name ≠ "" ∧ node ≠ ""
  ∧ (req_phase r = None ∨ ∃ p, req_phase r = Some p ∧ p ≠ "Succeeded" ∧ p ≠ "Failed" ∧ p ≠ "Running")
  ∧ ∃ s, req_spec r = Some s ∧ spec_node_id s = Some node
      ∧ (spec_action s = Some action ∨ spec_action s = None ∧ action = "taint_evict")
      ∧ (spec_reason s = Some reason ∨ spec_reason s = None ∧ reason = "operator request")
      ∧ (spec_dry_run s = Some dry_run ∨ spec_dry_run s = None ∧ dry_run = false).

(** The requests of a pass carried out one after another: every one that demands
    an action, and nothing for the others. *)
Inductive carried_out : list Request → C → C → Prop :=
| carried_nil c : carried_out [] c c
| carried_demand r rs c name node action reason dry_run c' :
    demands r name node action reason dry_run →
    carried_out rs (execute_operator_action api c node action reason dry_run).2 c' →
    carried_out (r :: rs) c c'
| carried_skip r rs c c' :
    (∀ name node action reason dry_run, ¬ demands r name node action reason dry_run) →
    carried_out rs c c' → carried_out (r :: rs) c c'.

Lemma status_never_patched c name phase m : patch_request_status api c name phase m = c.
Proof.
  unfold patch_request_status.
  pose proof (forced_patch_refused c name (mkPatchParams "ark-operator" true) MergePatch phase (default "" m)
                eq_refl ltac:(done)) as H.
  by destruct (patch_status api c name _ _ _ _).
Qed.

Lemma operate_request_cases c r :
  (∃ name node action reason dry_run, demands r name node action reason dry_run
     ∧ operate_request api c r = (execute_operator_action api c node action reason dry_run).2)
  ∨ (∀ name node action reason dry_run, ¬ demands r name node action reason dry_run)
    ∧ operate_request api c r = c.
Proof.
  unfold operate_request. destruct (req_name r) as [name|] eqn:En; simpl.
  2: { right. split; [|done]. intros ????? (Hn & _). congruence. }
  destruct (is_empty name) eqn:Ee.
  { right. split; [|done]. intros ????? (Hn & Hne & _). rewrite En in Hn. injection Hn as <-. by destruct name. }
  assert (name ≠ "") as Hname by (by intros ->).
  case_decide as Hp.
  { right. split; [|done]. intros ????? (_ & _ & _ & Hph & _). destruct Hph as [Hph|(p & Hph & ? & ? & ?)];
      rewrite Hph in Hp; simpl in Hp; set_solver. }
  assert (req_phase r = None ∨ ∃ p, req_phase r = Some p ∧ p ≠ "Succeeded" ∧ p ≠ "Failed" ∧ p ≠ "Running") as Hph.
  { destruct (req_phase r) as [p|]; [right|by left]. exists p. simpl in Hp. set_solver. }
  destruct (req_spec r) as [s|] eqn:Es.
  2: { right. rewrite status_never_patched. split; [|done]. intros ????? (_ & _ & _ & _ & s & Hs & _). congruence. }
  destruct (is_empty (default "" (spec_node_id s))) eqn:End.
  { right. rewrite status_never_patched. split; [|done]. intros ????? (_ & _ & Hnode & _ & s' & Hs & Hn & _).
    rewrite Es in Hs. injection Hs as <-. rewrite Hn in End. simpl in End. by destruct node. }
  left. destruct (spec_node_id s) as [node|] eqn:Enode; [|done]. simpl in *.
  exists name, node, (default "taint_evict" (spec_action s)), (default "operator request" (spec_reason s)),
    (default false (spec_dry_run s)). split.
  - split_and!; [done|done|by intros ->|done|]. exists s. split_and!; [done..| | |].
    + destruct (spec_action s); auto.
    + destruct (spec_reason s); auto.
    + destruct (spec_dry_run s); auto.
  - rewrite status_never_patched. destruct (execute_operator_action api c _ _ _ _) as [[] c2];
      by rewrite status_never_patched.
Qed.

Lemma operate_all c reqs l :
  list_requests api c = Ok reqs →
  carried_out l c (foldl (operate_request api) c l)
  ∧ list_requests api (foldl (operate_request api) c l) = Ok reqs.
Proof.
  revert c. induction l as [|r l IH]; intros c Hl; simpl; [by split; [constructor|]|].
  destruct (operate_request_cases c r) as [(name & node & action & reason & dry & Hd & ->)|[Hno ->]].
  - destruct (IH (execute_operator_action api c node action reason dry).2) as [H1 H2];
      [by rewrite execute_requests|]. split; [by econstructor|done].
  - destruct (IH c Hl). split; [by constructor|done].
Qed.

(** The passes of the operator loop. *)
Definition operator_passes (n : nat) (k : Controller) (c : C) : C := Nat.iter n (operator_pass api k) c.

(** C12 The operator carries out its requests at every pass: whatever passes came
    before, one more carries out, in the order listed, every request that demands
    an action, and nothing else; the phase of a request never changes, since the
    status patch has the force flag without being an apply patch and is refused.
    A request is thus carried out again and again until it is deleted. *)
Theorem operator_repeats_requests k c reqs n
  (Hon : enabled k = true) (Hlist : list_requests api c = Ok reqs) :
  let before := operator_passes n k c in
  let after := operator_passes (S n) k c in
  list_requests api after = Ok reqs ∧ carried_out reqs before after.
Proof.
  cbn zeta. assert (list_requests api (operator_passes n k c) = Ok reqs) as Hn.
  { induction n as [|n IH]; [done|]. unfold operator_passes in *. simpl. unfold operator_pass at 1.
    rewrite Hon, IH. simpl. by apply operate_all. }
  change (operator_passes (S n) k c) with (operator_pass api k (operator_passes n k c)).
  unfold operator_pass. rewrite Hon, Hn. simpl.
  destruct (operate_all (operator_passes n k c) reqs reqs Hn). done.
Qed.
End operator.

(** ** A cluster in memory *)

Definition set_phase (name phase : string) (r : Request) : Request :=
  if decide (req_name r = Some name) then mkRequest (req_name r) (Some phase) (req_spec r) else r.

Record MemCluster := mkMemCluster {
  mem_nodes : list KNode; mem_pods : list Pod; mem_requests : list Request }.

Definition named (name : string) (n : KNode) : bool := bool_decide (kn_name n = Some name).

Definition mem_get (c : MemCluster) (name : string) : result string KNode :=
  match List.find (named name) (mem_nodes c) with
  | Some n => Ok n
  | None => Err "nodes not found"
  end.

Definition set_taints (name : string) (ts : list Taint) (n : KNode) : KNode :=
  if named name n then mkKNode (kn_name n) (kn_labels n) (Some ts) else n.

Definition mem_api : K8sApi MemCluster := mkK8sApi MemCluster
  mem_get
  (λ c, Ok (mem_nodes c))
  (λ c name ts,
     if is_ok (mem_get c name)
     then Ok (mkMemCluster (map (set_taints name ts) (mem_nodes c)) (mem_pods c) (mem_requests c))
     else Err "nodes not found")
  (λ c, Ok (mem_pods c))
  (λ c ns name,
     Ok (mkMemCluster (mem_nodes c)
           (filter (λ p, pod_name p ≠ Some name ∨ default "default" (pod_namespace p) ≠ ns) (mem_pods c))
           (mem_requests c)))
  (λ c, Ok (mem_requests c))
  (λ c name pp kind phase _,
     match kind, pp_force pp with
     | MergePatch, true => Err "force is only for apply patches"
     | _, _ => Ok (mkMemCluster (mem_nodes c) (mem_pods c) (map (set_phase name phase) (mem_requests c)))
     end).

Lemma named_set_taints name ts x n : named x (set_taints name ts n) = named x n.
Proof. unfold set_taints. by destruct (named name n). Qed.

Lemma find_set_taints name ts x ns :
  List.find (named x) (map (set_taints name ts) ns) = set_taints name ts <$> List.find (named x) ns.
Proof.
  induction ns as [|n ns IH]; simpl; [done|]. rewrite named_set_taints. by destruct (named x n).
Qed.

Global Instance mem_api_laws : K8sLaws mem_api.
Proof.
  split; simpl.
  - intros c name ts c' n Hp Hg. rewrite Hg in Hp. simplify_eq/=. unfold mem_get in *. simpl.
    rewrite find_set_taints. destruct (List.find (named name) (mem_nodes c)) as [m|] eqn:E; [|done].
    simplify_eq/=. apply List.find_some in E as [_ Hn]. unfold set_taints. by rewrite Hn.
  - intros c name ts c' x. case_match; [|done]. intros [= <-]. unfold mem_get. simpl.
    rewrite find_set_taints. by destruct (List.find (named x) (mem_nodes c)).
  - intros c name ts c' nodes. case_match; [|done]. intros [= <-] [= <-]. simpl.
    eexists. split; [done|]. rewrite map_map. apply map_ext. intros n.
    unfold set_taints. by destruct (named name n).
Qed.

Global Instance mem_api_request_laws : RequestLaws mem_api.
Proof.
  split; simpl.
  - intros c name pp [] phase m Hf Hk; [done|]. by rewrite Hf.
  - intros c name ts c'. case_match; [|done]. by intros [= <-].
  - by intros c ns name c' [= <-].
Qed.

Definition plain_node (name : string) : KNode := mkKNode (Some name) None None.
Definition labelled_node (name id : string) : KNode :=
  mkKNode (Some name) (Some {["ark.io/node-id" := id]}) (Some [mkTaint "gpu" None "NoSchedule"]).

(** The node lookup can act on a healthy node: with a node whose label says
    it is [node-1] and another merely called [node-10], a fault of [node-1]
    taints [node-10] and leaves the faulty node untouched, because a node whose
    name contains the id is taken before the labels of later nodes are read. *)
Theorem fault_can_taint_another_node :
  ∃ c', taint_node mem_api
          (mkMemCluster [plain_node "node-10"; labelled_node "host-a" "node-1"] [] [])
          "node-1" (RdmaLinkDown "node-1" "roce-mlx5_0") = Ok c'
    ∧ map (λ n, (kn_name n, map t_key (default [] (kn_taints n)))) (mem_nodes c')
      = [(Some "node-10", [taint_key]); (Some "host-a", ["gpu"])].
Proof. eexists. split; [vm_compute; reflexivity|vm_compute; reflexivity]. Qed.

Definition demo_cluster : MemCluster :=
  mkMemCluster [labelled_node "host-a" "node-1"]
    [mkPod (Some "train-0") None (Some "host-a") None;
     mkPod (Some "agent") (Some "kube-system") (Some "host-a") (Some ["DaemonSet"]);
     mkPod (Some "train-1") (Some "ml") (Some "host-b") None]
    [mkRequest (Some "r1") None (Some (mkRequestSpec (Some "node-1") None None None));
     mkRequest (Some "r2") (Some "Pending") None;
     mkRequest (Some "r3") (Some "Running") None].

Definition tainted_demo : MemCluster :=
  match taint_node mem_api demo_cluster "node-1" (RdmaLinkDown "node-1" "roce-0") with
  | Ok c => c
  | Err _ => demo_cluster
  end.

Lemma taint_node_idempotent_witness :
  taint_node mem_api tainted_demo "node-1" (PersistentXidError "node-1" "gpu-0" "XID 79")
  = Ok tainted_demo.
Proof.
  apply (taint_node_idempotent mem_api demo_cluster "node-1" (RdmaLinkDown "node-1" "roce-0")
           (PersistentXidError "node-1" "gpu-0" "XID 79")).
  vm_compute. reflexivity.
Defined.

Lemma eviction_exact_witness :
  map pod_name (mem_pods (evict_pods_on_node mem_api demo_cluster "node-1").2)
    = [Some "agent"; Some "train-1"]
  ∧ (evict_pods_on_node mem_api demo_cluster "node-1").1
    = Ok (foldl (try_evict mem_api) (0, demo_cluster)
            (omap eviction_target
               (filter (λ p, evictable "host-a" p = true) (mem_pods demo_cluster)))).1.
Proof.
  split; [vm_compute; reflexivity|].
  rewrite (eviction_exact mem_api demo_cluster "node-1" "host-a" (mem_pods demo_cluster));
    [reflexivity|vm_compute; reflexivity|reflexivity|].
  intros p Hp _. simpl in Hp.
  repeat (apply elem_of_cons in Hp as [->|Hp]; [by eexists|]). by apply elem_of_nil in Hp.
Defined.

(** The node is tainted and its pod evicted by both passes; the phases stay. *)
Lemma operator_repeats_requests_witness :
  map req_phase (mem_requests (operator_passes mem_api 2 (mkController true ∅) demo_cluster))
    = [None; Some "Pending"; Some "Running"]
  ∧ carried_out mem_api (mem_requests demo_cluster)
      (operator_passes mem_api 1 (mkController true ∅) demo_cluster)
      (operator_passes mem_api 2 (mkController true ∅) demo_cluster).
Proof.
  split; [vm_compute; reflexivity|].
  apply (operator_repeats_requests mem_api (mkController true ∅) demo_cluster (mem_requests demo_cluster) 1);
    reflexivity.
Defined.

(** A second fault within the cool-down leaves the pod alone, a later one does not. *)
Definition demo_handlings : list Handling :=
  [mkHandling (RdmaLinkDown "node-1" "roce-0") 0 10 demo_cluster;
   mkHandling (RdmaLinkDown "node-1" "roce-0") 20 20 demo_cluster;
   mkHandling (PersistentXidError "node-1" "gpu-0" "XID 79") 300010 300020 demo_cluster].

