(* ===== verification/K8sTasks.v ===== *)
(** * Faults handled concurrently (hub/src/k8s_controller.rs, hub/src/main.rs)

    The hub starts a task for every irreversible fault.  A task checks the
    cool-down of its node under a read lock, taints the node, evicts its pods and
    records the time under a write lock; between these points other tasks run and
    the cluster changes.  A task that runs alone does what
    [handle_irreversible_fault] does; of any tasks, two actions on a node are a
    cool-down apart unless they overlap; and two that overlap both act. *)

From S2P Require Import Prelude K8s.

Inductive FaultTask :=
| Checking (f : IrreversibleFault)
| Tainting (f : IrreversibleFault) (checked : N)
| Evicting (f : IrreversibleFault) (checked : N)
| Recording (f : IrreversibleFault) (checked : N)
| Handled (r : result string unit).

Section tasks.
Context {C : Type} (api : K8sApi C).

(** What the tasks share; [w_log] has the actions recorded, newest first. *)
Record World := mkWorld {
  w_controller : Controller;
  w_cluster : C;
  w_clock : N;
  w_log : action_log }.

(** One section of a task at time [t]. *)
Definition fault_task_step (w : World) (t : N) (task : FaultTask) : FaultTask * World :=
  let k := w_controller w in
  match task with
  | Checking f =>
      let cooling := match processed_nodes k !! fault_node_id f with
                     | Some last_time => bool_decide (saturating_sub t last_time < cooldown_ms)%N
                     | None => false
                     end in
      (if negb (enabled k) then Handled (Ok ())
       else if cooling then Handled (Ok ()) else Tainting f t,
       mkWorld k (w_cluster w) t (w_log w))
  | Tainting f checked =>
      match taint_node api (w_cluster w) (fault_node_id f) f with
      | Err e => (Handled (Err e), mkWorld k (w_cluster w) t (w_log w))
      | Ok c => (Evicting f checked, mkWorld k c t (w_log w))
      end
  | Evicting f checked =>
      (Recording f checked,
       mkWorld k (evict_pods_on_node api (w_cluster w) (fault_node_id f)).2 t (w_log w))
  | Recording f checked =>
      (Handled (Ok ()),
       mkWorld (mkController (enabled k) (<[fault_node_id f := t]> (processed_nodes k)))
         (w_cluster w) t ((fault_node_id f, checked, t) :: w_log w))
  | Handled r => (Handled r, mkWorld k (w_cluster w) t (w_log w))
  end.

(** The clock does not go back; the cluster changes by itself. *)
Inductive fault_step : World * gmap nat FaultTask → World * gmap nat FaultTask → Prop :=
| step_spawn w ts i f : ts !! i = None → fault_step (w, ts) (w, <[i := Checking f]> ts)
| step_cluster w ts c :
    fault_step (w, ts) (mkWorld (w_controller w) c (w_clock w) (w_log w), ts)
| step_task w ts i task t :
    ts !! i = Some task → (w_clock w ≤ t)%N →
    fault_step (w, ts)
      ((fault_task_step w t task).2, <[i := (fault_task_step w t task).1]> ts).

(** ** A task that runs alone *)

Fixpoint run_alone (w : World) (task : FaultTask) (times : list N) : FaultTask * World :=
  match times with
  | [] => (task, w)
  | t :: times' => let '(task', w') := fault_task_step w t task in run_alone w' task' times'
  end.

(** Four sections without interference are one call of the handler. *)
Lemma run_alone_handles k c clock log f now t1 t2 fin :
  let '(task, w) := run_alone (mkWorld k c clock log) (Checking f) [now; t1; t2; fin] in
  let '(r, k', c') := handle_irreversible_fault api k c now fin f in
  task = Handled r ∧ w_controller w = k' ∧ w_cluster w = c'.
Proof.
  unfold handle_irreversible_fault. cbn [run_alone fault_task_step w_controller w_cluster w_log].
  destruct (enabled k) eqn:Ek; cbn [negb]; [|done].
  set (cooling := match processed_nodes k !! _ with Some _ => _ | None => _ end).
  destruct cooling; [done|]. cbn [run_alone fault_task_step w_controller w_cluster w_log].
  destruct (taint_node api c (fault_node_id f) f); simpl; by rewrite ?Ek.
Qed.

(** ** Actions are a cool-down apart unless they overlap *)

(** The check at [checked] comes a cool-down after an action recorded at
    [recorded], or before its record. *)
Definition clear_of (checked recorded : N) : Prop :=
  (recorded + cooldown_ms ≤ checked ∨ checked ≤ recorded)%N.

Definition checked_clear (log : action_log) (node : string) (checked : N) : Prop :=
  ∀ now recorded, (node, now, recorded) ∈ log → clear_of checked recorded.

Fixpoint log_apart (log : action_log) : Prop :=
  match log with
  | [] => True
  | (n, now, _) :: log' => checked_clear log' n now ∧ log_apart log'
  end.

(** The node and the check of a task that has passed its check. *)
Definition passed (task : FaultTask) : option (string * N) :=
  match task with
  | Tainting f t | Evicting f t | Recording f t => Some (fault_node_id f, t)
  | Checking _ | Handled _ => None
  end.

Record tasks_inv (s : World * gmap nat FaultTask) : Prop := {
  ti_clock : ∀ n now recorded, (n, now, recorded) ∈ w_log s.1 →
    (recorded ≤ w_clock s.1)%N
    ∧ ∃ l, processed_nodes (w_controller s.1) !! n = Some l ∧ (recorded ≤ l)%N;
  ti_nodes : ∀ n l, processed_nodes (w_controller s.1) !! n = Some l → (l ≤ w_clock s.1)%N;
  ti_tasks : ∀ i task n t, s.2 !! i = Some task → passed task = Some (n, t) →
    (t ≤ w_clock s.1)%N ∧ checked_clear (w_log s.1) n t;
  ti_log : log_apart (w_log s.1)
}.

Lemma fault_task_inv w ts i task t :
  tasks_inv (w, ts) → ts !! i = Some task → (w_clock w ≤ t)%N →
  tasks_inv ((fault_task_step w t task).2, <[i := (fault_task_step w t task).1]> ts).
Proof.
  intros [Hl Hn Ht Ha] Hi Hc. simpl in *.
  (* a section that records nothing *)
  assert (∀ task' c, passed task' = passed task ∨ passed task' = None →
            tasks_inv (mkWorld (w_controller w) c t (w_log w), <[i := task']> ts)) as Hquiet.
  { intros task' c Hp. split; simpl; [| | |done].
    - intros n now r Hr. destruct (Hl n now r Hr) as [? ?]. split; [lia|done].
    - intros n l Hnl. specialize (Hn n l Hnl). lia.
    - intros j tk n t' [[<- <-]|[_ Hj]]%lookup_insert_Some Hpass.
      + destruct Hp as [Hp|Hp]; [|congruence]. rewrite Hp in Hpass.
        destruct (Ht i task n t' Hi Hpass). split; [lia|done].
      + destruct (Ht j tk n t' Hj Hpass). split; [lia|done]. }
  destruct task as [f|f ck|f ck|f ck|r]; simpl.
  - destruct (enabled (w_controller w)); simpl; [|apply Hquiet; by right].
    destruct (processed_nodes (w_controller w) !! fault_node_id f) as [l|] eqn:El;
      [case_bool_decide as Hcool; simpl; [apply Hquiet; by right|]|simpl].
    all: destruct (Hquiet (Handled (Ok ())) (w_cluster w)) as [Q1 Q2 Q3 Q4]; [by right|];
      split; simpl in *; [done|done| |done].
    all: intros j tk n t' [[<- <-]|[Hne Hj]]%lookup_insert_Some Hpass;
      [simpl in Hpass; simplify_eq; split; [done|]; intros now r Hr;
       destruct (Hl _ now r Hr) as (_ & l' & El' & Hrl)
      |by apply (Q3 j tk); [rewrite lookup_insert_ne|]].
    + left. rewrite El in El'. simplify_eq. unfold saturating_sub, cooldown_ms in *. lia.
    + congruence.
  - destruct (taint_node api (w_cluster w) (fault_node_id f) f); simpl; apply Hquiet; [by left|by right].
  - apply Hquiet. by left.
  - destruct (Ht i _ _ _ Hi eq_refl) as [Hck Hclear]. split; simpl.
    + intros n now r [[= -> -> ->]|Hr]%elem_of_cons.
      * split; [done|]. exists t. by rewrite lookup_insert_eq.
      * destruct (Hl n now r Hr) as (Hr1 & l & Hl1 & Hr2). split; [lia|].
        destruct (decide (n = fault_node_id f)) as [->|Hne].
        { exists t. rewrite lookup_insert_eq. split; [done|lia]. }
        exists l. by rewrite lookup_insert_ne.
    + intros n l [[_ <-]|[_ Hnl]]%lookup_insert_Some; [done|]. specialize (Hn n l Hnl). lia.
    + intros j tk n t' [[<- <-]|[_ Hj]]%lookup_insert_Some Hpass; [done|].
      destruct (Ht j tk n t' Hj Hpass) as [Hle Hcl]. split; [lia|].
      intros now r [[= -> -> ->]|Hr]%elem_of_cons; [right; lia|by eapply Hcl].
    + done.
  - apply Hquiet. by left.
Qed.

Lemma fault_step_inv s s' : fault_step s s' → tasks_inv s → tasks_inv s'.
Proof.
  intros [w ts i f Hi|w ts c|w ts i task t Hi Hc] H; [| |by apply fault_task_inv].
  - destruct H as [Hl Hn Ht Ha]. split; simpl; [done..| |done].
    intros j tk n t [[<- <-]|[_ Hj]]%lookup_insert_Some Hp; [done|by eapply Ht].
  - by destruct H as [Hl Hn Ht Ha]; split.
Qed.

(** Whatever the interleaving of the tasks and however the cluster changes, two
    recorded actions on a node are at least the cool-down apart, or they overlap:
    the later one was checked before the earlier one was recorded. *)
Theorem concurrent_actions_apart on c0 clock s :
  rtc fault_step (mkWorld (mkController on ∅) c0 clock [], ∅) s →
  ∀ newer older n checked recorded checked' recorded',
    w_log s.1 = newer ++ (n, checked, recorded) :: older →
    (n, checked', recorded') ∈ older →
    (recorded' + cooldown_ms ≤ checked ∨ checked ≤ recorded')%N.
Proof.
  intros Hsteps.
  assert (tasks_inv s) as [_ _ _ Hlog].
  { eapply (rtc_ind_r (λ s, tasks_inv s)); [|by intros ???? ?; eapply fault_step_inv|exact Hsteps].
    split; simpl; [by intros ??? ?%elem_of_nil|by intros ??; rewrite lookup_empty
                  |by intros ????; rewrite lookup_empty|done]. }
  clear Hsteps. induction (w_log s.1) as [|[[m now] r] log IH];
    intros newer older n checked recorded checked' recorded' Hsplit Hin; [by destruct newer|].
  destruct Hlog as [Hclear Hlog]. destruct newer as [|e newer]; simplify_eq/=.
  - by eapply Hclear.
  - by eapply IH.
Qed.
End tasks.

(** ** Two faults in quick succession *)

(** A schedule: which task takes its next section, and when. *)
Definition scheduled {C} (api : K8sApi C) (s : @World C * gmap nat FaultTask) (x : nat * N)
  : @World C * gmap nat FaultTask :=
  match s.2 !! x.1 with
  | Some task => ((fault_task_step api s.1 x.2 task).2,
                  <[x.1 := (fault_task_step api s.1 x.2 task).1]> s.2)
  | None => s
  end.

Lemma fault_task_clock {C} (api : K8sApi C) w t task : w_clock (fault_task_step api w t task).2 = t.
Proof. destruct task; simpl; try done. by case_match. Qed.

Lemma schedule_steps {C} (api : K8sApi C) s schedule :
  Forall (λ x, is_Some (s.2 !! x.1)) schedule →
  StronglySorted N.le (w_clock s.1 :: map snd schedule) →
  rtc (fault_step api) s (foldl (scheduled api) s schedule).
Proof.
  revert s. induction schedule as [|[i t] xs IH]; intros [w ts] Hin Hs; [done|].
  apply Forall_cons in Hin as [[task Hi] Hin]. simpl in Hi, Hs |- *.
  apply StronglySorted_inv in Hs as [Hs Ht]. apply Forall_cons in Ht as [Ht _].
  eapply rtc_l; [by eapply (step_task api w ts i task t)|].
  assert (scheduled api (w, ts) (i, t)
          = ((fault_task_step api w t task).2, <[i := (fault_task_step api w t task).1]> ts)) as ->
    by (unfold scheduled; simpl; by rewrite Hi).
  apply IH; simpl; [|by rewrite fault_task_clock].
  eapply Forall_impl; [exact Hin|]. intros x Hx. simpl in *. rewrite lookup_insert.
  case_decide; [by eexists|done].
Qed.

Definition two_faults : @World MemCluster * gmap nat FaultTask :=
  (mkWorld (mkController true ∅) demo_cluster 1000 [],
   <[1 := Checking (RdmaLinkDown "node-1" "roce-0")]>
     (<[0 := Checking (RdmaLinkDown "node-1" "roce-0")]> ∅)).
Definition two_faults_handled : @World MemCluster * gmap nat FaultTask :=
  foldl (scheduled mem_api) two_faults
    [(0, 1000%N); (1, 1001%N); (0, 1002%N); (1, 1003%N); (0, 1004%N); (1, 1005%N); (0, 1006%N);
     (1, 1007%N)].

Lemma two_faults_run :
  rtc (fault_step mem_api) (mkWorld (mkController true ∅) demo_cluster 1000 [], ∅) two_faults_handled.
Proof.
  eapply rtc_l; [by apply (step_spawn _ _ _ 0 (RdmaLinkDown "node-1" "roce-0"))|].
  eapply rtc_l; [by apply (step_spawn _ _ _ 1 (RdmaLinkDown "node-1" "roce-0"))|].
  apply schedule_steps; [|apply (bool_decide_unpack _); vm_compute; exact I].
  repeat constructor; by eexists.
Qed.

(** The cool-down does not hold between overlapping tasks: two faults of one node
    reported together both taint and evict. *)
Theorem overlapping_faults_both_act :
  ∃ s, rtc (fault_step mem_api) (mkWorld (mkController true ∅) demo_cluster 1000 [], ∅) s
    ∧ w_log s.1 = [("node-1", 1001, 1007); ("node-1", 1000, 1006)]%N.
Proof. exists two_faults_handled. split; [apply two_faults_run|vm_compute; reflexivity]. Qed.

Lemma concurrent_actions_apart_witness : (1006 + cooldown_ms ≤ 1001 ∨ 1001 ≤ 1006)%N.
Proof.
  apply (concurrent_actions_apart mem_api true demo_cluster 1000 two_faults_handled two_faults_run
           [] [("node-1", 1000, 1006)]%N "node-1" 1001 1007 1000 1006);
    [vm_compute; reflexivity|by left].
Defined.
