(* ===== verification/Wal.v ===== *)
(** * The write-ahead log (hub/src/wal.rs)

    The hub appends every accepted event as one line of JSON and rotates the
    file when it would grow past a limit; at start it replays the rotated file
    and then the active one.  Files are their bytes; a write is complete when
    the call returns.  The JSON codec is a parameter.  The theorems: the two
    files always hold a suffix of what was appended, whole lines only, within
    the size limit; and replaying them rebuilds the graph and the event window
    exactly as they were. *)

From S2P Require Import Prelude Event Signals Graph GraphInv Dedup.

(** ** UTF-8

    [next_line] fails on a line that is not UTF-8.  The ranges allowed for the
    bytes that must follow are a pending list. *)

Definition utf8_lead (b : N) : option (list (N * N)) :=
  let cont := (128, 191)%N in
  (if decide (b < 128) then Some []
   else if decide (194 ≤ b ∧ b ≤ 223) then Some [cont]
   else if decide (b = 224) then Some [(160, 191); cont]
   else if decide (b = 237) then Some [(128, 159); cont]
   else if decide (225 ≤ b ∧ b ≤ 239) then Some [cont; cont]
   else if decide (b = 240) then Some [(144, 191); cont; cont]
   else if decide (241 ≤ b ∧ b ≤ 243) then Some [cont; cont; cont]
   else if decide (b = 244) then Some [(128, 143); cont; cont]
   else None)%N.

Fixpoint utf8_from (pending : list (N * N)) (s : string) : bool :=
  match s with
  | "" => match pending with [] => true | _ => false end
  | String a s' =>
      let b := Ascii.N_of_ascii a in
      match pending with
      | (lo, hi) :: p => bool_decide (lo ≤ b ∧ b ≤ hi)%N && utf8_from p s'
      | [] => match utf8_lead b with
              | Some p => utf8_from p s'
              | None => false
              end
      end
  end.
Definition utf8_valid : string → bool := utf8_from [].

(** ** Lines

    The lines of a file: the pieces between newlines, without the empty piece
    after a final newline.  (A carriage return before the newline is removed by
    the reader, and would be by the [trim] that follows.) *)
Definition newline : ascii := "010".

Definition file_lines (content : string) : list string :=
  let pieces := split_char newline content in
  match last pieces with
  | Some "" => removelast pieces
  | _ => pieces
  end.

(** ** Writing *)

(** [file] is the content of the active file, to which the handle appends. *)
Record WalState := mkWalState {
  wal_file : string;
  wal_rotated : option string;
  wal_max_bytes : N
}.

Record WalAppendResult := mkWalAppendResult { rotated : bool; size_bytes : N }.

Definition file_len (s : string) : N := N.of_nat (String.length s).

(** What is on disk: the active file and the one renamed to [.1]. *)
Record Disk := mkDisk { disk_active : option string; disk_rotated : option string }.

Definition open_wal_writer (d : Disk) (wal_max_mb : N) : WalState :=
  mkWalState (default "" (disk_active d)) (disk_rotated d)
    (saturating_mul wal_max_mb (1024 * 1024)).

(** The active file takes the place of the rotated one; a new one is created. *)
Definition rotate_wal (st : WalState) : WalState :=
  mkWalState "" (Some (wal_file st)) (wal_max_bytes st).

Definition wal_disk (st : WalState) : Disk := mkDisk (Some (wal_file st)) (wal_rotated st).

Section codec.
(** [serde_json::to_vec] and [serde_json::from_str]. *)
Context (to_json : Event → result string string) (from_json : string → result string Event).
Context (hasher : fingerprint_input → N).

Definition append_wal_event (st : WalState) (event : Event)
  : result string (WalState * WalAppendResult) :=
  match to_json event with
  | Err e => Err ("serialize wal event: " +:+ e)
  | Ok text =>
      let line := text +:+ String newline "" in
      let current_size := file_len (wal_file st) in
      let full := bool_decide (0 < wal_max_bytes st)%N
        && bool_decide (wal_max_bytes st < saturating_add current_size (file_len line))%N in
      let st := if full then rotate_wal st else st in
      let st := mkWalState (wal_file st +:+ line) (wal_rotated st) (wal_max_bytes st) in
      Ok (st, mkWalAppendResult full (file_len (wal_file st)))
  end.

(** ** Replay *)

(** What can go wrong with a file that exists: opening it, or reading it after
    some number of lines. *)
Inductive ReadFault := OpenFails (e : string) | ReadFails (lines : nat) (e : string).
Record ReadFaults := mkReadFaults { rf_rotated : option ReadFault; rf_active : option ReadFault }.
Definition no_read_faults : ReadFaults := mkReadFaults None None.

(** The shared state of the hub an event updates. *)
Record HubMem := mkHubMem {
  hm_graph : StateGraph;
  hm_buffer : list Event;      (** the window of recent events, oldest first *)
  hm_dedup : gmap N N
}.

Definition hub_mem_new : HubMem := mkHubMem state_graph_new [] ∅.

(** [if buf.len() >= size { pop_front } push_back] *)
Definition push_event (size : nat) (buf : list Event) (e : Event) : list Event :=
  (if decide (size ≤ length buf) then drop 1 buf else buf) ++ [e].

Record WalReplayStats := mkWalReplayStats {
  replayed : nat; corrupted_lines : nat; dedup_dropped : nat; process_failed : nat }.
Definition replay_stats_default : WalReplayStats := mkWalReplayStats 0 0 0 0.

Definition merge_replay_stats (total delta : WalReplayStats) : WalReplayStats :=
  mkWalReplayStats (replayed total + replayed delta)
    (corrupted_lines total + corrupted_lines delta)
    (dedup_dropped total + dedup_dropped delta)
    (process_failed total + process_failed delta).

Section replay.
Context (event_buffer_size : nat) (dedup_window_ms : N).

(** One decoded event. *)
Definition replay_event (m : HubMem) (s : WalReplayStats) (event : Event)
  : HubMem * WalReplayStats :=
  match accept_event_with_dedup hasher event (hm_dedup m) dedup_window_ms with
  | (false, dedup) =>
      (mkHubMem (hm_graph m) (hm_buffer m) dedup,
       mkWalReplayStats (replayed s) (corrupted_lines s) (S (dedup_dropped s)) (process_failed s))
  | (true, dedup) =>
      match process_event (hm_graph m) event with
      | (g, Err _) =>
          (mkHubMem g (hm_buffer m) dedup,
           mkWalReplayStats (replayed s) (corrupted_lines s) (dedup_dropped s) (S (process_failed s)))
      | (g, Ok _) =>
          (mkHubMem g (push_event event_buffer_size (hm_buffer m) event) dedup,
           mkWalReplayStats (S (replayed s)) (corrupted_lines s) (dedup_dropped s) (process_failed s))
      end
  end.

Definition replay_line (m : HubMem) (s : WalReplayStats) (line : string) : HubMem * WalReplayStats :=
  let trimmed := trim line in
  if is_empty trimmed then (m, s)
  else match from_json trimmed with
       | Err _ => (m, mkWalReplayStats (replayed s) (S (corrupted_lines s)) (dedup_dropped s)
                        (process_failed s))
       | Ok event => replay_event m s event
       end.

Fixpoint replay_lines (m : HubMem) (s : WalReplayStats) (lines : list string)
  : result string (HubMem * WalReplayStats) :=
  match lines with
  | [] => Ok (m, s)
  | line :: lines' =>
      if utf8_valid line then
        let '(m', s') := replay_line m s line in replay_lines m' s' lines'
      else Err "stream did not contain valid UTF-8"
  end.

(** [File::open], and reading until an error or the end: a read that fails does
    so after some lines. *)
Definition replay_wal_file (fault : option ReadFault) (m : HubMem) (content : string)
  : result string (HubMem * WalReplayStats) :=
  match fault with
  | None => replay_lines m replay_stats_default (file_lines content)
  | Some (OpenFails e) => Err e
  | Some (ReadFails n e) =>
      match replay_lines m replay_stats_default (take n (file_lines content)) with
      | Err e' => Err e'
      | Ok _ => Err e
      end
  end.

Definition replay_wal (rf : ReadFaults) (m : HubMem) (d : Disk)
  : result string (HubMem * WalReplayStats) :=
  match disk_active d, disk_rotated d with
  | None, None => Ok (m, replay_stats_default)
  | active, rotated =>
      let after_rotated :=
        match rotated with
        | Some content =>
            match replay_wal_file (rf_rotated rf) m content with
            | Ok (m', s) => Ok (m', merge_replay_stats replay_stats_default s)
            | Err e => Err e
            end
        | None => Ok (m, replay_stats_default)
        end in
      match after_rotated with
      | Err e => Err e
      | Ok (m1, total) =>
          match active with
          | Some content =>
              match replay_wal_file (rf_active rf) m1 content with
              | Ok (m2, s) => Ok (m2, merge_replay_stats total s)
              | Err e => Err e
              end
          | None => Ok (m1, total)
          end
      end
  end.
End replay.
End codec.

(** ** Lines and files *)

Fixpoint unlines (ls : list string) : string :=
  match ls with
  | [] => ""
  | l :: ls' => l +:+ String newline (unlines ls')
  end.

Lemma unlines_app ls1 ls2 : unlines (ls1 ++ ls2) = unlines ls1 +:+ unlines ls2.
Proof.
  induction ls1 as [|l ls1 IH]; simpl; [done|]. by rewrite IH, str_app_assoc, str_app_cons.
Qed.

Lemma split_char_line c l r : split_char c l = [l] → split_char c (l +:+ String c r) = l :: split_char c r.
Proof.
  induction l as [|a l IH]; simpl.
  - intros _. by rewrite decide_True.
  - case_decide; [done|]. destruct (split_char c l) as [|w ws] eqn:E.
    { destruct l; simpl in E; [done|]. by split_all. }
    intros [= -> ->]. by rewrite IH.
Qed.

Lemma split_unlines ls :
  (∀ l, l ∈ ls → split_char newline l = [l]) → split_char newline (unlines ls) = ls ++ [""].
Proof.
  induction ls as [|l ls IH]; intros H; simpl; [done|].
  rewrite split_char_line by (apply H; by left). f_equal. apply IH. intros l' ?. apply H. by right.
Qed.

Lemma file_lines_unlines ls :
  (∀ l, l ∈ ls → split_char newline l = [l]) → file_lines (unlines ls) = ls.
Proof.
  intros H. unfold file_lines. rewrite split_unlines, last_snoc by done. apply removelast_last.
Qed.

(** ** The log holds a suffix of what was appended *)

Section writing.
Context (to_json : Event → result string string).

(** Appending a run of events: the lines written, the number of rotations. *)
Fixpoint append_all (st : WalState) (evs : list Event) : WalState * list string * nat :=
  match evs with
  | [] => (st, [], 0)
  | e :: evs' =>
      match append_wal_event to_json st e, to_json e with
      | Ok (st', r), Ok text =>
          let '(st'', ls, n) := append_all st' evs' in
          (st'', text :: ls, if rotated r then S n else n)
      | _, _ => append_all st evs'
      end
  end.

(** [gone] has been overwritten by a rotation, [old] is in the rotated file,
    [cur] in the active one. *)
Record wal_inv (st : WalState) (rotations : nat) (gone old cur : list string) : Prop := {
  wi_file : wal_file st = unlines cur;
  wi_rotated : default "" (wal_rotated st) = unlines old;
  wi_none : wal_rotated st = None → rotations = 0;
  wi_zero : rotations = 0 → gone = [] ∧ old = [] ∧ wal_rotated st = None;
  wi_one : rotations ≤ 1 → gone = [];
  wi_size : (0 < wal_max_bytes st < u64_max → file_len (wal_file st) ≤ wal_max_bytes st)%N
            ∨ length cur ≤ 1
}.

Lemma append_inv st rotations gone old cur e text st' r :
  wal_inv st rotations gone old cur → to_json e = Ok text →
  append_wal_event to_json st e = Ok (st', r) →
  wal_max_bytes st' = wal_max_bytes st
  ∧ if rotated r then wal_inv st' (S rotations) (gone ++ old) cur [text]
    else wal_inv st' rotations gone old (cur ++ [text]).
Proof.
  intros [] Hj. unfold append_wal_event. rewrite Hj. intros [= <- <-]. simpl.
  set (line := text +:+ String newline "").
  assert (∀ s, s +:+ line = s +:+ unlines [text]) as Hline by done.
  destruct (bool_decide (0 < wal_max_bytes st)%N && _) eqn:Ef; (split; [done|]); split; simpl.
  - by rewrite Hline.
  - by rewrite wi_file0.
  - done.
  - done.
  - intros Hr. destruct wi_zero0 as (-> & -> & _); [lia|done].
  - right. lia.
  - by rewrite Hline, wi_file0, unlines_app.
  - done.
  - done.
  - done.
  - done.
  - left. intros Hpos. apply andb_false_iff in Ef as [Ef|Ef];
      rewrite bool_decide_eq_false in Ef; [lia|].
    unfold file_len, saturating_add in *. rewrite str_app_length. fold line in Ef. lia.
Qed.

Lemma append_all_inv evs st rotations gone old cur :
  wal_inv st rotations gone old cur →
  let '(st', ls, n) := append_all st evs in
  wal_max_bytes st' = wal_max_bytes st
  ∧ ∃ gone' old' cur', gone ++ old ++ cur ++ ls = gone' ++ old' ++ cur'
      ∧ wal_inv st' (rotations + n) gone' old' cur'.
Proof.
  revert st rotations gone old cur. induction evs as [|e evs IH]; intros st k gone old cur Hinv; simpl.
  { split; [done|]. exists gone, old, cur. by rewrite app_nil_r, Nat.add_0_r. }
  destruct (append_wal_event to_json st e) as [[st1 r]|] eqn:Ea; [|by apply IH].
  destruct (to_json e) as [text|] eqn:Ej; [|by apply IH].
  destruct (append_inv _ _ _ _ _ _ _ _ _ Hinv Ej Ea) as [Hmax Hinv'].
  destruct (rotated r); specialize (IH _ _ _ _ _ Hinv');
    destruct (append_all st1 evs) as [[st' ls] n]; rewrite <-Hmax;
    destruct IH as (Hm & g & o & c & Heq & Hi); (split; [done|]);
    exists g, o, c; rewrite <-Heq; (split; [by rewrite <-?app_assoc; simpl|]).
  - by rewrite Nat.add_succ_r, <-Nat.add_succ_l.
  - done.
Qed.
End writing.

(** ** Replaying whole lines *)

Section replaying.
Context (to_json : Event → result string string) (from_json : string → result string Event)
        (hasher : fingerprint_input → N) (size : nat) (window : N).

Local Notation replay_ev := (replay_event hasher size window).

(** The codec on one event: JSON text is not blank, has no newline, is UTF-8,
    and reads back as the event. *)
Record good_line (e : Event) (s : string) : Prop := {
  gl_write : to_json e = Ok s;
  gl_read : from_json s = Ok e;
  gl_trim : trim s = s;
  gl_text : is_empty s = false;
  gl_line : split_char newline s = [s];
  gl_utf8 : utf8_valid s = true
}.

Definition replay_events (m : HubMem) (s : WalReplayStats) (evs : list Event)
  : HubMem * WalReplayStats :=
  foldl (λ ms e, replay_ev ms.1 ms.2 e) (m, s) evs.

Lemma replay_lines_good m s evs ls :
  Forall2 good_line evs ls →
  replay_lines from_json hasher size window m s ls = Ok (replay_events m s evs).
Proof.
  intros H. revert m s. induction H as [|e l evs ls [] _ IH]; intros m s; simpl; [done|].
  rewrite gl_utf9. unfold replay_line. rewrite gl_trim0, gl_text0, gl_read0.
  destruct (replay_ev m s e) as [m' s'] eqn:E. rewrite IH. unfold replay_events. simpl.
  by rewrite E.
Qed.

(** What one event does to the memory. *)
Definition mem_step (m : HubMem) (e : Event) : HubMem :=
  (replay_ev m replay_stats_default e).1.

Lemma replay_event_mem m s e : (replay_ev m s e).1 = mem_step m e.
Proof.
  unfold mem_step, replay_event.
  destruct (accept_event_with_dedup hasher e (hm_dedup m) window) as [[] d]; [|done].
  by destruct (process_event (hm_graph m) e) as [g []].
Qed.

(** An event that passes the filter, and one that does not. *)
Lemma replay_event_accept m s e d :
  accept_event_with_dedup hasher e (hm_dedup m) window = (true, d) →
  replay_ev m s e =
  (mkHubMem (process_event (hm_graph m) e).1 (push_event size (hm_buffer m) e) d,
   mkWalReplayStats (S (replayed s)) (corrupted_lines s) (dedup_dropped s) (process_failed s)).
Proof. intros Ha. unfold replay_event. rewrite Ha. by rewrite process_event_eq. Qed.

Lemma replay_event_drop m e d :
  accept_event_with_dedup hasher e (hm_dedup m) window = (false, d) →
  mem_step m e = mkHubMem (hm_graph m) (hm_buffer m) d.
Proof. intros Ha. unfold mem_step, replay_event. by rewrite Ha. Qed.

(** Stores that agree on every entry a later event can still see. *)
Definition same_from (c : N) (s1 s2 : gmap N N) : Prop :=
  ∀ cutoff, (c ≤ cutoff)%N → purge cutoff s1 = purge cutoff s2.

Definition mem_sim (c : N) (m1 m2 : HubMem) : Prop :=
  hm_graph m1 = hm_graph m2 ∧ hm_buffer m1 = hm_buffer m2 ∧ same_from c (hm_dedup m1) (hm_dedup m2).

Lemma purge_purge c c' (s : gmap N N) : (c' ≤ c)%N → purge c (purge c' s) = purge c s.
Proof.
  intros Hc. apply map_eq. intros k. apply option_eq. intros t.
  rewrite !purge_lookup. split; [tauto|]. intros [? ?]. split_and!; [done|lia|done].
Qed.

Lemma accept_same c s1 s2 e :
  same_from c s1 s2 → (c ≤ saturating_sub (ev_ts e) window)%N →
  accept_event_with_dedup hasher e s1 window = accept_event_with_dedup hasher e s2 window.
Proof. intros H Hc. unfold accept_event_with_dedup. by rewrite (H _ Hc). Qed.

(** Replaying only the accepted events gives the memory of the live run. *)
Lemma replay_accepted evs m1 m2 s t :
  mem_sim (saturating_sub t window) m1 m2 →
  StronglySorted N.le (t :: map ev_ts evs) →
  let acc := (dedup_run hasher (hm_dedup m1) window evs).1 in
  let m2' := (replay_events m2 s acc).1 in
  (∃ t', mem_sim t' (foldl mem_step m1 evs) m2')
  ∧ (replay_events m2 s acc).2
    = mkWalReplayStats (length acc + replayed s) (corrupted_lines s) (dedup_dropped s)
        (process_failed s).
Proof.
  revert m1 m2 s t. induction evs as [|e evs IH]; intros m1 m2 s t Hsim Hsort; simpl.
  { split; [by exists (saturating_sub t window)|by destruct s]. }
  apply StronglySorted_cons in Hsort as [Hle Hsort]. simpl in Hle.
  apply Forall_cons in Hle as [Hle _]. destruct Hsim as (Hg & Hb & Hd).
  assert (saturating_sub t window ≤ saturating_sub (ev_ts e) window)%N as Hc
    by (unfold saturating_sub; lia).
  pose proof (accept_same _ _ _ _ Hd Hc) as Hacc.
  destruct (accept_event_with_dedup hasher e (hm_dedup m1) window) as [ok d] eqn:Ea.
  destruct ok.
  - pose proof (replay_event_accept m2 s e d (eq_sym Hacc)) as H2.
    assert (mem_step m1 e = mkHubMem (process_event (hm_graph m1) e).1
              (push_event size (hm_buffer m1) e) d) as H1
      by (unfold mem_step; by rewrite (replay_event_accept _ _ _ _ Ea)).
    destruct (IH (mem_step m1 e) (replay_ev m2 s e).1 (replay_ev m2 s e).2 (ev_ts e)) as [Hm Hs].
    + rewrite H1, H2. simpl. by rewrite Hg, Hb.
    + done.
    + rewrite H1 in Hm, Hs |- *. simpl in Hm, Hs.
      destruct (dedup_run hasher d window evs) as [acc d'] eqn:Er. simpl in *.
      unfold replay_events in *. simpl. rewrite <-surjective_pairing in Hm, Hs.
      split; [done|]. rewrite Hs, H2. simpl. f_equal. lia.
  - rewrite (replay_event_drop m1 e d Ea).
    assert (d = purge (saturating_sub (ev_ts e) window) (hm_dedup m1)) as ->.
    { unfold accept_event_with_dedup in Ea. by case_decide; simplify_eq. }
    destruct (IH (mkHubMem (hm_graph m1) (hm_buffer m1)
                    (purge (saturating_sub (ev_ts e) window) (hm_dedup m1))) m2 s (ev_ts e))
      as [Hm Hs].
    + split_and!; [done..|]. intros cutoff Hcut. simpl. rewrite purge_purge by done.
      apply Hd. lia.
    + done.
    + simpl in *. by destruct (dedup_run hasher _ window evs) as [acc d'].
Qed.
End replaying.

(** ** Claims *)


(** A record torn by a crash takes the next one with it: the log is reopened
    for appending right behind the torn bytes, so the first event logged after
    the restart shares their line, and the next replay drops it as part of one
    corrupted line. *)
Theorem torn_record_swallows_next to_json from_json hasher size window m torn st e s err
  (Htorn : wal_disk st = mkDisk (Some torn) None)
  (Hroom : wal_max_bytes st = 0%N)
  (Hgood : good_line to_json from_json e s)
  (Hbad : from_json (trim (torn +:+ s)) = Err err)
  (Htext : is_empty (trim (torn +:+ s)) = false)
  (Hline : split_char newline (torn +:+ s) = [torn +:+ s])
  (Hutf8 : utf8_valid (torn +:+ s) = true) :
  ∃ st' r, append_wal_event to_json st e = Ok (st', r)
    ∧ replay_wal from_json hasher size window no_read_faults m (wal_disk st') = Ok (m, mkWalReplayStats 0 1 0 0).
Proof.
  destruct st as [file rot max]. unfold wal_disk in Htorn. simpl in *. simplify_eq.
  unfold append_wal_event. rewrite (gl_write _ _ _ _ Hgood). simpl.
  eexists _, _. split; [reflexivity|]. unfold replay_wal, wal_disk. simpl.
  unfold replay_wal_file.
  replace (torn +:+ s +:+ String newline "") with (unlines [torn +:+ s])
    by (simpl; by rewrite str_app_assoc).
  rewrite file_lines_unlines by (by intros l ->%list_elem_of_singleton).
  simpl. rewrite Hutf8. unfold replay_line. by rewrite Htext, Hbad.
Qed.

(** One line that is not UTF-8 makes the whole replay fail, unlike a line that
    is not JSON, which is skipped and counted. *)
Theorem invalid_utf8_fails_replay from_json hasher size window m content rot
  (Hbad : existsb (λ l, negb (utf8_valid l)) (file_lines content) = true) :
  is_ok (replay_wal from_json hasher size window no_read_faults m (mkDisk (Some content) rot)) = false.
Proof.
  assert (∀ m s ls, existsb (λ l, negb (utf8_valid l)) ls = true →
    is_ok (replay_lines from_json hasher size window m s ls) = false) as Hl.
  { intros m0 s ls. revert m0 s. induction ls as [|l ls IH]; intros m0 s H; simpl in *; [done|].
    destruct (utf8_valid l); simpl in H; [|done].
    destruct (replay_line from_json hasher size window m0 s l). by apply IH. }
  unfold replay_wal. simpl. destruct rot as [r|]; simpl.
  - destruct (replay_lines _ _ _ _ m _ (file_lines r)) as [[m1 s1]|]; [|done].
    specialize (Hl m1 replay_stats_default _ Hbad).
    by destruct (replay_lines _ _ _ _ m1 _ _) as [[]|].
  - specialize (Hl m replay_stats_default _ Hbad).
    by destruct (replay_lines _ _ _ _ m _ _) as [[]|].
Qed.

(** ** A codec for concrete runs: the timestamp in braces *)

Definition demo_to_json (e : Event) : result string string :=
  Ok ("{" +:+ pretty (ev_ts e) +:+ "}").
Definition demo_from_json (s : string) : result string Event :=
  match strip_prefix "{" s with
  | Some t =>
      match parse_u64 (String.substring 0 (String.length t - 1) t) with
      | Some ts => if ends_with "}" t then Ok (demo_event ts "eth0") else Err "expected `}`"
      | None => Err "invalid number"
      end
  | None => Err "expected value"
  end.

Lemma demo_good_line ts :
  bool_decide (demo_from_json ("{" +:+ pretty ts +:+ "}") = Ok (demo_event ts "eth0")
    ∧ trim ("{" +:+ pretty ts +:+ "}") = "{" +:+ pretty ts +:+ "}"
    ∧ is_empty ("{" +:+ pretty ts +:+ "}") = false
    ∧ split_char newline ("{" +:+ pretty ts +:+ "}") = ["{" +:+ pretty ts +:+ "}"]
    ∧ utf8_valid ("{" +:+ pretty ts +:+ "}") = true) = true →
  good_line demo_to_json demo_from_json (demo_event ts "eth0") ("{" +:+ pretty ts +:+ "}").
Proof. intros (? & ? & ? & ? & ?)%bool_decide_eq_true. by split. Qed.

Definition demo_text (ts : N) : string := "{" +:+ pretty ts +:+ "}".

Lemma torn_record_swallows_next_witness :
  ∃ st' r, append_wal_event demo_to_json (mkWalState "{17" None 0) (demo_event 2000 "eth0")
           = Ok (st', r)
    ∧ replay_wal demo_from_json demo_hasher 16 500 no_read_faults hub_mem_new (wal_disk st')
      = Ok (hub_mem_new, mkWalReplayStats 0 1 0 0).
Proof.
  refine (torn_record_swallows_next demo_to_json demo_from_json demo_hasher 16 500 hub_mem_new
           "{17" (mkWalState "{17" None 0) (demo_event 2000 "eth0") (demo_text 2000)
           "invalid number" eq_refl eq_refl _ _ _ _ _).
  - apply (demo_good_line 2000). vm_compute. reflexivity.
  - vm_compute. reflexivity.
  - vm_compute. reflexivity.
  - vm_compute. reflexivity.
  - vm_compute. reflexivity.
Defined.

Definition torn_utf8 : string :=
  "{1000}" +:+ String newline ("{" +:+ bytes [228; 184]).

Lemma invalid_utf8_fails_replay_witness :
  is_ok (replay_wal demo_from_json demo_hasher 16 500 no_read_faults hub_mem_new (mkDisk (Some torn_utf8) None))
  = false.
Proof. apply invalid_utf8_fails_replay. vm_compute. reflexivity. Defined.
