(* ===== verification/WalDisk.v ===== *)
(** * The write-ahead log on a failing disk (hub/src/wal.rs)

    The log at the level of directory entries, inodes and an open handle, with
    every disk operation of [append_wal_event] and [rotate_wal] allowed to fail.
    The handle is a [tokio::fs::File], which is not under src/ and enters by what
    its documentation says: a write copies at most a buffer of bytes and hands
    them to a background thread, so it returns before they are in the file; the
    next write, or a flush, waits for the write in flight and reports its error;
    [metadata] does not wait.  The size of the buffer is a parameter, and what the
    disk does, which bytes have arrived when and what fails, an argument of every
    append.  [Wal] is the abstraction: when nothing fails and every write has
    arrived by the time it is looked at, the two agree.  In general, as long as the
    new file of a rotation can be opened, the files hold what was handed over but
    for the rotated file a rotation replaces; when opening fails after the rename,
    the handle stays on the renamed file, and the next rotation deletes it. *)

From S2P Require Import Prelude Event Signals Graph Dedup Wal.

(** ** Files *)

(** The two names of the log and the contents of the inodes.  An inode without
    a name lives on while the handle is on it. *)
Record FileTable := mkFileTable {
  ft_active : option nat;
  ft_rotated : option nat;
  ft_inodes : gmap nat string;
  ft_next : nat
}.

(** The contents behind a name, and what a replay reads: the rotated file and
    then the active one. *)
Definition content (d : FileTable) (i : nat) : string := default "" (ft_inodes d !! i).
Definition named_content (d : FileTable) (o : option nat) : string :=
  match o with Some i => content d i | None => "" end.
Definition visible (d : FileTable) : string :=
  named_content d (ft_rotated d) +:+ named_content d (ft_active d).

(** [OpenOptions::create(true).append(true).open(path)] *)
Definition open_active (d : FileTable) : nat * FileTable :=
  match ft_active d with
  | Some i => (i, d)
  | None => (ft_next d, mkFileTable (Some (ft_next d)) (ft_rotated d)
                          (<[ft_next d := ""]> (ft_inodes d)) (S (ft_next d)))
  end.

Definition write_to (d : FileTable) (i : nat) (bytes : string) : FileTable :=
  mkFileTable (ft_active d) (ft_rotated d) (<[i := content d i +:+ bytes]> (ft_inodes d)) (ft_next d).

(** What the disk does during an append.  [landed] is how many of the bytes in
    flight have arrived when the size is read, [None] for all of them; a write
    that fails has written some of its bytes. *)
Record Faults := mkFaults {
  landed_before : option nat;          (** at the first [metadata] *)
  fail_metadata : bool;
  fail_remove : bool;
  fail_rename : bool;
  fail_open : bool;
  write_outcomes : list (option nat);  (** per buffer written; [Some n] fails after [n] bytes *)
  landed_after : option nat;           (** at the second [metadata] *)
  fail_size : bool
}.
Definition no_faults : Faults := mkFaults None false false false false [] None false.

(** The writer: where the handle is, the limit, and the write in flight, the
    bytes of it still to arrive and whether it then fails. *)
Record Writer := mkWriter {
  wr_handle : nat; wr_max_bytes : N; wr_flight : option (string * bool) }.

Definition io_error : string := "Input/output error (os error 5)".

(** Bytes in flight arrive. *)
Definition land (k : option nat) (d : FileTable) (w : Writer) : FileTable * Writer :=
  match wr_flight w with
  | None => (d, w)
  | Some (bytes, fails) =>
      let n := default (String.length bytes) k in
      (write_to d (wr_handle w) (String.substring 0 n bytes),
       mkWriter (wr_handle w) (wr_max_bytes w) (Some (str_from n bytes, fails)))
  end.

(** [file.flush()]: wait for the write in flight and take its result.  A write
    does the same before it starts. *)
Definition flush (d : FileTable) (w : Writer) : result string unit * FileTable * Writer :=
  match wr_flight w with
  | None => (Ok (), d, w)
  | Some (bytes, fails) =>
      (if fails then Err io_error else Ok (), write_to d (wr_handle w) bytes,
       mkWriter (wr_handle w) (wr_max_bytes w) None)
  end.

(** A buffer is handed over. *)
Definition hand_over (outcome : option nat) (w : Writer) (bytes : string) : Writer :=
  mkWriter (wr_handle w) (wr_max_bytes w)
    (Some (match outcome with
           | None => (bytes, false)
           | Some n => (String.substring 0 n bytes, true)
           end)).

(** [file.write_all(&line)], buffer by buffer. *)
Fixpoint write_all (outcomes : list (option nat)) (d : FileTable) (w : Writer) (buffers : list string)
  : result string unit * FileTable * Writer :=
  match buffers with
  | [] => (Ok (), d, w)
  | b :: buffers' =>
      match flush d w with
      | (Err e, d, w) => (Err e, d, w)
      | (Ok _, d, w) => write_all (tail outcomes) d (hand_over (default None (head outcomes)) w b) buffers'
      end
  end.

(** The line cut into buffers of at most [n] bytes; the length of the line is
    fuel enough, as a buffer holds a byte at least. *)
Fixpoint buffers_fuel (fuel n : nat) (s : string) : list string :=
  match fuel with
  | 0 => []
  | S fuel' =>
      if is_empty s then [] else String.substring 0 n s :: buffers_fuel fuel' n (str_from n s)
  end.
Definition buffers (n : nat) (s : string) : list string := buffers_fuel (String.length s) n s.

Definition rotate_files (f : Faults) (d : FileTable) (w : Writer)
  : result string unit * FileTable * Writer :=
  match flush d w with
  | (Err e, d, w) => (Err e, d, w)
  | (Ok _, d, w) =>
    let removed :=
      match ft_rotated d with
      | Some _ => if fail_remove f then Err io_error
                  else Ok (mkFileTable (ft_active d) None (ft_inodes d) (ft_next d))
      | None => Ok d
      end in
    match removed with
    | Err e => (Err e, d, w)
    | Ok d1 =>
        let renamed :=
          match ft_active d1 with
          | Some i => if fail_rename f then Err io_error
                      else Ok (mkFileTable None (Some i) (ft_inodes d1) (ft_next d1))
          | None => Ok d1
          end in
        match renamed with
        | Err e => (Err e, d1, w)
        | Ok d2 =>
            if fail_open f then (Err io_error, d2, w)
            else let '(i, d3) := open_active d2 in (Ok (), d3, mkWriter i (wr_max_bytes w) None)
        end
    end
  end.

Section append.
Context (max_buf : nat) (to_json : Event → result string string).

Definition append_disk (f : Faults) (d : FileTable) (w : Writer) (event : Event)
  : result string WalAppendResult * FileTable * Writer :=
  match to_json event with
  | Err e => (Err ("serialize wal event: " +:+ e), d, w)
  | Ok text =>
      let line := text +:+ String newline "" in
      let '(d, w) := land (landed_before f) d w in
      if fail_metadata f then (Err io_error, d, w)
      else
        let current_size := file_len (content d (wr_handle w)) in
        let full := bool_decide (0 < wr_max_bytes w)%N
          && bool_decide (wr_max_bytes w < saturating_add current_size (file_len line))%N in
        let '(r, d, w) := if full then rotate_files f d w else (Ok (), d, w) in
        match r with
        | Err e => (Err e, d, w)
        | Ok _ =>
            match write_all (write_outcomes f) d w (buffers max_buf line) with
            | (Err e, d, w) => (Err e, d, w)
            | (Ok _, d, w) =>
                let '(d, w) := land (landed_after f) d w in
                if fail_size f then (Err io_error, d, w)
                else (Ok (mkWalAppendResult full (file_len (content d (wr_handle w)))), d, w)
            end
        end
  end.
End append.

(** The directory of the log is made when the path has one. *)
Definition ensure_parent_dir (parent : option string) (mkdir_fails : bool) : result string unit :=
  match parent with
  | Some p => if is_empty p then Ok () else if mkdir_fails then Err io_error else Ok ()
  | None => Ok ()
  end.

(** The opening of the log. *)
Definition open_writer (parent : option string) (mkdir_fails open_fails : bool) (d : FileTable)
    (wal_max_mb : N) : result string (FileTable * Writer) :=
  match ensure_parent_dir parent mkdir_fails with
  | Err e => Err e
  | Ok _ =>
      if open_fails then Err io_error
      else let '(i, d') := open_active d in
           Ok (d', mkWriter i (saturating_mul wal_max_mb (1024 * 1024)) None)
  end.

(** ** The handle and the names

    The handle is on the active file, the rotated file is another one, and new
    inodes are fresh. *)
Record disk_wf (d : FileTable) (w : Writer) : Prop := {
  dw_active : ft_active d = Some (wr_handle w);
  dw_handle : wr_handle w < ft_next d;
  dw_rotated : ∀ j, ft_rotated d = Some j → j < ft_next d ∧ j ≠ wr_handle w
}.

(** What is still to arrive, whether it then fails, and what the files hold once
    it has arrived. *)
Definition pending (w : Writer) : string := default "" (fst <$> wr_flight w).
Definition failing (w : Writer) : bool := default false (snd <$> wr_flight w).
Definition total (d : FileTable) (w : Writer) : string := visible d +:+ pending w.

(** What [Wal] keeps of the disk. *)
Definition wal_of (d : FileTable) (w : Writer) : WalState :=
  mkWalState (content d (wr_handle w) +:+ pending w) (content d <$> ft_rotated d) (wr_max_bytes w).

(** Names lead to inodes that have been handed out, the two to different ones. *)
Definition table_wf (d : FileTable) : Prop :=
  (∀ i, ft_active d = Some i → i < ft_next d)
  ∧ (∀ j, ft_rotated d = Some j → j < ft_next d ∧ ft_active d ≠ Some j)
  ∧ (∀ i, ft_next d ≤ i → ft_inodes d !! i = None).

Lemma content_write_same d i s : content (write_to d i s) i = content d i +:+ s.
Proof. unfold content at 1. simpl. by rewrite lookup_insert_eq. Qed.

Lemma content_write_other d i j s : i ≠ j → content (write_to d i s) j = content d j.
Proof. intros. unfold content. simpl. by rewrite lookup_insert_ne. Qed.

Lemma visible_write d w s :
  disk_wf d w → visible (write_to d (wr_handle w) s) = visible d +:+ s.
Proof.
  intros [Ha _ Hr]. unfold visible. simpl. rewrite Ha. simpl. rewrite content_write_same.
  destruct (ft_rotated d) as [j|]; simpl; [|done].
  rewrite content_write_other by (destruct (Hr j eq_refl); lia). by rewrite str_app_assoc.
Qed.

(** The handle is what matters of the writer. *)
Lemma disk_wf_handle d w w' : wr_handle w' = wr_handle w → disk_wf d w → disk_wf d w'.
Proof. intros E [Ha Hh Hr]. split; by rewrite E. Qed.

Lemma wf_write d w w' s :
  wr_handle w' = wr_handle w → disk_wf d w → disk_wf (write_to d (wr_handle w) s) w'.
Proof. intros E Hwf. apply (disk_wf_handle _ w); [done|]. destruct Hwf. by split. Qed.

Lemma substring_str_from n s : String.substring 0 n s +:+ str_from n s = s.
Proof.
  revert s. induction n as [|n IH]; intros s; [by destruct s|].
  destruct s as [|a s]; [done|]. simpl. by rewrite str_app_cons, IH.
Qed.

Lemma substring_app_le n s t : n ≤ String.length s → String.substring 0 n (s +:+ t) = String.substring 0 n s.
Proof.
  revert s. induction n as [|n IH]; intros s Hn; [by destruct s, t|].
  destruct s as [|a s]; simpl in *; [lia|]. f_equal. apply IH. lia.
Qed.

Lemma substring_length n s : n ≤ String.length s → String.length (String.substring 0 n s) = n.
Proof.
  revert s. induction n as [|n IH]; intros s Hn; [by destruct s|].
  destruct s as [|a s]; simpl in *; [lia|]. f_equal. apply IH. lia.
Qed.

Lemma str_from_length n s : String.length (str_from n s) = String.length s - n.
Proof. revert s. induction n as [|n IH]; intros [|a s]; simpl; auto. Qed.

(** ** Waiting, writing, rotating *)

Lemma land_keeps k d w d' w' :
  disk_wf d w → land k d w = (d', w') →
  disk_wf d' w' ∧ total d' w' = total d w ∧ failing w' = failing w.
Proof.
  intros Hwf. unfold land, total, pending, failing.
  destruct (wr_flight w) as [[b fl]|] eqn:E; intros [= <- <-].
  - split; [by apply wf_write|]. simpl. rewrite visible_write, str_app_assoc by done.
    by rewrite substring_str_from.
  - by rewrite E.
Qed.

Lemma flush_keeps d w r d' w' :
  disk_wf d w → flush d w = (r, d', w') →
  disk_wf d' w' ∧ visible d' = total d w ∧ wr_flight w' = None ∧ is_ok r = negb (failing w).
Proof.
  intros Hwf. unfold flush, total, pending, failing.
  destruct (wr_flight w) as [[b fl]|] eqn:E; intros [= <- <- <-]; simpl.
  - split_and!; [by apply wf_write|by apply visible_write|done|by destruct fl].
  - by rewrite str_app_nil_r.
Qed.

Lemma wr_flight_None d w :
  wr_flight w = None → pending w = "" ∧ failing w = false ∧ total d w = visible d.
Proof. intros E. unfold total, pending, failing. by rewrite E, str_app_nil_r. Qed.

Definition chunks (cs : list string) : string := foldr String.append "" cs.

Lemma chunks_cons c cs : chunks (c :: cs) = c +:+ chunks cs.
Proof. done. Qed.

Lemma buffers_chunks n s : 0 < n → chunks (buffers n s) = s.
Proof.
  intros Hn. unfold buffers. remember (String.length s) as fuel eqn:Hf.
  assert (String.length s ≤ fuel) as Hl by lia. clear Hf. revert s Hl.
  induction fuel as [|fuel IH]; intros s Hl; [by destruct s; simpl in *; [|lia]|].
  simpl. destruct s as [|a s]; [done|]. cbn [is_empty].
  rewrite chunks_cons, IH; [apply substring_str_from|]. rewrite str_from_length. simpl in *. lia.
Qed.

Lemma buffers_nonempty n a s : buffers n (String a s) ≠ [].
Proof. done. Qed.

(** What a [write_all] adds, whatever fails: a part of its bytes, all of them
    when it succeeds, unless the last buffer is in flight and about to fail; and
    nothing when the write before it fails. *)
Lemma write_all_keeps outs bs d w r d' w' :
  disk_wf d w → write_all outs d w bs = (r, d', w') →
  disk_wf d' w' ∧ ∃ c rest,
    c +:+ rest = chunks bs ∧ total d w +:+ c = total d' w'
    ∧ (is_ok r = true → rest = "" ∨ failing w' = true)
    ∧ (failing w = true → bs ≠ [] → is_ok r = false ∧ c = "").
Proof.
  revert outs d w r. induction bs as [|b bs IH]; intros outs d w r Hwf; cbn [write_all].
  { intros [= <- <- <-]. split; [done|]. exists "", "". rewrite !str_app_nil_r. split_and!; auto; done. }
  destruct (flush d w) as [[r1 d1] w1] eqn:Ef.
  destruct (flush_keeps _ _ _ _ _ Hwf Ef) as (Hwf1 & Hv & Hn & Hr).
  apply (wr_flight_None d1) in Hn as (_ & _ & Ht).
  destruct r1 as [[]|x]; simpl in Hr.
  2:{ intros [= <- <- <-]. split; [done|]. exists "", (chunks (b :: bs)).
      rewrite str_app_nil_r. split_and!; [done|congruence|done|done]. }
  assert (failing w = false) as -> by by destruct (failing w).
  set (o := default None (head outs)). set (w2 := hand_over o w1 b). intros Hw.
  assert (disk_wf d1 w2) as Hwf2 by by apply (disk_wf_handle d1 w1).
  destruct (IH _ _ _ _ Hwf2 Hw) as (Hwf' & c & rest & Hc & Htot & Hok & Hbad). split; [done|].
  unfold total in Htot at 1. unfold w2 in Htot, Hbad. unfold hand_over, pending, failing in Htot, Hbad.
  rewrite <-Hv. destruct o as [n|]; simpl in Htot, Hbad.
  - exists (String.substring 0 n b +:+ c), (match bs with [] => str_from n b | _ => str_from n b +:+ chunks bs end).
    rewrite <-str_app_assoc, Htot. split_and!; [|done| |done].
    + destruct bs as [|b' bs']; [|destruct (Hbad eq_refl ltac:(done)) as [_ ->]].
      * destruct c; [|done]. rewrite str_app_nil_r. simpl. by rewrite str_app_nil_r, substring_str_from.
      * by rewrite str_app_nil_r, <-str_app_assoc, substring_str_from.
    + intros Ho. right. destruct bs as [|b' bs'].
      * simpl in Hw. by injection Hw as <- <- <-.
      * destruct (Hbad eq_refl ltac:(done)) as [Hr' _]. congruence.
  - exists (b +:+ c), rest. rewrite <-str_app_assoc, Htot. split_and!; [|done|done|done].
    by rewrite str_app_assoc, Hc.
Qed.

(** The table after a rotation that succeeds, with nothing in flight. *)
Lemma rotate_files_ok f d w :
  disk_wf d w → wr_flight w = None → fail_rename f = false → fail_open f = false →
  fail_remove f = false →
  rotate_files f d w
  = (Ok (), mkFileTable (Some (ft_next d)) (Some (wr_handle w))
              (<[ft_next d := ""]> (ft_inodes d)) (S (ft_next d)),
     mkWriter (ft_next d) (wr_max_bytes w) None).
Proof.
  intros [Ha _ _] H1 H2 H3 H4. unfold rotate_files, flush. rewrite H1, H2, H3, H4.
  destruct (ft_rotated d); simpl; by rewrite Ha.
Qed.

Lemma rotate_wf d w :
  disk_wf d w →
  disk_wf (mkFileTable (Some (ft_next d)) (Some (wr_handle w))
             (<[ft_next d := ""]> (ft_inodes d)) (S (ft_next d)))
          (mkWriter (ft_next d) (wr_max_bytes w) None).
Proof. intros [_ Hh _]. split; simpl; [done|lia|]. intros j [= <-]. lia. Qed.

Lemma rotate_wal_of d w :
  disk_wf d w → wr_flight w = None →
  wal_of (mkFileTable (Some (ft_next d)) (Some (wr_handle w))
            (<[ft_next d := ""]> (ft_inodes d)) (S (ft_next d)))
         (mkWriter (ft_next d) (wr_max_bytes w) None)
  = rotate_wal (wal_of d w).
Proof.
  intros [_ Hh _] Hn. unfold wal_of, rotate_wal, content, pending. rewrite Hn. simpl.
  rewrite lookup_insert_eq, lookup_insert_ne, !str_app_nil_r by lia. done.
Qed.

(** Whatever fails, but for opening the new file, the handle stays on the
    active file and at most the rotated file is gone; the write in flight is over,
    and the rotation has failed if it has. *)
Lemma rotate_files_keeps f d w r d' w' :
  disk_wf d w → fail_open f = false → rotate_files f d w = (r, d', w') →
  disk_wf d' w' ∧ wr_flight w' = None ∧ (∃ gone, total d w = gone +:+ visible d')
  ∧ (failing w = true → is_ok r = false).
Proof.
  intros Hwf0 Hopen. unfold rotate_files.
  destruct (flush d w) as [[r1 d1] w1] eqn:Ef.
  destruct (flush_keeps _ _ _ _ _ Hwf0 Ef) as (Hwf & <- & Hn & Hr1).
  destruct r1 as [[]|x]; simpl in Hr1; [|intros [= <- <- <-]; split_and!; [done|done|by exists ""|done]].
  assert (failing w = false) as -> by by destruct (failing w).
  clear d w Hwf0 Ef Hr1. rename d1 into d, w1 into w. pose proof Hwf as [Ha Hh Hr].
  destruct (ft_rotated d) as [j|] eqn:Erot; [destruct (fail_remove f)|]; simpl; rewrite ?Ha.
  - intros [= <- <- <-]. split_and!; [done|done|by exists ""|done].
  - destruct (fail_rename f); simpl; rewrite ?Hopen; intros [= <- <- <-];
      (split_and!; [first [done|by split|by apply rotate_wf]|done| |done]); exists (content d j);
      unfold visible, named_content, content; simpl; rewrite Erot, Ha; [done|].
    rewrite lookup_insert_eq, lookup_insert_ne by lia. simpl. by rewrite str_app_nil_r.
  - destruct (fail_rename f); simpl; rewrite ?Hopen; intros [= <- <- <-];
      (split_and!; [first [done|by split|by apply rotate_wf]|done| |done]); exists "";
      unfold visible, named_content, content; simpl; rewrite Erot, Ha; [done|].
    rewrite lookup_insert_eq, lookup_insert_ne by lia. simpl. by rewrite str_app_nil_r.
Qed.

(** *** What [Wal] sees of these operations *)

Lemma wal_of_write d w w' s :
  disk_wf d w → wr_handle w' = wr_handle w → wr_max_bytes w' = wr_max_bytes w →
  s +:+ pending w' = pending w →
  wal_of (write_to d (wr_handle w) s) w' = wal_of d w.
Proof.
  intros [Ha _ Hr] Hh Hm Hp. unfold wal_of. rewrite Hh, Hm, content_write_same, str_app_assoc, Hp.
  f_equal. destruct (ft_rotated d) as [j|] eqn:E; simpl; rewrite E; simpl; [|done].
  by rewrite content_write_other by (destruct (Hr j eq_refl); lia).
Qed.

Lemma land_wal_of k d w d' w' : disk_wf d w → land k d w = (d', w') → wal_of d' w' = wal_of d w.
Proof.
  intros Hwf. unfold land. destruct (wr_flight w) as [[b fl]|] eqn:E; intros [= <- <-]; [|done].
  apply wal_of_write; [done..|]. unfold pending. rewrite E. apply substring_str_from.
Qed.

(** When everything has arrived, the file is what the abstract log has. *)
Lemma land_all d w d' w' :
  disk_wf d w → land None d w = (d', w') → content d' (wr_handle w') = wal_file (wal_of d' w').
Proof.
  intros Hwf. unfold land, wal_of, pending.
  destruct (wr_flight w) as [[b fl]|] eqn:E; intros [= <- <-]; simpl; [|by rewrite E, str_app_nil_r].
  assert (str_from (String.length b) b = "") as ->; [|by rewrite str_app_nil_r].
  by rewrite <-(str_from_app b ""), str_app_nil_r.
Qed.

Lemma flush_wal_of d w :
  disk_wf d w → failing w = false →
  ∃ d' w', flush d w = (Ok (), d', w') ∧ disk_wf d' w' ∧ wr_flight w' = None ∧ wal_of d' w' = wal_of d w.
Proof.
  intros Hwf Hf. destruct (flush d w) as [[r d'] w'] eqn:E.
  destruct (flush_keeps _ _ _ _ _ Hwf E) as (Hwf' & _ & Hn & Hr). rewrite Hf in Hr.
  destruct r as [[]|]; [|done]. exists d', w'. split_and!; [done..|].
  revert E. unfold flush. destruct (wr_flight w) as [[b fl]|] eqn:E; [|by intros [= <- <-]].
  intros [= _ <- <-]. apply wal_of_write; [done..|]. unfold pending. rewrite E. apply str_app_nil_r.
Qed.

Lemma write_all_wal_of bs d w :
  disk_wf d w → failing w = false →
  ∃ d' w', write_all [] d w bs = (Ok (), d', w') ∧ disk_wf d' w' ∧ failing w' = false
    ∧ wal_of d' w' = mkWalState (wal_file (wal_of d w) +:+ chunks bs) (wal_rotated (wal_of d w)) (wr_max_bytes w).
Proof.
  revert d w. induction bs as [|b bs IH]; intros d w Hwf Hf; cbn [write_all].
  { exists d, w. split_and!; [done..|]. simpl. by rewrite str_app_nil_r. }
  destruct (flush_wal_of d w Hwf Hf) as (d1 & w1 & -> & Hwf1 & Hn & Hw1).
  destruct (IH d1 (hand_over None w1 b)) as (d' & w' & Hw & Hwf' & Hf' & Hs);
    [by apply (disk_wf_handle d1 w1)|done|].
  exists d', w'. split_and!; [done..|]. rewrite Hs, <-Hw1. unfold wal_of, pending, hand_over. rewrite Hn. simpl.
  rewrite str_app_nil_r, str_app_assoc. f_equal. by injection Hw1.
Qed.

(** ** Appending *)

Section append_facts.
Context (max_buf : nat) (to_json : Event → result string string).
Context (Hbuf : 0 < max_buf).

(** What an append may add to the files: a part of its line; and all of it. *)
Definition part_of (e : Event) (c : string) : Prop :=
  match to_json e with
  | Ok text => ∃ rest, c +:+ rest = text +:+ String newline ""
  | Err _ => c = ""
  end.
Definition whole_of (e : Event) (c : string) : Prop :=
  match to_json e with
  | Ok text => c = text +:+ String newline ""
  | Err _ => False
  end.

Lemma append_disk_keeps f d w e r d' w' :
  disk_wf d w → fail_open f = false → append_disk max_buf to_json f d w e = (r, d', w') →
  disk_wf d' w' ∧ ∃ gone c, part_of e c ∧ total d w +:+ c = gone +:+ total d' w'
    ∧ (is_ok r = true → whole_of e c ∨ failing w' = true)
    ∧ (failing w = true → is_ok r = false ∧ c = "").
Proof.
  intros Hwf Hopen. unfold append_disk, part_of, whole_of.
  destruct (to_json e) as [text|x].
  2:{ intros [= <- <- <-]. split; [done|]. exists "", "". by rewrite str_app_nil_r. }
  set (line := text +:+ String newline "").
  assert (buffers max_buf line ≠ []) as Hne by (unfold line; by destruct text).
  assert (Hnone : ∃ rest, "" +:+ rest = line) by by exists line.
  destruct (land (landed_before f) d w) as [d1 w1] eqn:E1.
  destruct (land_keeps _ _ _ _ _ Hwf E1) as (Hwf1 & <- & <-).
  destruct (fail_metadata f).
  { intros [= <- <- <-]. split; [done|]. exists "", "". by rewrite str_app_nil_r. }
  set (full := _ && _).
  destruct (if full then rotate_files f d1 w1 else _) as [[r2 d2] w2] eqn:Erot.
  assert (Hrot : disk_wf d2 w2 ∧ (∃ gone, total d1 w1 = gone +:+ total d2 w2)
    ∧ (failing w1 = true → is_ok r2 = true → failing w2 = true)).
  { destruct full.
    - destruct (rotate_files_keeps _ _ _ _ _ _ Hwf1 Hopen Erot) as (? & Hn & ? & Hr).
      apply (wr_flight_None d2) in Hn as (_ & _ & ->). split_and!; [done..|]. intros ? ?. by rewrite Hr in *.
    - simplify_eq. split_and!; [done|by exists ""|done]. }
  destruct Hrot as (Hwf2 & [gone Hgone] & Hfail). rewrite Hgone.
  destruct r2 as [[]|x]; simpl in Hfail.
  2:{ intros [= <- <- <-]. split; [done|]. exists gone, "". by rewrite str_app_nil_r. }
  destruct (write_all _ d2 w2 _) as [[r3 d3] w3] eqn:Ew.
  destruct (write_all_keeps _ _ _ _ _ _ _ Hwf2 Ew) as (Hwf3 & c & rest & Hc & Ht & Hok & Hbad).
  rewrite buffers_chunks in Hc by done.
  assert (Hw : is_ok r3 = true → c = line ∨ failing w3 = true).
  { intros [->|]%Hok; [left|by right]. by rewrite str_app_nil_r in Hc. }
  assert (Hb : failing w1 = true → is_ok r3 = false ∧ c = "") by auto.
  destruct r3 as [[]|x]; simpl in Hw, Hb.
  2:{ intros [= <- <- <-]. split; [done|]. exists gone, c. rewrite str_app_assoc, Ht. eauto. }
  destruct (land (landed_after f) d3 w3) as [d4 w4] eqn:E4.
  destruct (land_keeps _ _ _ _ _ Hwf3 E4) as (Hwf4 & Ht4 & Hf4).
  destruct (fail_size f); intros [= <- <- <-]; (split; [done|]); exists gone, c;
    rewrite str_app_assoc, Ht, Ht4, Hf4; simpl; (split_and!; [by eauto|done|by auto|]); naive_solver.
Qed.

Lemma append_disk_refines d w e :
  disk_wf d w → failing w = false →
  let '(r, d', w') := append_disk max_buf to_json no_faults d w e in
  disk_wf d' w' ∧ failing w' = false ∧
  match append_wal_event to_json (wal_of d w) e with
  | Ok (st, res) => r = Ok res ∧ wal_of d' w' = st
  | Err x => r = Err x ∧ wal_of d' w' = wal_of d w
  end.
Proof.
  intros Hwf Hf. unfold append_disk, append_wal_event.
  destruct (to_json e) as [text|x]; [|done]. set (line := text +:+ _).
  cbn -[wal_of rotate_files content file_len write_all land].
  destruct (land None d w) as [d1 w1] eqn:E1.
  destruct (land_keeps _ _ _ _ _ Hwf E1) as (Hwf1 & _ & Hf1). rewrite Hf in Hf1.
  rewrite <-(land_wal_of _ _ _ _ _ Hwf E1). rewrite (land_all _ _ _ _ Hwf E1).
  change (wr_max_bytes w1) with (wal_max_bytes (wal_of d1 w1)). set (full := _ && _).
  assert (∃ d2 w2, (if full then rotate_files no_faults d1 w1 else (Ok (), d1, w1)) = (Ok (), d2, w2)
    ∧ disk_wf d2 w2 ∧ failing w2 = false
    ∧ wal_of d2 w2 = (if full then rotate_wal (wal_of d1 w1) else wal_of d1 w1))
    as (d2 & w2 & -> & Hwf2 & Hf2 & <-).
  { destruct full; [|by exists d1, w1].
    destruct (flush_wal_of d1 w1 Hwf1 Hf1) as (d2 & w2 & Hfl & Hwf2 & Hn & <-).
    assert (rotate_files no_faults d1 w1 = rotate_files no_faults d2 w2) as ->.
    { unfold rotate_files. rewrite Hfl. unfold flush. by rewrite Hn. }
    rewrite rotate_files_ok by done. do 2 eexists. split; [done|].
    split; [by apply rotate_wf|]. split; [done|by apply rotate_wal_of]. }
  destruct (write_all_wal_of (buffers max_buf line) d2 w2 Hwf2 Hf2) as (d3 & w3 & -> & Hwf3 & Hf3 & Hs).
  rewrite buffers_chunks in Hs by done.
  destruct (land None d3 w3) as [d4 w4] eqn:E4.
  destruct (land_keeps _ _ _ _ _ Hwf3 E4) as (Hwf4 & _ & Hf4).
  split; [done|]. split; [congruence|]. rewrite (land_all _ _ _ _ Hwf3 E4), (land_wal_of _ _ _ _ _ Hwf3 E4), Hs.
  by split.
Qed.

(** A run of appends, each with what the disk does. *)
Fixpoint append_disk_all (d : FileTable) (w : Writer) (steps : list (Faults * Event))
  : list (result string WalAppendResult) * FileTable * Writer :=
  match steps with
  | [] => ([], d, w)
  | (f, e) :: steps' =>
      let '(r, d1, w1) := append_disk max_buf to_json f d w e in
      let '(rs, d', w') := append_disk_all d1 w1 steps' in (r :: rs, d', w')
  end.

(** The same run on the abstract log. *)
Fixpoint append_wal_all (st : WalState) (evs : list Event)
  : list (result string WalAppendResult) * WalState :=
  match evs with
  | [] => ([], st)
  | e :: evs' =>
      match append_wal_event to_json st e with
      | Ok (st1, r) => let '(rs, st') := append_wal_all st1 evs' in (Ok r :: rs, st')
      | Err x => let '(rs, st') := append_wal_all st evs' in (Err x :: rs, st')
      end
  end.

(** The next append, when there is one, fails and adds nothing; when there is
    none, the write in flight is about to fail. *)
Definition reported_next (rs : list (result string WalAppendResult)) (cs : list string)
    (last_fails : bool) : Prop :=
  match rs, cs with
  | r :: _, c :: _ => is_ok r = false ∧ c = ""
  | _, _ => last_fails = true
  end.

(** What the appends added, given their answers. *)
Fixpoint accounted (evs : list Event) (rs : list (result string WalAppendResult))
    (cs : list string) (last_fails : bool) : Prop :=
  match evs, rs, cs with
  | [], [], [] => True
  | e :: evs', r :: rs', c :: cs' =>
      part_of e c
      ∧ (is_ok r = true → whole_of e c ∨ reported_next rs' cs' last_fails)
      ∧ accounted evs' rs' cs' last_fails
  | _, _, _ => False
  end.

Lemma append_disk_all_keeps steps d w rs d' w' :
  disk_wf d w → Forall (λ s, fail_open s.1 = false) steps →
  append_disk_all d w steps = (rs, d', w') →
  disk_wf d' w' ∧
  ∃ gone cs, accounted (snd <$> steps) rs cs (failing w')
    ∧ total d w +:+ chunks cs = gone +:+ total d' w'
    ∧ (failing w = true → reported_next rs cs (failing w')).
Proof.
  intros Hwf Hopen. revert d w rs Hwf.
  induction Hopen as [|[f e] steps Hf Hopen IH]; intros d w rs Hwf; simpl.
  { intros [= <- <- <-]. split; [done|]. exists "", []. split_and!; [done|apply str_app_nil_r|done]. }
  destruct (append_disk max_buf to_json f d w e) as [[r d1] w1] eqn:E1.
  destruct (append_disk_all d1 w1 steps) as [[rs' d2] w2] eqn:E2. intros [= <- <- <-].
  destruct (append_disk_keeps _ _ _ _ _ _ _ Hwf Hf E1) as (Hwf1 & gone & c & Hc & Hv & Hok & Hbad).
  destruct (IH _ _ _ Hwf1 E2) as (Hwf2 & gone' & cs & Hcs & Hv' & Hn). split; [done|].
  exists (gone +:+ gone'), (c :: cs). split; [|split; [|done]].
  - split_and!; [done| |done]. intros [?|?]%Hok; auto.
  - by rewrite chunks_cons, <-str_app_assoc, Hv, str_app_assoc, Hv', str_app_assoc.
Qed.
End append_facts.


(** ** The theorems *)

(** The log on the disk implements the log of [Wal]: a run of appends in which
    nothing fails and every write has arrived by the time the size is read gives
    the answers of the abstract log, and leaves the files the abstract log holds. *)
Theorem disk_log_refines (max_buf : nat) (to_json : Event → result string string) d w evs rs d' w' :
  0 < max_buf → disk_wf d w → failing w = false →
  append_disk_all max_buf to_json d w (pair no_faults <$> evs) = (rs, d', w') →
  disk_wf d' w' ∧ append_wal_all to_json (wal_of d w) evs = (rs, wal_of d' w').
Proof.
  intros Hbuf. revert d w rs. induction evs as [|e evs IH]; intros d w rs Hwf Hf; simpl; [by intros [= <- <- <-]|].
  pose proof (append_disk_refines max_buf to_json Hbuf d w e Hwf Hf) as Href.
  destruct (append_disk max_buf to_json no_faults d w e) as [[r d1] w1]. destruct Href as (Hwf1 & Hf1 & Href).
  destruct (append_disk_all _ _ d1 w1 _) as [[rs' d2] w2] eqn:E2. intros [= <- <- <-].
  destruct (IH _ _ _ Hwf1 Hf1 E2) as [Hwf2 IH']. split; [done|].
  destruct (append_wal_event to_json (wal_of d w) e) as [[st res]|x];
    destruct Href as [-> Hst]; rewrite <-Hst; by rewrite IH'.
Qed.

(** Opening the log gives the state [Wal] opens with, on a table in order. *)
Lemma open_writer_refines parent d mb d' w :
  table_wf d → open_writer parent false false d mb = Ok (d', w) →
  disk_wf d' w
  ∧ wal_of d' w = open_wal_writer (mkDisk (content d <$> ft_active d) (content d <$> ft_rotated d)) mb.
Proof.
  intros (Ha & Hr & Hfree). unfold open_writer, ensure_parent_dir.
  replace (match parent with Some p => if is_empty p then Ok () else Ok () | None => Ok () end)
    with (@Ok string unit ()) by (destruct parent as [p|]; [by destruct (is_empty p)|done]).
  unfold open_active, wal_of, open_wal_writer.
  destruct (ft_active d) as [i|] eqn:Ei; intros [= <- <-]; cbn; rewrite str_app_nil_r.
  - split; [|done]. split; [done|by apply Ha|]. intros j Hj. destruct (Hr j Hj). split; [done|]. simpl. congruence.
  - split.
    + split; simpl; [done|lia|]. intros j Hj. destruct (Hr j Hj). lia.
    + unfold content. simpl. rewrite lookup_insert_eq. simpl. f_equal.
      destruct (ft_rotated d) as [j|]; simpl; [|done]. destruct (Hr j eq_refl) as [Hj _].
      by rewrite lookup_insert_ne by lia.
Qed.

(** C20 Whatever fails on the disk during a run of appends, but for opening the
    new file of a rotation, and however late the bytes handed to the background
    writer arrive: the handle stays on the active file, and what a replay reads,
    with the write still in flight, is what was there and what the appends added,
    in order, but for a prefix that rotations removed.  An append adds a part of
    its line.  One that reports success has added the whole line, unless its last
    write fails afterwards: then the next append reports an error and has added
    nothing, or there is none yet and the failing write is still in flight. *)
Theorem disk_log_survives_faults (max_buf : nat) (to_json : Event → result string string)
    d w steps rs d' w' :
  0 < max_buf → disk_wf d w → Forall (λ s, fail_open s.1 = false) steps →
  append_disk_all max_buf to_json d w steps = (rs, d', w') →
  disk_wf d' w' ∧
  ∃ gone cs, accounted to_json (snd <$> steps) rs cs (failing w') ∧
    visible d +:+ pending w +:+ chunks cs = gone +:+ visible d' +:+ pending w'.
Proof.
  intros Hbuf Hwf Hopen Hrun.
  destruct (append_disk_all_keeps max_buf to_json Hbuf _ _ _ _ _ _ Hwf Hopen Hrun) as (? & gone & cs & ? & Ht & _).
  split; [done|]. exists gone, cs. split; [done|]. unfold total in Ht. by rewrite str_app_assoc in Ht.
Qed.

Lemma total_wal_of d w :
  disk_wf d w → total d w = default "" (wal_rotated (wal_of d w)) +:+ wal_file (wal_of d w).
Proof.
  intros [Ha _ _]. unfold total, visible, wal_of. rewrite Ha. simpl.
  destruct (ft_rotated d); simpl; by rewrite ?str_app_assoc.
Qed.

(** When the new file cannot be opened after the rename, the handle is left on
    the renamed file; the next append that finds it full removes that file and
    with it everything logged so far. *)
Theorem failed_open_loses_the_log (max_buf : nat) (to_json : Event → result string string)
    d w f e e2 text text2 :
  0 < max_buf → disk_wf d w → wr_flight w = None →
  to_json e = Ok text → to_json e2 = Ok text2 →
  f = mkFaults None false false false true [] None false →
  (0 < wr_max_bytes w)%N →
  (wr_max_bytes w < saturating_add (file_len (content d (wr_handle w)))
                      (file_len (text +:+ String newline "")))%N →
  (wr_max_bytes w < saturating_add (file_len (content d (wr_handle w)))
                      (file_len (text2 +:+ String newline "")))%N →
  ∃ d1 r d2 w2,
    append_disk max_buf to_json f d w e = (Err io_error, d1, w) ∧
    total d1 w = content d (wr_handle w) ∧
    append_disk max_buf to_json no_faults d1 w e2 = (Ok r, d2, w2) ∧
    total d2 w2 = text2 +:+ String newline "".
Proof.
  intros Hbuf Hwf Hn E1 E2 -> Hpos Hfull1 Hfull2. pose proof Hwf as [Ha Hh Hr].
  set (d1 := mkFileTable None (Some (wr_handle w)) (ft_inodes d) (ft_next d)).
  assert (land_none : ∀ k d, land k d w = (d, w)) by (intros; unfold land; by rewrite Hn).
  exists d1. unfold append_disk at 1. rewrite E1. cbn -[rotate_files content write_all file_len].
  rewrite land_none, !bool_decide_true by done. cbn -[rotate_files content write_all file_len].
  assert (rotate_files (mkFaults None false false false true [] None false) d w = (Err io_error, d1, w)) as ->.
  { unfold rotate_files, flush. rewrite Hn. simpl. destruct (ft_rotated d) eqn:Er; simpl; rewrite Ha; done. }
  unfold append_disk. rewrite E2. cbn -[rotate_files content write_all file_len land].
  rewrite land_none. change (content d1 (wr_handle w)) with (content d (wr_handle w)).
  rewrite !bool_decide_true by done. cbn -[rotate_files content write_all file_len land].
  set (d2 := mkFileTable (Some (ft_next d)) None (<[ft_next d := ""]> (ft_inodes d)) (S (ft_next d))).
  set (w2 := mkWriter (ft_next d) (wr_max_bytes w) None).
  assert (rotate_files no_faults d1 w = (Ok (), d2, w2)) as ->.
  { unfold rotate_files, flush. by rewrite Hn. }
  assert (disk_wf d2 w2) as Hwf2 by (split; simpl; [done|lia|done]).
  destruct (write_all_wal_of (buffers max_buf (text2 +:+ String newline "")) d2 w2 Hwf2 eq_refl)
    as (d3 & w3 & -> & Hwf3 & _ & Hs).
  rewrite buffers_chunks in Hs by done.
  destruct (land None d3 w3) as [d4 w4] eqn:E4.
  destruct (land_keeps _ _ _ _ _ Hwf3 E4) as (Hwf4 & Ht & _).
  do 3 eexists. split_and!; [done| |done|].
  - unfold total, visible, pending. rewrite Hn. simpl. by rewrite !str_app_nil_r.
  - rewrite Ht, total_wal_of, Hs by done. simpl. unfold content. simpl. by rewrite lookup_insert_eq.
Qed.

(** *** Witnesses *)

Definition wd_event (p : string) : Event := mkEvent 1 ErrorHw "gpu-0" None None p None.
Definition wd_json (e : Event) : result string string := Ok (ev_value e).
(** A log of one full line, limited to eight bytes, written four bytes at a time. *)
Definition wd_disk : FileTable :=
  mkFileTable (Some 1) (Some 0) {[0 := "old" +:+ String newline ""; 1 := "first" +:+ String newline ""]} 2.
Definition wd_writer : Writer := mkWriter 1 8 None.

Lemma wd_wf : disk_wf wd_disk wd_writer.
Proof. split; simpl; [done|lia|]. intros j [= <-]. lia. Qed.

(** A write that fails part of the way is reported to the wrong append: the one
    it belongs to has reported success, the next one fails in its place and is
    not written at all, and the one after, which reports success, ends up on the
    torn line.  None of the three events is in the log as a line of its own. *)
Example torn_write_is_reported_late :
  let torn := mkFaults None false false false false [None; Some 1] None false in
  let '(rs, d, w) := append_disk_all 4 wd_json wd_disk (mkWriter 1 0 None)
    [(torn, wd_event "second"); (no_faults, wd_event "third"); (no_faults, wd_event "fourth")] in
  rs = [Ok (mkWalAppendResult false 11); Err io_error; Ok (mkWalAppendResult false 18)]
  ∧ content d 1 = unlines ["first"; "seconfourth"] ∧ pending w = "".
Proof. vm_compute. auto. Qed.

(** The size that is read need not count the line before, which is still in
    flight: the file passes its limit of eight bytes without a rotation. *)
Example stale_size_passes_limit :
  let late := mkFaults (Some 0) false false false false [] (Some 0) false in
  let '(rs, d, w) := append_disk_all 64 wd_json (mkFileTable (Some 1) None {[1 := ""]} 2) (mkWriter 1 8 None)
    [(late, wd_event "second"); (late, wd_event "third")] in
  rs = [Ok (mkWalAppendResult false 0); Ok (mkWalAppendResult false 7)]
  ∧ ft_rotated d = None
  ∧ content d 1 +:+ pending w = unlines ["second"; "third"].
Proof. vm_compute. auto. Qed.

Lemma disk_log_refines_witness :
  append_wal_all wd_json (wal_of wd_disk wd_writer) [wd_event "second"; wd_event "x"]
  = ([Ok (mkWalAppendResult true 7); Ok (mkWalAppendResult true 2)],
     mkWalState ("x" +:+ String newline "") (Some ("second" +:+ String newline "")) 8).
Proof.
  destruct (append_disk_all 4 wd_json wd_disk wd_writer (pair no_faults <$> [wd_event "second"; wd_event "x"]))
    as [[rs d'] w'] eqn:E.
  destruct (disk_log_refines 4 wd_json _ _ _ _ _ _ ltac:(lia) wd_wf eq_refl E) as [_ ->].
  vm_compute in E. injection E as <- <- <-. reflexivity.
Defined.

(** The second append fails at its rename, the third write fails at its second
    byte, after its append has reported success, and the fourth reports it. *)
Lemma disk_log_survives_faults_witness :
  let torn := mkFaults (Some 0) false false false false [Some 2] (Some 0) false in
  let steps := [(no_faults, wd_event "second");
                (mkFaults (Some 1) false false true false [] None false, wd_event "third");
                (torn, wd_event "x"); (no_faults, wd_event "y")] in
  let '(rs, d', w') := append_disk_all 4 wd_json wd_disk wd_writer steps in
  rs = [Ok (mkWalAppendResult true 7); Err io_error; Ok (mkWalAppendResult true 0); Err io_error]
  ∧ disk_wf d' w' ∧
  ∃ gone cs, accounted wd_json (snd <$> steps) rs cs (failing w') ∧
    visible wd_disk +:+ pending wd_writer +:+ chunks cs = gone +:+ visible d' +:+ pending w'.
Proof.
  intros torn steps. destruct (append_disk_all 4 wd_json wd_disk wd_writer steps) as [[rs d'] w'] eqn:E.
  split; [vm_compute in E; by injection E as <- <- <-|].
  apply (disk_log_survives_faults 4 wd_json wd_disk wd_writer steps rs d' w' ltac:(lia) wd_wf); [|done].
  by repeat constructor.
Defined.

Lemma failed_open_loses_the_log_witness :
  ∃ d1 r d2 w2,
    append_disk 4 wd_json (mkFaults None false false false true [] None false) wd_disk wd_writer
      (wd_event "second") = (Err io_error, d1, wd_writer) ∧
    total d1 wd_writer = "first" +:+ String newline "" ∧
    append_disk 4 wd_json no_faults d1 wd_writer (wd_event "third") = (Ok r, d2, w2) ∧
    total d2 w2 = "third" +:+ String newline "".
Proof.
  exact (failed_open_loses_the_log 4 wd_json wd_disk wd_writer _ (wd_event "second") (wd_event "third")
           "second" "third" ltac:(lia) wd_wf eq_refl eq_refl eq_refl eq_refl eq_refl eq_refl eq_refl).
Defined.
