(* ===== verification/Ipc.v ===== *)
(** * The agent's local query protocol (agent/src/ipc.rs)

    Requests and replies are frames on a Unix socket: a big-endian 32-bit length,
    then that many bytes of JSON.  The server answers the frames of a connection
    one after the other until an empty one; the client sends one request and
    reads one reply.  The JSON codec of the request and reply types is a
    parameter.  The theorems: the server ends on every input, answers any
    sequence of frames in order, errors included, a client's query returns what
    the graph holds, and the body of a frame that is refused for its size is
    read as the next frames. *)

From S2P Require Import Prelude Text Json Event Signals Graph GraphInv RootCause Rule RuleFiles.

(** ** Data *)

Inductive RpcRequest := ListProcesses | WhyProcess (pid : N) | Ping.

Record RpcResponse := mkRpcResponse {
  rpc_success : bool; rpc_data : option Json; rpc_error : option string }.

Definition response_success (data : Json) : RpcResponse := mkRpcResponse true (Some data) None.
Definition response_error (msg : string) : RpcResponse := mkRpcResponse false None (Some msg).

(** [var_run] says whether /var/run exists. *)
Definition default_socket_path (var_run : bool) (home : option string) : string :=
  if var_run then "/var/run/ark.sock"
  else path_join (path_join (default "." home) ".ark") "ark.sock".

(** ** Frames *)

Definition byte_of (n : N) : ascii := ascii_of_N (n mod 256).

(** [write_u32] *)
Definition be32 (n : N) : string :=
  String (byte_of (n / 2 ^ 24)) (String (byte_of (n / 2 ^ 16))
    (String (byte_of (n / 2 ^ 8)) (String (byte_of n) ""))).

(** [read_u32], with the bytes that follow; [None] at the end of the stream. *)
Definition read_u32 (s : string) : option (N * string) :=
  match s with
  | String a (String b (String c (String d r))) =>
      Some (N_of_ascii a * 2 ^ 24 + N_of_ascii b * 2 ^ 16 + N_of_ascii c * 2 ^ 8 + N_of_ascii d, r)%N
  | _ => None
  end.

Definition read_exact (n : N) (s : string) : option (string * string) :=
  if decide (n ≤ N.of_nat (String.length s))%N
  then Some (String.substring 0 (N.to_nat n) s, str_from (N.to_nat n) s) else None.

(** Length and body; [len() as u32]. *)
Definition frame (body : string) : string :=
  be32 (N.of_nat (String.length body) mod 2 ^ 32) +:+ body.

(** ** Requests against the graph *)

Definition process_pid (n : Node) : N :=
  default 0%N (parse_u32 (default (node_key n) (strip_prefix "pid-" (node_key n)))).

Definition process_json (g : StateGraph) (n : Node) : Json :=
  let pid := process_pid n in
  JObj [("pid", JNum pid); ("id", JStr (node_key n));
        ("job_id", jopt JStr (metadata n !! "job_id"));
        ("state", JStr (default "unknown" (metadata n !! "state")));
        ("resources", jstrings (get_process_resources g pid));
        ("last_update", JNum (last_update n))].

(** The search always returns; see [RootCause]. *)
Definition handle_request (request : RpcRequest) (g : StateGraph) : result string Json :=
  match request with
  | ListProcesses => Ok (JArr (map (process_json g) (get_active_processes g)))
  | WhyProcess pid =>
      Ok (JObj [("pid", JNum pid); ("causes", jstrings (default [] (find_root_cause g pid)))])
  | Ping => Ok (JObj [("status", JStr "ok")])
  end.

Definition MAX_REQUEST_SIZE : N := 10 * 1024 * 1024.
Definition MAX_RESPONSE_SIZE : N := 100 * 1024 * 1024.

Section ipc.
Context (request_to_vec : RpcRequest → result string string)
        (request_from_slice : string → result string RpcRequest)
        (response_to_vec : RpcResponse → result string string)
        (response_from_slice : string → result string RpcResponse)
        (eof not_a_sequence : string).
(** [eof] and [not_a_sequence] are the texts of the library errors for a stream
    that ends early and for a value that is no array. *)

(** ** The server *)

Definition too_large (n : N) : RpcResponse :=
  response_error ("请求体过大: " +:+ pretty n +:+ " 字节（最大允许: " +:+ pretty MAX_REQUEST_SIZE
                  +:+ " 字节）").

(** The reply to a body that was read. *)
Definition answer (g : StateGraph) (body : string) : RpcResponse :=
  match request_from_slice body with
  | Ok request => match handle_request request g with
                  | Ok data => response_success data
                  | Err e => response_error e
                  end
  | Err e => response_error ("解析请求失败: " +:+ e)
  end.

Definition send_response_unix (out : string) (response : RpcResponse) : result string string :=
  match response_to_vec response with
  | Ok json => Ok (out +:+ frame json)
  | Err e => Err e
  end.

(** How a connection ends, and what was written on it.  [input] is everything
    the client sends before it closes its end. *)
Inductive Ended := EndOk | EndErr (e : string) | OutOfFuel.

Fixpoint handle_client_unix (fuel : nat) (g : StateGraph) (input out : string) : Ended * string :=
  match fuel with
  | 0 => (OutOfFuel, out)
  | S fuel' =>
      match read_u32 input with
      | None => (EndErr eof, out)
      | Some (n, rest) =>
          if decide (n = 0)%N then (EndOk, out)
          else if decide (MAX_REQUEST_SIZE < n)%N then
            match send_response_unix out (too_large n) with
            | Ok out' => handle_client_unix fuel' g rest out'
            | Err e => (EndErr e, out)
            end
          else
            match read_exact n rest with
            | None => (EndErr eof, out)
            | Some (body, rest') =>
                match send_response_unix out (answer g body) with
                | Ok out' => handle_client_unix fuel' g rest' out'
                | Err e => (EndErr e, out)
                end
            end
      end
  end.

(** Every frame takes at least its length word. *)
Definition client_fuel (input : string) : nat := S (String.length input).

Definition serve_client (g : StateGraph) (input : string) : Ended * string :=
  handle_client_unix (client_fuel input) g input "".

(** ** The client *)

(** [daemon] is what the connected peer writes when it is sent some bytes;
    [Err] when the socket cannot be connected to. *)
Definition call (daemon : result string (string → string)) (request : RpcRequest)
  : result string RpcResponse :=
  match daemon with
  | Err e => Err e
  | Ok peer =>
      match request_to_vec request with
      | Err e => Err ("序列化请求失败: " +:+ e)
      | Ok request_json =>
          match read_u32 (peer (frame request_json)) with
          | None => Err ("读取响应长度失败: " +:+ eof)
          | Some (response_len, rest) =>
              if decide (MAX_RESPONSE_SIZE < response_len)%N then
                Err ("响应体过大: " +:+ pretty response_len +:+ " 字节（最大允许: "
                     +:+ pretty MAX_RESPONSE_SIZE +:+ " 字节）")
              else match read_exact response_len rest with
                   | None => Err ("读取响应内容失败: " +:+ eof)
                   | Some (body, _) =>
                       match response_from_slice body with
                       | Ok r => Ok r
                       | Err e => Err ("解析响应失败: " +:+ e)
                       end
                   end
          end
      end
  end.

(** The data of a successful reply. *)
Definition response_data (r : result string RpcResponse) : result string Json :=
  match r with
  | Err e => Err e
  | Ok response =>
      if negb (rpc_success response) then Err (default "未知错误" (rpc_error response))
      else match rpc_data response with
           | Some d => Ok d
           | None => Err "响应数据为空"
           end
  end.

Definition list_processes (daemon : result string (string → string)) : result string (list Json) :=
  match response_data (call daemon ListProcesses) with
  | Err e => Err e
  | Ok (JArr processes) => Ok processes
  | Ok _ => Err ("解析进程列表失败: " +:+ not_a_sequence)
  end.

Definition why_process (daemon : result string (string → string)) (pid : N)
  : result string (list string) :=
  match response_data (call daemon (WhyProcess pid)) with
  | Err e => Err e
  | Ok data =>
      match as_array (jindex "causes" data) with
      | Some vs => Ok (omap as_str vs)
      | None => Err "causes 字段格式错误"
      end
  end.

Definition ping (daemon : result string (string → string)) : result string bool :=
  match call daemon Ping with
  | Ok response => Ok (rpc_success response)
  | Err _ => Ok false
  end.

End ipc.

(** ** Frames are read back *)

Lemma byte_of_value n : N_of_ascii (byte_of n) = (n mod 256)%N.
Proof. unfold byte_of. apply N_ascii_embedding. apply N.mod_lt. lia. Qed.

Lemma read_u32_be32 n r : (n < 2 ^ 32)%N → read_u32 (be32 n +:+ r) = Some (n, r).
Proof.
  intros Hn. unfold be32. rewrite !str_app_cons, str_app_nil_l. cbn [read_u32].
  rewrite !byte_of_value. do 2 f_equal.
  change (2 ^ 24)%N with (256 * (256 * 256))%N. change (2 ^ 16)%N with (256 * 256)%N.
  change (2 ^ 8)%N with 256%N. rewrite <-!N.Div0.div_div.
  pose proof (N.Div0.div_mod n 256). pose proof (N.Div0.div_mod (n / 256) 256).
  pose proof (N.Div0.div_mod (n / 256 / 256) 256).
  assert (n / 256 / 256 / 256 < 256)%N as Hs.
  { rewrite !N.Div0.div_div. apply N.Div0.div_lt_upper_bound. change (256 * 256 * 256 * 256)%N with (2 ^ 32)%N. lia. }
  rewrite (N.mod_small (n / 256 / 256 / 256)) by done. lia.
Qed.

Lemma read_exact_app body r : read_exact (N.of_nat (String.length body)) (body +:+ r) = Some (body, r).
Proof.
  unfold read_exact. rewrite str_app_length, decide_True by lia.
  by rewrite Nat2N.id, substring_app, str_from_app.
Qed.

Lemma read_frame body r :
  (N.of_nat (String.length body) < 2 ^ 32)%N →
  read_u32 (frame body +:+ r) = Some (N.of_nat (String.length body), body +:+ r).
Proof.
  intros Hb. unfold frame. rewrite N.mod_small by done. rewrite str_app_assoc. by apply read_u32_be32.
Qed.

Section protocol.
Context (request_to_vec : RpcRequest → result string string)
        (request_from_slice : string → result string RpcRequest)
        (response_to_vec : RpcResponse → result string string)
        (response_from_slice : string → result string RpcResponse)
        (eof not_a_sequence : string).

Notation client := (handle_client_unix request_from_slice response_to_vec eof).
Notation serve g := (serve_client request_from_slice response_to_vec eof g).
Notation reply g := (answer request_from_slice g).

(** ** The server ends *)

Lemma read_u32_shorter s n r : read_u32 s = Some (n, r) → String.length r < String.length s.
Proof.
  destruct s as [|a [|b [|c [|d s]]]]; try done. intros [= _ <-]. simpl. lia.
Qed.

Lemma str_from_shorter k s : String.length (str_from k s) ≤ String.length s.
Proof.
  revert s. induction k as [|k IH]; intros [|a s]; simpl; try done. etrans; [apply IH|lia].
Qed.

Lemma read_exact_shorter n s b r : read_exact n s = Some (b, r) → String.length r ≤ String.length s.
Proof. unfold read_exact. case_decide; [|done]. intros [= _ <-]. apply str_from_shorter. Qed.

(** More fuel than bytes changes nothing, and is never used up. *)
Lemma client_fuel_enough fuel fuel' g input out :
  String.length input < fuel → String.length input < fuel' →
  client fuel g input out = client fuel' g input out
  ∧ (client fuel g input out).1 ≠ OutOfFuel.
Proof.
  revert fuel' input out. induction fuel as [|fuel IH]; intros fuel' input out H1 H2; [lia|].
  destruct fuel' as [|fuel']; [lia|]. cbn [handle_client_unix].
  destruct (read_u32 input) as [[n rest]|] eqn:Er; [|done]. apply read_u32_shorter in Er.
  repeat case_decide; [done| |].
  - destruct (send_response_unix _ _ _) as [out'|]; [|done]. apply IH; lia.
  - destruct (read_exact n rest) as [[body rest']|] eqn:Ee; [|done]. apply read_exact_shorter in Ee.
    destruct (send_response_unix _ _ _) as [out'|]; [|done]. apply IH; lia.
Qed.

(** The server of the local socket always ends: whatever bytes a client
    sends before closing, the loop over frames comes to an end, by an empty
    frame, a read error or a reply it cannot encode. *)
Theorem ipc_server_terminates g input : (serve g input).1 ≠ OutOfFuel.
Proof. apply (client_fuel_enough _ (client_fuel input)); unfold client_fuel; lia. Qed.

(** ** The server answers every frame *)

(** What a client can send: a body of an accepted size, or a length beyond the
    limit. *)
Inductive Sent := Body (body : string) | Oversize (n : N).

Definition sent_ok (x : Sent) : Prop :=
  match x with
  | Body body => (0 < N.of_nat (String.length body) ≤ MAX_REQUEST_SIZE)%N
  | Oversize n => (MAX_REQUEST_SIZE < n < 2 ^ 32)%N
  end.

Definition sent_bytes (x : Sent) : string :=
  match x with Body body => frame body | Oversize n => be32 n end.

Definition sent_reply (g : StateGraph) (x : Sent) : RpcResponse :=
  match x with Body body => reply g body | Oversize n => too_large n end.

Definition str_concat (l : list string) : string := foldr String.append "" l.

Lemma client_one fuel g x out json rest :
  sent_ok x → response_to_vec (sent_reply g x) = Ok json →
  client (S fuel) g (sent_bytes x +:+ rest) out = client fuel g rest (out +:+ frame json).
Proof.
  intros Hok Hv. cbn [handle_client_unix]. unfold send_response_unix.
  destruct x as [body|n]; cbn [sent_ok sent_bytes sent_reply] in *.
  - assert (MAX_REQUEST_SIZE < 2 ^ 32)%N by done.
    rewrite read_frame, decide_False, decide_False, read_exact_app, Hv by lia. done.
  - assert (0 < MAX_REQUEST_SIZE)%N by done.
    rewrite read_u32_be32, decide_False, decide_True, Hv by lia. done.
Qed.

Lemma client_many g xs jsons rest fuel out :
  Forall sent_ok xs → Forall2 (λ x j, response_to_vec (sent_reply g x) = Ok j) xs jsons →
  client (length xs + fuel) g (str_concat (map sent_bytes xs) +:+ rest) out
  = client fuel g rest (out +:+ str_concat (map frame jsons)).
Proof.
  intros Hok Hv. revert out Hok. induction Hv as [|x j xs jsons Hx Hv IH]; intros out Hok;
    cbn [length Nat.add map str_concat foldr].
  - by rewrite str_app_nil_l, str_app_nil_r.
  - apply Forall_cons in Hok as [Hx' Hok].
    rewrite str_app_assoc, (client_one _ _ _ _ j), IH by done. by rewrite str_app_assoc.
Qed.

(** C30 The server answers every frame in order: for any sequence of frames, of
    accepted size or not, well-formed JSON or not, whose replies can be
    encoded, followed by the empty frame, the connection ends normally and what
    is written is exactly the frames of the replies, in the order of the
    requests.  A length beyond the limit counts as a frame on its own: the bytes
    the client sends as its body are read as the next frames, so a request
    carried inside a refused body is carried out and answered. *)
Theorem ipc_server_answers_in_order g xs jsons tail
  (Hok : Forall sent_ok xs)
  (Hv : Forall2 (λ x j, response_to_vec (sent_reply g x) = Ok j) xs jsons) :
  serve g (str_concat (map sent_bytes xs) +:+ be32 0 +:+ tail)
  = (EndOk, str_concat (map frame jsons)).
Proof.
  unfold serve_client. set (input := _ +:+ _).
  rewrite (proj1 (client_fuel_enough (client_fuel input) (length xs + client_fuel input) g input ""
                    ltac:(unfold client_fuel; lia) ltac:(unfold client_fuel; lia))).
  unfold input. rewrite (client_many g xs jsons) by done. unfold client_fuel. cbn [handle_client_unix].
  rewrite read_u32_be32 by done. rewrite decide_True by done. by rewrite str_app_nil_l.
Qed.


(** ** A query reaches the graph *)

Notation daemon g := (Ok (λ sent, (serve g sent).2)).
Notation ask g := (call request_to_vec response_from_slice eof (daemon g)).

(** The codec handles this exchange: the request is encoded within the limit and
    decoded by the server, the reply is encoded within the limit and decoded by
    the client. *)
Definition exchange_ok (req : RpcRequest) (r : RpcResponse) : Prop :=
  ∃ body json,
    (request_to_vec req = Ok body ∧ request_from_slice body = Ok req)
    ∧ (response_to_vec r = Ok json ∧ response_from_slice json = Ok r)
    ∧ (0 < N.of_nat (String.length body) ≤ MAX_REQUEST_SIZE)%N
    ∧ (N.of_nat (String.length json) ≤ MAX_RESPONSE_SIZE)%N.

Lemma serve_one g body json :
  (0 < N.of_nat (String.length body) ≤ MAX_REQUEST_SIZE)%N →
  response_to_vec (reply g body) = Ok json →
  (serve g (frame body)).2 = frame json.
Proof.
  intros Hb Hj. unfold serve_client, client_fuel.
  rewrite <-(str_app_nil_r (frame body)) at 2. change (frame body) with (sent_bytes (Body body)) at 2.
  rewrite (client_one _ g (Body body) "" json "") by done.
  destruct (String.length (frame body)) eqn:E; cbn [handle_client_unix read_u32 snd];
    by rewrite str_app_nil_l.
Qed.

Lemma ask_reply g req data :
  handle_request req g = Ok data → exchange_ok req (response_success data) →
  ask g req = Ok (response_success data).
Proof.
  intros Hr (body & json & [Hq1 Hq2] & [Hv1 Hv2] & Hb & Hj). unfold call. rewrite Hq1.
  assert (reply g body = response_success data) as Ha by (unfold answer; by rewrite Hq2, Hr).
  rewrite (serve_one g body json) by (done || by rewrite Ha).
  assert (MAX_RESPONSE_SIZE < 2 ^ 32)%N by done.
  rewrite <-(str_app_nil_r (frame json)), read_frame by lia.
  rewrite decide_False by lia. by rewrite read_exact_app, Hv2.
Qed.

(** The local root-cause query is exact end to end: asked over the socket, a
    daemon with any graph answers with precisely the root causes of the process
    in that graph, provided the codec handles the request and the reply. *)
Theorem ipc_why_exact g pid causes
  (Hc : find_root_cause g pid = Some causes)
  (Hex : exchange_ok (WhyProcess pid)
           (response_success (JObj [("pid", JNum pid); ("causes", jstrings causes)]))) :
  why_process request_to_vec response_from_slice eof (daemon g) pid = Ok causes
  ∧ ∀ c, c ∈ causes ↔ is_root_cause (edge_out_index (store g)) (nodes g) (pid_name pid) c.
Proof.
  split.
  - unfold why_process.
    rewrite (ask_reply g (WhyProcess pid) (JObj [("pid", JNum pid); ("causes", jstrings causes)]));
      [|by simpl; rewrite Hc|done].
    simpl. by rewrite omap_as_str.
  - destruct (find_root_cause_by_id_spec g (pid_name pid)) as (cs & E & H).
    unfold find_root_cause in Hc. by simplify_eq.
Qed.

(** The daemon lists the active processes, and is found to be running. *)
Lemma ipc_list_exact g :
  exchange_ok ListProcesses
    (response_success (JArr (map (process_json g) (get_active_processes g)))) →
  list_processes request_to_vec response_from_slice eof not_a_sequence (daemon g)
  = Ok (map (process_json g) (get_active_processes g)).
Proof. intros H. unfold list_processes. by rewrite (ask_reply g ListProcesses _ eq_refl H). Qed.

Lemma ipc_ping g :
  exchange_ok Ping (response_success (JObj [("status", JStr "ok")])) →
  ping request_to_vec response_from_slice eof (daemon g) = Ok true.
Proof. intros H. unfold ping. by rewrite (ask_reply g Ping _ eq_refl H). Qed.
End protocol.

(** ** Examples *)

(** A small textual codec for the requests and for the replies to [WhyProcess]. *)
Definition demo_request_to_vec (r : RpcRequest) : result string string :=
  Ok (match r with ListProcesses => "list" | Ping => "ping" | WhyProcess p => "why:" +:+ pretty p end).
Definition demo_request_from_slice (s : string) : result string RpcRequest :=
  if decide (s = "list") then Ok ListProcesses
  else if decide (s = "ping") then Ok Ping
  else match strip_prefix "why:" s ≫= parse_u32 with
       | Some p => Ok (WhyProcess p)
       | None => Err "unknown variant"
       end.
Definition demo_response_to_vec (r : RpcResponse) : result string string :=
  match rpc_data r, rpc_error r with
  | Some d, _ =>
      Ok (pretty (default 0%N (as_u64 (jindex "pid" d)))
          +:+ str_concat (map (λ c, "|" +:+ c)
                            (omap as_str (default [] (as_array (jindex "causes" d))))))
  | None, Some e => Ok ("!" +:+ e)
  | None, None => Err "empty"
  end.
Definition demo_response_from_slice (s : string) : result string RpcResponse :=
  match strip_prefix "!" s, split_str "|" s with
  | Some e, _ => Ok (response_error e)
  | None, p :: causes =>
      match parse_u32 p with
      | Some p => Ok (response_success (JObj [("pid", JNum p); ("causes", jstrings causes)]))
      | None => Err "invalid digit"
      end
  | None, [] => Err "empty"
  end.

Definition demo_node : StateGraph :=
  process_events state_graph_new
    [mkEvent 1000 ProcessState "proc" (Some "job-1") (Some 7%N) "start" None;
     mkEvent 1100 ComputeUtil "gpu-0" None (Some 7%N) "80" None;
     mkEvent 1200 ErrorHw "gpu-0" None None "XID_79" None]%N.

Lemma ipc_why_exact_witness :
  why_process demo_request_to_vec demo_response_from_slice "eof"
    (Ok (λ sent, (serve_client demo_request_from_slice demo_response_to_vec "eof" demo_node sent).2)) 7
  = Ok ["error-gpu-0: XID_79"].
Proof.
  apply (ipc_why_exact demo_request_to_vec demo_request_from_slice demo_response_to_vec
           demo_response_from_slice "eof" demo_node 7 ["error-gpu-0: XID_79"]).
  - vm_compute. reflexivity.
  - exists "why:7", "7|error-gpu-0: XID_79". split_and!; by vm_compute.
Defined.

(** An oversized length, then a request that could be its body, then garbage. *)
Lemma ipc_server_answers_in_order_witness :
  serve_client demo_request_from_slice demo_response_to_vec "eof" demo_node
    (str_concat (map sent_bytes [Oversize 20000000; Body "why:7"; Body "why"]) +:+ be32 0 +:+ "x")
  = (EndOk, str_concat (map frame
       ["!请求体过大: 20000000 字节（最大允许: 10485760 字节）"; "7|error-gpu-0: XID_79";
        "!解析请求失败: unknown variant"])).
Proof.
  apply (ipc_server_answers_in_order demo_request_from_slice demo_response_to_vec "eof").
  - repeat (apply Forall_cons; split; [by vm_compute|]). by apply Forall_nil.
  - repeat constructor.
Defined.
