(* ===== verification/Sockets.v ===== *)
(** * The socket of the daemon (agent/src/ipc.rs [serve], agent/src/main.rs [run_daemon])

    Where clients find the daemon: the socket file is made when the server
    starts, after removing whatever has its name, then given its permissions, and
    removed when the daemon leaves.  Each of these is a step of its own, daemons
    on one machine take their steps in any order, leave or die between any two,
    and every operation may fail.  The theorems: a client is only ever connected
    to the daemon that bound its path last; and how leaving daemons take away the
    socket of a later one. *)

From S2P Require Import Prelude Event Signals Graph Json Ipc.

(** ** Files and listeners *)

(** A listener is a number; a socket file leads to the listener that was bound
    to it. *)
Record SocketFile := mkSocketFile { sf_listener : nat; sf_mode : N }.
Record Host := mkHost {
  host_files : gmap string SocketFile;
  host_live : gset nat;                  (** listeners that are open *)
  host_next : nat
}.
Definition host_new : Host := mkHost ∅ ∅ 0.

(** Which operations of a start fail. *)
Record ServeFaults := mkServeFaults {
  sf_remove : bool; sf_mkdir : bool; sf_bind : bool; sf_chmod : bool }.
Definition serve_ok : ServeFaults := mkServeFaults false false false false.

(** The permissions [serve] sets, [0o660]; a bound socket first has the ones the
    umask of its process leaves. *)
Definition socket_mode : N := 432.

(** Where [serve] is: before its look at the path, before the removal, before
    the bind, listening but before the permissions, in its loop, or returned. *)
Inductive ServePhase :=
  | Checking | Removing | Binding | Bound (l : nat) | Serving (l : nat) | Stopped (e : string).
#[global] Instance ServePhase_eq_dec : EqDecision ServePhase.
Proof. solve_decision. Defined.

Definition listener_of (ph : ServePhase) : option nat :=
  match ph with Bound l | Serving l => Some l | _ => None end.

(** The next operation of [serve].  The permissions are set on whatever has the
    name then; a listener whose file cannot be given its permissions is closed
    again, and the file stays. *)
Definition serve_step (f : ServeFaults) (umask_mode : N) (path : string) (ph : ServePhase) (h : Host)
  : ServePhase * Host :=
  let files := host_files h in
  match ph with
  | Checking => (match files !! path with Some _ => Removing | None => Binding end, h)
  | Removing =>
      match files !! path with
      | Some _ => if sf_remove f then (Stopped "Permission denied", h)
                  else (Binding, mkHost (delete path files) (host_live h) (host_next h))
      | None => (Stopped "No such file or directory", h)
      end
  | Binding =>
      if sf_mkdir f then (Stopped "Permission denied", h)
      else if sf_bind f then (Stopped "Permission denied", h)
      else match files !! path with
           | Some _ => (Stopped "Address already in use", h)
           | None => let l := host_next h in
                     (Bound l, mkHost (<[path := mkSocketFile l umask_mode]> files)
                                 ({[l]} ∪ host_live h) (S l))
           end
  | Bound l =>
      let closed := mkHost files (host_live h ∖ {[l]}) (host_next h) in
      if sf_chmod f then (Stopped "Operation not permitted", closed)
      else match files !! path with
           | None => (Stopped "No such file or directory", closed)
           | Some sf => (Serving l, mkHost (<[path := mkSocketFile (sf_listener sf) socket_mode]> files)
                                      (host_live h) (host_next h))
           end
  | Serving _ | Stopped _ => (ph, h)
  end.

(** [serve] up to its loop, when nothing comes between its operations. *)
Definition serve_start (f : ServeFaults) (umask_mode : N) (path : string) (h : Host) : ServePhase * Host :=
  let step '(ph, h) := serve_step f umask_mode path ph h in
  step (step (step (step (Checking, h)))).

(** The loop: every accepted connection is served on its own, a failing accept
    is reported and the loop goes on. *)
Section accept.
Context (serve_one : string → Ended * string).
Fixpoint accept_loop (accepted : list (result string string)) : list (Ended * string) :=
  match accepted with
  | [] => []
  | Ok input :: accepted' => serve_one input :: accept_loop accepted'
  | Err _ :: accepted' => accept_loop accepted'
  end.
End accept.

(** [ctrl_c]: the tasks are aborted, which closes the listener, and the file is
    removed when there is one, whoever made it. *)
Definition daemon_leave (remove_fails : bool) (path : string) (l : option nat) (h : Host) : Host :=
  let live := match l with Some l => host_live h ∖ {[l]} | None => host_live h end in
  mkHost (if remove_fails then host_files h else delete path (host_files h)) live (host_next h).

(** A daemon that is killed leaves its file behind. *)
Definition daemon_die (l : option nat) (h : Host) : Host :=
  mkHost (host_files h) (match l with Some l => host_live h ∖ {[l]} | None => host_live h end)
    (host_next h).

(** [UnixStream::connect] *)
Definition connect_socket (path : string) (h : Host) : result string nat :=
  match host_files h !! path with
  | None => Err "No such file or directory"
  | Some f => if decide (sf_listener f ∈ host_live h) then Ok (sf_listener f)
              else Err "Connection refused"
  end.

(** ** Daemons coming and going *)

(** The daemons that run, by number: the path, and where their server is. *)
Record Machine := mkMachine { m_host : Host; m_daemons : gmap nat (string * ServePhase) }.
Definition machine_new : Machine := mkMachine host_new ∅.

Inductive machine_step : Machine → Machine → Prop :=
| step_begin m d path :
    m_daemons m !! d = None →
    machine_step m (mkMachine (m_host m) (<[d := (path, Checking)]> (m_daemons m)))
| step_serve m d path ph f umask_mode ph' h' :
    m_daemons m !! d = Some (path, ph) →
    serve_step f umask_mode path ph (m_host m) = (ph', h') →
    machine_step m (mkMachine h' (<[d := (path, ph')]> (m_daemons m)))
| step_leave m d path ph fails :
    m_daemons m !! d = Some (path, ph) →
    machine_step m (mkMachine (daemon_leave fails path (listener_of ph) (m_host m)) (delete d (m_daemons m)))
| step_die m d path ph :
    m_daemons m !! d = Some (path, ph) →
    machine_step m (mkMachine (daemon_die (listener_of ph) (m_host m)) (delete d (m_daemons m))).

(** Daemon [d] listens on [path] with [l]. *)
Definition listens (ds : gmap nat (string * ServePhase)) (d : nat) (path : string) (l : nat) : Prop :=
  ∃ ph, ds !! d = Some (path, ph) ∧ listener_of ph = Some l.

(** Listener numbers are fresh and belong to one daemon each; a file leads to
    the newest listener of its path, and has the final permissions once that
    listener's daemon is in its loop. *)
Record machine_inv (m : Machine) : Prop := {
  mi_live : ∀ l, l ∈ host_live (m_host m) ↔ ∃ d path, listens (m_daemons m) d path l;
  mi_fresh : ∀ l, l ∈ host_live (m_host m) → l < host_next (m_host m);
  mi_owner : ∀ d d' p p' l, listens (m_daemons m) d p l → listens (m_daemons m) d' p' l → d = d' ∧ p = p';
  mi_file : ∀ path f, host_files (m_host m) !! path = Some f →
    sf_listener f < host_next (m_host m)
    ∧ (∀ d p, listens (m_daemons m) d p (sf_listener f) → p = path)
    ∧ (∀ d l, listens (m_daemons m) d path l → l ≤ sf_listener f)
    ∧ (∀ d p, m_daemons m !! d = Some (p, Serving (sf_listener f)) → sf_mode f = socket_mode)
}.

Lemma machine_new_inv : machine_inv machine_new.
Proof.
  unfold machine_new. split; simpl; try done; unfold listens.
  - intros l. split; [set_solver|]. intros (d & path & ph & Hd & _). by rewrite lookup_empty in Hd.
  - intros d d' p p' l (ph & Hd & _). by rewrite lookup_empty in Hd.
Qed.

Lemma listens_insert ds d path ph d' p l :
  listens (<[d := (path, ph)]> ds) d' p l ↔
  (d' = d ∧ p = path ∧ listener_of ph = Some l) ∨ (d' ≠ d ∧ listens ds d' p l).
Proof.
  unfold listens. destruct (decide (d' = d)) as [->|Hne].
  - rewrite lookup_insert_eq. naive_solver.
  - rewrite lookup_insert_ne by done. naive_solver.
Qed.

Lemma listens_delete ds d d' p l : listens (delete d ds) d' p l ↔ d' ≠ d ∧ listens ds d' p l.
Proof. unfold listens. setoid_rewrite lookup_delete_Some. naive_solver. Qed.

(** Daemon [d] has no listener any more, if it had one, and the files are fewer
    or the same. *)
Lemma silent_inv m d ds files live :
  machine_inv m → files ⊆ host_files (m_host m) →
  (∀ d' p l, listens ds d' p l ↔ d' ≠ d ∧ listens (m_daemons m) d' p l) →
  (∀ d' p l, ds !! d' = Some (p, Serving l) → m_daemons m !! d' = Some (p, Serving l)) →
  (∀ l, l ∈ live ↔ l ∈ host_live (m_host m) ∧ ∀ p, ¬ listens (m_daemons m) d p l) →
  machine_inv (mkMachine (mkHost files live (host_next (m_host m))) ds).
Proof.
  intros [Hlive Hfresh Hown Hfile] Hsub Hds Hser Hl. split; simpl.
  - intros l. rewrite Hl, Hlive. setoid_rewrite Hds. split.
    + intros [(d' & p & Hd') Hno]. exists d', p. split; [|done]. intros ->. by apply (Hno p).
    + intros (d' & p & Hne & Hd'). split; [by eauto|]. intros p' Hp'. by destruct (Hown _ _ _ _ _ Hd' Hp').
  - intros l [Hin _]%Hl. auto.
  - intros d1 d2 p p' l [_ H1]%Hds [_ H2]%Hds. by eapply Hown.
  - intros path' f Hf. eapply lookup_weaken in Hf; [|done].
    destruct (Hfile _ _ Hf) as (Hlt & Hp & Hle & Hm). split_and!; [done| | |].
    + intros d' p [_ H]%Hds. by eapply Hp.
    + intros d' l [_ H]%Hds. by eapply Hle.
    + intros d' p H%Hser. by eapply Hm.
Qed.

(** Leaving, dying and failing close the listener. *)
Lemma closed_live m d path ph :
  machine_inv m → m_daemons m !! d = Some (path, ph) →
  ∀ l, l ∈ (match listener_of ph with Some l => host_live (m_host m) ∖ {[l]} | None => host_live (m_host m) end)
    ↔ l ∈ host_live (m_host m) ∧ ∀ p, ¬ listens (m_daemons m) d p l.
Proof.
  intros Hinv Hd l. unfold listens. rewrite Hd.
  assert ((∀ p, ¬ ∃ ph', Some (path, ph) = Some (p, ph') ∧ listener_of ph' = Some l) ↔ listener_of ph ≠ Some l) as ->.
  { split; [intros H Hl; apply (H path); by eauto|]. intros H p (ph' & [= <- <-] & Hl). done. }
  destruct (listener_of ph) as [l'|]; [|naive_solver]. set_solver.
Qed.

Lemma end_inv m d path ph files :
  machine_inv m → m_daemons m !! d = Some (path, ph) → files ⊆ host_files (m_host m) →
  machine_inv (mkMachine
    (mkHost files (match listener_of ph with Some l => host_live (m_host m) ∖ {[l]} | None => host_live (m_host m) end)
       (host_next (m_host m))) (delete d (m_daemons m))).
Proof.
  intros Hinv Hd Hsub. apply (silent_inv m d); [done|done| | |by apply (closed_live m d path)].
  - intros. apply listens_delete.
  - intros d' p l [_ H]%lookup_delete_Some. done.
Qed.

Lemma stop_inv m d path ph ph' files :
  machine_inv m → m_daemons m !! d = Some (path, ph) → listener_of ph' = None →
  files ⊆ host_files (m_host m) →
  machine_inv (mkMachine
    (mkHost files (match listener_of ph with Some l => host_live (m_host m) ∖ {[l]} | None => host_live (m_host m) end)
       (host_next (m_host m))) (<[d := (path, ph')]> (m_daemons m))).
Proof.
  intros Hinv Hd Hph Hsub. apply (silent_inv m d); [done|done| | |by apply (closed_live m d path)].
  - intros d' p l. rewrite listens_insert, Hph. naive_solver.
  - intros d' p l [[<- [= <- ->]]|[_ H]]%lookup_insert_Some; [done|]. done.
Qed.

(** A bind makes the newest listener. *)
Lemma bind_inv m d path ph mode :
  machine_inv m → m_daemons m !! d = Some (path, ph) → listener_of ph = None →
  let l := host_next (m_host m) in
  machine_inv (mkMachine
    (mkHost (<[path := mkSocketFile l mode]> (host_files (m_host m))) ({[l]} ∪ host_live (m_host m)) (S l))
    (<[d := (path, Bound l)]> (m_daemons m))).
Proof.
  intros [Hlive Hfresh Hown Hfile] Hd Hph l.
  assert (Hnone : ∀ p l', ¬ listens (m_daemons m) d p l') by (intros p l' (ph' & H & ?); naive_solver).
  assert (Hold : ∀ d' p l', listens (m_daemons m) d' p l' → d' ≠ d ∧ l' < l).
  { intros d' p l' H. split; [intros ->; by eapply Hnone|]. apply Hfresh, Hlive. eauto. }
  split; simpl.
  - intros l'. rewrite elem_of_union, elem_of_singleton, Hlive. setoid_rewrite listens_insert. split.
    + intros [->|(d' & p & H)]; [by exists d, path; left|]. exists d', p. right. destruct (Hold _ _ _ H). done.
    + intros (d' & p & [(_ & _ & [= <-])|[_ H]]); [by left|right; by eauto].
  - intros l' [->%elem_of_singleton|Hin%Hfresh]%elem_of_union; lia.
  - intros d1 d2 p p' l' H1%listens_insert H2%listens_insert.
    destruct H1 as [(-> & -> & E1)|[_ H1]], H2 as [(-> & -> & E2)|[_ H2]]; [done| | |by eapply Hown].
    + injection E1 as <-. destruct (Hold _ _ _ H2). lia.
    + injection E2 as <-. destruct (Hold _ _ _ H1). lia.
  - intros path' sf [[<- <-]|[Hne Hsf]]%lookup_insert_Some; simpl.
    + split_and!; [lia| | |].
      * intros d' p [(_ & -> & _)|[_ H]]%listens_insert; [done|]. destruct (Hold _ _ _ H). lia.
      * intros d' l' [(_ & _ & [= <-])|[_ H]]%listens_insert; [done|]. destruct (Hold _ _ _ H). lia.
      * intros d' p [[_ [=]]|[_ H]]%lookup_insert_Some. destruct (Hold d' p l); [|lia]. by exists (Serving l).
    + destruct (Hfile _ _ Hsf) as (Hlt & Hp & Hle & Hm). split_and!; [lia| | |].
      * intros d' p [(-> & -> & [= Heq])|[_ H]]%listens_insert; [lia|by eapply Hp].
      * intros d' l' [(-> & ? & _)|[_ H]]%listens_insert; [done|by eapply Hle].
      * intros d' p [[_ [=]]|[_ H]]%lookup_insert_Some. by eapply Hm.
Qed.

(** The permissions are set, and the daemon enters its loop. *)
Lemma chmod_inv m d path l sf :
  machine_inv m → m_daemons m !! d = Some (path, Bound l) → host_files (m_host m) !! path = Some sf →
  machine_inv (mkMachine
    (mkHost (<[path := mkSocketFile (sf_listener sf) socket_mode]> (host_files (m_host m)))
       (host_live (m_host m)) (host_next (m_host m)))
    (<[d := (path, Serving l)]> (m_daemons m))).
Proof.
  intros [Hlive Hfresh Hown Hfile] Hd Hsf.
  assert (Hl : ∀ d' p l', listens (<[d := (path, Serving l)]> (m_daemons m)) d' p l' ↔ listens (m_daemons m) d' p l').
  { intros d' p l'. rewrite listens_insert. unfold listens. destruct (decide (d' = d)) as [->|]; [|naive_solver].
    rewrite Hd. simpl. naive_solver. }
  split; simpl.
  - intros l'. rewrite Hlive. by setoid_rewrite Hl.
  - done.
  - intros d1 d2 p p' l'. rewrite !Hl. apply Hown.
  - intros path' f [[<- <-]|[Hne Hf]]%lookup_insert_Some; simpl; setoid_rewrite Hl.
    + destruct (Hfile _ _ Hsf) as (Hlt & Hp & Hle & _). done.
    + destruct (Hfile _ _ Hf) as (Hlt & Hp & Hle & Hm). split_and!; [done..|].
      intros d' p [[<- [= <- ->]]|[_ H]]%lookup_insert_Some; [|by eapply Hm].
      exfalso. apply Hne, (Hp d). by exists (Bound (sf_listener f)).
Qed.

Lemma serve_step_inv m d path ph f mode ph' h' :
  machine_inv m → m_daemons m !! d = Some (path, ph) →
  serve_step f mode path ph (m_host m) = (ph', h') →
  machine_inv (mkMachine h' (<[d := (path, ph')]> (m_daemons m))).
Proof.
  intros Hinv Hd. destruct m as [[files live next] ds]. simpl in *.
  destruct ph as [| | |l|l|e]; simpl.
  - intros [= <- <-]. apply (stop_inv _ d path Checking _ files Hinv Hd); [by destruct (files !! path)|done].
  - destruct (files !! path); [destruct (sf_remove f)|]; intros [= <- <-].
    all: apply (stop_inv _ d path Removing _ _ Hinv Hd); [done|]; simpl; done || apply delete_subseteq.
  - destruct (sf_mkdir f); [|destruct (sf_bind f); [|destruct (files !! path)]]; intros [= <- <-];
      [by apply (stop_inv _ d path Binding _ files Hinv Hd)..|].
    by apply (bind_inv (mkMachine (mkHost files live next) ds) d path Binding mode).
  - destruct (sf_chmod f); [|destruct (files !! path) as [sf|] eqn:Ef]; intros [= <- <-].
    + by apply (stop_inv _ d path (Bound l) _ files Hinv Hd).
    + by apply (chmod_inv (mkMachine (mkHost files live next) ds) d path l sf).
    + by apply (stop_inv _ d path (Bound l) _ files Hinv Hd).
  - intros [= <- <-]. by rewrite insert_id.
  - intros [= <- <-]. by rewrite insert_id.
Qed.

Lemma machine_step_inv m m' : machine_inv m → machine_step m m' → machine_inv m'.
Proof.
  intros Hinv Hs. destruct Hs as [m d path Hd|m d path ph f mode ph' h' Hd Hs|m d path ph fails Hd|m d path ph Hd].
  - destruct m as [[files live next] ds]. apply (silent_inv _ d _ files live Hinv); [done|..]; simpl in *.
    + intros d' p l. rewrite listens_insert. unfold listens. naive_solver.
    + intros d' p l [[_ [=]]|[_ H]]%lookup_insert_Some. done.
    + intros l. split; [|by intros []]. intros Hl. split; [done|]. intros p (ph & H & _). congruence.
  - by eapply serve_step_inv.
  - apply (end_inv m d path ph); [done..|]. destruct fails; [done|apply delete_subseteq].
  - by apply (end_inv m d path ph).
Qed.

(** C26 Daemons may start, leave and die in any order, a step of one between any
    two steps of another, and their operations fail: a client that gets a
    connection on a path is connected to a running daemon of that very path, the
    one of them that bound it last, and the socket it went through has mode 0660,
    unless that daemon is still between its bind and its setting of the
    permissions. *)
Theorem client_reaches_last_daemon m path l
  (Hreach : rtc machine_step machine_new m) (Hconn : connect_socket path (m_host m) = Ok l) :
  ∃ d ph, m_daemons m !! d = Some (path, ph) ∧ listener_of ph = Some l
  ∧ (∀ d' ph' l', m_daemons m !! d' = Some (path, ph') → listener_of ph' = Some l' → l' ≤ l)
  ∧ (∃ f, host_files (m_host m) !! path = Some f ∧ (sf_mode f = socket_mode ∨ ph = Bound l)).
Proof.
  assert (machine_inv m) as Hinv.
  { pose proof machine_new_inv as H. revert H. clear Hconn. induction Hreach; eauto using machine_step_inv. }
  destruct Hinv as [Hlive _ _ Hfile]. unfold connect_socket in Hconn.
  destruct (host_files (m_host m) !! path) as [f|] eqn:Ef; [|done]. case_decide as Hl; [|done].
  simplify_eq. destruct (Hfile _ _ Ef) as (_ & Hp & Hle & Hm).
  pose proof Hl as (d & p & Hd)%Hlive. rewrite (Hp _ _ Hd) in Hd. destruct Hd as (ph & Hd & Hph).
  exists d, ph. split_and!; [done|done| |].
  - intros d' ph' l' H' Hl'. apply (Hle d'). by exists ph'.
  - exists f. split; [done|]. destruct ph as [| | |l|l|]; try done; simpl in Hph; simplify_eq; [by right|left; eauto].
Qed.

(** A daemon that starts undisturbed is reachable, whatever was left at its
    path: a stale file, another daemon's socket, or nothing. *)
Theorem started_daemon_is_reachable mode path h :
  ∃ h', serve_start serve_ok mode path h = (Serving (host_next h), h')
    ∧ connect_socket path h' = Ok (host_next h)
    ∧ host_next h' = S (host_next h)
    ∧ host_live h' = {[host_next h]} ∪ host_live h
    ∧ ∀ other, other ≠ path → connect_socket other h = Err "No such file or directory" →
        connect_socket other h' = Err "No such file or directory".
Proof.
  destruct h as [files live next]. unfold serve_start. simpl.
  destruct (files !! path) eqn:E; do 3 (simpl; rewrite ?E, ?lookup_delete_eq, ?lookup_insert_eq).
  all: eexists; split; [done|]; unfold connect_socket; simpl; rewrite lookup_insert_eq; simpl.
  all: rewrite decide_True by set_solver; split_and!; [done..|].
  all: intros other Hne; rewrite !lookup_insert_ne, ?lookup_delete_ne by done.
  all: by destruct (files !! other); [case_decide|].
Qed.

(** Two daemons on one path: the second takes the socket from the first without
    a warning, and when the first leaves it removes the file of the second, which
    runs on where no client finds it. *)
Theorem leaving_daemon_removes_other_socket mode path h :
  ∃ l1 h1 l2 h2,
    serve_start serve_ok mode path h = (Serving l1, h1) ∧ serve_start serve_ok mode path h1 = (Serving l2, h2)
    ∧ connect_socket path h2 = Ok l2
    ∧ connect_socket path (daemon_leave false path (Some l1) h2) = Err "No such file or directory"
    ∧ l2 ∈ host_live (daemon_leave false path (Some l1) h2).
Proof.
  destruct (started_daemon_is_reachable mode path h) as (h1 & H1 & C1 & N1 & _).
  destruct (started_daemon_is_reachable mode path h1) as (h2 & H2 & C2 & _ & L2 & _).
  do 4 eexists. split_and!; [done..| |].
  - unfold connect_socket, daemon_leave. simpl. by rewrite lookup_delete_eq.
  - simpl. rewrite L2, N1. apply elem_of_difference. split; [set_solver|]. rewrite elem_of_singleton. lia.
Qed.

(** Between the bind and the permissions of a daemon a client is let in by the
    mode its umask leaves. *)
Example bound_socket_already_listens :
  let '(ph, h) := serve_step serve_ok 511 "/var/run/ark.sock" Binding host_new in
  ph = Bound 0 ∧ connect_socket "/var/run/ark.sock" h = Ok 0
  ∧ host_files h !! "/var/run/ark.sock" = Some (mkSocketFile 0 511).
Proof. vm_compute. auto. Qed.

(** Daemon 1 dies and leaves a stale file, daemon 2 takes the path. *)
Definition demo_machine : Machine :=
  mkMachine (mkHost {["/var/run/ark.sock" := mkSocketFile 1 socket_mode]} {[1]} 2)
    {[2 := ("/var/run/ark.sock", Serving 1)]}.

(** Some steps as a function, for runs that evaluate. *)
Inductive MachineAct := Begin (d : nat) (path : string) | Serve (d : nat) | Die (d : nat).

Definition machine_do (m : Machine) (a : MachineAct) : Machine :=
  match a with
  | Begin d path =>
      match m_daemons m !! d with
      | None => mkMachine (m_host m) (<[d := (path, Checking)]> (m_daemons m))
      | Some _ => m
      end
  | Serve d =>
      match m_daemons m !! d with
      | Some (path, ph) => let '(ph', h') := serve_step serve_ok 493 path ph (m_host m) in
                           mkMachine h' (<[d := (path, ph')]> (m_daemons m))
      | None => m
      end
  | Die d =>
      match m_daemons m !! d with
      | Some (path, ph) => mkMachine (daemon_die (listener_of ph) (m_host m)) (delete d (m_daemons m))
      | None => m
      end
  end.

Lemma machine_do_reachable m acts : rtc machine_step m (foldl machine_do m acts).
Proof.
  revert m. induction acts as [|a acts IH]; intros m; simpl; [done|].
  etrans; [|apply IH]. destruct a as [d path|d|d]; simpl; destruct (m_daemons m !! d) as [[path' ph]|] eqn:E; try done.
  - by apply rtc_once, step_begin.
  - destruct (serve_step serve_ok 493 path' ph (m_host m)) as [ph' h'] eqn:Es.
    by eapply rtc_once, step_serve.
  - by eapply rtc_once, step_die.
Qed.

Definition demo_acts : list MachineAct :=
  [Begin 1 "/var/run/ark.sock"; Serve 1; Serve 1; Serve 1; Die 1;
   Begin 2 "/var/run/ark.sock"; Serve 2; Serve 2; Serve 2; Serve 2].

Lemma demo_machine_reachable : rtc machine_step machine_new demo_machine.
Proof.
  assert (foldl machine_do machine_new demo_acts = demo_machine) as <- by (vm_compute; reflexivity).
  apply machine_do_reachable.
Qed.

Lemma client_reaches_last_daemon_witness :
  ∃ d ph, m_daemons demo_machine !! d = Some ("/var/run/ark.sock", ph) ∧ listener_of ph = Some 1.
Proof.
  destruct (client_reaches_last_daemon demo_machine "/var/run/ark.sock" 1 demo_machine_reachable eq_refl)
    as (d & ph & Hd & Hl & _).
  by exists d, ph.
Defined.
