(* ===== verification/Diag.v ===== *)
(** * Diagnosis with a language model (agent/src/diag.rs)

    [ark diag] asks the daemon for the root causes and the processes, tries the
    rules on events made up from them, and otherwise asks a language model over
    HTTP.  The peer of the HTTP request is a parameter.  The theorems: which
    requests leave the machine; that the prompt is made of the causes and of at
    most five processes; and which events the rules get to see, namely never one
    for a process, and none for a hardware error that does not spell it in upper
    case. *)

From S2P Require Import Prelude Text F64 Json Event Signals Graph GraphInv GraphEffects RootCause.
From S2P Require Import Rule Matcher RuleFiles RuleEngine Ipc.

Record Diagnosis := mkDiagnosis {
  dg_pid : N; dg_causes : list string; dg_recommendation : string; dg_confidence : f64 }.

Inductive LlmProvider := OpenAI | Claude | Local.

Definition provider_from_str (s : string) : LlmProvider :=
  let l := to_lowercase s in
  if decide (l ∈ ["openai"; "gpt"]) then OpenAI
  else if decide (l ∈ ["claude"; "anthropic"]) then Claude
  else if decide (l ∈ ["local"; "ollama"]) then Local
  else OpenAI.

Definition api_url (p : LlmProvider) : string :=
  match p with
  | OpenAI => "https://api.openai.com/v1/chat/completions"
  | Claude => "https://api.anthropic.com/v1/messages"
  | Local => "http://localhost:11434/api/generate"
  end.

Record LlmClient := mkLlmClient { llm_provider : LlmProvider; llm_api_key : string }.

(** The environment. *)
Abbreviation environ := (string → option string).

(** The key of a provider: its variable, else the prefixed one. *)
Definition key_from_env (env : environ) (p : LlmProvider) : result string string :=
  let lookup (name : string) :=
    match env name, env ("XCTL_" +:+ name) with
    | Some k, _ => Ok k
    | None, Some k => Ok k
    | None, None => Err ("未设置 " +:+ name +:+ " 环境变量")
    end in
  match p with
  | OpenAI => lookup "OPENAI_API_KEY"
  | Claude => lookup "ANTHROPIC_API_KEY"
  | Local => Ok ""
  end.

Definition from_env (env : environ) : result string LlmClient :=
  let provider := default OpenAI (provider_from_str <$> env "XCTL_LLM_PROVIDER") in
  match key_from_env env provider with
  | Ok k => Ok (mkLlmClient provider k)
  | Err e => Err e
  end.

(** ** Prompt *)

Definition lf : string := String (ascii_of_N 10) "".

Definition process_line (proc : Json) : string :=
  let proc_pid := default 0%N (as_u64 (jindex "pid" proc)) in
  let state := default "unknown" (as_str (jindex "state" proc)) in
  let resources := match as_array (jindex "resources" proc) with
                   | Some arr => join ", " (omap as_str arr)
                   | None => ""
                   end in
  "- PID " +:+ pretty proc_pid +:+ ": 状态=" +:+ state +:+ ", 资源=[" +:+ resources +:+ "]" +:+ lf.

Definition text_concat (l : list string) : string := foldr String.append "" l.

Definition cause_line (i : nat) (cause : string) : string :=
  pretty (i + 1) +:+ ". " +:+ cause +:+ lf.

Definition prompt_tail : string :=
  "## 请提供诊断建议" +:+ lf +:+ lf +:+ "请基于以上信息，提供：" +:+ lf
  +:+ "1. 问题根因分析（用一句话概括）" +:+ lf +:+ "2. 具体的修复建议（3-5 条）" +:+ lf
  +:+ "3. 预防措施（可选）" +:+ lf +:+ lf +:+ "请用简洁、专业的中文回答，避免技术术语过多。".

Definition build_diagnosis_prompt (pid : N) (causes : list string) (processes : list Json) : string :=
  "## 问题描述" +:+ lf +:+ lf +:+ "进程 PID " +:+ pretty pid +:+ " 出现性能问题。" +:+ lf +:+ lf
  +:+ (match causes with
       | [] => ""
       | _ => "## 阻塞根因分析" +:+ lf +:+ lf +:+ text_concat (imap cause_line causes) +:+ lf
       end)
  +:+ (match processes with
       | [] => ""
       | _ => "## 相关进程信息" +:+ lf +:+ lf
              +:+ text_concat (map process_line (take 5 processes)) +:+ lf
       end)
  +:+ prompt_tail.

(** ** Requests *)

Record HttpRequest := mkHttpRequest {
  rq_url : string; rq_headers : list (string * string); rq_body : Json }.

(** What the model's API answered: a status with its text and body, or a JSON
    document. *)
Inductive HttpReply :=
| ConnectError (e : string)
| ErrorStatus (status text : string)
| BadJson (e : string)
| JsonReply (v : Json).

Definition jnth (i : nat) (v : Json) : Json := default JNull (as_array v ≫= (.!! i)).

Definition sre_prompt : string :=
  "你是一位资深的 SRE（Site Reliability Engineer），专门诊断 AI 基础设施的性能问题。请用简洁、专业的中文回答。".

Definition llm_request (c : LlmClient) (prompt : string) : HttpRequest :=
  match llm_provider c with
  | OpenAI =>
      mkHttpRequest (api_url OpenAI)
        [("Authorization", "Bearer " +:+ llm_api_key c); ("Content-Type", "application/json")]
        (JObj [("model", JStr "gpt-4o-mini");
               ("messages", JArr [JObj [("role", JStr "system"); ("content", JStr sre_prompt)];
                                  JObj [("role", JStr "user"); ("content", JStr prompt)]]);
               ("temperature", JFloat (f64_of_dec false 3 (-1))); ("max_tokens", JNum 500)])
  | Claude =>
      mkHttpRequest (api_url Claude)
        [("x-api-key", llm_api_key c); ("anthropic-version", "2023-06-01");
         ("Content-Type", "application/json")]
        (JObj [("model", JStr "claude-3-haiku-20240307"); ("max_tokens", JNum 500);
               ("messages", JArr [JObj [("role", JStr "user");
                                        ("content", JStr (sre_prompt +:+ lf +:+ lf +:+ prompt))]])])
  | Local =>
      mkHttpRequest (api_url Local) []
        (JObj [("model", JStr "llama2");
               ("prompt", JStr ("你是一位资深的 SRE。请用简洁、专业的中文回答。" +:+ lf +:+ lf +:+ prompt));
               ("stream", JBool false)])
  end.

(** The text in the answer of a provider. *)
Definition llm_text (p : LlmProvider) (v : Json) : option string :=
  match p with
  | OpenAI => as_str (jindex "content" (jindex "message" (jnth 0 (jindex "choices" v))))
  | Claude => as_str (jindex "text" (jnth 0 (jindex "content" v)))
  | Local => as_str (jindex "response" v)
  end.

Definition llm_response (p : LlmProvider) (r : HttpReply) : result string string :=
  match r with
  | ConnectError e => Err ("API 请求失败: " +:+ e)
  | ErrorStatus status text => Err ("API 错误: " +:+ status +:+ " - " +:+ text)
  | BadJson e => Err ("解析响应失败: " +:+ e)
  | JsonReply v => match llm_text p v with Some s => Ok s | None => Err "响应格式错误" end
  end.

Definition parse_diagnosis_response (response : string) : Diagnosis :=
  mkDiagnosis 0 [] (trim response) (f64_of_dec false 8 (-1)).

(** ** Events made up from causes and processes *)

Definition cause_event (now : N) (cause : string) : option Event :=
  if contains "error.hw" cause || contains "GPU" cause || contains "OOM" cause
  then Some (mkEvent now ErrorHw "gpu-*" None None cause None)
  else if contains "network" cause || contains "网络" cause
  then Some (mkEvent now ErrorNet "network-*" None None cause None)
  else None.

Definition process_event_of (now : N) (proc : Json) : option Event :=
  state ← as_str (jindex "state" proc);
  if decide (state ∈ ["blocked"; "waiting"]) then
    let pid := as_u64 (jindex "pid" proc) in
    Some (mkEvent now ProcessState ("pid-" +:+ pretty (default 0%N pid)) None
            ((λ p, (p mod 2 ^ 32)%N) <$> pid) state None)
  else None.

Definition extract_virtual_events_from_causes (now : N) (causes : list string)
    (processes : list Json) : list Event :=
  omap (cause_event now) causes ++ omap (process_event_of now) processes.

(** ** The diagnosis *)

Definition step_text (s : SolutionStep) : string :=
  pretty (step s) +:+ ". " +:+ action s +:+ lf
  +:+ (match command s with Some cmd => "   命令: " +:+ cmd +:+ lf | None => "" end)
  +:+ (if manual s then "   [需要手动执行]" +:+ lf else "").

Definition rule_recommendation (r : Rule) : string :=
  "【规则匹配: " +:+ rule_name r +:+ "】" +:+ lf +:+ lf
  +:+ "根因: " +:+ primary (rule_root_cause_pattern r) +:+ lf +:+ lf
  +:+ "解决方案:" +:+ lf +:+ text_concat (map step_text (rule_solution_steps r)).

Section diag.
(** [post] answers a request; the answers of the daemon are given. *)
Context (post : HttpRequest → HttpReply) (env : environ) (now : N).

Definition choose_client (provider : option string) : result string LlmClient :=
  match provider with
  | Some provider_str =>
      let p := provider_from_str provider_str in
      match key_from_env env p with
      | Ok k => Ok (mkLlmClient p k)
      | Err e => Err e
      end
  | None => match from_env env with
            | Ok c => Ok c
            | Err e => Err ("LLM 配置错误: " +:+ e)
            end
  end.

(** [LlmClient::diagnose]: one request, and the diagnosis read from its answer. *)
Definition llm_diagnose (c : LlmClient) (pid : N) (causes : list string) (processes : list Json)
  : HttpRequest * result string Diagnosis :=
  let request := llm_request c (build_diagnosis_prompt pid causes processes) in
  (request, match llm_response (llm_provider c) (post request) with
            | Err e => Err e
            | Ok text => Ok (parse_diagnosis_response text)
            end).

(** The requests made, and the result.  [rules] is the engine of the rule
    directory, when one was given and could be loaded. *)
Definition run_diagnosis (pid : N) (ping : result string bool)
    (why : result string (list string)) (list : result string (list Json))
    (rules : option RuleEngine) (provider : option string)
  : List.list HttpRequest * result string Diagnosis :=
  match ping, why, list with
  | Err e, _, _ => ([], Err e)
  | Ok false, _, _ => ([], Err "无法连接到 daemon，请先运行: ark run")
  | Ok true, Err e, _ => ([], Err e)
  | Ok true, Ok _, Err e => ([], Err e)
  | Ok true, Ok causes, Ok processes =>
      match rules ≫= λ e, match_first_simple e
                            (extract_virtual_events_from_causes now causes processes) with
      | Some rule =>
          ([], Ok (mkDiagnosis pid causes (rule_recommendation rule) (f64_of_dec false 9 (-1))))
      | None =>
          match choose_client provider with
          | Err e => ([], Err e)
          | Ok c =>
              match llm_diagnose c pid causes processes with
              | (request, Err e) => ([request], Err e)
              | (request, Ok d) =>
                  ([request], Ok (mkDiagnosis pid causes (dg_recommendation d) (dg_confidence d)))
              end
          end
      end
  end.
End diag.

(** ** Requests that leave the machine *)

(** What [ark diag] sends: nothing when the daemon is not reachable, its
    answer fails, a rule matches or no key is configured; otherwise exactly one
    request, to the provider that was chosen, whose prompt is built from the
    daemon's answer.  A diagnosis that is returned carries the process and the
    causes of the daemon, and with a matching rule it is the rule's text. *)
Theorem diagnosis_requests post env now pid ping why procs rules provider :
  let '(requests, r) := run_diagnosis post env now pid ping why procs rules provider in
  (requests = []
   ∨ ∃ causes ps c, ping = Ok true ∧ why = Ok causes ∧ procs = Ok ps
       ∧ choose_client env provider = Ok c
       ∧ (∀ e, rules = Some e →
            match_first_simple e (extract_virtual_events_from_causes now causes ps) = None)
       ∧ requests = [llm_request c (build_diagnosis_prompt pid causes ps)]
       ∧ map rq_url requests = [api_url (llm_provider c)])
  ∧ (∀ d, r = Ok d → dg_pid d = pid ∧ why = Ok (dg_causes d)
       ∧ (requests = [] → ∃ e ps rule, rules = Some e ∧ procs = Ok ps
            ∧ match_first_simple e (extract_virtual_events_from_causes now (dg_causes d) ps) = Some rule
            ∧ dg_recommendation d = rule_recommendation rule)).
Proof.
  unfold run_diagnosis.
  destruct ping as [[]|]; [|by split; [left|]..].
  destruct why as [causes|]; [|by split; [left|]]. destruct procs as [ps|]; [|by split; [left|]].
  destruct (rules ≫= _) as [rule|] eqn:Er.
  { split; [by left|]. intros d [= <-]. simpl. split_and!; [done..|]. intros _.
    apply bind_Some in Er as (e & -> & Hm). eauto 10. }
  destruct (choose_client env provider) as [c|] eqn:Ec; [|by split; [left|]].
  assert (∀ e, rules = Some e →
            match_first_simple e (extract_virtual_events_from_causes now causes ps) = None) as Hno
    by (by intros e ->).
  assert (map rq_url [llm_request c (build_diagnosis_prompt pid causes ps)]
          = [api_url (llm_provider c)]) as Hu by (unfold llm_request; by destruct (llm_provider c)).
  unfold llm_diagnose. destruct (llm_response _ _); (split; [right; eauto 12|]); [|done].
  intros d [= <-]. by split_and!.
Qed.

(** ** The states the daemon reports *)

(** The states a node of the graph can be in. *)
Definition state_ok (n : Node) : Prop :=
  node_state n ∈ [None; Some "running"; Some "exit"; Some "zombie"].
Definition states_ok (ns : gmap string Node) : Prop := map_Forall (λ _ n, state_ok n) ns.

Lemma insert_states id n ns : state_ok n → states_ok ns → states_ok (<[id := n]> ns).
Proof. intros. by apply map_Forall_insert_2. Qed.

Lemma ensure_states id ty t m ns :
  m !! "state" ∈ [None; Some "running"; Some "exit"; Some "zombie"] →
  states_ok ns → states_ok (ensure_node id ty t m ns).
Proof. intros Hm H. unfold ensure_node. case_match; [done|]. by apply insert_states. Qed.

Lemma set_meta_states id key v t ns :
  (key ≠ "state" ∨ v ∈ ["exit"; "zombie"]) →
  states_ok ns → states_ok (alter (set_meta key v t) id ns).
Proof.
  intros Hk H i n Hi. apply lookup_alter_Some in Hi as [(-> & n0 & Hn & ->)|[Hne Hn]]; [|by apply (H i)].
  apply H in Hn. unfold state_ok, node_state, set_meta in *. simpl in *.
  destruct (decide (key = "state")) as [->|Hne].
  - rewrite lookup_insert_eq. destruct Hk as [|Hv]; [done|]. set_solver.
  - by rewrite lookup_insert_ne.
Qed.

Lemma insert_points_states pts ns : states_ok ns → states_ok (insert_points pts ns).
Proof.
  unfold insert_points. revert ns. induction pts as [|pt pts IH]; intros ns H; simpl; [done|].
  apply IH, insert_states; [|done]. unfold state_ok, node_state, signal_node. simpl.
  rewrite !lookup_insert_ne by done. destruct (pt_value pt); [|by rewrite lookup_empty; set_solver..].
  rewrite lookup_insert_ne, lookup_empty by done. set_solver.
Qed.

Ltac solve_states :=
  repeat first
    [ done
    | apply set_meta_states; [by left|]
    | apply ensure_states; [rewrite ?lookup_insert_eq, ?lookup_insert_ne, ?lookup_empty by done; set_solver|]
    | apply insert_states; [unfold state_ok, node_state; simpl; rewrite lookup_insert_eq; set_solver|] ].

Lemma handle_process_states g ev :
  states_ok (nodes g) → states_ok (nodes (handle_process_state g ev).1).
Proof.
  intros H. unfold handle_process_state. destruct (ev_pid ev); [|done]. simpl.
  case_decide; [simpl; solve_states|]. case_decide as Hv; [|done]. simpl.
  apply set_meta_states; [right; set_solver|done].
Qed.

Lemma handle_transport_states g ev :
  states_ok (nodes g) → states_ok (nodes (handle_transport_event g ev).1).
Proof.
  intros H. assert (transport_key (ev_type ev) ≠ "state") as Htk by by destruct (ev_type ev).
  unfold handle_transport_event. repeat case_match; simpl; solve_states.
Qed.

Lemma handle_event_states g ev :
  states_ok (nodes g) → states_ok (nodes (handle_event g ev).1).
Proof.
  intros H. unfold handle_event, handle_storage_event, handle_topo_event.
  destruct (ev_type ev); first [exact H | by apply handle_process_states
    | by apply handle_transport_states
    | unfold handle_compute_event; case_match; simpl; solve [solve_states]
    | unfold handle_error_event; simpl; solve [solve_states]].
Qed.

Lemma process_events_states evs g :
  states_ok (nodes g) → states_ok (nodes (process_events g evs)).
Proof.
  revert g. induction evs as [|ev evs IH]; intros g H; [done|]. simpl. apply IH.
  rewrite process_event_eq. simpl.
  assert (states_ok (nodes (periodic_cleanup (handle_event g ev).1 ev))) as Hc.
  { unfold periodic_cleanup. case_decide; [|by apply handle_event_states]. simpl.
    intros id n Hn. apply cleanup_nodes_lookup in Hn as [Hn _].
    by apply (handle_event_states g ev H id). }
  unfold update_signals. destruct (on_event _ ev) as [eng [|pt pts]]; [done|]. simpl.
  by apply (insert_points_states (pt :: pts)).
Qed.

(** The rules see only what the causes say: for the processes a daemon lists,
    whatever events built its graph, no event is made up, because no process of
    the graph is ever in the state [blocked] or [waiting] the code looks for. *)
Theorem no_process_is_ever_blocked now evs causes :
  let g := process_events state_graph_new evs in
  extract_virtual_events_from_causes now causes (map (process_json g) (get_active_processes g))
  = omap (cause_event now) causes.
Proof.
  intros g. unfold extract_virtual_events_from_causes.
  assert (states_ok (nodes g)) as Hs 
    by (apply process_events_states; apply map_Forall_empty).
  assert (∀ ns, (∀ n, n ∈ ns → state_ok n) →
            omap (process_event_of now) (map (process_json g) ns) = []) as ->.
  { intros ns Hns. induction ns as [|n ns IH]; [done|]. simpl.
    assert (process_event_of now (process_json g n) = None) as ->.
    { unfold process_event_of. simpl. rewrite decide_False; [done|].
      assert (state_ok n) as Hn by (apply Hns; by left). unfold state_ok, node_state in Hn.
      destruct (metadata n !! "state"); simpl in *; set_solver. }
    apply IH. intros; apply Hns; by right. }
  - by rewrite app_nil_r.
  - intros n [_ ([id n'] & -> & Hn%elem_of_map_to_list)%list_elem_of_fmap]%list_elem_of_filter.
    by apply (Hs id).
Qed.

(** A GPU error of the graph, in the spelling the probes use, gives the rules
    nothing to match. *)
Example gpu_error_gives_no_event :
  let g := process_events state_graph_new
    [mkEvent 1000 ProcessState "proc" (Some "job-1") (Some 7%N) "start" None;
     mkEvent 1100 ComputeUtil "gpu-0" None (Some 7%N) "80" None;
     mkEvent 1200 ErrorHw "gpu-0" None None "XID_79" None]%N in
  find_root_cause g 7 = Some ["error-gpu-0: XID_79"]
  ∧ extract_virtual_events_from_causes 1300 ["error-gpu-0: XID_79"]
      (map (process_json g) (get_active_processes g)) = [].
Proof. vm_compute. auto. Qed.
