(* ===== verification/AuditLog.v ===== *)
(** * The audit log (agent/src/audit.rs)

    One line per executed fix, in a file that is renamed with a timestamp when
    the next line would take it past its size limit.  Files are a map from paths
    to contents; renaming a file over another replaces it.  The theorems: as
    long as no two rotations fall into the same second nothing that was logged is
    lost or reordered and the counter is the size of the file; two rotations
    within one second lose the file rotated first. *)

From S2P Require Import Prelude Text Rule RuleFiles.

Record AuditLogEntry := mkAuditLogEntry {
  al_timestamp : string; al_user : string; al_action : string; al_target_pid : N;
  al_target_job_id : option string; al_result : string; al_details : string }.

(** [writer_path] is where the open file is found: the log path, except after a
    rotation that could not open a new file. *)
Record AuditLogger := mkAuditLogger {
  writer_path : string; log_path : string; max_size : N; current_size : N }.

Abbreviation files := (gmap string string).

Definition byte_len (s : string) : N := N.of_nat (String.length s).

(** Create the file when it is not there, and take up its size; the directory is
    there and the file can be opened. *)
Definition open_append (fs : files) (p : string) : files :=
  match fs !! p with Some _ => fs | None => <[p := ""]> fs end.

Definition audit_new (fs : files) (path : string) (max_size_mb : N) : AuditLogger * files :=
  let fs' := open_append fs path in
  (mkAuditLogger path path (max_size_mb * 1024 * 1024) (byte_len (default "" (fs' !! path))), fs').

(** What fails, with its message: making the directory, opening the file and
    reading its size; renaming it and opening a new one; and writing, after some
    bytes of the line have reached the file, be it when the buffer is dropped. *)
Record AuditFaults := mkAuditFaults {
  af_mkdir : option string; af_open : option string; af_metadata : option string;
  af_rename : option string; af_reopen : option string; af_write : option (nat * string) }.
Definition no_audit_faults : AuditFaults := mkAuditFaults None None None None None None.

(** [AuditLogger::new], whatever fails. *)
Definition audit_open (af : AuditFaults) (fs : files) (path : string) (max_size_mb : N)
  : result string AuditLogger * files :=
  match af_mkdir af, af_open af with
  | Some e, _ => (Err e, fs)
  | None, Some e => (Err e, fs)
  | None, None =>
      let '(lg, fs') := audit_new fs path max_size_mb in
      (match af_metadata af with Some e => Err e | None => Ok lg end, fs')
  end.

Section audit.
(** [serde_json::to_string] of an entry; the outcome of a [rename] and of
    opening the new file ([None] is success). *)
Context (to_string : AuditLogEntry → result string string).

(** [rotate_log] at a time that formats as [timestamp]. *)
Definition rotated_path (path timestamp : string) : string :=
  with_extension path (timestamp +:+ ".log").

Definition rotate_log (timestamp : string) (rename_err open_err : option string)
    (s : AuditLogger * files) : result string unit * (AuditLogger * files) :=
  let '(lg, fs) := s in
  match rename_err, fs !! log_path lg with
  | Some e, _ => (Err e, s)
  | None, None => (Err "No such file or directory (os error 2)", s)
  | None, Some content =>
      let to := rotated_path (log_path lg) timestamp in
      let fs' := <[to := content]> (delete (log_path lg) fs) in
      let moved := if decide (writer_path lg = log_path lg) then to else writer_path lg in
      match open_err with
      | Some e => (Err e, (mkAuditLogger moved (log_path lg) (max_size lg) (current_size lg), fs'))
      | None => (Ok (), (mkAuditLogger (log_path lg) (log_path lg) (max_size lg) (current_size lg),
                         open_append fs' (log_path lg)))
      end
  end.

(** The line goes to the open file. *)
Definition append_line (line : string) (s : AuditLogger * files) : AuditLogger * files :=
  let '(lg, fs) := s in
  (mkAuditLogger (writer_path lg) (log_path lg) (max_size lg) (current_size lg + byte_len line),
   <[writer_path lg := default "" (fs !! writer_path lg) +:+ line]> fs).

(** [write_all] and [flush]: the counter only follows a line that was written. *)
Definition write_line (write_err : option (nat * string)) (line : string) (s : AuditLogger * files)
  : result string unit * (AuditLogger * files) :=
  match write_err with
  | None => (Ok (), append_line line s)
  | Some (n, e) => (Err e, (s.1, (append_line (String.substring 0 n line) s).2))
  end.

Definition reset_size (s : AuditLogger * files) : AuditLogger * files :=
  (mkAuditLogger (writer_path s.1) (log_path s.1) (max_size s.1) 0, s.2).

Definition newline : string := String (ascii_of_N 10) "".

Definition log (timestamp : string) (rename_err open_err : option string)
    (write_err : option (nat * string)) (entry : AuditLogEntry) (s : AuditLogger * files) : result string unit * (AuditLogger * files) :=
  match to_string entry with
  | Err e => (Err e, s)
  | Ok json =>
      let line := json +:+ newline in
      if decide (max_size s.1 < current_size s.1 + byte_len line)%N then
        match rotate_log timestamp rename_err open_err s with
        | (Err e, s') => (Err e, s')
        | (Ok _, s') => write_line write_err line (reset_size s')
        end
      else write_line write_err line s
  end.

(** ** Runs without input/output errors *)

(** The lines logged, and the timestamps of the rotations, oldest first. *)
Fixpoint log_all (calls : list (string * AuditLogEntry)) (s : AuditLogger * files)
  : list string * list string * (AuditLogger * files) :=
  match calls with
  | [] => ([], [], s)
  | (ts, entry) :: calls' =>
      let s' := (log ts None None None entry s).2 in
      let '(ls, rots, s'') := log_all calls' s' in
      match to_string entry with
      | Err _ => (ls, rots, s'')
      | Ok json =>
          let rotates := bool_decide (max_size s.1 < current_size s.1 + byte_len (json +:+ newline))%N in
          ((json +:+ newline) :: ls, (if rotates then [ts] else []) ++ rots, s'')
      end
  end.
End audit.

Definition get_current_user (user username : option string) : string :=
  match user, username with
  | Some u, _ => u
  | None, Some u => u
  | None, None => "unknown"
  end.

Definition create_audit_entry (now : string) (user username : option string) (action : string)
    (target_pid : N) (target_job_id : option string) (result details : string) : AuditLogEntry :=
  mkAuditLogEntry now (get_current_user user username) action target_pid target_job_id result details.

(** ** Nothing is lost *)

Lemma with_extension_inj p e1 e2 : with_extension p e1 = with_extension p e2 → e1 = e2.
Proof.
  unfold with_extension. destruct (extension p); [apply str_app_eq_l|].
  intros H. apply str_app_eq_l in H. by apply str_app_eq_l in H.
Qed.

Lemma rotated_path_inj p t1 t2 : rotated_path p t1 = rotated_path p t2 → t1 = t2.
Proof.
  unfold rotated_path. intros H%with_extension_inj.
  apply (f_equal chars) in H. rewrite !chars_app in H. apply app_inv_tail in H.
  apply (f_equal String.string_of_list_ascii) in H. unfold chars in H.
  by rewrite !String.string_of_list_ascii_of_string in H.
Qed.

Section complete.
Context (to_string : AuditLogEntry → result string string) (path : string) (fs0 : files)
        (start : string).

Definition concat_str (l : list string) : string := foldr String.append "" l.

Lemma concat_str_app l1 l2 : concat_str (l1 ++ l2) = concat_str l1 +:+ concat_str l2.
Proof. induction l1 as [|s l1 IH]; simpl; [done|]. by rewrite IH, str_app_assoc. Qed.

(** What the rotated files hold, in the order of the rotations. *)
Definition rotated_contents (rots : list string) (fs : files) : list string :=
  map (λ ts, default "" (fs !! rotated_path path ts)) rots.

(** After [ls] was logged with rotations [rots]. *)
Record audit_inv (ls rots : list string) (s : AuditLogger * files) : Prop := {
  ai_writer : writer_path s.1 = path;
  ai_path : log_path s.1 = path;
  ai_cur : ∃ cur, s.2 !! path = Some cur ∧ current_size s.1 = byte_len cur
             ∧ concat_str (rotated_contents rots s.2) +:+ cur = start +:+ concat_str ls;
  ai_others : ∀ p, p ≠ path → p ∉ map (rotated_path path) rots → s.2 !! p = fs0 !! p
}.

Lemma byte_len_app s t : byte_len (s +:+ t) = (byte_len s + byte_len t)%N.
Proof. unfold byte_len. rewrite str_app_length. lia. Qed.

Lemma rotated_contents_insert rots fs p c :
  p ∉ map (rotated_path path) rots → rotated_contents rots (<[p := c]> fs) = rotated_contents rots fs.
Proof.
  intros Hp. unfold rotated_contents. apply map_ext_in. intros ts Hts%list_elem_of_In.
  rewrite lookup_insert_ne; [done|]. intros ->. apply Hp. by apply list_elem_of_fmap_2.
Qed.

Lemma append_line_inv ls rots s line :
  path ∉ map (rotated_path path) rots →
  audit_inv ls rots s → audit_inv (ls ++ [line]) rots (append_line line s).
Proof.
  intros Hp [Hw Hl (cur & Hc & Hsz & Heq) Ho]. destruct s as [lg fs]. simpl in *. subst. split; simpl.
  - done.
  - done.
  - rewrite Hw, Hc. simpl. exists (cur +:+ line). rewrite lookup_insert_eq.
    split_and!; [done|by rewrite Hsz, byte_len_app|].
    rewrite rotated_contents_insert by done. rewrite concat_str_app. simpl.
    by rewrite str_app_nil_r, <-!str_app_assoc, Heq.
  - intros p Hne Hin. rewrite lookup_insert_ne by congruence. by apply Ho.
Qed.

Lemma rotate_inv ls rots s ts :
  path ∉ map (rotated_path path) (rots ++ [ts]) → ts ∉ rots →
  audit_inv ls rots s →
  ∃ s', rotate_log ts None None s = (Ok (), s') ∧ audit_inv ls (rots ++ [ts]) (reset_size s').
Proof.
  rewrite map_app. intros Hp Hts [Hw Hl (cur & Hc & Hsz & Heq) Ho]. destruct s as [lg fs]. simpl in *.
  apply not_elem_of_app in Hp as [Hp Hpt]. simpl in Hpt. apply not_elem_of_cons in Hpt as [Hpt _].
  assert (rotated_path path ts ∉ map (rotated_path path) rots) as Hfresh.
  { intros (t & E%rotated_path_inj & Hin)%list_elem_of_fmap. by subst. }
  unfold rotate_log. rewrite Hl, Hc. eexists. split; [done|]. unfold open_append.
  rewrite lookup_insert_ne, lookup_delete_eq by done. split; simpl; [done..| |].
  - exists "". rewrite lookup_insert_eq. split_and!; [done..|].
    unfold rotated_contents. rewrite map_app, concat_str_app. simpl.
    rewrite lookup_insert_ne, lookup_insert_eq by congruence. simpl.
    fold (rotated_contents rots (<[path:=""]> (<[rotated_path path ts:=cur]> (delete path fs)))).
    rewrite !rotated_contents_insert by done. rewrite !str_app_nil_r, <-Heq. do 2 f_equal.
    apply map_ext_in. intros t Ht%list_elem_of_In. rewrite lookup_delete_ne; [done|].
    intros E. apply Hp, list_elem_of_fmap. eauto.
  - intros p Hne Hin. rewrite map_app in Hin. apply not_elem_of_app in Hin as [Hin1 Hin2].
    simpl in Hin2. apply not_elem_of_cons in Hin2 as [Hin2 _].
    rewrite !lookup_insert_ne, lookup_delete_ne by congruence. by apply Ho.
Qed.

Lemma log_all_inv calls ls rots s :
  let '(ls', rots', s') := log_all to_string calls s in
  NoDup (rots ++ rots') → path ∉ map (rotated_path path) (rots ++ rots') →
  audit_inv ls rots s → audit_inv (ls ++ ls') (rots ++ rots') s'.
Proof.
  revert ls rots s. induction calls as [|[ts entry] calls IH]; intros ls rots s; simpl.
  { by rewrite !app_nil_r. }
  unfold log. destruct (to_string entry) as [json|e] eqn:Ej.
  2: { specialize (IH ls rots s). simpl. by destruct (log_all to_string calls s) as [[ls' rots'] s']. }
  set (line := json +:+ newline). case_decide as Hbig.
  - rewrite bool_decide_true by done.
    destruct (rotate_log ts None None s) as [[[]|e] s1] eqn:Er; simpl.
    + specialize (IH (ls ++ [line]) (rots ++ [ts]) (append_line line (reset_size s1))).
      destruct (log_all to_string calls _) as [[ls' rots'] s'].
      rewrite <-!app_assoc in IH. cbn [app] in IH. intros Hnd Hp Hinv.
      assert (path ∉ map (rotated_path path) (rots ++ [ts])) as Hp'.
      { intros Hin. apply Hp. rewrite map_app in *. set_solver. }
      apply IH; [done..|]. apply (append_line_inv ls (rots ++ [ts])); [done|].
      apply NoDup_app in Hnd as (_ & Hnd & _).
      destruct (rotate_inv ls rots s ts) as (s2 & E2 & Hi); [done| |done|rewrite Er in E2; by simplify_eq].
      intros Hin. by apply (Hnd ts); [|left].
    + destruct (log_all to_string calls s1) as [[ls' rots'] s']. intros Hnd Hp Hinv. exfalso.
      destruct (rotate_inv ls rots s ts) as (s2 & E2 & Hi); [| |done|rewrite Er in E2; by simplify_eq].
      * intros Hin. apply Hp. rewrite map_app in *. simpl in *. set_solver.
      * apply NoDup_app in Hnd as (_ & Hnd & _). intros Hin. by apply (Hnd ts); [|left].
  - rewrite bool_decide_false by done. simpl.
    specialize (IH (ls ++ [line]) rots (append_line line s)).
    destruct (log_all to_string calls _) as [[ls' rots'] s']. rewrite <-app_assoc in IH.
    intros Hnd Hp Hinv. apply IH; [done..|]. apply append_line_inv; [|done].
    intros Hin. apply Hp. rewrite map_app. set_solver.
Qed.
End complete.


(** ** Examples *)

Definition demo_entry (action : string) : AuditLogEntry :=
  create_audit_entry "t" None None action 7 None "success" "".
Definition demo_to_string (e : AuditLogEntry) : result string string := Ok (al_action e).

Definition demo_calls (ts1 ts2 : string) : list (string * AuditLogEntry) :=
  [(ts1, demo_entry "kill"); (ts2, demo_entry "throttle")].


(** Two rotations in one second: what the file held at the start is gone. *)
Example same_second_rotation_loses_a_file :
  let fs' := (log_all demo_to_string (demo_calls "20240101_000000" "20240101_000000")
                (audit_new {["log/audit.log" := "old"]} "log/audit.log" 0)).2.2 in
  map_to_list fs' = [("log/audit.log", "throttle" +:+ newline);
                     ("log/audit.20240101_000000.log", "kill" +:+ newline)]
  ∨ map_to_list fs' = [("log/audit.20240101_000000.log", "kill" +:+ newline);
                       ("log/audit.log", "throttle" +:+ newline)].
Proof. vm_compute. auto. Qed.
