(* ===== verification/Hub.v ===== *)
(** * The hub's event intake (hub/src/main.rs: start-up and [handle_connection])

    One message of an agent: parsed, attributed to a node, de-duplicated,
    applied to the graph, put in the event window, logged, and checked for
    irreversible faults; and the table of connections through which commands
    are sent.  A message is handled as one step.  The theorems: what the hub
    keeps stays well-formed and bounded; a restart rebuilds the state from the
    log; and how the connection table follows connections, including the cases
    where it loses a live one or keeps a dead one. *)

From S2P Require Import Prelude Event Signals Graph GraphInv Dedup K8s Wal.

(** ** Messages *)

(** The fields of the envelope as read; the attributes of the source give the
    defaults. *)
Record HubEventEnvelope := mkHubEventEnvelope {
  env_kind : option string;
  env_protocol_version : option string;
  env_schema_version : option string;
  env_agent_id : option string;
  env_feature_flags : option (list string);
  env_event : Event
}.

Definition default_kind : string := "event".
Definition default_protocol_version : string := "1.0".
Definition default_schema_version : string := "1.0".

Inductive Message := Text (s : string) | Close | OtherMessage | ReadError (e : string).

Section hub.
Context (parse_envelope : string → result string HubEventEnvelope)
        (from_json : string → result string Event) (to_json : Event → result string string)
        (hasher : fingerprint_input → N) (event_buffer_size : nat) (dedup_window_ms : N).

Definition parse_hub_event_message (raw : string) : result string Event :=
  match parse_envelope raw with
  | Ok envelope =>
      let protocol_version := default default_protocol_version (env_protocol_version envelope) in
      let kind := default default_kind (env_kind envelope) in
      if is_empty protocol_version then Err "protocol_version 不能为空"
      else if decide (kind ≠ "event") then Err ("当前仅支持 kind=event，收到: " +:+ kind)
      else
        let event := env_event envelope in
        Ok (match ev_node_id event with
            | None => with_node_id (env_agent_id envelope) event
            | Some _ => event
            end)
  | Err _ =>
      match from_json raw with
      | Ok e => Ok e
      | Err e => Err ("无法解析消息: " +:+ e)
      end
  end.

(** ** The hub *)

Record HubState := mkHubState {
  hub_mem : HubMem;
  hub_wal : WalState;
  hub_connections : gmap string N;        (** node id to the sender of a connection *)
  hub_k8s : bool;                         (** the controller is configured *)
  hub_faults : list IrreversibleFault     (** handed to background tasks *)
}.

Definition with_mem (m : HubMem) (h : HubState) : HubState :=
  mkHubState m (hub_wal h) (hub_connections h) (hub_k8s h) (hub_faults h).
Definition with_connections (c : gmap string N) (h : HubState) : HubState :=
  mkHubState (hub_mem h) (hub_wal h) c (hub_k8s h) (hub_faults h).

(** An event that has its node id: from the filter on. *)
Definition ingest (h : HubState) (event : Event) : HubState :=
  let m := hub_mem h in
  let '(accepted, dedup) :=
    accept_event_with_dedup hasher event (hm_dedup m) dedup_window_ms in
  if negb accepted then with_mem (mkHubMem (hm_graph m) (hm_buffer m) dedup) h
  else
    match process_event (hm_graph m) event with
    | (g, Err _) => with_mem (mkHubMem g (hm_buffer m) dedup) h
    | (g, Ok _) =>
        let wal := match append_wal_event to_json (hub_wal h) event with
                   | Ok (wal, _) => wal
                   | Err _ => hub_wal h
                   end in
        let faults := if hub_k8s h
                      then hub_faults h ++ option_list (detect_irreversible_fault event)
                      else hub_faults h in
        mkHubState (mkHubMem g (push_event event_buffer_size (hm_buffer m) event) dedup)
          wal (hub_connections h) (hub_k8s h) faults
    end.

(** A connection: the node it is known as, and its sender. *)
Record Conn := mkConn { conn_node_id : string; conn_tx : N }.

Definition connect (h : HubState) (ip : string) (tx : N) : Conn * HubState :=
  let node_id := "node-" +:+ ip in
  (mkConn node_id tx, with_connections (<[node_id := tx]> (hub_connections h)) h).

(** The event's node id renames the connection; an event without one gets the
    connection's. *)
Definition attribute (c : Conn) (h : HubState) (event : Event) : Conn * HubState * Event :=
  match ev_node_id event with
  | Some id =>
      if decide (id ≠ conn_node_id c) then
        (mkConn id (conn_tx c),
         with_connections
           (<[id := conn_tx c]> (delete (conn_node_id c) (hub_connections h))) h, event)
      else (c, h, event)
  | None => (c, h, with_node_id (Some (conn_node_id c)) event)
  end.

Definition disconnect (c : Conn) (h : HubState) : HubState :=
  with_connections (delete (conn_node_id c) (hub_connections h)) h.

(** One message: the connection goes on ([Some]), or has ended ([None]).  A
    read error leaves the function through [?], before the clean-up. *)
Definition handle_message (c : Conn) (h : HubState) (msg : Message) : option Conn * HubState :=
  match msg with
  | Text text =>
      match parse_hub_event_message text with
      | Ok event => let '(c', h', event') := attribute c h event in (Some c', ingest h' event')
      | Err _ => (Some c, h)
      end
  | Close => (None, disconnect c h)
  | OtherMessage => (Some c, h)
  | ReadError _ => (None, h)
  end.

(** ** Several connections *)

Inductive Input :=
| Connected (ip : string)
| Received (i : nat) (msg : Message)
| StreamEnded (i : nat).

(** The hub and its connections, in order of arrival; the sender of a
    connection is its index. *)
Definition hub_input (s : HubState * list (option Conn)) (inp : Input)
  : HubState * list (option Conn) :=
  let '(h, cs) := s in
  match inp with
  | Connected ip =>
      let '(c, h') := connect h ip (N.of_nat (length cs)) in (h', cs ++ [Some c])
  | Received i msg =>
      match cs !! i with
      | Some (Some c) => let '(c', h') := handle_message c h msg in (h', <[i := c']> cs)
      | _ => s
      end
  | StreamEnded i =>
      match cs !! i with
      | Some (Some c) => (disconnect c h, <[i := None]> cs)
      | _ => s
      end
  end.

(** ** Start-up: replay, then open the log for appending *)

Definition hub_start (rf : ReadFaults) (d : Disk) (wal_max_mb : N) (k8s : bool) : result string HubState :=
  match replay_wal from_json hasher event_buffer_size dedup_window_ms rf hub_mem_new d with
  | Ok (m, _) => Ok (mkHubState m (open_wal_writer d wal_max_mb) ∅ k8s [])
  | Err e => Err e
  end.
End hub.

Section intake.
Context (parse_envelope : string → result string HubEventEnvelope)
        (from_json : string → result string Event) (to_json : Event → result string string)
        (hasher : fingerprint_input → N) (size : nat) (window : N).

Local Notation hub_ingest := (ingest to_json hasher size window).
Local Notation hub_in := (hub_input parse_envelope from_json to_json hasher size window).
Local Notation start := (hub_start from_json hasher size window no_read_faults).

(** The memory part of [ingest] is the step of the replay. *)
Lemma ingest_mem h e : hub_mem (hub_ingest h e) = mem_step hasher size window (hub_mem h) e.
Proof.
  unfold ingest, mem_step, replay_event.
  destruct (accept_event_with_dedup hasher e _ window) as [[] d]; simpl; [|done].
  by destruct (process_event _ e) as [g []].
Qed.

Lemma ingest_run_mem evs h :
  hub_mem (foldl hub_ingest h evs) = foldl (mem_step hasher size window) (hub_mem h) evs.
Proof.
  revert h. induction evs as [|e evs IH]; intros h; simpl; [done|]. by rewrite IH, ingest_mem.
Qed.

(** The log part appends exactly the accepted events. *)
Lemma ingest_run_wal evs h :
  hub_wal (foldl hub_ingest h evs)
  = (append_all to_json (hub_wal h)
       (dedup_run hasher (hm_dedup (hub_mem h)) window evs).1).1.1.
Proof.
  revert h. induction evs as [|e evs IH]; intros h; simpl; [done|]. rewrite IH, ingest_mem.
  unfold ingest, mem_step, replay_event.
  destruct (accept_event_with_dedup hasher e (hm_dedup (hub_mem h)) window) as [[] d] eqn:Ea; simpl.
  - rewrite process_event_eq. simpl.
    destruct (dedup_run hasher d window evs) as [acc d'] eqn:Er. simpl.
    destruct (append_wal_event to_json (hub_wal h) e) as [[st r]|] eqn:Ew;
      unfold append_wal_event in Ew; destruct (to_json e); try done.
    by destruct (append_all to_json st acc) as [[]].
  - by destruct (dedup_run hasher d window evs) as [acc d'].
Qed.

Lemma replay_events_app m s evs1 evs2 :
  replay_events hasher size window m s (evs1 ++ evs2)
  = replay_events hasher size window (replay_events hasher size window m s evs1).1
      (replay_events hasher size window m s evs1).2 evs2.
Proof. unfold replay_events. rewrite foldl_app. by rewrite <-surjective_pairing. Qed.

(** The memory a replay ends with does not depend on the counters. *)
Lemma replay_events_mem m s s' evs :
  (replay_events hasher size window m s evs).1 = (replay_events hasher size window m s' evs).1.
Proof.
  revert m s s'. unfold replay_events. induction evs as [|e evs IH]; intros m s s'; simpl; [done|].
  rewrite (surjective_pairing (replay_event hasher size window m s e)).
  rewrite (surjective_pairing (replay_event hasher size window m s' e)).
  rewrite !replay_event_mem. apply IH.
Qed.

(** Replaying the two files is replaying their lines in sequence. *)
Lemma replay_wal_lines m st old cur evs_old evs_cur :
  wal_file st = unlines cur → default "" (wal_rotated st) = unlines old →
  Forall2 (good_line to_json from_json) evs_old old →
  Forall2 (good_line to_json from_json) evs_cur cur →
  ∃ s, replay_wal from_json hasher size window no_read_faults m (wal_disk st)
       = Ok ((replay_events hasher size window m replay_stats_default (evs_old ++ evs_cur)).1, s).
Proof.
  intros Hc Ho Hgo Hgc.
  assert (∀ evs ls m, Forall2 (good_line to_json from_json) evs ls →
    replay_wal_file from_json hasher size window None m (unlines ls)
    = Ok (replay_events hasher size window m replay_stats_default evs)) as Hfile.
  { intros evs ls m0 Hg. unfold replay_wal_file. rewrite file_lines_unlines.
    - by apply replay_lines_good with (to_json := to_json).
    - intros l [i Hi]%list_elem_of_lookup.
      destruct (Forall2_lookup_r _ _ _ _ _ Hg Hi) as (e & _ & []). done. }
  rewrite replay_events_app. unfold replay_wal, wal_disk. cbn -[replay_wal_file replay_events]. rewrite Hc.
  destruct (wal_rotated st) as [content|]; simpl in Ho.
  - rewrite Ho, (Hfile _ _ _ Hgo).
    destruct (replay_events hasher size window m replay_stats_default evs_old) as [m1 s1]. cbn -[replay_wal_file replay_events].
    rewrite (Hfile _ _ _ Hgc). eexists.
    rewrite (surjective_pairing (replay_events _ _ _ m1 replay_stats_default evs_cur)).
    by rewrite (replay_events_mem m1 replay_stats_default s1).
  - assert (evs_old = []) as ->.
    { destruct old; [by inversion Hgo|]. simpl in Ho. by destruct s. }
    cbn -[replay_wal_file replay_events]. rewrite (Hfile _ _ _ Hgc). eexists.
    by rewrite (surjective_pairing (replay_events _ _ _ m replay_stats_default evs_cur)).
Qed.

(** The lines written for events the codec handles. *)
Lemma append_all_lines st evs :
  (∀ e, e ∈ evs → ∃ s, good_line to_json from_json e s) →
  Forall2 (good_line to_json from_json) evs (append_all to_json st evs).1.2.
Proof.
  revert st. induction evs as [|e evs IH]; intros st H; simpl; [constructor|].
  destruct (H e) as [s Hs]; [by left|].
  destruct (append_wal_event to_json st e) as [[st' r]|] eqn:Ea.
  2: { unfold append_wal_event in Ea. by rewrite (gl_write _ _ _ _ Hs) in Ea. }
  rewrite (gl_write _ _ _ _ Hs).
  specialize (IH st' ltac:(intros; apply H; by right)).
  destruct (append_all to_json st' evs) as [[st'' ls] n]. simpl in *. by constructor.
Qed.

Lemma dedup_run_elem store evs e :
  e ∈ (dedup_run hasher store window evs).1 → e ∈ evs.
Proof.
  revert store. induction evs as [|f evs IH]; intros store; simpl; [done|].
  destruct (accept_event_with_dedup hasher f store window) as [ok store'].
  specialize (IH store'). destruct (dedup_run hasher store' window evs) as [acc d]. simpl in *.
  destruct ok; [intros [->|?]%elem_of_cons; [by left|right; auto]|right; auto].
Qed.
(** A hub started on an empty disk. *)
Definition fresh_hub (wal_max_mb : N) (k8s : bool) : HubState :=
  mkHubState hub_mem_new (open_wal_writer (mkDisk None None) wal_max_mb) ∅ k8s [].

Lemma fresh_hub_start mb k8s : start (mkDisk None None) mb k8s = Ok (fresh_hub mb k8s).
Proof. done. Qed.

(** After any run of events with non-decreasing timestamps that rotated the log
    at most once, a hub restarted on the files left on disk has exactly the
    graph, signal windows included, and the event window of the hub before the
    restart. *)
Lemma restart_recovers_state mb k8s evs
  (Hsort : StronglySorted N.le (map ev_ts evs))
  (Hcodec : ∀ e, e ∈ evs → ∃ s, good_line to_json from_json e s)
  (Hrot : (append_all to_json (hub_wal (fresh_hub mb k8s)) (dedup_run hasher ∅ window evs).1).2 ≤ 1) :
  let h := foldl hub_ingest (fresh_hub mb k8s) evs in
  ∃ h', start (wal_disk (hub_wal h)) mb k8s = Ok h'
    ∧ hm_graph (hub_mem h') = hm_graph (hub_mem h)
    ∧ hm_buffer (hub_mem h') = hm_buffer (hub_mem h).
Proof.
  simpl. set (acc := (dedup_run hasher ∅ window evs).1).
  assert (Forall2 (good_line to_json from_json) acc
            (append_all to_json (hub_wal (fresh_hub mb k8s)) acc).1.2) as Hgood.
  { apply append_all_lines. intros e He%dedup_run_elem. by apply Hcodec. }
  rewrite ingest_run_mem. pose proof (ingest_run_wal evs (fresh_hub mb k8s)) as Hw.
  simpl hm_dedup in Hw. fold acc in Hw. rewrite Hw. fold acc in Hrot.
  assert (wal_inv (hub_wal (fresh_hub mb k8s)) 0 [] [] []) as Hw0 by (split; auto).
  pose proof (append_all_inv to_json acc _ 0 [] [] [] Hw0) as Hinv.
  destruct (append_all to_json (hub_wal (fresh_hub mb k8s)) acc) as [[st ls] n]. simpl in *.
  destruct Hinv as (_ & gone & old & cur & Heq & Hi).
  rewrite (wi_one _ _ _ _ _ Hi) in Heq by lia. simpl in Heq. subst ls.
  apply Forall2_app_inv_r in Hgood as (evs_old & evs_cur & Ho & Hc & Hacc).
  destruct (replay_wal_lines hub_mem_new st old cur evs_old evs_cur) as [s Hs]; [apply Hi..|done|done|].
  unfold hub_start. rewrite Hs. eexists. split; [done|]. simpl. rewrite <-Hacc.
  destruct (replay_accepted hasher size window evs hub_mem_new hub_mem_new replay_stats_default 0)
    as [(t & Hg & Hb & _) _].
  - split_and!; [done..|]. by intros ? _.
  - constructor; [done|]. apply Forall_forall. intros; lia.
  - by rewrite Hg, Hb.
Qed.
(** ** What every input preserves *)

(** The lines of events that could be written down. *)
Definition lines_of (evs : list Event) : list string :=
  omap (λ e, match to_json e with Ok text => Some text | Err _ => None end) evs.

(** The hub after it has accepted some events, all of them since its start on an
    empty disk. *)
Record hub_ok (accepted : list Event) (h : HubState) : Prop := {
  ho_wf : graph_wf (hm_graph (hub_mem h));
  ho_graph : hm_graph (hub_mem h) = process_events state_graph_new accepted;
  ho_buffer : hm_buffer (hub_mem h) = drop (length accepted - Nat.max 1 size) accepted;
  ho_wal : ∃ rotations gone old cur, lines_of accepted = gone ++ old ++ cur
             ∧ wal_inv (hub_wal h) rotations gone old cur
}.

(** The events that come in, in order: the texts read on open connections that
    can be parsed, each under the node it names or its connection is known by. *)
Fixpoint events_in (s : HubState * list (option Conn)) (inputs : list Input) : list Event :=
  match inputs with
  | [] => []
  | inp :: inputs' =>
      match inp with
      | Received i (Text text) =>
          match s.2 !! i, parse_hub_event_message parse_envelope from_json text with
          | Some (Some c), Ok ev =>
              [with_node_id (Some (default (conn_node_id c) (ev_node_id ev))) ev]
          | _, _ => []
          end
      | _ => []
      end ++ events_in (hub_in s inp) inputs'
  end.

(** Of these, the ones that are not repeats. *)
Definition accepted_in (s : HubState * list (option Conn)) (inputs : list Input) : list Event :=
  (dedup_run hasher (hm_dedup (hub_mem s.1)) window (events_in s inputs)).1.

Lemma push_event_drop buf e past :
  buf = drop (length past - Nat.max 1 size) past →
  push_event size buf e = drop (length (past ++ [e]) - Nat.max 1 size) (past ++ [e]).
Proof.
  intros ->. unfold push_event. rewrite length_app, length_drop. simpl.
  destruct (decide (length past = 0)) as [H0|H0].
  { apply length_zero_iff_nil in H0 as ->. simpl. replace (1 - Nat.max 1 size) with 0 by lia. by case_decide. }
  case_decide as Hd; rewrite ?drop_drop, drop_app_le by lia; do 2 f_equal; lia.
Qed.

Lemma ingest_ok past h e :
  hub_ok past h →
  hub_ok (past ++ if (accept_event_with_dedup hasher e (hm_dedup (hub_mem h)) window).1 then [e] else [])
    (hub_ingest h e).
Proof.
  intros [Hwf Hg Hb (n & gone & old & cur & Hl & Hw)]. unfold ingest.
  destruct (accept_event_with_dedup hasher e _ window) as [[] d]; simpl;
    [|rewrite app_nil_r; by split; eauto 10].
  pose proof (process_event_wf _ e Hwf) as Hwf'. rewrite process_event_eq in *. split; simpl.
  - done.
  - unfold process_events in *. rewrite foldl_app. simpl. rewrite <-Hg. by rewrite process_event_eq.
  - by apply push_event_drop.
  - unfold lines_of in *. rewrite omap_app, Hl. simpl.
    destruct (append_wal_event to_json (hub_wal h) e) as [[st r]|] eqn:Ea.
    + destruct (to_json e) as [text|] eqn:Ej; [|unfold append_wal_event in Ea; by rewrite Ej in Ea].
      destruct (append_inv _ _ _ _ _ _ _ _ _ _ Hw Ej Ea) as [_ H].
      destruct (rotated r); do 4 eexists; (split; [|exact H]); by rewrite <-!app_assoc.
    + unfold append_wal_event in Ea. destruct (to_json e); [done|]. rewrite app_nil_r. eauto 10.
Qed.

Lemma with_connections_ok past c h : hub_ok past h → hub_ok past (with_connections c h).
Proof. by intros []; split. Qed.

Lemma fresh_hub_ok mb k8s : hub_ok [] (fresh_hub mb k8s).
Proof. split; simpl; [apply graph_new_wf|done|done|]. exists 0, [], [], []. split; [done|]. split; auto. Qed.

Lemma ingest_dedup h e :
  hm_dedup (hub_mem (hub_ingest h e)) = (accept_event_with_dedup hasher e (hm_dedup (hub_mem h)) window).2.
Proof.
  unfold ingest. destruct (accept_event_with_dedup hasher e _ window) as [[] d]; simpl; [|done].
  by rewrite process_event_eq.
Qed.

(** One input: its event, when it brings one, goes through the filter. *)
Lemma hub_in_ok past s inp :
  hub_ok past s.1 →
  let r := dedup_run hasher (hm_dedup (hub_mem s.1)) window (events_in s [inp]) in
  hub_ok (past ++ r.1) (hub_in s inp).1 ∧ hm_dedup (hub_mem (hub_in s inp).1) = r.2.
Proof.
  destruct s as [h cs]. intros Hok. destruct inp as [ip|i msg|i]; cbn [events_in fst snd]; rewrite ?app_nil_r.
  - simpl. rewrite ?app_nil_r. split; [by apply with_connections_ok|done].
  - simpl. destruct msg as [text| | |e]; rewrite ?app_nil_r; simpl;
      (destruct (cs !! i) as [[c|]|] eqn:Ec; [|by simpl; rewrite ?app_nil_r..]); simpl;
      [|rewrite ?app_nil_r; by split; [apply with_connections_ok|]|by rewrite ?app_nil_r..].
    destruct (parse_hub_event_message _ _ _) as [ev|]; simpl; [|by rewrite ?app_nil_r].
    assert (∀ h1 e, hub_mem h1 = hub_mem h → hub_ok past h1 →
      let r := dedup_run hasher (hm_dedup (hub_mem h)) window [e] in
      hub_ok (past ++ r.1) (hub_ingest h1 e) ∧ hm_dedup (hub_mem (hub_ingest h1 e)) = r.2) as Hone.
    { intros h1 e Hm H1. pose proof (ingest_ok past h1 e H1) as H. rewrite ingest_dedup. rewrite Hm in *. simpl.
      by destruct (accept_event_with_dedup hasher e (hm_dedup (hub_mem h)) window) as [[] d]. }
    unfold attribute. destruct (ev_node_id ev) as [id|] eqn:En; simpl.
    + assert (with_node_id (Some id) ev = ev) as -> by (destruct ev; simpl in *; by subst).
      case_decide; apply Hone; try done. by apply with_connections_ok.
    + by apply Hone.
  - simpl. rewrite ?app_nil_r. destruct (cs !! i) as [[c|]|]; [|done..].
    split; [by apply with_connections_ok|done].
Qed.

Lemma dedup_run_app store evs1 evs2 :
  dedup_run hasher store window (evs1 ++ evs2)
  = let r1 := dedup_run hasher store window evs1 in
    let r2 := dedup_run hasher r1.2 window evs2 in (r1.1 ++ r2.1, r2.2).
Proof.
  revert store. induction evs1 as [|e evs1 IH]; intros store; simpl.
  { by destruct (dedup_run hasher store window evs2). }
  destruct (accept_event_with_dedup hasher e store window) as [ok store']. rewrite IH. simpl.
  destruct (dedup_run hasher store' window evs1) as [acc d]. by destruct ok.
Qed.


(** ** The connection table *)

Definition run_messages (c : Conn) (h : HubState) (msgs : list Message) : option Conn * HubState :=
  foldl (λ s m, match s.1 with
                | Some c => handle_message parse_envelope from_json to_json hasher size window c s.2 m
                | None => s
                end) (Some c, h) msgs.

Definition table_of (c : option Conn) : gmap string N :=
  match c with Some c => {[conn_node_id c := conn_tx c]} | None => ∅ end.

Lemma ingest_connections h e : hub_connections (hub_ingest h e) = hub_connections h.
Proof.
  unfold ingest. destruct (accept_event_with_dedup hasher e _ window) as [[] d]; simpl; [|done].
  by rewrite process_event_eq.
Qed.

Lemma handle_message_table c h m :
  (∀ e, m ≠ ReadError e) → hub_connections h = table_of (Some c) →
  let r := handle_message parse_envelope from_json to_json hasher size window c h m in
  hub_connections r.2 = table_of r.1.
Proof.
  intros Hm Ht. destruct m as [text| | |e]; simpl; [| |done|by destruct (Hm e)].
  - destruct (parse_hub_event_message _ _ _) as [ev|]; [|done]. unfold attribute.
    destruct (ev_node_id ev) as [id|]; simpl; [|by rewrite ingest_connections].
    case_decide; simpl; rewrite ingest_connections; [|done]. simpl. rewrite Ht. simpl.
    by rewrite delete_singleton_eq.
  - rewrite Ht. simpl. by rewrite delete_singleton_eq.
Qed.

(** A connection on its own is tracked exactly: as long as reading from it
    does not fail, the table holds precisely its current node id with its
    sender, through every renaming, and is empty once it has closed. *)
Theorem single_connection_tracked mb k8s ip tx msgs
  (Hread : ∀ m e, m ∈ msgs → m ≠ ReadError e) :
  let '(c, h) := connect (fresh_hub mb k8s) ip tx in
  let r := run_messages c h msgs in
  hub_connections r.2 = table_of r.1.
Proof.
  simpl. unfold run_messages.
  assert (∀ s, hub_connections s.2 = table_of s.1 →
    let r := foldl (λ s m, match s.1 with
      | Some c => handle_message parse_envelope from_json to_json hasher size window c s.2 m
      | None => s end) s msgs in hub_connections r.2 = table_of r.1) as Hgen.
  { induction msgs as [|m msgs IH]; intros [oc h] Ht; simpl; [done|].
    apply IH; [intros; apply Hread; by right|]. destruct oc as [c|]; simpl; [|done].
    apply handle_message_table; [|done]. intros e. apply Hread. by left. }
  apply Hgen. simpl. by rewrite insert_empty.
Qed.
End intake.

(** ** Concrete runs *)

(** Text messages that are the node id of a drop event. *)
Definition demo_envelope (s : string) : result string HubEventEnvelope :=
  Ok (mkHubEventEnvelope None None None None None
        (mkEvent 1000 TransportDrop "eth0" None None s (Some s))).

Definition demo_inputs (inputs : list Input) : HubState * list (option Conn) :=
  foldl (hub_input demo_envelope demo_from_json demo_to_json demo_hasher 16 500)
    (fresh_hub 1 false, []) inputs.

(** A reconnecting agent can lose its route: when an agent reconnects and
    announces itself before its old connection is seen to end, the end of the
    old connection removes the entry of the new one, and further events of the
    live connection do not bring it back, so commands for the node cannot be
    sent. *)
Theorem reconnect_can_lose_route :
  let before := [Connected "10.0.0.1"; Received 0 (Text "gpu-node");
                 Connected "10.0.0.1"; Received 1 (Text "gpu-node")] in
  let after := before ++ [Received 0 Close; Received 1 (Text "gpu-node")] in
  hub_connections (demo_inputs before).1 !! "gpu-node" = Some 1%N
  ∧ hub_connections (demo_inputs after).1 !! "gpu-node" = None
  ∧ (demo_inputs after).2 = [None; Some (mkConn "gpu-node" 1)].
Proof. split_and!; vm_compute; reflexivity. Qed.

(** A connection whose reading fails is never taken out of the table: the
    error returns from the handler before the clean-up. *)
Theorem read_error_keeps_dead_route :
  let s := demo_inputs [Connected "10.0.0.1"; Received 0 (Text "gpu-node");
                        Received 0 (ReadError "reset by peer")] in
  hub_connections s.1 !! "gpu-node" = Some 0%N ∧ s.2 = [None].
Proof. split; vm_compute; reflexivity. Qed.

Lemma single_connection_tracked_witness :
  hub_connections (run_messages demo_envelope demo_from_json demo_to_json demo_hasher 16 500
    (mkConn "node-10.0.0.1" 0) (connect (fresh_hub 1 false) "10.0.0.1" 0).2
    [Text "a"; Text "b"; OtherMessage]).2 = {["b" := 0%N]}.
Proof.
  refine (single_connection_tracked demo_envelope demo_from_json demo_to_json demo_hasher 16 500
            1 false "10.0.0.1" 0 [Text "a"; Text "b"; OtherMessage] _).
  intros m e Hm ->. repeat (apply elem_of_cons in Hm as [?|Hm]; [done|]). by apply elem_of_nil in Hm.
Defined.
