(* ===== verification/HubApi.v ===== *)
(** * The hub's HTTP API (hub/src/main.rs, [create_api_routes] and its helpers)

    Cluster-wide root causes, the rule-driven diagnosis with its guarded
    execution of remediation commands, and the command relay to connected
    agents.  A handler is a function from the query parameters, the clock and
    the shared state to the JSON reply and the new state.  A [HashMap] is
    iterated in the order of [map_to_list].  The theorems: what the cluster
    query returns, that a started process is found by it, that only an allowed
    and requested execution has effects, and exactly which commands one sends. *)

From Stdlib Require Import SpecFloat.
From S2P Require Import Prelude Text F64 Json Event Signals Graph GraphInv RootCause GraphEffects Rule Matcher.
From S2P Require Import RuleFiles RuleEngine K8s.

(** ** Cluster-wide root causes *)

(** The search always returns; see [RootCause]. *)
Definition root_causes (g : StateGraph) (id : string) : list string :=
  default [] (find_root_cause_by_id g id).

Definition job_pids (g : StateGraph) (target_job_id : string) : list string :=
  map fst (filter (λ p, node_type p.2 = Process ∧ metadata p.2 !! "job_id" = Some target_job_id)
             (map_to_list (nodes g))).

(** The entry of the process list, for an id [node::pid-N]. *)
Definition process_entry (pid_id : string) : option Json :=
  if contains "::" pid_id then
    let parts := split_str "::" pid_id in
    pid_part ← parts !! 1;
    pid_str ← strip_prefix "pid-" pid_part;
    pid ← parse_u32 pid_str;
    Some (JObj [("node_id", JStr (default "" (head parts))); ("pid", JNum pid);
                ("node_id_full", JStr pid_id)])
  else None.

Definition cause_info (pid_id cause : string) : string :=
  if contains "::" pid_id
  then default "unknown" (head (split_str "::" pid_id)) +:+ ": " +:+ cause
  else cause.

Definition cluster_why (g : StateGraph) (target_job_id : string) : list string * list Json :=
  let pids := job_pids g target_job_id in
  match pids with
  | [] => (["未找到 job_id=" +:+ target_job_id +:+ " 的进程"], [])
  | _ =>
      let causes := concat (map (λ id, map (cause_info id) (root_causes g id)) pids) in
      (sort_dedup causes, omap process_entry pids)
  end.

(** ** Policy *)

Record PolicyAction := mkPolicyAction {
  pa_type : string; pa_node_id : string; pa_target_pid : N; pa_action : string; pa_dry_run : bool }.

Definition physical_degradation (scenes : list string) : bool :=
  existsb (contains "physical_degradation") scenes.

(** [pid as u32] keeps the low 32 bits. *)
Definition policy_action (action : string) (dry_run : bool) (p : Json) : option PolicyAction :=
  node_id ← jget "node_id" p ≫= as_str;
  pid ← jget "pid" p ≫= as_u64;
  Some (mkPolicyAction "send_fix_command" node_id (pid mod 2 ^ 32)%N action dry_run).

Definition build_policy_actions (scenes : list string) (processes : list Json) (dry_run : bool)
  : list PolicyAction :=
  let action := if physical_degradation scenes then "KillProcess" else "GracefulShutdown" in
  omap (policy_action action dry_run) processes.

(** ** The execute guard *)

Record ExecuteGuard := mkExecuteGuard {
  available_permits : nat;
  guard_cooldown_ms : N;
  guard_max_actions : nat;
  last_action_ms : gmap string N;
  request_seq : N
}.

Definition execute_guard_new (max_concurrency : nat) (cooldown_s : N) (max_actions : nat)
  : ExecuteGuard :=
  mkExecuteGuard (Nat.max max_concurrency 1) (saturating_mul cooldown_s 1000)
    (Nat.max max_actions 1) ∅ 1.

Definition with_permits (n : nat) (x : ExecuteGuard) : ExecuteGuard :=
  mkExecuteGuard n (guard_cooldown_ms x) (guard_max_actions x) (last_action_ms x) (request_seq x).

(** [fetch_add] wraps around. *)
Definition next_request_id (x : ExecuteGuard) (now_ms : N) : string * ExecuteGuard :=
  ("req-" +:+ pretty now_ms +:+ "-" +:+ pretty (request_seq x),
   mkExecuteGuard (available_permits x) (guard_cooldown_ms x) (guard_max_actions x)
     (last_action_ms x) ((request_seq x + 1) mod 2 ^ 64)%N).

Definition guard_cooldown_s (x : ExecuteGuard) : N := (guard_cooldown_ms x / 1000)%N.

(** The permit is given back when it is dropped. *)
Definition try_acquire (x : ExecuteGuard) : result string ExecuteGuard :=
  match available_permits x with
  | 0 => Err "concurrency_limit_reached"
  | S n => Ok (with_permits n x)
  end.
Definition release (x : ExecuteGuard) : ExecuteGuard := with_permits (S (available_permits x)) x.

Definition cooldown_key (node_id action : string) : string := node_id +:+ "::" +:+ action.

Definition check_and_record_cooldown (x : ExecuteGuard) (node_id action : string) (now_ms : N)
  : result string unit * ExecuteGuard :=
  let key := cooldown_key node_id action in
  let cooling := match last_action_ms x !! key with
                 | Some prev => bool_decide (saturating_sub now_ms prev < guard_cooldown_ms x)%N
                 | None => false
                 end in
  if cooling then (Err ("cooldown_active:" +:+ pretty (guard_cooldown_s x) +:+ "s"), x)
  else (Ok (), mkExecuteGuard (available_permits x) (guard_cooldown_ms x) (guard_max_actions x)
                 (<[key := now_ms]> (last_action_ms x)) (request_seq x)).

(** ** Commands to agents *)

(** The senders of the connections, those whose receiving end is gone, and what
    has been queued on each. *)
Record Links := mkLinks {
  link_senders : gmap string N;
  link_closed : gset N;
  link_queued : list (N * string)
}.

Definition fix_command (target_pid : N) (action : string) : Json :=
  JObj [("intent", JStr "fix"); ("target_pid", JNum target_pid); ("action", JStr action)].

(** Query parameters. *)
Abbreviation params := (gmap string string).

Section api.
(** [serde_json::to_string] on a value, which cannot fail. *)
Context (render : Json → string).

Definition send_fix_command (l : Links) (node_id : string) (target_pid : N) (action : string)
  : result string unit * Links :=
  match link_senders l !! node_id with
  | None => (Err ("节点 " +:+ node_id +:+ " 未连接"), l)
  | Some tx =>
      if decide (tx ∈ link_closed l) then (Err "发送命令失败：连接已关闭", l)
      else (Ok (), mkLinks (link_senders l) (link_closed l)
                     (link_queued l ++ [(tx, render (fix_command target_pid action))]))
  end.

(** One action of the policy: the guard first, then the command. *)
Definition action_result (a : PolicyAction) (success : bool) (error : Json) : Json :=
  JObj [("node_id", JStr (pa_node_id a)); ("target_pid", JNum (pa_target_pid a));
        ("action", JStr (pa_action a)); ("success", JBool success); ("error", error)].

Definition execute_action (now_ts : N) (s : ExecuteGuard * Links) (a : PolicyAction)
  : Json * (ExecuteGuard * Links) :=
  let '(x, l) := s in
  match check_and_record_cooldown x (pa_node_id a) (pa_action a) now_ts with
  | (Ok _, x') =>
      match send_fix_command l (pa_node_id a) (pa_target_pid a) (pa_action a) with
      | (Ok _, l') => (action_result a true JNull, (x', l'))
      | (Err e, l') => (action_result a false (JStr e), (x', l'))
      end
  | (Err e, x') => (action_result a false (JStr e), (x', l))
  end.

Fixpoint execute_actions (now_ts : N) (s : ExecuteGuard * Links) (actions : list PolicyAction)
  : list Json * (ExecuteGuard * Links) :=
  match actions with
  | [] => ([], s)
  | a :: actions' =>
      let '(r, s1) := execute_action now_ts s a in
      let '(rs, s2) := execute_actions now_ts s1 actions' in
      (r :: rs, s2)
  end.

(** Acquire a permit, carry out the actions, give the permit back; the flag says
    that no permit was left. *)
Definition execute_policy (now_ts : N) (s : ExecuteGuard * Links) (actions : list PolicyAction)
  : list Json * bool * (ExecuteGuard * Links) :=
  match try_acquire s.1 with
  | Ok x =>
      let '(rs, (x', l')) := execute_actions now_ts (x, s.2) actions in
      (rs, false, (release x', l'))
  | Err e =>
      ([JObj [("success", JBool false); ("error", JStr e)]], true, s)
  end.

(** ** Isolating the nodes of a degraded job *)

Definition degradation_fault (node_id : string) : IrreversibleFault :=
  OtherHardwareFailure node_id "rdma physical degradation".

(** The clock readings of the [i]-th call of the controller. *)
Fixpoint isolate_nodes {C} (k8s : K8sApi C) (clock : nat → N * N) (i : nat)
    (k : Controller) (c : C) (processes : list Json) : list Json * Controller * C :=
  match processes with
  | [] => ([], k, c)
  | p :: processes' =>
      match jget "node_id" p ≫= as_str with
      | Some node_id =>
          let '(r, k1, c1) := handle_irreversible_fault k8s k c (clock i).1 (clock i).2
                                (degradation_fault node_id) in
          let failed := match r with
                        | Err e => [JObj [("node_id", JStr node_id); ("action", JStr "taint_evict");
                                          ("success", JBool false); ("error", JStr e)]]
                        | Ok _ => []
                        end in
          let '(rs, k2, c2) := isolate_nodes k8s clock (S i) k1 c1 processes' in
          (failed ++ rs, k2, c2)
      | None => isolate_nodes k8s clock (S i) k c processes'
      end
  end.

(** ** Handlers *)

(** [params.get(k).and_then(parse).unwrap_or(d).clamp(lo, hi)] *)
Definition clamped_param (q : params) (key : string) (d lo hi : N) : N :=
  clamp lo hi (default d (q !! key ≫= parse_u64)).

Definition window_events (buffer : list Event) (now_ts window_s : N) : list Event :=
  filter (λ e, (saturating_sub now_ts (window_s * 1000) ≤ ev_ts e)%N) buffer.

Definition job_events (buffer : list Event) (now_ts window_s : N) (job_id : string) : list Event :=
  filter (λ e, ev_job_id e = Some job_id) (window_events buffer now_ts window_s).

Definition missing_param (key : string) : Json :=
  JObj [("error", JStr ("missing " +:+ key +:+ " parameter"))].

Definition step_json (s : SolutionStep) : Json :=
  JObj [("step", JNum (step s)); ("action", JStr (action s));
        ("command", jopt JStr (command s)); ("manual", JBool (manual s))].

Definition rule_json (r : Rule) : Json :=
  JObj [("name", JStr (rule_name r)); ("scene", JStr (rule_scene r));
        ("priority", JNum (rule_priority r));
        ("root_cause", JStr (primary (rule_root_cause_pattern r)));
        ("solution_steps", JArr (map step_json (rule_solution_steps r)));
        ("related_evidences", jstrings (rule_related_evidences r))].

Definition policy_json (a : PolicyAction) : Json :=
  JObj [("type", JStr (pa_type a)); ("node_id", JStr (pa_node_id a));
        ("target_pid", JNum (pa_target_pid a)); ("action", JStr (pa_action a));
        ("dry_run", JBool (pa_dry_run a))].

(** The state the diagnosis reads and changes; [C] is the cluster. *)
Record ApiState (C : Type) := mkApiState {
  api_graph : StateGraph;
  api_rules : RuleEngine;
  api_buffer : list Event;
  api_allow_execute : bool;
  api_policy_version : string;
  api_guard : ExecuteGuard;
  api_links : Links;
  api_controller : option Controller;
  api_cluster : C
}.
Global Arguments mkApiState {_} _ _ _ _ _ _ _ _ _.
Global Arguments api_graph {_} _.
Global Arguments api_rules {_} _.
Global Arguments api_buffer {_} _.
Global Arguments api_allow_execute {_} _.
Global Arguments api_policy_version {_} _.
Global Arguments api_guard {_} _.
Global Arguments api_links {_} _.
Global Arguments api_controller {_} _.
Global Arguments api_cluster {_} _.

Definition with_effects {C} (s : ApiState C) (x : ExecuteGuard) (l : Links)
    (k : option Controller) (c : C) : ApiState C :=
  mkApiState (api_graph s) (api_rules s) (api_buffer s) (api_allow_execute s)
    (api_policy_version s) x l k c.

Definition execute_requested (q : params) : bool :=
  match q !! "execute" with
  | Some v => bool_decide (v = "1") || eq_ignore_ascii_case v "true"
  | None => false
  end.

(** [now_ts] is read for the window and the cool-down, [id_ms] for the request
    id. *)
Definition diagnose {C} (k8s : K8sApi C) (q : params) (now_ts id_ms : N) (clock : nat → N * N)
    (s : ApiState C) : Json * ApiState C :=
  match q !! "job_id" with
  | None => (missing_param "job_id", s)
  | Some job_id =>
      let window_s := clamped_param q "window_s" 60 10 3600 in
      let execute := api_allow_execute s && execute_requested q in
      let dry_run := negb execute in
      let candidate_events := job_events (api_buffer s) now_ts window_s job_id in
      let matched_rules := match_rules (api_rules s) (api_graph s) candidate_events in
      let scenes := map rule_scene matched_rules in
      let processes := (cluster_why (api_graph s) job_id).2 in
      let policy := build_policy_actions scenes processes dry_run in
      let '(request_id, x) := next_request_id (api_guard s) id_ms in
      let max_actions := guard_max_actions x in
      let trimmed_policy := take max_actions policy in
      let truncated := bool_decide (length trimmed_policy < length policy) in
      let '(execution, limited, x, l) :=
        if execute then
          let '(rs, limited, (x, l)) := execute_policy now_ts (x, api_links s) trimmed_policy in
          (rs, limited, x, l)
        else ([], false, x, api_links s) in
      let '(isolation, k, c) :=
        if execute && physical_degradation scenes then
          match api_controller s with
          | Some k => let '(rs, k, c) := isolate_nodes k8s clock 0 k (api_cluster s) processes in
                      (rs, Some k, c)
          | None => ([], None, api_cluster s)
          end
        else ([], api_controller s, api_cluster s) in
      (JObj [("job_id", JStr job_id); ("window_s", JNum window_s);
             ("event_count", JNum (N.of_nat (length candidate_events)));
             ("matched_rules", JArr (map rule_json matched_rules));
             ("processes", JArr processes);
             ("policy", JArr (map policy_json trimmed_policy));
             ("dry_run", JBool dry_run);
             ("execute_requested", JBool (execute_requested q));
             ("execute_enabled", JBool (api_allow_execute s));
             ("request_id", JStr request_id);
             ("policy_version", JStr (api_policy_version s));
             ("execution_guard",
              JObj [("max_actions", JNum (N.of_nat max_actions));
                    ("cooldown_s", JNum (guard_cooldown_s x));
                    ("truncated", JBool truncated); ("concurrency_limited", JBool limited)]);
             ("execution", JArr (execution ++ isolation))],
       with_effects s x l k c)
  end.

Definition why (q : params) (g : StateGraph) : Json :=
  match q !! "job_id" with
  | Some job_id =>
      let '(causes, processes) := cluster_why g job_id in
      JObj [("job_id", JStr job_id); ("causes", jstrings causes); ("processes", JArr processes)]
  | None => missing_param "job_id"
  end.

Definition ps (g : StateGraph) : Json :=
  JObj [("processes",
         JArr (map (λ n, JObj [("id", JStr (node_key n));
                               ("job_id", JStr (default "-" (metadata n !! "job_id")));
                               ("state", JStr (default "unknown" (metadata n !! "state")))])
                 (get_active_processes g)))].

(** POST /api/v1/fix: the reply and whether its status is success. *)
Record FixRequest := mkFixRequest {
  fix_node_id : string; fix_target_pid : N; fix_action : option string }.

Definition fix_route (req : FixRequest) (l : Links) : Json * bool * Links :=
  let action := default "GracefulShutdown" (fix_action req) in
  match send_fix_command l (fix_node_id req) (fix_target_pid req) action with
  | (Ok _, l') =>
      (JObj [("success", JBool true);
             ("message", JStr ("命令已发送到节点 " +:+ fix_node_id req))], true, l')
  | (Err _, l') =>
      (JObj [("error", JStr ("节点 " +:+ fix_node_id req +:+ " 未连接"))], false, l')
  end.

(** A file of the log as [metadata] shows it: length and modification time. *)
Definition file_meta : Type := N * option N.

Definition health (now_ms : N) (g : StateGraph) (l : Links) (wal_path : string)
    (active rotated : option file_meta) (rules : RuleEngine) : Json :=
  let stats := load_stats rules in
  JObj [("status", JStr "ok"); ("timestamp_ms", JNum now_ms);
        ("graph", JObj [("nodes_total", JNum (N.of_nat (size (get_nodes_async g))));
                        ("edges_total", JNum (N.of_nat (length (get_all_edges_async g))))]);
        ("connections", JObj [("agents_connected", JNum (N.of_nat (size (link_senders l))))]);
        ("rules", JObj [("loaded", JNum (N.of_nat (loaded_rules stats)));
                        ("skipped", JNum (N.of_nat (skipped_rules stats)));
                        ("legacy", JNum (N.of_nat (legacy_total stats)))]);
        ("wal", JObj [("path", JStr wal_path);
                      ("active_exists", JBool (bool_decide (is_Some active)));
                      ("active_size_bytes", JNum (default 0%N (fst <$> active)));
                      ("active_last_modified_ms", jopt JNum (active ≫= snd));
                      ("rotated_path", JStr (wal_path +:+ ".1"));
                      ("rotated_exists", JBool (bool_decide (is_Some rotated)));
                      ("rotated_size_bytes", JNum (default 0%N (fst <$> rotated)))])].
End api.

(** ** The cluster query *)

(** [id] is a process of the job in the graph. *)
Definition job_process (g : StateGraph) (job id : string) : Prop :=
  ∃ n, nodes g !! id = Some n ∧ node_type n = Process ∧ metadata n !! "job_id" = Some job.

Lemma job_pids_elem g job id : id ∈ job_pids g job ↔ job_process g job id.
Proof.
  unfold job_pids, job_process. rewrite list_elem_of_fmap. split.
  - intros ([i n] & -> & [[Ht Hm] Hn]%list_elem_of_filter). exists n.
    by rewrite elem_of_map_to_list in Hn.
  - intros (n & Hn & Ht & Hm). exists (id, n). rewrite list_elem_of_filter, elem_of_map_to_list. done.
Qed.

Lemma root_causes_elem g id c :
  c ∈ root_causes g id ↔ is_root_cause (edge_out_index (store g)) (nodes g) id c.
Proof.
  unfold root_causes. destruct (find_root_cause_by_id_spec g id) as (cs & -> & H). apply H.
Qed.

Lemma cluster_why_processes g job p :
  p ∈ (cluster_why g job).2 ↔ ∃ id, job_process g job id ∧ process_entry id = Some p.
Proof.
  setoid_rewrite <-job_pids_elem. unfold cluster_why.
  destruct (job_pids g job) as [|i l]; [|apply list_elem_of_omap].
  split; [by intros ?%elem_of_nil|by intros (? & ?%elem_of_nil & _)].
Qed.

(** [s] cut at the first double colon in it, as a reader of ids would. *)
Definition cut (s a b : string) : Prop :=
  s = a +:+ "::" +:+ b ∧ ∀ a' b', s = a' +:+ "::" +:+ b' → String.length a ≤ String.length a'.
Definition uncut (s : string) : Prop := ∀ a b, s ≠ a +:+ "::" +:+ b.

(** The second piece of an id: all of the rest, or the rest up to the next
    double colon. *)
Definition next_piece (rest piece : string) : Prop :=
  (uncut rest ∧ piece = rest) ∨ ∃ more, cut rest piece more.

(** The id names a process [pid] of [node]. *)
Definition names_process (id node : string) (pid : N) : Prop :=
  ∃ rest digits, cut id node rest ∧ next_piece rest ("pid-" +:+ digits) ∧ parse_u32 digits = Some pid.

(** The text of a cause of the process [id]. *)
Definition names_cause (id cause c : string) : Prop :=
  (uncut id ∧ c = cause) ∨ ∃ node rest, cut id node rest ∧ c = node +:+ ": " +:+ cause.

Lemma cut_inj s a b a' b' : cut s a b → cut s a' b' → a = a' ∧ b = b'.
Proof.
  intros [-> Ha] [Hs Ha']. pose proof (Ha _ _ Hs). pose proof (Ha' _ _ eq_refl).
  assert (a = a') as ->.
  { rewrite <-(substring_app a ("::" +:+ b)), <-(substring_app a' ("::" +:+ b')), Hs. f_equal. lia. }
  split; [done|]. rewrite <-(str_from_app (a' +:+ "::") b), <-(str_from_app (a' +:+ "::") b').
  by rewrite !str_app_assoc, Hs.
Qed.

Lemma cut_not_uncut s a b : cut s a b → ¬ uncut s.
Proof. intros [-> _] H. by apply (H a b). Qed.

(** What the search for the separator finds, and the pieces of a split. *)
Lemma find_cut s :
  (find "::" s = None ∧ uncut s)
  ∨ ∃ a b, find "::" s = Some (String.length a) ∧ cut s a b.
Proof.
  destruct (find "::" s) as [i|] eqn:E; [right|left; split; [done|exact (proj1 (find_None _ _) E)]].
  apply find_Some in E as (a & b & -> & <- & H). exists a, b. by split.
Qed.

Lemma split_pieces s fuel :
  (uncut s ∧ split_str_fuel fuel "::" s = [s])
  ∨ ∃ a b, cut s a b ∧ split_str_fuel (S fuel) "::" s = a :: split_str_fuel fuel "::" b.
Proof.
  destruct (find_cut s) as [[Hf Hu]|(a & b & Hf & Hc)].
  - left. split; [done|]. destruct fuel; simpl; by rewrite ?Hf.
  - right. exists a, b. split; [done|]. cbn [split_str_fuel]. rewrite Hf.
    destruct Hc as [-> _]. rewrite substring_app. do 2 f_equal.
    rewrite <-str_app_length, <-str_app_assoc. apply str_from_app.
Qed.

Lemma second_piece id node rest piece :
  cut id node rest → split_str "::" id !! 1 = Some piece ↔ next_piece rest piece.
Proof.
  intros Hc. unfold split_str. destruct (split_pieces id (String.length id)) as [[Hu _]|(a & b & Hc' & ->)].
  { by destruct (cut_not_uncut _ _ _ Hc). }
  destruct (cut_inj _ _ _ _ _ Hc Hc') as [<- <-]. simpl.
  assert (∃ n, String.length id = S n) as [n ->].
  { destruct Hc as [-> _]. rewrite !str_app_length. simpl. exists (String.length node + S (String.length rest)). lia. }
  destruct (split_pieces rest n) as [[Hu Hs]|(a & more & Hc2 & ->)]; unfold next_piece; simpl.
  - assert (find "::" rest = None) as -> by exact (proj2 (find_None _ _) Hu). simpl. split; [naive_solver|].
    intros [[_ ->]|[more Hm]]; [done|by destruct (cut_not_uncut _ _ _ Hm)].
  - split; [naive_solver|]. intros [[Hu _]|[more' Hm]]; [by destruct (cut_not_uncut _ _ _ Hc2)|].
    by destruct (cut_inj _ _ _ _ _ Hc2 Hm) as [-> _].
Qed.

Lemma contains_cut s : contains "::" s = true ↔ ∃ a b, cut s a b.
Proof.
  unfold contains. destruct (find_cut s) as [[-> Hu]|(a & b & -> & Hc)]; [|naive_solver].
  split; [done|]. intros (a & b & Hc). by destruct (cut_not_uncut _ _ _ Hc).
Qed.

Lemma split_head s a b : cut s a b → head (split_str "::" s) = Some a.
Proof.
  intros Hc. unfold split_str. destruct (split_pieces s (String.length s)) as [[Hu _]|(a' & b' & Hc' & ->)].
  - by destruct (cut_not_uncut _ _ _ Hc).
  - by destruct (cut_inj _ _ _ _ _ Hc Hc') as [-> _].
Qed.

Lemma process_entry_names id p :
  process_entry id = Some p ↔
  ∃ node pid, names_process id node pid
    ∧ p = JObj [("node_id", JStr node); ("pid", JNum pid); ("node_id_full", JStr id)].
Proof.
  unfold process_entry, names_process. destruct (contains "::" id) eqn:E.
  - apply contains_cut in E as (node & rest & Hc). rewrite (split_head _ _ _ Hc). cbn [default]. split.
    + intros (piece & Hpiece%(second_piece _ _ _ _ Hc) & H)%bind_Some.
      apply bind_Some in H as (digits & ->%strip_prefix_Some & H).
      apply bind_Some in H as (pid & Hpid & [= <-]). naive_solver.
    + intros (node' & pid & (rest' & digits & Hc' & Hp & Hpid) & ->).
      destruct (cut_inj _ _ _ _ _ Hc Hc') as [<- <-].
      apply (second_piece _ _ _ _ Hc) in Hp. rewrite Hp.
      assert (strip_prefix "pid-" ("pid-" +:+ digits) = Some digits) as Hs by by apply strip_prefix_Some.
      cbn [mbind option_bind]. rewrite Hs. cbn [mbind option_bind]. by rewrite Hpid.
  - split; [done|]. intros (node & pid & (rest & digits & Hc & _) & _).
    by rewrite (proj2 (contains_cut id)) in E by eauto.
Qed.

Lemma cause_info_names id cause c : c = cause_info id cause ↔ names_cause id cause c.
Proof.
  unfold cause_info, names_cause. destruct (contains "::" id) eqn:E.
  - apply contains_cut in E as (node & rest & Hc). rewrite (split_head _ _ _ Hc). simpl. split; [eauto|].
    intros [[Hu _]|(node' & rest' & Hc' & ->)]; [by destruct (cut_not_uncut _ _ _ Hc)|].
    by destruct (cut_inj _ _ _ _ _ Hc Hc') as [-> _].
  - assert (∀ a b, ¬ cut id a b) as Hn.
    { intros a b Hc. by rewrite (proj2 (contains_cut id)) in E by eauto. }
    split; [|naive_solver]. intros ->. left. split; [|done].
    destruct (find_cut id) as [[_ Hu]|(a & b & _ & Hc)]; [done|by destruct (Hn a b)].
Qed.

Lemma NoDup_omap_inj {A B} (f : A → option B) l :
  (∀ x y z, f x = Some z → f y = Some z → x = y) → NoDup l → NoDup (omap f l).
Proof.
  intros Hf. induction 1 as [|x l Hx Hl IH]; simpl; [constructor|].
  destruct (f x) as [z|] eqn:E; [|done]. constructor; [|done].
  intros (y & Hy & Ey)%list_elem_of_omap. by rewrite (Hf _ _ _ E Ey) in Hx.
Qed.

Lemma cluster_why_nodup g job : NoDup (cluster_why g job).2.
Proof.
  assert (NoDup (job_pids g job)) as Hn.
  { eapply sublist_NoDup; [apply (NoDup_fst_map_to_list (nodes g))|].
    apply fmap_sublist, sublist_filter. }
  unfold cluster_why. destruct (job_pids g job) as [|i l]; [constructor|].
  cbn [snd]. apply NoDup_omap_inj; [|done].
  intros x y z (n & p & _ & ->)%process_entry_names (n' & p' & _ & Hz)%process_entry_names. by simplify_eq.
Qed.

(** C29 The cluster-wide query is exact, over ids read by a plain rule: an id
    is cut at its first double colon into a node and a rest, and names a process
    when the rest up to its next double colon is pid- followed by a 32-bit number.
    For a job with at least one process in the graph the causes are sorted
    without repetition and are precisely the root causes of the job's processes,
    each with the node its process's id names in front, or bare when the id has
    no double colon; the process list holds, once each, precisely the job's
    processes whose id names one in that sense, with the node, the number and the
    id; for any other job the query says that no process was found. *)
Theorem cluster_why_exact (g : StateGraph) (job : string) :
  ((∃ id, job_process g job id)
   ∧ StronglySorted str_lt (cluster_why g job).1
   ∧ (∀ c, c ∈ (cluster_why g job).1 ↔
        ∃ id cause, job_process g job id ∧ names_cause id cause c
          ∧ is_root_cause (edge_out_index (store g)) (nodes g) id cause)
   ∧ NoDup (cluster_why g job).2
   ∧ (∀ p, p ∈ (cluster_why g job).2 ↔
        ∃ id node pid, job_process g job id ∧ names_process id node pid
          ∧ p = JObj [("node_id", JStr node); ("pid", JNum pid); ("node_id_full", JStr id)]))
  ∨ ((∀ id, ¬ job_process g job id)
     ∧ cluster_why g job = (["未找到 job_id=" +:+ job +:+ " 的进程"], [])).
Proof.
  destruct (job_pids g job) as [|i l] eqn:E.
  - right. split; [|by unfold cluster_why; rewrite E].
    intros id. rewrite <-job_pids_elem, E. apply not_elem_of_nil.
  - left. split; [exists i; apply job_pids_elem; rewrite E; by left|].
    assert ((cluster_why g job).1
            = sort_dedup (concat (map (λ id, map (cause_info id) (root_causes g id)) (job_pids g job))))
      as -> by (unfold cluster_why; by rewrite E).
    split_and!; [apply sort_dedup_sorted| |apply cluster_why_nodup|].
    + intros c. rewrite sort_dedup_elem_of, list_elem_of_In, in_concat.
      setoid_rewrite in_map_iff. setoid_rewrite <-list_elem_of_In. split.
      * intros (cs & (id & <- & Hid%job_pids_elem) & (c' & Hc' & Hc)%list_elem_of_fmap).
        apply root_causes_elem in Hc. apply cause_info_names in Hc'. eauto.
      * intros (id & c' & Hid%job_pids_elem & ->%cause_info_names & Hc%root_causes_elem).
        eexists. split; [by eauto|]. by apply list_elem_of_fmap_2.
    + intros p. rewrite cluster_why_processes. setoid_rewrite process_entry_names. naive_solver.
Qed.

(** ** Started processes *)

Lemma pid_name_fresh p : ":"%char ∉ chars (pid_name p).
Proof.
  unfold pid_name. rewrite chars_app, elem_of_app. intros [H|H]; [set_solver|].
  by apply (digits_only_fresh ":"%char (pretty p)) in H; [|done|apply pretty_digits].
Qed.

(** The id of a process of a node is read back. *)
Lemma process_entry_pid node p :
  ":"%char ∉ chars node → (p ≤ u32_max)%N →
  process_entry (node +:+ "::" +:+ pid_name p)
  = Some (JObj [("node_id", JStr node); ("pid", JNum p);
                ("node_id_full", JStr (node +:+ "::" +:+ pid_name p))]).
Proof.
  intros Hn Hp. unfold process_entry, contains.
  rewrite find_fresh by done. rewrite split_str_two by (done || apply pid_name_fresh).
  assert (strip_prefix "pid-" (pid_name p) = Some (pretty p)) as Hs by by apply strip_prefix_Some.
  cbn [lookup list_lookup mbind option_bind head default]. rewrite Hs.
  cbn [mbind option_bind]. by rewrite parse_u32_pretty.
Qed.

Definition is_start (ev : Event) (node job : string) (p : N) : Prop :=
  ev_type ev = ProcessState ∧ ev_value ev = "start" ∧ ev_node_id ev = Some node
  ∧ ev_job_id ev = Some job ∧ ev_pid ev = Some p.

Lemma handle_start g ev node job p :
  is_start ev node job p →
  let id := node +:+ "::" +:+ pid_name p in
  ∃ n, nodes (handle_event g ev).1 !! id = Some n ∧ node_type n = Process
    ∧ metadata n !! "job_id" = Some job ∧ node_state n = Some "running".
Proof.
  intros (Ht & Hv & Hn & Hj & Hp) id. unfold handle_event, handle_process_state, namespace_node_id.
  rewrite Ht, Hp, Hn, Hj. rewrite decide_True by done. simpl.
  rewrite lookup_insert_eq. eexists. split_and!; [done..| |]; simpl; unfold node_state; simpl.
  - by rewrite lookup_insert_ne, lookup_insert_eq.
  - by rewrite lookup_insert_eq.
Qed.

Lemma start_job_process g ev node job p :
  is_start ev node job p → job_process (process_event g ev).1 job (node +:+ "::" +:+ pid_name p).
Proof.
  intros Hs. destruct (handle_start g ev node job p Hs) as (n & Hn & Ht & Hj & Hr).
  exists n. split; [|done]. destruct Hs as (Hty & _).
  destruct (decide (should_cleanup g ev)) as [Hc|Hc].
  - rewrite process_event_cleanup by done. rewrite update_signals_silent by congruence. simpl.
    apply cleanup_nodes_lookup. split_and!; [done| |]; unfold is_old_error, is_dead_process.
    + intros [He _]. congruence.
    + rewrite Hr. naive_solver.
  - rewrite process_event_no_cleanup by done. by rewrite update_signals_silent by congruence.
Qed.

(** A started process is found by its job: right after the start event of a
    process of a node, whatever the graph was, the cluster-wide query for its job
    lists the process with its node and PID, for every node name without a colon
    and every PID. *)
Theorem started_process_is_listed g ev node job p
  (Hs : is_start ev node job p) (Hn : ":"%char ∉ chars node) (Hp : (p ≤ u32_max)%N) :
  JObj [("node_id", JStr node); ("pid", JNum p);
        ("node_id_full", JStr (node +:+ "::" +:+ pid_name p))]
  ∈ (cluster_why (process_event g ev).1 job).2.
Proof.
  apply cluster_why_processes. eexists. split; [by eapply start_job_process|].
  by apply process_entry_pid.
Qed.

(** A node the hub named after an IPv6 address cannot be commanded by job:
    its name holds a double colon, so the id of a process on it does not split
    into a node and a PID, and the query leaves the process out. *)
Theorem ipv6_process_is_not_listed p : process_entry ("node-::1::" +:+ pid_name p) = None.
Proof. by unfold process_entry. Qed.

(** ** What the guard admits *)

Definition action_key (a : PolicyAction) : string := cooldown_key (pa_node_id a) (pa_action a).

(** The key is out of its cool-down. *)
Definition ready (x : ExecuteGuard) (now : N) (key : string) : Prop :=
  ∀ prev, last_action_ms x !! key = Some prev →
    (guard_cooldown_ms x ≤ saturating_sub now prev)%N.

(** The command an action becomes, when its node has an open connection. *)
Definition delivered (render : Json → string) (l : Links) (a : PolicyAction)
  : option (N * string) :=
  tx ← link_senders l !! pa_node_id a;
  if decide (tx ∈ link_closed l) then None
  else Some (tx, render (fix_command (pa_target_pid a) (pa_action a))).

Definition record_action (key : string) (now : N) (x : ExecuteGuard) : ExecuteGuard :=
  mkExecuteGuard (available_permits x) (guard_cooldown_ms x) (guard_max_actions x)
    (<[key := now]> (last_action_ms x)) (request_seq x).

Definition queue_commands (msgs : list (N * string)) (l : Links) : Links :=
  mkLinks (link_senders l) (link_closed l) (link_queued l ++ msgs).

Lemma check_cooldown_cases x node action now :
  let key := cooldown_key node action in
  (ready x now key
   ∧ check_and_record_cooldown x node action now = (Ok (), record_action key now x))
  ∨ (¬ ready x now key ∧ ∃ e, check_and_record_cooldown x node action now = (Err e, x)).
Proof.
  intros key. unfold check_and_record_cooldown, ready. fold key.
  destruct (last_action_ms x !! key) as [prev|] eqn:E.
  - case_bool_decide as Hc.
    + right. split; [|by eexists]. intros H. specialize (H _ eq_refl). lia.
    + left. split; [|done]. intros ? [= ->]. lia.
  - left. by split.
Qed.

Lemma send_fix_command_eq render l a :
  (send_fix_command render l (pa_node_id a) (pa_target_pid a) (pa_action a)).2
  = queue_commands (option_list (delivered render l a)) l.
Proof.
  unfold send_fix_command, delivered, queue_commands. destruct l as [ss cl q]. simpl.
  destruct (ss !! pa_node_id a) as [tx|]; simpl; [case_decide|]; simpl; by rewrite ?app_nil_r.
Qed.

Lemma execute_action_eq render now x l a :
  (ready x now (action_key a)
   ∧ (execute_action render now (x, l) a).2
     = (record_action (action_key a) now x, queue_commands (option_list (delivered render l a)) l))
  ∨ (¬ ready x now (action_key a) ∧ (execute_action render now (x, l) a).2 = (x, l)).
Proof.
  unfold execute_action.
  destruct (check_cooldown_cases x (pa_node_id a) (pa_action a) now) as [[Hr Ec]|[Hr [e Ec]]].
  - left. split; [done|]. rewrite Ec. pose proof (send_fix_command_eq render l a) as Hs.
    destruct (send_fix_command _ _ _ _ _) as [[] l']; simpl in *; by subst.
  - right. by rewrite Ec.
Qed.

Lemma ready_record x now key k :
  (0 < guard_cooldown_ms x)%N →
  ready (record_action key now x) now k ↔ ready x now k ∧ k ≠ key.
Proof.
  intros Hcd. unfold ready. simpl. destruct (decide (k = key)) as [->|Hne].
  - rewrite lookup_insert_eq. split; [|by intros [_ []]].
    intros H. specialize (H _ eq_refl). unfold saturating_sub in H. lia.
  - rewrite lookup_insert_ne by done. naive_solver.
Qed.

Lemma queue_commands_app m1 m2 l : queue_commands m2 (queue_commands m1 l) = queue_commands (m1 ++ m2) l.
Proof. unfold queue_commands. simpl. by rewrite app_assoc. Qed.

(** What a run of the loop does: it attempts a subsequence of the actions, and
    queues a command for each attempted one that has an open connection. *)
Record attempts (render : Json → string) (now : N) (x : ExecuteGuard) (l : Links)
    (acts tried : list PolicyAction) (out : ExecuteGuard * Links) : Prop := {
  at_sub : tried `sublist_of` acts;
  at_links : out.2 = queue_commands (omap (delivered render l) tried) l;
  at_guard : out.1 = foldl (λ x a, record_action (action_key a) now x) x tried;
  at_ready : ∀ a, a ∈ tried → ready x now (action_key a);
  at_once : (0 < guard_cooldown_ms x)%N →
    NoDup (map action_key tried)
    ∧ ∀ a, a ∈ acts → ready x now (action_key a) → action_key a ∈ map action_key tried
}.

Lemma ready_record_weaken x now key k :
  ready (record_action key now x) now k → (0 < guard_cooldown_ms x)%N → ready x now k.
Proof. intros H Hcd. by apply ready_record in H as []. Qed.

Lemma execute_actions_attempts render now x l acts :
  ∃ tried, attempts render now x l acts tried (execute_actions render now (x, l) acts).2.
Proof.
  revert x l. induction acts as [|a acts IH]; intros x l.
  { exists []. split; simpl; [done| |done|set_solver|].
    - unfold queue_commands. destruct l. by rewrite app_nil_r.
    - split; [constructor|set_solver]. }
  cbn [execute_actions].
  destruct (execute_action_eq render now x l a) as [[Hr E]|[Hr E]];
    destruct (execute_action render now (x, l) a) as [r s1]; simpl in E; subst s1.
  - destruct (IH (record_action (action_key a) now x)
                (queue_commands (option_list (delivered render l a)) l)) as [tried [H1 H2 H3 H4 H5]].
    destruct (execute_actions _ _ _ acts) as [rs s2]. simpl in *. exists (a :: tried).
    split; simpl; [by constructor| |done| |].
    + rewrite H2, queue_commands_app.
      change (delivered render (queue_commands _ l)) with (delivered render l).
      by destruct (delivered render l a).
    + intros b [->|Hb]%elem_of_cons; [done|].
      destruct (decide (0 < guard_cooldown_ms x)%N) as [Hcd|Hcd].
      * by apply H4, ready_record_weaken in Hb.
      * intros prev _. lia.
    + intros Hcd. destruct (H5 Hcd) as [Hnd Hall]. split.
      * constructor; [|done]. intros (b & Hb & Hin)%list_elem_of_fmap.
        apply H4, ready_record in Hin as [_ Hne]; done.
      * intros b [->|Hb]%elem_of_cons Hrb; [by left|].
        destruct (decide (action_key b = action_key a)) as [->|Hne]; [by left|right].
        apply Hall; [done|]. by apply ready_record.
  - destruct (IH x l) as [tried [H1 H2 H3 H4 H5]].
    destruct (execute_actions _ _ _ acts) as [rs s2]. simpl in *. exists tried.
    split; simpl; [by constructor|done..|].
    intros Hcd. destruct (H5 Hcd) as [Hnd Hall]. split; [done|].
    intros b [->|Hb]%elem_of_cons Hrb; [done|auto].
Qed.

(** ** The commands of a diagnosis *)

Lemma parse_uint_bound max s n : parse_uint max s = Some n → (n ≤ max)%N.
Proof. unfold parse_uint. repeat case_match; naive_solver. Qed.

Lemma process_entry_shape id p :
  process_entry id = Some p →
  ∃ node pid, (pid ≤ u32_max)%N
    ∧ p = JObj [("node_id", JStr node); ("pid", JNum pid); ("node_id_full", JStr id)].
Proof.
  unfold process_entry. intros H. case_match; [|done].
  apply bind_Some in H as (part & _ & H). apply bind_Some in H as (str & _ & H).
  apply bind_Some in H as (pid & Hp & [= <-]). exists (default "" (head (split_str "::" id))), pid.
  split; [|done]. by eapply parse_uint_bound.
Qed.

(** The job has a process with this PID on this node. *)
Definition job_target (g : StateGraph) (job node : string) (pid : N) : Prop :=
  ∃ id, job_process g job id
    ∧ process_entry id
      = Some (JObj [("node_id", JStr node); ("pid", JNum pid); ("node_id_full", JStr id)]).

Definition policy_kind (scenes : list string) : string :=
  if physical_degradation scenes then "KillProcess" else "GracefulShutdown".

Lemma build_policy_actions_elem g job scenes dry a :
  a ∈ build_policy_actions scenes (cluster_why g job).2 dry ↔
  ∃ node pid, job_target g job node pid
    ∧ a = mkPolicyAction "send_fix_command" node pid (policy_kind scenes) dry.
Proof.
  unfold build_policy_actions. rewrite list_elem_of_omap. unfold job_target.
  setoid_rewrite cluster_why_processes. split.
  - intros (p & (id & Hid & Hp) & Ha). pose proof Hp as (node & pid & Hb & ->)%process_entry_shape.
    exists node, pid. split; [by eauto|]. unfold policy_action in Ha. simpl in Ha.
    rewrite N.mod_small in Ha by (unfold u32_max in Hb; lia). by simplify_eq.
  - intros (node & pid & (id & Hid & Hp) & ->). eexists. split; [by eauto|].
    pose proof Hp as (node' & pid' & Hb & [= <- <-])%process_entry_shape.
    unfold policy_action. simpl. rewrite N.mod_small by (unfold u32_max in Hb; lia). done.
Qed.

Lemma foldl_record_permits now tried x :
  available_permits (foldl (λ x a, record_action (action_key a) now x) x tried) = available_permits x
  ∧ request_seq (foldl (λ x a, record_action (action_key a) now x) x tried) = request_seq x.
Proof. revert x. induction tried as [|a tried IH]; intros x; simpl; [done|]. apply (IH (record_action _ now x)). Qed.

Lemma execute_policy_attempts render now x l acts :
  ∃ tried, (tried ≠ [] → 0 < available_permits x)
    ∧ available_permits (execute_policy render now (x, l) acts).2.1 = available_permits x
    ∧ link_queued (execute_policy render now (x, l) acts).2.2
      = link_queued l ++ omap (delivered render l) tried
    ∧ tried `sublist_of` acts
    ∧ (∀ a, a ∈ tried → ready x now (action_key a))
    ∧ ((0 < guard_cooldown_ms x)%N → NoDup (map action_key tried)
       ∧ (0 < available_permits x →
          ∀ a, a ∈ acts → ready x now (action_key a) → action_key a ∈ map action_key tried)).
Proof.
  unfold execute_policy, try_acquire. simpl. destruct (available_permits x) as [|n] eqn:En.
  { exists []. simpl. rewrite app_nil_r.
    split_and!; [done..|apply sublist_nil_l|set_solver|]. split; [constructor|lia]. }
  destruct (execute_actions_attempts render now (with_permits n x) l acts) as [tried [H1 H2 H3 H4 H5]].
  destruct (execute_actions _ _ _ acts) as [rs [x' l']]. simpl in *. exists tried. subst l' x'.
  destruct (foldl_record_permits now tried (with_permits n x)) as [-> _].
  split_and!; [lia|done..|]. intros Hcd. destruct (H5 Hcd). eauto.
Qed.

Section diagnosis.
Context {C : Type} (render : Json → string) (k8s : K8sApi C) (clock : nat → N * N).

Definition executing (q : params) (s : ApiState C) : bool :=
  api_allow_execute s && execute_requested q.

(** The rules a diagnosis matches, and the policy it derives from them. *)
Definition diagnosed_scenes (q : params) (now : N) (s : ApiState C) (job : string) : list string :=
  map rule_scene (match_rules (api_rules s) (api_graph s)
                    (job_events (api_buffer s) now (clamped_param q "window_s" 60 10 3600) job)).

Definition diagnosed_policy (q : params) (now : N) (s : ApiState C) (job : string)
  : list PolicyAction :=
  build_policy_actions (diagnosed_scenes q now s job) (cluster_why (api_graph s) job).2
    (negb (executing q s)).

Lemma diagnose_effects q now id_ms s job :
  q !! "job_id" = Some job →
  let s' := (diagnose render k8s q now id_ms clock s).2 in
  let x := (next_request_id (api_guard s) id_ms).2 in
  let out := if executing q s
             then (execute_policy render now (x, api_links s)
                     (take (guard_max_actions x) (diagnosed_policy q now s job))).2
             else (x, api_links s) in
  api_guard s' = out.1 ∧ api_links s' = out.2
  ∧ api_graph s' = api_graph s ∧ api_buffer s' = api_buffer s ∧ api_rules s' = api_rules s
  ∧ (executing q s && physical_degradation (diagnosed_scenes q now s job) = false →
     api_controller s' = api_controller s ∧ api_cluster s' = api_cluster s).
Proof.
  intros Hj. unfold diagnose, diagnosed_policy, executing. rewrite Hj.
  change (map rule_scene _) with (diagnosed_scenes q now s job).
  set (sc := diagnosed_scenes q now s job). cbv zeta.
  destruct (api_allow_execute s && execute_requested q); simpl.
  - destruct (execute_policy _ _ _ _) as [[rs lim] [x l]]. simpl.
    destruct (physical_degradation sc); [|done]. destruct (api_controller s); [|done].
    by destruct (isolate_nodes _ _ _ _ _ _) as [[? ?] ?].
  - done.
Qed.

(** C24 A diagnosis without execution only reads: when execution is not enabled
    on the hub, or the request does not ask for it with 1 or true, no command is queued, the
    Kubernetes controller and the cluster are untouched, and the guard keeps its
    permits and its cool-downs. *)
Theorem diagnose_dry_run_only_reads q now id_ms s
  (Hdry : api_allow_execute s = false
    ∨ ∀ v, q !! "execute" = Some v → v ≠ "1" ∧ eq_ignore_ascii_case v "true" = false) :
  let s' := (diagnose render k8s q now id_ms clock s).2 in
  api_links s' = api_links s ∧ api_controller s' = api_controller s
  ∧ api_cluster s' = api_cluster s ∧ api_graph s' = api_graph s
  ∧ last_action_ms (api_guard s') = last_action_ms (api_guard s)
  ∧ available_permits (api_guard s') = available_permits (api_guard s).
Proof.
  assert (executing q s = false) as Hno.
  { unfold executing, execute_requested. destruct Hdry as [->|Hq]; [done|].
    destruct (q !! "execute") as [v|]; [|by rewrite andb_false_r].
    destruct (Hq v eq_refl) as [Hne ->]. by rewrite bool_decide_false, andb_false_r. }
  cbn zeta. destruct (q !! "job_id") as [job|] eqn:Hj.
  - destruct (diagnose_effects q now id_ms s job Hj) as (Hg & Hl & Hgr & _ & _ & Hk).
    rewrite Hno in Hg, Hl, Hk. destruct (Hk eq_refl) as [-> ->]. by rewrite Hl, Hgr, Hg.
  - unfold diagnose. by rewrite Hj.
Qed.

(** C17 The commands of an executing diagnosis: it attempts at most [max_actions]
    actions, all of them for processes of the diagnosed job and of the kind the
    matched scenes call for, and only when a permit is free and the node and
    kind are out of their cool-down; what it queues is one command for each
    attempted action whose node has an open connection; with a cool-down in
    force no node is attempted twice, and, when the policy was not cut, every
    node of the job that is out of its cool-down is attempted.  The permit is
    given back. *)
Theorem diagnose_commands_exact q now id_ms s job
  (Hj : q !! "job_id" = Some job) (Hexec : executing q s = true) :
  let s' := (diagnose render k8s q now id_ms clock s).2 in
  let kind := policy_kind (diagnosed_scenes q now s job) in
  let x := api_guard s in
  ∃ tried, link_queued (api_links s')
             = link_queued (api_links s) ++ omap (delivered render (api_links s)) tried
    ∧ length tried ≤ guard_max_actions x
    ∧ (tried ≠ [] → 0 < available_permits x)
    ∧ (∀ a, a ∈ tried → pa_action a = kind ∧ job_target (api_graph s) job (pa_node_id a) (pa_target_pid a)
                        ∧ ready x now (cooldown_key (pa_node_id a) kind))
    ∧ ((0 < guard_cooldown_ms x)%N →
       NoDup (map pa_node_id tried)
       ∧ (0 < available_permits x → length (diagnosed_policy q now s job) ≤ guard_max_actions x →
          ∀ node pid, job_target (api_graph s) job node pid → ready x now (cooldown_key node kind) →
            cooldown_key node kind ∈ map action_key tried))
    ∧ available_permits (api_guard s') = available_permits x.
Proof.
  intros s' kind x. destruct (diagnose_effects q now id_ms s job Hj) as (Hg & Hl & _).
  fold s' in Hg, Hl. rewrite Hexec in Hg, Hl. cbn zeta in Hg, Hl.
  set (x1 := (next_request_id (api_guard s) id_ms).2) in *.
  set (acts := take _ _) in Hg, Hl.
  destruct (execute_policy_attempts render now x1 (api_links s) acts)
    as (tried & H1 & H2 & H3 & H4 & H5 & H6).
  assert (∀ a, a ∈ tried → ∃ node pid, job_target (api_graph s) job node pid
            ∧ a = mkPolicyAction "send_fix_command" node pid kind (negb (executing q s))) as Hshape.
  { intros a Ha. apply build_policy_actions_elem. apply (sublist_subseteq _ _ H4) in Ha.
    by apply elem_of_take in Ha as (i & Hi%list_elem_of_lookup_2 & _). }
  assert (∀ a, a ∈ tried → action_key a = cooldown_key (pa_node_id a) kind) as Hkey.
  { intros a Ha. destruct (Hshape a Ha) as (node & pid & _ & ->). done. }
  exists tried. rewrite Hl, Hg. split_and!; [done| |done| | |done].
  - etrans; [by apply sublist_length|]. unfold acts. rewrite length_take. apply Nat.le_min_l.
  - intros a Ha. pose proof (H5 a Ha) as Hr. rewrite (Hkey a Ha) in Hr.
    destruct (Hshape a Ha) as (node & pid & Ht & ->). done.
  - intros Hcd. destruct (H6 Hcd) as [Hnd Hall]. split.
    + apply (NoDup_fmap_1 (λ n, cooldown_key n kind)). rewrite map_map.
      by erewrite map_ext_in; [|intros a Ha%list_elem_of_In; symmetry; by apply Hkey].
    + intros Hp Hlen node pid Ht Hr.
      apply (Hall Hp (mkPolicyAction "send_fix_command" node pid kind (negb (executing q s)))); [|done].
      unfold acts. rewrite take_ge by done. apply build_policy_actions_elem. eauto.
Qed.
End diagnosis.

(** A command that could not be delivered still starts the cool-down: the retry
    within it is refused even though the node has connected in between. *)
Theorem undelivered_command_blocks_retry render now now' x l l' a
  (Hr : ready x now (action_key a)) (Hnone : delivered render l a = None)
  (Hcd : (now ≤ now' < now + guard_cooldown_ms x)%N) :
  let out := (execute_action render now (x, l) a).2 in
  link_queued out.2 = link_queued l
  ∧ (execute_action render now' (out.1, l') a).2 = (out.1, l').
Proof.
  destruct (execute_action_eq render now x l a) as [[_ ->]|[Hn _]]; [|done].
  rewrite Hnone. cbn [fst snd option_list]. split; [apply app_nil_r|].
  destruct (execute_action_eq render now' (record_action (action_key a) now x) l' a)
    as [[Hr' _]|[_ ->]]; [|done].
  exfalso. specialize (Hr' now). simpl in Hr'. rewrite lookup_insert_eq in Hr'.
  specialize (Hr' eq_refl). unfold saturating_sub in Hr'. lia.
Qed.

(** ** Examples *)

Definition demo_start (ts : N) (node : string) (p : N) : Event :=
  mkEvent ts ProcessState "proc" (Some "job-1") (Some p) "start" (Some node).

Definition demo_graph : StateGraph :=
  process_events state_graph_new
    [demo_start 1000 "node-a" 7; demo_start 1001 "node-a" 8; demo_start 1002 "node-b" 9]%N.

(** The compact form of the objects commands are. *)
Definition demo_value (v : Json) : string :=
  match v with JStr s => "'" +:+ s +:+ "'" | JNum n => pretty n | _ => "" end.
Definition demo_render (v : Json) : string :=
  match v with
  | JObj kvs => foldl (λ s kv, s +:+ kv.1 +:+ "=" +:+ demo_value kv.2 +:+ ";") "" kvs
  | _ => demo_value v
  end.

Definition demo_api : ApiState MemCluster :=
  mkApiState demo_graph (mkRuleEngine [] stats_default) [] true "v1"
    (execute_guard_new 2 60 10) (mkLinks {["node-a" := 0%N; "node-b" := 1%N]} {[1%N]} [])
    None demo_cluster.

Definition demo_query (execute : string) : params :=
  {["job_id" := "job-1"; "execute" := execute]}.

Lemma started_process_is_listed_witness :
  JObj [("node_id", JStr "node-b"); ("pid", JNum 9); ("node_id_full", JStr "node-b::pid-9")]
  ∈ (cluster_why (process_event demo_graph (demo_start 1003 "node-b" 9)).1 "job-1").2.
Proof.
  apply (started_process_is_listed demo_graph (demo_start 1003 "node-b" 9) "node-b" "job-1" 9).
  - by vm_compute.
  - by apply (bool_decide_unpack _); vm_compute.
  - by vm_compute.
Defined.

Lemma diagnose_dry_run_only_reads_witness :
  api_allow_execute demo_api = true
  ∧ api_links (diagnose demo_render mem_api (demo_query "yes") 5000 5000 (λ _, (5000, 5000)%N)
                 demo_api).2 = api_links demo_api.
Proof.
  split; [reflexivity|].
  apply (diagnose_dry_run_only_reads demo_render mem_api (λ _, (5000, 5000)%N)).
  right. intros v Hv. vm_compute in Hv. injection Hv as <-. by vm_compute.
Defined.

(** One of the two processes on [node-a] gets a command; [node-b] has closed its
    connection. *)
Lemma diagnose_commands_exact_witness :
  let s' := (diagnose demo_render mem_api (demo_query "TRUE") 5000 5000 (λ _, (5000, 5000)%N)
               demo_api).2 in
  map fst (link_queued (api_links s')) = [0%N]
  ∧ ∃ tried, link_queued (api_links s') = omap (delivered demo_render (api_links demo_api)) tried
             ∧ NoDup (map pa_node_id tried).
Proof.
  split; [vm_compute; reflexivity|].
  destruct (diagnose_commands_exact demo_render mem_api (λ _, (5000, 5000)%N) (demo_query "TRUE")
              5000 5000 demo_api "job-1") as (tried & H1 & _ & _ & _ & H5 & _).
  - reflexivity.
  - vm_compute. reflexivity.
  - exists tried. split; [exact H1|]. apply H5. vm_compute. reflexivity.
Defined.
