(* ===== verification/GuardTasks.v ===== *)
(** * Concurrent executions (hub/src/main.rs, the execute guard under interleaving)

    Requests that execute their policy at the same time share the guard and the
    connections.  Each goes through the steps between which the handler can be
    suspended or run in parallel with another: taking a permit, the check of one
    action under the mutex, the hand-over of one command, and the end, where the
    permit is dropped.  The theorems: never more executions at once than the
    guard was made for, none of its permits is lost, and the cool-down of a node
    and action spaces all admitted actions whatever the interleaving and however
    the clocks of the requests are ordered. *)

From S2P Require Import Prelude Text Json Graph RootCause Rule K8s HubApi.

(** ** Requests *)

(** [now_ts] of the request, then the actions still to do. *)
Inductive Execution :=
| Waiting (now : N) (acts : list PolicyAction)
| Checking (now : N) (acts : list PolicyAction)
| Sending (now : N) (a : PolicyAction) (acts : list PolicyAction)
| Finished.

(** [admitted] records, in order, the actions the guard let through. *)
Record Shared := mkShared {
  sh_guard : ExecuteGuard;
  sh_links : Links;
  admitted : list (string * N)
}.

Definition holds_permit (t : Execution) : bool :=
  match t with Checking _ _ | Sending _ _ _ => true | Waiting _ _ | Finished => false end.

Section tasks.
Context (render : Json → string).

(** One step of one request; [None] when it has ended. *)
Definition exec_step (s : Shared) (t : Execution) : option (Shared * Execution) :=
  let '(mkShared x l h) := s in
  match t with
  | Waiting now acts =>
      match try_acquire x with
      | Ok x' => Some (mkShared x' l h, Checking now acts)
      | Err _ => Some (s, Finished)
      end
  | Checking now (a :: acts) =>
      match check_and_record_cooldown x (pa_node_id a) (pa_action a) now with
      | (Ok _, x') => Some (mkShared x' l (h ++ [(action_key a, now)]), Sending now a acts)
      | (Err _, x') => Some (mkShared x' l h, Checking now acts)
      end
  | Checking now [] => Some (mkShared (release x) l h, Finished)
  | Sending now a acts =>
      Some (mkShared x (send_fix_command render l (pa_node_id a) (pa_target_pid a) (pa_action a)).2 h,
            Checking now acts)
  | Finished => None
  end.

(** Any request may take the next step; a connection may come or go, or close,
    in between. *)
Inductive guard_step : Shared * list Execution → Shared * list Execution → Prop :=
| step_exec s s' ts i t t' :
    ts !! i = Some t → exec_step s t = Some (s', t') → guard_step (s, ts) (s', <[i := t']> ts)
| step_arrive s ts now acts : guard_step (s, ts) (s, ts ++ [Waiting now acts])
| step_links x l l' h ts :
    link_queued l' = link_queued l →
    guard_step (mkShared x l h, ts) (mkShared x l' h, ts).

Definition running (ts : list Execution) : nat := length (filter (λ t, holds_permit t = true) ts).

(** Later admissions of a key come a cool-down after earlier ones. *)
Definition spaced (cd : N) : list (string * N) → Prop :=
  StronglySorted (λ a b, a.1 = b.1 → (a.2 + cd ≤ b.2)%N).

Record guard_inv (permits : nat) (cd : N) (s : Shared) (ts : list Execution) : Prop := {
  gi_permits : available_permits (sh_guard s) + running ts = permits;
  gi_cooldown : guard_cooldown_ms (sh_guard s) = cd;
  gi_last : ∀ k t, (k, t) ∈ admitted s →
              ∃ t', last_action_ms (sh_guard s) !! k = Some t' ∧ (t ≤ t')%N;
  gi_spaced : spaced cd (admitted s)
}.

Lemma running_insert ts i t t' :
  ts !! i = Some t →
  running (<[i := t']> ts) + Nat.b2n (holds_permit t) = running ts + Nat.b2n (holds_permit t').
Proof.
  intros Hi. assert (i < length ts) as Hlt by by apply lookup_lt_is_Some.
  rewrite <-(take_drop_middle ts i t Hi) at 2. rewrite insert_take_drop by done.
  unfold running. rewrite !filter_app, !length_app, !filter_cons.
  repeat case_decide; destruct (holds_permit t), (holds_permit t'); simpl; done || lia.
Qed.

Lemma spaced_snoc cd h k t :
  spaced cd h → (∀ t0, (k, t0) ∈ h → (t0 + cd ≤ t)%N) → spaced cd (h ++ [(k, t)]).
Proof.
  unfold spaced. induction 1 as [|[k0 t0] h Hh IH Hall]; intros Hk; simpl; [repeat constructor|].
  constructor; [apply IH; intros; apply Hk; by right|].
  apply Forall_app. split; [done|]. constructor; [|done]. simpl. intros ->. apply Hk. by left.
Qed.

Lemma exec_step_inv permits cd s ts i t s' t' :
  (0 < cd)%N → guard_inv permits cd s ts → ts !! i = Some t → exec_step s t = Some (s', t') →
  guard_inv permits cd s' (<[i := t']> ts).
Proof.
  intros Hcd [Hp Hc Hl Hs] Hi Hstep. pose proof (running_insert ts i t t' Hi) as Hrun.
  destruct s as [x l h]. simpl in *. destruct t as [now acts|now [|a acts]|now a acts|]; simpl in *; [..|done].
  - unfold try_acquire in Hstep. destruct (available_permits x) as [|n] eqn:En; simplify_eq/=;
      split; simpl in *; try done; lia.
  - simplify_eq/=. split; simpl in *; try done; lia.
  - destruct (check_cooldown_cases x (pa_node_id a) (pa_action a) now) as [[Hr E]|[_ [e E]]];
      rewrite E in Hstep; simplify_eq/=; split; simpl in *; try done; try lia.
    + intros k t0 [Hin|[= -> ->]%list_elem_of_singleton]%elem_of_app.
      * destruct (Hl k t0 Hin) as (t1 & H1 & H2).
        destruct (decide (k = cooldown_key (pa_node_id a) (pa_action a))) as [->|Hne].
        -- rewrite lookup_insert_eq. eexists. split; [done|]. apply Hr in H1.
           unfold saturating_sub in H1. lia.
        -- rewrite lookup_insert_ne by done. eauto.
      * rewrite lookup_insert_eq. eauto.
    + apply spaced_snoc; [done|]. intros t0 (t1 & H1 & H2)%Hl. apply Hr in H1.
      unfold saturating_sub in H1. lia.
  - simplify_eq/=. split; simpl in *; try done; lia.
Qed.

Lemma guard_step_inv permits cd c c' :
  (0 < cd)%N → guard_step c c' → guard_inv permits cd c.1 c.2 → guard_inv permits cd c'.1 c'.2.
Proof.
  intros Hcd Hstep Hinv. destruct Hstep; simpl in *.
  - by eapply exec_step_inv.
  - destruct Hinv as [Hp ???]. split; try done. unfold running in *.
    rewrite filter_app, length_app. simpl. lia.
  - by destruct Hinv.
Qed.

(** C28 The execute guard under concurrency: starting from a fresh guard for
    [n] executions, whatever requests arrive and however their steps interleave,
    the permits that are free and those that are held always add up to [max n 1],
    so no more than that many executions run at once and none is lost; and
    any two actions the guard lets through for the same node and kind are at
    least a cool-down apart, even when requests carry older clock readings. *)
Theorem guard_holds_under_interleaving n cooldown_s max_actions l s ts
  (Hcd : (0 < cooldown_s)%N)
  (Hreach : rtc guard_step (mkShared (execute_guard_new n cooldown_s max_actions) l [], []) (s, ts)) :
  available_permits (sh_guard s) + running ts = Nat.max n 1
  ∧ spaced (saturating_mul cooldown_s 1000) (admitted s).
Proof.
  assert (0 < saturating_mul cooldown_s 1000)%N as Hpos
    by (unfold saturating_mul, u64_max; lia).
  assert (guard_inv (Nat.max n 1) (saturating_mul cooldown_s 1000) (s, ts).1 (s, ts).2) as [Hp _ _ Hs];
    [|done].
  revert Hreach. generalize (s, ts). intros c Hr.
  eapply (rtc_ind_r (R:=guard_step) (λ c, guard_inv _ _ c.1 c.2)); [| |exact Hr].
  - split; simpl; [unfold running; simpl; lia|done|set_solver|constructor].
  - intros c1 c2 _ Hstep Hinv. by eapply guard_step_inv.
Qed.

(** ** One request alone is [execute_policy] *)

Fixpoint run_exec (fuel : nat) (s : Shared) (t : Execution) : Shared * Execution :=
  match fuel with
  | 0 => (s, t)
  | S fuel' => match exec_step s t with
               | Some (s', t') => run_exec fuel' s' t'
               | None => (s, t)
               end
  end.

Lemma run_exec_finished fuel s : run_exec fuel s Finished = (s, Finished).
Proof. by destruct fuel, s. Qed.

Lemma run_exec_actions acts fuel now x l h :
  2 * length acts < fuel →
  ∃ h', run_exec fuel (mkShared x l h) (Checking now acts)
        = (mkShared (release (execute_actions render now (x, l) acts).2.1)
             (execute_actions render now (x, l) acts).2.2 h', Finished).
Proof.
  revert fuel x l h. induction acts as [|a acts IH]; intros fuel x l h Hf.
  { destruct fuel as [|fuel]; simpl in *; [lia|]. eexists. apply run_exec_finished. }
  destruct fuel as [|[|fuel]]; simpl in Hf; [lia..|].
  cbn [run_exec exec_step execute_actions]. unfold execute_action.
  destruct (check_cooldown_cases x (pa_node_id a) (pa_action a) now) as [[_ ->]|[_ [e ->]]].
  - cbn [exec_step].
    destruct (send_fix_command render l (pa_node_id a) (pa_target_pid a) (pa_action a))
      as [[[]|e] l'] eqn:Es; simpl;
      match goal with |- context [run_exec fuel (mkShared ?x' ?l' ?h') _] =>
        destruct (IH fuel x' l' h') as [h2 E]; [lia|]; rewrite E end;
      destruct (execute_actions render now _ acts) as [rs s2]; by eexists.
  - destruct (IH (S fuel) x l h) as [h2 E]; [lia|]. cbn [run_exec] in E. rewrite E.
    destruct (execute_actions render now (x, l) acts) as [rs s2]. by eexists.
Qed.

Lemma run_exec_policy now acts x l h :
  ∃ h', run_exec (2 * length acts + 3) (mkShared x l h) (Waiting now acts)
        = (mkShared (execute_policy render now (x, l) acts).2.1
             (execute_policy render now (x, l) acts).2.2 h', Finished).
Proof.
  rewrite Nat.add_succ_r. cbn [run_exec exec_step]. unfold execute_policy. simpl.
  destruct (try_acquire x) as [x'|e].
  - destruct (run_exec_actions acts (2 * length acts + 2) now x' l h) as [h' E]; [lia|].
    replace (length acts + (length acts + 0)) with (2 * length acts) by lia. rewrite E.
    destruct (execute_actions render now (x', l) acts) as [rs [x2 l2]]. by eexists.
  - eexists. apply run_exec_finished.
Qed.
End tasks.

(** Two requests take the permit of a guard for one execution one after the other
    (the second is turned away); the interleaving below lets both arrive first. *)
Lemma guard_holds_under_interleaving_witness :
  let l := mkLinks ∅ ∅ [] in
  let s := mkShared (with_permits 0 (execute_guard_new 1 60 10)) l [] in
  rtc (guard_step demo_render) (mkShared (execute_guard_new 1 60 10) l [], [])
    (s, [Checking 5 []; Finished])
  ∧ available_permits (sh_guard s) + running [Checking 5 []; Finished] = 1
  ∧ spaced 60000 (admitted s).
Proof.
  intros l s.
  assert (rtc (guard_step demo_render) (mkShared (execute_guard_new 1 60 10) l [], [])
            (s, [Checking 5 []; Finished])) as Hr.
  { eapply rtc_l; [apply (step_arrive _ _ _ 5 [])|]. eapply rtc_l; [apply (step_arrive _ _ _ 6 [])|].
    eapply rtc_l; [by apply (step_exec _ _ s _ 0 (Waiting 5 []) (Checking 5 []))|].
    eapply rtc_l; [by apply (step_exec _ _ s _ 1 (Waiting 6 []) Finished)|]. apply rtc_refl. }
  split; [exact Hr|].
  apply (guard_holds_under_interleaving demo_render 1 60 10 l s [Checking 5 []; Finished]); [lia|exact Hr].
Defined.
