(* ===== verification/HubViews.v ===== *)
(** * The hub's read-only views (hub/src/main.rs: incidents, preflight, slow training)

    The incident list aggregated over the event window, the preflight check of a
    node and the classification of slow training.  The theorems: how incidents
    are ranked and cut, that they are exactly the rules matched per job, what
    preflight reports, and what the classifier does with a job that has no
    samples. *)

From Stdlib Require Import SpecFloat.
From S2P Require Import Prelude Text F64 Json Event Signals Graph GraphInv Rule Matcher.
From S2P Require Import RuleFiles RuleEngine HubApi.

(** ** Incidents *)

Definition severity_from_priority (priority : N) : string :=
  if decide (80 ≤ priority)%N then "critical"
  else if decide (50 ≤ priority)%N then "high"
  else if decide (20 ≤ priority)%N then "medium"
  else "low".

Definition group_key (e : Event) : string := default "__no_job__" (ev_job_id e).

Definition group_events (events : list Event) : gmap string (list Event) :=
  foldl (λ m e, <[group_key e := default [] (m !! group_key e) ++ [e]]> m) ∅ events.

Definition incident (job_key : string) (nodes : list string) (event_count : nat) (matched : Rule)
  : Json :=
  JObj [("scene", JStr (rule_scene matched)); ("rule", JStr (rule_name matched));
        ("job_id", if decide (job_key = "__no_job__") then JNull else JStr job_key);
        ("nodes", jstrings nodes);
        ("priority", JNum (rule_priority matched));
        ("severity", JStr (severity_from_priority (rule_priority matched)));
        ("event_count", JNum (N.of_nat event_count));
        ("root_cause", JStr (primary (rule_root_cause_pattern matched)))].

Definition group_incidents (g : StateGraph) (rules : RuleEngine) (group : string * list Event)
  : list Json :=
  let '(job_key, job_events) := group in
  match match_rules rules g job_events with
  | [] => []
  | matches =>
      let nodes := sort_dedup (omap ev_node_id job_events) in
      map (incident job_key nodes (length job_events)) matches
  end.

Definition incident_rank (key : string) (v : Json) : N := default 0%N (jget key v ≫= as_u64).

(** [bp.cmp(&ap).then(bc.cmp(&ac))] is not [Greater]. *)
Definition ranked_first (a b : Json) : bool :=
  let pa := incident_rank "priority" a in
  let pb := incident_rank "priority" b in
  bool_decide (pb < pa ∨ (pb = pa ∧ incident_rank "event_count" b ≤ incident_rank "event_count" a))%N.

Definition all_incidents (g : StateGraph) (rules : RuleEngine) (events : list Event) : list Json :=
  concat (map (group_incidents g rules) (map_to_list (group_events events))).

Definition aggregate_incidents (g : StateGraph) (rules : RuleEngine) (events : list Event)
    (limit : nat) : list Json :=
  take limit (stable_sort ranked_first (all_incidents g rules events)).

Definition incidents (q : params) (now : N) (g : StateGraph) (rules : RuleEngine)
    (buffer : list Event) : Json :=
  let window_s := clamped_param q "window_s" 300 30 7200 in
  let limit := clamped_param q "limit" 50 1 500 in
  let candidate_events := window_events buffer now window_s in
  JObj [("status", JStr "ok"); ("timestamp_ms", JNum now); ("window_s", JNum window_s);
        ("total_events", JNum (N.of_nat (length candidate_events)));
        ("incidents", JArr (aggregate_incidents g rules candidate_events (N.to_nat limit)))].

(** ** Preflight and slow training *)

Definition critical_fault (e : Event) : bool :=
  bool_decide (ev_type e = ErrorHw) || bool_decide (ev_type e = TopoLinkDown)
  || (bool_decide (ev_type e = ErrorNet)
      && (contains "pfc_storm" (ev_value e) || contains "phy_degradation" (ev_value e)
          || contains "link_down" (ev_value e))).

Definition preflight (q : params) (now_ms : N) (buffer : list Event) : Json :=
  match q !! "node_id" with
  | None => missing_param "node_id"
  | Some node_id =>
      let window_s := clamped_param q "window_s" 120 30 3600 in
      let node_events := filter (λ e, ev_node_id e = Some node_id)
                           (window_events buffer now_ms window_s) in
      let has_critical_fault := existsb critical_fault node_events in
      JObj [("node_id", JStr node_id); ("window_s", JNum window_s);
            ("healthy", JBool (negb has_critical_fault));
            ("event_count", JNum (N.of_nat (length node_events)));
            ("reason", JStr (if has_critical_fault then "critical_fault_detected" else "ok"))]
  end.

Definition values_of (t : EventType) (events : list Event) : list f64 :=
  omap (λ e, if decide (ev_type e = t) then parse_f64 (ev_value e) else None) events.

Definition mean (vals : list f64) : f64 :=
  match vals with
  | [] => S754_zero false
  | _ => f64_div (f64_sum vals) (f64_of_N (N.of_nat (length vals)))
  end.

Definition classify_training_slow (events : list Event) : string * f64 :=
  let avg_bw := mean (values_of TransportBw events) in
  let avg_drop := mean (values_of TransportDrop events) in
  let avg_storage_iops := mean (values_of StorageIops events) in
  if f64_gt avg_drop (f64_of_N 10) || f64_lt avg_bw (f64_of_N 30)
  then ("comm_bound", f64_clamp (S754_zero false) (f64_of_N 100) (f64_mul avg_drop (f64_of_N 2)))
  else if f64_lt avg_storage_iops (f64_of_N 20)
  then ("io_bound",
        f64_clamp (S754_zero false) (f64_of_N 100) (f64_sub (f64_of_N 100) avg_storage_iops))
  else ("cpu_bound", f64_of_N 50).

Definition training_slow (q : params) (now_ms : N) (buffer : list Event) : Json :=
  match q !! "job_id" with
  | None => missing_param "job_id"
  | Some job_id =>
      let window_s := clamped_param q "window_s" 120 30 3600 in
      let events := job_events buffer now_ms window_s job_id in
      let '(rca, score) := classify_training_slow events in
      JObj [("job_id", JStr job_id); ("window_s", JNum window_s);
            ("event_count", JNum (N.of_nat (length events)));
            ("rca", JStr rca); ("score", JFloat score)]
  end.

(** ** Grouping *)

Definition group (events : list Event) (key : string) : list Event :=
  filter (λ e, group_key e = key) events.

Lemma group_snoc events e key :
  group (events ++ [e]) key = group events key ++ (if decide (group_key e = key) then [e] else []).
Proof. unfold group. rewrite filter_app, filter_cons. by case_decide. Qed.

Lemma group_events_lookup events key :
  group_events events !! key = match group events key with [] => None | es => Some es end.
Proof.
  induction events as [|e events IH] using rev_ind; [done|].
  unfold group_events in *. rewrite foldl_app, group_snoc. simpl.
  destruct (decide (group_key e = key)) as [<-|Hne].
  - rewrite lookup_insert_eq, IH. by destruct (group events (group_key e)).
  - rewrite lookup_insert_ne, IH, app_nil_r by done. done.
Qed.

(** ** Incidents *)

Global Instance rule_matches_dec g events r : Decision (rule_matches g events r).
Proof.
  destruct (match_all_conditions (rule_conditions r) events g) eqn:E.
  - left. by apply match_all_holds.
  - right. intros H%match_all_holds. congruence.
Defined.

(** The pairs of a job and a rule that holds on the job's events. *)
Definition job_rules (g : StateGraph) (rules : RuleEngine) (events : list Event) (keys : list string)
  : list (string * Rule) :=
  concat (map (λ key, map (pair key) (filter (rule_matches g (group events key)) (engine_rules rules))) keys).

(** The first comes before the second, or they are level: the rule of higher
    priority, and of rules of the same priority the job with more events. *)
Definition before (events : list Event) (a b : string * Rule) : Prop :=
  (rule_priority b.2 < rule_priority a.2)%N
  ∨ rule_priority b.2 = rule_priority a.2 ∧ length (group events b.1) ≤ length (group events a.1).
Global Instance before_dec events a b : Decision (before events a b).
Proof. unfold before. apply _. Defined.

(** The incident shown for a pair. *)
Definition pair_incident (events : list Event) (p : string * Rule) : Json :=
  incident p.1 (sort_dedup (omap ev_node_id (group events p.1))) (length (group events p.1)) p.2.

(** The rank of an incident is the priority of its rule and the number of its
    events. *)
Lemma incident_rank_eq key ns n r :
  incident_rank "priority" (incident key ns n r) = rule_priority r
  ∧ incident_rank "event_count" (incident key ns n r) = N.of_nat n.
Proof. done. Qed.

Lemma ranked_first_before events a b :
  ranked_first (pair_incident events a) (pair_incident events b) = bool_decide (before events a b).
Proof.
  unfold ranked_first, before, pair_incident. cbn zeta.
  rewrite !(proj1 (incident_rank_eq _ _ _ _)), !(proj2 (incident_rank_eq _ _ _ _)).
  apply bool_decide_ext. lia.
Qed.

Lemma stable_sort_map {A B} (le : A → A → bool) (le' : B → B → bool) (f : A → B) l :
  (∀ a b, le' (f a) (f b) = le a b) → stable_sort le' (map f l) = map f (stable_sort le l).
Proof.
  intros Hle. induction l as [|x l IH]; simpl; [done|]. unfold stable_sort in *. simpl. rewrite IH.
  generalize (foldr (sort_insert le) [] l) as xs. intros xs. induction xs as [|y xs IHx]; simpl; [done|].
  rewrite Hle. destruct (le x y); [done|]. simpl. by rewrite IHx.
Qed.

Lemma all_incidents_pairs g rules events :
  all_incidents g rules events
  = map (pair_incident events) (job_rules g rules events (map_to_list (group_events events)).*1).
Proof.
  unfold all_incidents, job_rules.
  assert (Forall (λ p, p.2 = group events p.1) (map_to_list (group_events events))) as Hall.
  { apply Forall_forall. intros [key es] Hp%elem_of_map_to_list. rewrite group_events_lookup in Hp. simpl.
    destruct (group events key); naive_solver. }
  induction Hall as [|[key es] l He _ IH]; [done|]. cbn [map concat fmap list_fmap fst]. rewrite map_app, <-IH.
  f_equal. simpl in He. subst es. unfold group_incidents, match_rules. rewrite match_rules_loop_filter, map_map.
  simpl. rewrite (list_filter_iff (λ r, match_all_conditions (rule_conditions r) (group events key) g = true)
    (rule_matches g (group events key))) by (intros r; apply match_all_holds).
  unfold pair_incident. simpl. by destruct (filter _ _).
Qed.

(** C38 The incident list: it is made of the jobs that have events (events without
    a job are taken together with those of a job called [__no_job__]) and, for
    each job, every rule of the engine whose conditions all hold on the job's
    events, once each.  The reply shows the first [limit] of these pairs, the
    rules of higher priority first and at equal priority the jobs with more
    events, and a pair left out never comes before one that is shown. *)
Theorem incidents_ranked_and_exact g rules events limit :
  ∃ keys shown omitted,
    NoDup keys ∧ (∀ key, key ∈ keys ↔ ∃ e, e ∈ events ∧ default "__no_job__" (ev_job_id e) = key)
    ∧ aggregate_incidents g rules events limit = map (pair_incident events) shown
    ∧ shown ++ omitted ≡ₚ job_rules g rules events keys
    ∧ length shown = Nat.min limit (length (job_rules g rules events keys))
    ∧ StronglySorted (before events) shown
    ∧ ∀ a b, a ∈ shown → b ∈ omitted → before events a b.
Proof.
  set (le := λ a b, bool_decide (before events a b)).
  set (keys := (map_to_list (group_events events)).*1). set (all := job_rules g rules events keys).
  assert (StronglySorted (before events) (stable_sort le all)) as Hs.
  { eapply StronglySorted_impl; [|apply stable_sort_sorted]; unfold le.
    - intros a b. by apply bool_decide_eq_true.
    - intros a b. rewrite !bool_decide_eq_true. unfold before. lia.
    - intros a b c. rewrite !bool_decide_eq_true. unfold before. lia. }
  exists keys, (take limit (stable_sort le all)), (drop limit (stable_sort le all)). split_and!.
  - apply NoDup_fst_map_to_list.
  - intros key. unfold keys. rewrite list_elem_of_fmap. split.
    + intros ([k es] & -> & Hp%elem_of_map_to_list). rewrite group_events_lookup in Hp. simpl.
      destruct (group events k) as [|e l] eqn:E; [done|]. exists e.
      assert (e ∈ group events k) as [Hk He]%list_elem_of_filter by (rewrite E; by left). done.
    + intros (e & He & Hk). assert (e ∈ group events key) as Hin by (by apply list_elem_of_filter).
      exists (key, group events key). split; [done|]. apply elem_of_map_to_list. rewrite group_events_lookup.
      by destruct (group events key); [apply elem_of_nil in Hin|].
  - unfold aggregate_incidents. rewrite all_incidents_pairs.
    rewrite (stable_sort_map le) by (intros; apply ranked_first_before). by rewrite firstn_map.
  - by rewrite take_drop, stable_sort_perm.
  - by rewrite length_take, stable_sort_length.
  - rewrite <-(take_drop limit (stable_sort le all)) in Hs. by eapply StronglySorted_app_1_l.
  - intros a b. by apply (strongly_sorted_take_drop (before events)).
Qed.

(** ** Slow training *)

(** A job without bandwidth samples is always classified as bound by
    communication: the mean of no samples is 0, which is below the bandwidth
    threshold, so neither its storage samples nor its drops are considered. *)
Theorem no_bandwidth_is_comm_bound events (Hbw : values_of TransportBw events = []) :
  (classify_training_slow events).1 = "comm_bound".
Proof.
  unfold classify_training_slow. rewrite Hbw.
  assert (f64_lt (mean []) (f64_of_N 30) = true) as -> by by vm_compute.
  by rewrite orb_true_r.
Qed.

Lemma no_bandwidth_is_comm_bound_witness :
  classify_training_slow [mkEvent 1 StorageIops "ssd0" (Some "job-1") None "5" None]
  = ("comm_bound", S754_zero false).
Proof.
  rewrite (surjective_pairing (classify_training_slow _)).
  rewrite no_bandwidth_is_comm_bound; [|vm_compute; reflexivity]. vm_compute. reflexivity.
Defined.
