(* ===== verification/Scene.v ===== *)
(** * Scenes (agent/src/scene)

    Recognition of the failure scene of a process from the graph, and the nine
    scene analyzers with their registry.  The loops over the edges are written
    as [flat_map] over the edges of the target.  The theorems: recognition is
    sound for each scene it returns, the registry serves every scene but two,
    and, because the graph only ever writes a fixed set of metadata keys, the
    branches of the analyzers that read any other key are never taken. *)

From Stdlib Require Import SpecFloat.
From S2P Require Import Prelude F64 Event Signals Graph GraphInv.

(** ** Types *)

Inductive SceneType :=
| GpuOom | GpuUtilLow | GpuError
| NpuSubhealth | WorkloadStalled
| NetworkStall | NetworkDrop
| StorageIoError | StorageSlow
| ProcessBlocked | ProcessCrash.

Global Instance scene_type_eq_dec : EqDecision SceneType.
Proof. solve_decision. Defined.

Definition scene_as_str (s : SceneType) : string :=
  match s with
  | GpuOom => "gpu_oom"
  | GpuUtilLow => "gpu_util_low"
  | GpuError => "gpu_error"
  | NpuSubhealth => "npu_subhealth"
  | WorkloadStalled => "workload_stalled"
  | NetworkStall => "network_stall"
  | NetworkDrop => "network_drop"
  | StorageIoError => "storage_io_error"
  | StorageSlow => "storage_slow"
  | ProcessBlocked => "process_blocked"
  | ProcessCrash => "process_crash"
  end.

Inductive Severity := Critical | Warning | Info.
Definition severity_default : Severity := Warning.

Record AnalysisResult := mkAnalysisResult {
  ar_scene : SceneType;
  ar_root_causes : list string;
  ar_confidence : f64;
  ar_recommendations : list string;
  ar_recommended_actions : list string;
  ar_severity : Severity
}.

(** Decimal literals of the source. *)
Definition dec1 (n : N) : f64 := f64_of_dec false n (-1).
Definition dec2 (n : N) : f64 := f64_of_dec false n (-2).

(** ** Reading the graph *)

Definition edges_of (es : list Edge) (target : string) (t : EdgeType) : list Edge :=
  filter (λ e, edge_from e = target ∧ edge_type e = t) es.

(** [node.metadata.get(key)] parsed as a number. *)
Definition metric (n : Node) (key : string) : option f64 :=
  match metadata n !! key with Some v => parse_f64 v | None => None end.

Definition metric_test (n : Node) (key : string) (t : f64 → bool) : bool :=
  match metric n key with Some v => t v | None => false end.

Definition hccs_degraded (n : Node) : bool :=
  match metadata n !! "hccs_lane_status" with
  | Some s => bool_decide (s = "degraded") || contains "降级" s
  | None => false
  end.

Definition is_oom (error_type : string) : bool :=
  contains "OOM" error_type || contains "out of memory" error_type.

(** ** Recognition *)

(** What one [BlockedBy] edge tells, in the order of the tests. *)
Definition blocked_scene (ns : gmap string Node) (e : Edge) : option SceneType :=
  match ns !! edge_to e with
  | None => None
  | Some node =>
      let gpu :=
        if starts_with "gpu-" (node_key node) || contains "gpu" (node_key node) then
          match metadata node !! "error_type" with
          | Some error_type =>
              if is_oom error_type then Some GpuOom
              else if contains "error" error_type || contains "XID" error_type then Some GpuError
              else None
          | None => None
          end
        else None in
      match gpu with
      | Some s => Some s
      | None =>
          if starts_with "npu-" (node_key node) || contains "ascend" (node_key node) then
            if metric_test node "temperature" (λ t, f64_gt t (f64_of_N 85)) then Some NpuSubhealth
            else if hccs_degraded node then Some NpuSubhealth
            else None
          else None
      end
  end.

Fixpoint first_some {A B} (f : A → option B) (l : list A) : option B :=
  match l with
  | [] => None
  | x :: l' => match f x with Some b => Some b | None => first_some f l' end
  end.

Definition network_target (to : string) : bool := starts_with "network-" to || contains "net" to.

(** The resources a process consumes: how many, how many of them below 1 %. *)
Definition low_util (ns : gmap string Node) (e : Edge) : bool :=
  match ns !! edge_to e with
  | Some n => metric_test n "util" (λ u, f64_lt u (f64_of_N 1))
  | None => false
  end.

Definition identify_scene (g : StateGraph) (p : N) : option SceneType :=
  let pid_str := "pid-" +:+ pretty p in
  let es := get_all_edges_async g in
  let ns := get_nodes_async g in
  match first_some (blocked_scene ns) (edges_of es pid_str BlockedBy) with
  | Some s => Some s
  | None =>
      if existsb (λ e, network_target (edge_to e)) (edges_of es pid_str WaitsOn)
      then Some NetworkStall
      else
        match ns !! pid_str with
        | None => None
        | Some node =>
            match metadata node !! "state" with
            | None => None
            | Some state =>
                if decide (state ∈ ["exit"; "crash"; "failed"]) then Some ProcessCrash
                else if decide (state ∈ ["blocked"; "waiting"]) then Some ProcessBlocked
                else if decide (state = "running") then
                  let consumed := edges_of es pid_str Consumes in
                  let total_resources := length consumed in
                  let low_util_count := length (filter (λ e, low_util ns e = true) consumed) in
                  let has_io_wait :=
                    existsb (λ e, contains "network" (edge_to e) || contains "storage" (edge_to e))
                      (edges_of es pid_str WaitsOn) in
                  if (0 <? total_resources) && (low_util_count =? total_resources)
                     && negb has_io_wait
                  then Some WorkloadStalled else None
                else None
            end
        end
  end.

(** ** Analyzers *)

Definition or_default (l : list string) (d : string) : list string :=
  match l with [] => [d] | _ => l end.

(** [f] on the node an edge leads to, when there is one. *)
Definition at_target {A} (ns : gmap string Node) (f : Edge → Node → list A) (e : Edge) : list A :=
  match ns !! edge_to e with Some n => f e n | None => [] end.

Definition when {A} (b : bool) (l : list A) : list A := if b then l else [].

Definition gpu_oom_analyze (g : StateGraph) (target : string) : AnalysisResult :=
  let es := get_all_edges_async g in
  let ns := get_nodes_async g in
  let oom_causes := flat_map (at_target ns (λ e n,
    when (starts_with "gpu-" (node_key n) || contains "gpu" (node_key n))
      match metadata n !! "error_type" with
      | Some error_type => when (is_oom error_type) ["GPU " +:+ node_key n +:+ " 显存不足"]
      | None => []
      end)) (edges_of es target BlockedBy) in
  let full := flat_map (λ e,
    when (starts_with "gpu-" (edge_to e))
      (at_target ns (λ e n,
         match metric n "mem_usage" with
         | Some usage => when (f64_gt usage (f64_of_N 95)) [(edge_to e, usage)]
         | None => []
         end) e)) (edges_of es target Consumes) in
  let root_causes := or_default
    (oom_causes ++ map (λ '(to, usage), "GPU " +:+ to +:+ " 显存使用率过高: "
                                        +:+ fmt_fixed 1 usage +:+ "%") full)
    "GPU 显存可能不足" in
  mkAnalysisResult GpuOom root_causes
    (if 1 <? length root_causes then dec1 9 else dec1 7)
    (map (λ '(to, _), "检查 GPU " +:+ to +:+ " 上的进程显存使用") full
     ++ ["使用 nvidia-smi 检查显存使用情况"; "考虑降低批处理大小或模型精度"; "检查是否有显存泄漏"])
    ["尝试触发框架层的 Checkpoint Dump 信号 (SIGUSR1)"; "隔离该节点，执行 ark zap 清理僵尸进程";
     "修改批量大小 (Batch Size) 后重提任务"]
    Critical.

Definition gpu_util_low_analyze (g : StateGraph) (target : string) : AnalysisResult :=
  let es := get_all_edges_async g in
  let ns := get_nodes_async g in
  let low_util_gpus := flat_map (λ e,
    when (starts_with "gpu-" (edge_to e) || starts_with "npu-" (edge_to e))
      (at_target ns (λ e n,
         match metric n "util" with
         | Some util_val => when (f64_lt util_val (f64_of_N 10)) [(edge_to e, util_val)]
         | None => []
         end) e)) (edges_of es target Consumes) in
  let has_waits_on := negb (bool_decide (edges_of es target WaitsOn = [])) in
  let low := negb (bool_decide (low_util_gpus = [])) in
  let root_causes :=
    if low then
      map (λ '(gpu_id, util), gpu_id +:+ " 利用率极低: " +:+ fmt_fixed 1 util +:+ "%") low_util_gpus
      ++ (if has_waits_on then ["进程可能在等待数据加载或网络传输"] else ["GPU 可能处于空闲状态"])
    else ["GPU 利用率可能偏低"] in
  mkAnalysisResult GpuUtilLow root_causes
    (if low then dec1 8 else dec1 6)
    (when low (if has_waits_on then ["检查数据加载速度"; "检查网络带宽"]
               else ["检查训练循环是否正常"; "检查是否有死锁或阻塞"])
     ++ ["使用 nvidia-smi 或 ascend-toolkit 检查 GPU/NPU 状态"; "检查训练代码中的同步点";
         "检查数据预处理是否成为瓶颈"])
    ["优化数据加载管道（增加 DataLoader workers）"; "检查是否有不必要的同步操作";
     "考虑使用混合精度训练提升吞吐"]
    Warning.

Definition network_stall_analyze (g : StateGraph) (target : string) : AnalysisResult :=
  let es := get_all_edges_async g in
  let ns := get_nodes_async g in
  let waits := filter (λ e, network_target (edge_to e) = true) (edges_of es target WaitsOn) in
  let wait_causes := flat_map (λ e,
    ("等待网络资源: " +:+ edge_to e)
    :: at_target ns (λ e n,
         match metric n "drop_rate" with
         | Some rate => when (f64_gt rate (f64_of_N 10))
                          ["网络 " +:+ edge_to e +:+ " 丢包率过高: " +:+ fmt_fixed 1 rate +:+ "%"]
         | None => []
         end) e) waits in
  let error_causes := flat_map (λ e,
    when (network_target (edge_to e))
      (at_target ns (λ _ n, when (contains "error" (node_key n))
                              ["网络错误: " +:+ node_key n]) e)) (edges_of es target BlockedBy) in
  mkAnalysisResult NetworkStall
    (or_default (wait_causes ++ error_causes) "网络可能阻塞")
    (if 0 <? length waits then dec2 85 else dec1 6)
    ["检查网络带宽使用情况"; "检查网络丢包统计"; "检查 RDMA 连接状态（如果使用）"]
    ["检查交换机 PFC 配置"; "检查 RoCE/HCCS 连接状态"]
    Warning.

Definition process_crash_analyze (g : StateGraph) (target : string) : AnalysisResult :=
  let es := get_all_edges_async g in
  let ns := get_nodes_async g in
  let state_causes :=
    match ns !! target with
    | Some node =>
        match metadata node !! "state" with
        | Some state => when (bool_decide (state ∈ ["exit"; "crash"; "failed"]))
                          ["进程状态: " +:+ state]
        | None => []
        end
    | None => []
    end in
  let error_causes := flat_map (at_target ns (λ e n,
    when (contains "error" (node_key n))
      match metadata n !! "error_type" with
      | Some error_type => ["错误: " +:+ error_type]
      | None => ["错误节点: " +:+ edge_to e]
      end)) (edges_of es target BlockedBy) in
  mkAnalysisResult ProcessCrash
    (or_default (state_causes ++ error_causes) "进程可能异常退出")
    (dec2 75)
    ["检查进程退出码"; "检查系统日志"; "检查资源使用情况（内存、CPU）"; "检查依赖服务状态"]
    ["检查 Checkpoint 文件是否完整"; "如果支持，尝试从 Checkpoint 恢复训练"; "修复根因后重新提交任务"]
    Critical.

Definition storage_io_error_analyze (g : StateGraph) (target : string) : AnalysisResult :=
  let es := get_all_edges_async g in
  let ns := get_nodes_async g in
  let causes := flat_map (λ e,
    if decide (edge_from e = target ∧ edge_type e = BlockedBy) then
      when (contains "storage" (edge_to e) || contains "disk" (edge_to e) || contains "nvme" (edge_to e))
        (at_target ns (λ e n,
           match metadata n !! "error_type" with
           | Some error_type => ["存储错误: " +:+ error_type]
           | None => ["存储设备 " +:+ edge_to e +:+ " 异常"]
           end) e)
    else if decide (edge_from e = target ∧ edge_type e = WaitsOn) then
      when (contains "storage" (edge_to e) || contains "disk" (edge_to e))
        (at_target ns (λ _ n,
           match metadata n !! "io_error" with
           | Some io_error => ["存储 IO 错误: " +:+ io_error]
           | None => []
           end) e)
    else []) es in
  mkAnalysisResult StorageIoError
    (or_default causes "存储 IO 可能存在问题")
    (dec2 75)
    ["检查存储设备健康状态"; "检查文件系统错误"; "检查磁盘空间"; "检查存储设备 I/O 统计"]
    ["检查 dmesg 中的存储错误日志"; "运行 fsck 检查文件系统"; "检查存储设备 SMART 状态"]
    Critical.

Definition storage_slow_analyze (g : StateGraph) (target : string) : AnalysisResult :=
  let es := get_all_edges_async g in
  let ns := get_nodes_async g in
  let slow_storage := flat_map (λ e,
    when (contains "storage" (edge_to e) || contains "disk" (edge_to e) || contains "nvme" (edge_to e))
      (at_target ns (λ e n,
         match metric n "iops" with
         | Some v => when (f64_lt v (f64_of_N 100)) [(edge_to e, "IOPS 过低: " +:+ fmt_fixed 0 v)]
         | None => []
         end
         ++ match metric n "latency_ms" with
            | Some v => when (f64_gt v (f64_of_N 100))
                          [(edge_to e, "IO 延迟过高: " +:+ fmt_fixed 1 v +:+ "ms")]
            | None => []
            end
         ++ match metric n "qdepth" with
            | Some v => when (f64_gt v (f64_of_N 100))
                          [(edge_to e, "队列深度过高: " +:+ fmt_fixed 0 v)]
            | None => []
            end) e)) (edges_of es target WaitsOn) in
  mkAnalysisResult StorageSlow
    (or_default (map (λ '(storage_id, reason), storage_id +:+ ": " +:+ reason) slow_storage)
       "存储性能可能偏低")
    (match slow_storage with [] => dec1 6 | _ => dec1 8 end)
    ["检查存储设备性能基准"; "检查是否有其他进程竞争存储资源"; "检查存储设备是否过热"]
    ["使用 iostat 监控存储性能"; "考虑使用更快的存储（NVMe SSD）"; "优化数据加载策略（预取、缓存）"]
    Warning.

Definition checkpoint_timeout_analyze (g : StateGraph) (target : string) : AnalysisResult :=
  let es := get_all_edges_async g in
  let ns := get_nodes_async g in
  let storage_waits :=
    filter (λ e, contains "storage" (edge_to e) || contains "disk" (edge_to e) = true)
      (edges_of es target WaitsOn) in
  let slow := flat_map (at_target ns (λ e n,
    match metric n "iops" with
    | Some v => when (f64_lt v (f64_of_N 50))
                  ["存储 " +:+ edge_to e +:+ " IOPS 过低: " +:+ fmt_fixed 0 v]
    | None => []
    end)) storage_waits in
  let storage_slow := negb (bool_decide (slow = [])) in
  let saving :=
    match ns !! target with
    | Some node => match metadata node !! "state" with
                   | Some state => contains "checkpoint" state || contains "saving" state
                   | None => false
                   end
    | None => false
    end in
  let checkpoint_wait := negb (bool_decide (storage_waits = [])) || saving in
  mkAnalysisResult ProcessBlocked
    (slow ++ (if checkpoint_wait then
                if storage_slow then ["Checkpoint 操作因存储性能问题而超时"]
                else ["Checkpoint 操作可能超时"]
              else ["可能不是 Checkpoint 相关的问题"]))
    (if checkpoint_wait then dec1 8 else dec1 5)
    (when checkpoint_wait
       ["检查 Checkpoint 文件大小和存储性能"; "考虑使用异步 Checkpoint 保存"; "检查存储设备健康状态"])
    ["尝试触发 Checkpoint Dump 信号 (SIGUSR1)"; "如果 Checkpoint 损坏，从上一个 Checkpoint 恢复";
     "优化 Checkpoint 保存策略（减少频率或使用增量保存）"; "检查 Checkpoint 目录的磁盘空间"]
    Warning.

(** The findings on one NPU: its root causes and its recommendations. *)
Definition npu_findings (e : Edge) (n : Node) : list (string * option string) :=
  match metric n "temperature" with
  | Some t => when (f64_gt t (f64_of_N 85))
                [("NPU " +:+ edge_to e +:+ " SOC 过温: " +:+ fmt_fixed 1 t +:+ "°C",
                  Some ("检查 NPU " +:+ edge_to e +:+ " 的散热系统"))]
  | None => []
  end
  ++ when (hccs_degraded n)
       [("NPU " +:+ edge_to e +:+ " HCCS 链路降级",
         Some ("检查 NPU " +:+ edge_to e +:+ " 的 HCCS 连接"))]
  ++ match metric n "frequency", metric n "max_frequency" with
     | Some f, Some mf =>
         when (f64_lt f (f64_mul mf (dec1 9)))
           [("NPU " +:+ edge_to e +:+ " 频率降频: " +:+ fmt_fixed 0 f +:+ "MHz (最大: "
             +:+ fmt_fixed 0 mf +:+ "MHz)", None)]
     | _, _ => []
     end.

Definition npu_subhealth_analyze (g : StateGraph) (target : string) : AnalysisResult :=
  let es := get_all_edges_async g in
  let ns := get_nodes_async g in
  let found := flat_map (λ e,
    when (starts_with "npu-" (edge_to e) || contains "ascend" (edge_to e))
      (at_target ns npu_findings e)) (edges_of es target Consumes) in
  let root_causes := or_default (map fst found) "NPU 可能处于亚健康状态" in
  mkAnalysisResult NpuSubhealth root_causes
    (if 1 <? length root_causes then dec2 85 else dec1 7)
    (omap snd found
     ++ ["检查机器散热和风扇状态"; "检查 NPU 固件版本和驱动"; "监控 NPU 温度趋势"])
    ["隔离亚健康节点，避免新任务调度到此节点"; "联系硬件维护团队检查 NPU 硬件状态"]
    Warning.

Definition workload_stalled_analyze (g : StateGraph) (target : string) : AnalysisResult :=
  let es := get_all_edges_async g in
  let ns := get_nodes_async g in
  let is_running :=
    match ns !! target with
    | Some n => bool_decide (metadata n !! "state" = Some "running")
    | None => false
    end in
  if negb is_running then
    mkAnalysisResult WorkloadStalled ["进程不在运行状态"] (f64_of_N 0) [] [] Info
  else
    let consumed := edges_of es target Consumes in
    let total_resources := length consumed in
    let low_util_count := length (filter (λ e, low_util ns e = true) consumed) in
    let has_io_wait :=
      existsb (λ e, contains "network" (edge_to e) || contains "storage" (edge_to e)
                    || contains "disk" (edge_to e)) (edges_of es target WaitsOn) in
    let '(root_causes, recommendations) :=
      if (0 <? total_resources) && (low_util_count =? total_resources) && negb has_io_wait then
        (["进程处于死锁/卡死状态"; "所有 " +:+ pretty total_resources +:+ " 个资源利用率均 < 1%";
          "未检测到网络或存储 IO 等待"],
         ["检查进程是否在等待锁或信号量"; "检查进程是否在等待其他进程"; "检查应用日志中的死锁信息"])
      else if has_io_wait then
        (["进程可能在等待 IO 操作完成"], ["检查网络或存储性能"])
      else (["进程可能处于正常的数据预处理阶段"], ["继续观察，如果超过预期时间再处理"]) in
    mkAnalysisResult WorkloadStalled root_causes
      (if (low_util_count =? total_resources) && negb has_io_wait then dec1 9 else dec1 6)
      recommendations
      ["如果确认卡死，执行 ark zap 终止进程"; "检查是否有 Checkpoint 可以恢复"]
      Warning.

(** ** The registry

    An analyzer is the scene it serves and its function; registration appends,
    lookup takes the first that serves the scene. *)

Record SceneAnalyzer := mkSceneAnalyzer {
  scene_type : SceneType;
  analyze : StateGraph → string → AnalysisResult
}.

Definition register (r : list SceneAnalyzer) (a : SceneAnalyzer) : list SceneAnalyzer := r ++ [a].

Definition get_analyzer (r : list SceneAnalyzer) (scene : SceneType) : option SceneAnalyzer :=
  List.find (λ a, bool_decide (scene_type a = scene)) r.

Definition scene_identifier_new : list SceneAnalyzer :=
  foldl register []
    [mkSceneAnalyzer GpuOom gpu_oom_analyze;
     mkSceneAnalyzer NpuSubhealth npu_subhealth_analyze;
     mkSceneAnalyzer WorkloadStalled workload_stalled_analyze;
     mkSceneAnalyzer GpuUtilLow gpu_util_low_analyze;
     mkSceneAnalyzer NetworkStall network_stall_analyze;
     mkSceneAnalyzer ProcessCrash process_crash_analyze;
     mkSceneAnalyzer StorageIoError storage_io_error_analyze;
     mkSceneAnalyzer StorageSlow storage_slow_analyze;
     mkSceneAnalyzer ProcessBlocked checkpoint_timeout_analyze].

Definition analyze_scene (scene : SceneType) (g : StateGraph) (p : N) : option AnalysisResult :=
  let pid_str := "pid-" +:+ pretty p in
  (λ a, analyze a g pid_str) <$> get_analyzer scene_identifier_new scene.

(** ** Keys that are never written *)

Lemma unknown_key (g : StateGraph) id n key :
  graph_wf g → nodes g !! id = Some n → bool_decide (key ∈ known_keys) = false →
  metadata n !! key = None.
Proof.
  intros [Hn _] Hid Hk. apply bool_decide_eq_false in Hk. destruct (Hn _ _ Hid) as [_ Hm].
  destruct (metadata n !! key) eqn:E; [|done]. destruct Hk. apply Hm. by rewrite E.
Qed.

Lemma unknown_metric g id n key :
  graph_wf g → nodes g !! id = Some n → bool_decide (key ∈ known_keys) = false →
  metric n key = None.
Proof. intros Hg Hid Hk. unfold metric. by rewrite (unknown_key g id n key Hg Hid Hk). Qed.

Lemma flat_map_nil {A B} (f : A → list B) l : (∀ x, f x = []) → flat_map f l = [].
Proof. intros H. induction l as [|x l IH]; simpl; [done|]. by rewrite H, IH. Qed.

Lemma at_target_nil {A} g (f : Edge → Node → list A) e :
  (∀ id n, nodes g !! id = Some n → f e n = []) → at_target (nodes g) f e = [].
Proof. intros H. unfold at_target. destruct (nodes g !! edge_to e) eqn:E; [by eapply H|done]. Qed.

Lemma blocked_scene_not_npu g e :
  graph_wf g → blocked_scene (nodes g) e ≠ Some NpuSubhealth.
Proof.
  intros Hg. unfold blocked_scene. destruct (nodes g !! edge_to e) as [n|] eqn:E; [|done].
  unfold metric_test, hccs_degraded.
  rewrite (unknown_metric g _ n "temperature" Hg E), (unknown_key g _ n "hccs_lane_status" Hg E)
    by (vm_compute; reflexivity).
  repeat case_match; congruence.
Qed.

Lemma first_some_not {A B} (f : A → option B) l b :
  (∀ x, f x ≠ Some b) → first_some f l ≠ Some b.
Proof. intros H. induction l as [|x l IH]; simpl; [done|]. specialize (H x). by case_match. Qed.

(** ** What a recognised scene means *)

Definition gpu_error_evidence (g : StateGraph) (p : string) (test : string → bool) : Prop :=
  ∃ e n error_type, e ∈ edges (store g) ∧ edge_from e = p ∧ edge_type e = BlockedBy
    ∧ nodes g !! edge_to e = Some n ∧ contains "gpu" (node_key n) = true
    ∧ metadata n !! "error_type" = Some error_type ∧ test error_type = true.

Definition scene_evidence (g : StateGraph) (p : string) (s : SceneType) : Prop :=
  match s with
  | GpuOom => gpu_error_evidence g p is_oom
  | GpuError => gpu_error_evidence g p (λ t, contains "error" t || contains "XID" t)
  | NetworkStall => ∃ e, e ∈ edges (store g) ∧ edge_from e = p ∧ edge_type e = WaitsOn
                         ∧ network_target (edge_to e) = true
  | ProcessCrash => ∃ n st, nodes g !! p = Some n ∧ metadata n !! "state" = Some st
                            ∧ st ∈ ["exit"; "crash"; "failed"]
  | ProcessBlocked => ∃ n st, nodes g !! p = Some n ∧ metadata n !! "state" = Some st
                              ∧ st ∈ ["blocked"; "waiting"]
  | WorkloadStalled =>
      (∃ n, nodes g !! p = Some n ∧ metadata n !! "state" = Some "running")
      ∧ (∃ e, e ∈ edges (store g) ∧ edge_from e = p ∧ edge_type e = Consumes)
      ∧ (∀ e, e ∈ edges (store g) → edge_from e = p → edge_type e = Consumes →
           low_util (nodes g) e = true)
      ∧ (∀ e, e ∈ edges (store g) → edge_from e = p → edge_type e = WaitsOn →
           contains "network" (edge_to e) = false ∧ contains "storage" (edge_to e) = false)
  | _ => False
  end.

Lemma first_some_Some {A B} (f : A → option B) l b :
  first_some f l = Some b → ∃ x, x ∈ l ∧ f x = Some b.
Proof.
  induction l as [|x l IH]; simpl; [done|]. destruct (f x) eqn:E.
  - intros [= ->]. exists x. split; [by left|done].
  - intros (y & ? & ?)%IH. exists y. split; [by right|done].
Qed.

Lemma elem_of_edges_of es p t e :
  e ∈ edges_of es p t ↔ e ∈ es ∧ edge_from e = p ∧ edge_type e = t.
Proof. unfold edges_of. rewrite list_elem_of_filter. tauto. Qed.

(** A name that starts with [gpu-] contains [gpu]. *)
Lemma gpu_prefix_contains s : starts_with "gpu-" s || contains "gpu" s = true → contains "gpu" s = true.
Proof.
  intros [H|H]%orb_true_iff; [|done]. apply starts_with_true in H as [t ->].
  apply contains_true. exists "", (String "-" t). done.
Qed.

Lemma blocked_scene_evidence g p e s :
  graph_wf g → e ∈ edges_of (edges (store g)) p BlockedBy →
  blocked_scene (nodes g) e = Some s → scene_evidence g p s.
Proof.
  intros Hg (Hin & Hf & Ht)%elem_of_edges_of Hs.
  destruct (decide (s = NpuSubhealth)) as [->|Hnpu]; [by apply blocked_scene_not_npu in Hs|].
  revert Hs. unfold blocked_scene. destruct (nodes g !! edge_to e) as [n|] eqn:En; [|done].
  destruct (starts_with "gpu-" (node_key n) || contains "gpu" (node_key n)) eqn:Egpu.
  2: { repeat case_match; congruence. }
  apply gpu_prefix_contains in Egpu.
  destruct (metadata n !! "error_type") as [et|] eqn:Ee; [|repeat case_match; congruence].
  destruct (is_oom et) eqn:Eo.
  { intros [= <-]. simpl. exists e, n, et. done. }
  destruct (contains "error" et || contains "XID" et) eqn:Ex; [|repeat case_match; congruence].
  intros [= <-]. simpl. exists e, n, et. done.
Qed.

Lemma filter_length_all {A} (P : A → Prop) `{!∀ x, Decision (P x)} (l : list A) :
  length (filter P l) = length l → ∀ x, x ∈ l → P x.
Proof.
  induction l as [|y l IH]; intros Hl x Hx; [by apply elem_of_nil in Hx|].
  rewrite filter_cons in Hl. case_decide; simpl in Hl.
  - apply elem_of_cons in Hx as [->|Hx]; [done|]. apply IH; [lia|done].
  - pose proof (length_filter P l). lia.
Qed.

Lemma identify_scene_evidence g p s :
  graph_wf g → identify_scene g p = Some s → scene_evidence g ("pid-" +:+ pretty p) s.
Proof.
  intros Hg. unfold identify_scene, get_all_edges_async, get_nodes_async.
  set (pid := "pid-" +:+ pretty p). clearbody pid.
  destruct (first_some _ _) as [s0|] eqn:Ef.
  { intros [= <-]. apply first_some_Some in Ef as (e & ? & ?). by eapply blocked_scene_evidence. }
  destruct (existsb (λ e, network_target (edge_to e)) _) eqn:Ew.
  { intros [= <-]. apply existsb_exists in Ew as (e & He & Hn).
    apply list_elem_of_In, elem_of_edges_of in He as (? & ? & ?). exists e. done. }
  destruct (nodes g !! pid) as [n|] eqn:En; [|done].
  destruct (metadata n !! "state") as [st|] eqn:Est; [|done].
  case_decide; [intros [= <-]; by exists n, st|].
  case_decide; [intros [= <-]; by exists n, st|].
  case_decide; [|done]. subst st.
  destruct (_ && _) eqn:Eall; [|done]. intros [= <-].
  apply andb_true_iff in Eall as [Eall Hio]. apply andb_true_iff in Eall as [Hpos Hlow].
  apply Nat.ltb_lt in Hpos. apply Nat.eqb_eq in Hlow. apply negb_true_iff in Hio.
  split_and!; [by exists n| | |].
  - destruct (edges_of (edges (store g)) pid Consumes) as [|e l] eqn:Ec; simpl in Hpos; [lia|].
    exists e. apply elem_of_edges_of. rewrite Ec. by left.
  - intros e He Hfrom Hty. apply (filter_length_all _ _ Hlow). by apply elem_of_edges_of.
  - intros e He Hfrom Hty. rewrite <-orb_false_iff. rewrite <-not_true_iff_false in Hio |- *.
    intros Hc. apply Hio, existsb_exists. exists e. split; [|done].
    by apply list_elem_of_In, elem_of_edges_of.
Qed.

(** ** Claims *)

(** A recognised scene is backed by the graph: a GPU out-of-memory or error
    scene by a [BlockedBy] edge to a GPU error node of that kind, a network
    stall by a wait on a network resource, a crash or a blocked process by its
    recorded state, a stalled workload by a running process all of whose
    resources (at least one) are below one per cent and which waits on no
    network or storage; no other scene is ever returned. *)
Theorem identify_scene_sound evs p s
  (Hscene : identify_scene (process_events state_graph_new evs) p = Some s) :
  scene_evidence (process_events state_graph_new evs) ("pid-" +:+ pretty p) s.
Proof. apply identify_scene_evidence; [|done]. apply process_events_wf, graph_new_wf. Qed.

(** Branches that cannot be taken: whatever events the graph has processed,
    the NPU sub-health scene is never recognised, and the NPU and slow-storage
    analyzers return the same fixed result for every target, because no event
    handler writes the keys (temperature, lane status, frequency, IOPS, latency,
    queue depth) they test. *)
Theorem metric_scenes_unreachable evs :
  let g := process_events state_graph_new evs in
  (∀ p, identify_scene g p ≠ Some NpuSubhealth)
  ∧ (∀ target, npu_subhealth_analyze g target = npu_subhealth_analyze state_graph_new target)
  ∧ (∀ target, storage_slow_analyze g target = storage_slow_analyze state_graph_new target).
Proof.
  intros g. assert (graph_wf g) as Hg by apply process_events_wf, graph_new_wf. split_and!.
  - intros p H. by apply identify_scene_evidence in H.
  - intros target. unfold npu_subhealth_analyze, get_all_edges_async, get_nodes_async.
    rewrite (flat_map_nil _ (edges_of (edges (store g)) target Consumes)); [done|].
    intros e. unfold when. case_match; [|done]. apply at_target_nil. intros id n Hn.
    unfold npu_findings, hccs_degraded.
    rewrite (unknown_metric g id n "temperature" Hg Hn), (unknown_key g id n "hccs_lane_status" Hg Hn),
      (unknown_metric g id n "frequency" Hg Hn) by (vm_compute; reflexivity). done.
  - intros target. unfold storage_slow_analyze, get_all_edges_async, get_nodes_async.
    rewrite (flat_map_nil _ (edges_of (edges (store g)) target WaitsOn)); [done|].
    intros e. unfold when. case_match; [|done]. apply at_target_nil. intros id n Hn.
    rewrite (unknown_metric g id n "iops" Hg Hn), (unknown_metric g id n "latency_ms" Hg Hn),
      (unknown_metric g id n "qdepth" Hg Hn) by (vm_compute; reflexivity). done.
Qed.

(** The registry: every scene except the GPU error and the network drop has
    an analyzer, and the analysis returned for a scene is labelled with it. *)
Theorem analyze_scene_total s g p :
  match analyze_scene s g p with
  | Some r => ar_scene r = s
  | None => s = GpuError ∨ s = NetworkDrop
  end.
Proof.
  destruct s; simpl; auto. unfold workload_stalled_analyze.
  by repeat case_match.
Qed.

Definition oom_events : list Event :=
  [mkEvent 1000 ComputeUtil "gpu-0" None (Some 7%N) "99" None;
   mkEvent 2000 ErrorHw "gpu-0" None None "CUDA OOM" None].

Lemma identify_scene_sound_witness :
  identify_scene (process_events state_graph_new oom_events) 7 = Some GpuOom
  ∧ scene_evidence (process_events state_graph_new oom_events) ("pid-" +:+ pretty 7%N) GpuOom.
Proof.
  split; [vm_compute; reflexivity|]. apply identify_scene_sound. vm_compute. reflexivity.
Defined.
