(* ===== verification/Exec.v ===== *)
(** * Actions (agent/src/exec/{action,executor,fix_engine}.rs and the [fix]
      command of agent/src/main.rs)

    Recommendation texts are turned into actions, sorted by priority and carried
    out with commands and files of the operating system, which is a parameter.
    The theorems: a kill never comes before another action, every action is
    reported once, a forced graceful shutdown always reaches its kill, and the
    [fix] command ends in a kill also for a process without any root cause. *)

From S2P Require Import Prelude F64 Scene.

(** ** Actions *)

Inductive ActionType :=
| Signal (signal : Z)
| CgroupThrottle (cpu_quota memory_limit io_limit : option N)
| NetworkRestart (interface : string)
| GracefulShutdown (signal : Z) (wait_seconds : N) (force_kill : bool)
| KillProcess
| IsolateNode (reason : string)
| CheckCheckpoint (checkpoint_dir : string)
| Custom (command : string) (args : list string).

Global Instance action_type_eq_dec : EqDecision ActionType.
Proof. solve_decision. Defined.

Definition from_recommendation (text : string) : option ActionType :=
  let text_lower := to_lowercase text in
  let has s := contains s text_lower in
  if has "sigusr1" || has "checkpoint dump" || has "触发 checkpoint" || has "保存 checkpoint"
  then Some (Signal 10)
  else if has "signal" && has "dump" then Some (Signal 10)
  else if has "ark zap" || has "kill" || has "终止进程" || has "清理" then Some KillProcess
  else if has "优雅" || has "graceful" || (has "信号" && has "等待")
  then Some (GracefulShutdown 10 10 true)
  else if has "cgroup" || has "限流" || has "限制" || has "throttle"
  then Some (CgroupThrottle (Some 50000%N) None None)
  else if has "重启网卡" || has "restart network" || has "网络接口"
  then Some (NetworkRestart (if has "eth" then "eth0" else if has "eno" then "eno1" else "eth0"))
  else if has "隔离" || has "isolate" then Some (IsolateNode text)
  else if has "checkpoint" && (has "检查" || has "check")
  then Some (CheckCheckpoint "/tmp/checkpoints")
  else None.

Definition signal_name (sig : Z) : string :=
  (match sig with
   | 1 => "SIGHUP" | 2 => "SIGINT" | 3 => "SIGQUIT" | 9 => "SIGKILL"
   | 10 => "SIGUSR1" | 12 => "SIGUSR2" | 15 => "SIGTERM" | _ => "UNKNOWN"
   end)%Z.

Definition description (a : ActionType) : string :=
  match a with
  | Signal signal => "发送信号 " +:+ pretty signal +:+ " (" +:+ signal_name signal +:+ ")"
  | CgroupThrottle cpu_quota memory_limit io_limit =>
      let parts :=
        option_list ((λ cpu, "CPU: " +:+ pretty (cpu / 1000)%N +:+ "%") <$> cpu_quota)
        ++ option_list ((λ mem, "内存: " +:+ pretty (mem / 1024 / 1024)%N +:+ "MB") <$> memory_limit)
        ++ option_list ((λ io, "IO: " +:+ pretty (io / 1024 / 1024)%N +:+ "MB/s") <$> io_limit) in
      "Cgroup 限流: " +:+ join ", " parts
  | NetworkRestart interface => "重启网络接口: " +:+ interface
  | GracefulShutdown signal wait_seconds force_kill =>
      "优雅降级: 发送信号 " +:+ pretty signal +:+ "，等待 " +:+ pretty wait_seconds +:+ " 秒"
      +:+ (if force_kill then "，然后强制终止" else "")
  | KillProcess => "强制终止进程"
  | IsolateNode reason => "隔离节点: " +:+ reason
  | CheckCheckpoint checkpoint_dir => "检查 Checkpoint: " +:+ checkpoint_dir
  | Custom command args => "执行命令: " +:+ command +:+ " " +:+ join " " args
  end.

(** ** The operating system *)

(** The output of a finished command. *)
Record Output := mkOutput { success : bool; stdout : string; stderr : string }.

(** A directory entry with its modification time, when it can be read. *)
Definition dir_entry : Type := string * option N.

Inductive Metadata := IsDir (entries : result string (list dir_entry)) | NotDir.

Record Os (W : Type) := mkOs {
  os_command : W → string → list string → result string Output * W;
  os_write : W → string → string → result string unit * W;
  os_metadata : W → string → result string Metadata;
  os_sleep : W → N → W;
  (** the [Debug] form of an optional file name *)
  os_debug : option string → string
}.
Global Arguments os_command {_} _ _ _ _.
Global Arguments os_write {_} _ _ _ _.
Global Arguments os_metadata {_} _ _ _.
Global Arguments os_sleep {_} _ _ _.
Global Arguments os_debug {_} _ _.

Section executor.
Context {W : Type} (os : Os W).

Definition send_signal (w : W) (signal : Z) (pid : N) : result string string * W :=
  match os_command os w "kill" ["-" +:+ pretty signal; pretty pid] with
  | (Err e, w) => (Err ("执行 kill 失败: " +:+ e), w)
  | (Ok output, w) =>
      if negb (success output) then (Err ("发送信号失败: " +:+ stderr output), w)
      else (Ok ("成功发送信号 " +:+ pretty signal +:+ " 到进程 " +:+ pretty pid), w)
  end.

(** One optional limit: written to its file, its outcome noted. *)
Definition write_limit (w : W) (path failed : string) (ok : N → string) (limit : option N)
  : list string * W :=
  match limit with
  | None => ([], w)
  | Some l => match os_write os w path (pretty l) with
              | (Err e, w) => ([failed +:+ e], w)
              | (Ok _, w) => ([ok l], w)
              end
  end.

Definition apply_cgroup_throttle (w : W) (pid : N) (cpu_quota memory_limit io_limit : option N)
  : result string string * W :=
  let cgroup_path := "/sys/fs/cgroup/ark/ark-" +:+ pretty pid in
  let w := (os_command os w "mkdir" ["-p"; cgroup_path]).2 in
  let '(r1, w) := write_limit w (cgroup_path +:+ "/cpu.cfs_quota_us") "CPU 限流失败: "
                    (λ quota, "CPU 限流: " +:+ pretty (quota / 1000)%N +:+ "%") cpu_quota in
  let '(r2, w) := write_limit w (cgroup_path +:+ "/memory.limit_in_bytes") "内存限流失败: "
                    (λ limit, "内存限流: " +:+ pretty (limit / 1024 / 1024)%N +:+ "MB") memory_limit in
  match os_write os w (cgroup_path +:+ "/tasks") (pretty pid) with
  | (Err e, w) => (Err ("将进程加入 cgroup 失败: " +:+ e), w)
  | (Ok _, w) => (Ok ("Cgroup 限流应用成功: " +:+ join ", " (r1 ++ r2)), w)
  end.

Definition restart_network_interface (w : W) (interface : string) : result string string * W :=
  match os_command os w "ip" ["link"; "set"; "down"; interface] with
  | (Err e, w) => (Err ("执行 ip link set down 失败: " +:+ e), w)
  | (Ok down_output, w) =>
      if negb (success down_output) then (Err ("关闭接口失败: " +:+ stderr down_output), w)
      else
        let w := os_sleep os w 1 in
        match os_command os w "ip" ["link"; "set"; "up"; interface] with
        | (Err e, w) => (Err ("执行 ip link set up 失败: " +:+ e), w)
        | (Ok up_output, w) =>
            if negb (success up_output) then (Err ("启动接口失败: " +:+ stderr up_output), w)
            else (Ok ("成功重启网络接口: " +:+ interface), w)
        end
  end.

Definition kill_process (w : W) (pid : N) : result string string * W :=
  match os_command os w "kill" ["-9"; pretty pid] with
  | (Err e, w) => (Err ("执行 kill 失败: " +:+ e), w)
  | (Ok output, w) =>
      if negb (success output) then
        if contains "No such process" (stderr output) then (Ok "进程已不存在", w)
        else (Err ("kill 失败: " +:+ stderr output), w)
      else (Ok ("成功终止进程 " +:+ pretty pid), w)
  end.

Definition graceful_shutdown (w : W) (signal : Z) (wait_seconds : N) (force_kill : bool) (pid : N)
  : result string string * W :=
  match send_signal w signal pid with
  | (Err e, w) =>
      if negb force_kill then (Err e, w)
      else
        let w := os_sleep os w wait_seconds in
        match kill_process w pid with
        | (Ok msg, w) => (Ok ("优雅降级完成: 已发送信号 " +:+ pretty signal +:+ "，等待 "
                              +:+ pretty wait_seconds +:+ " 秒后" +:+ msg), w)
        | (Err e, w) => (Err ("优雅降级失败: " +:+ e), w)
        end
  | (Ok _, w) =>
      let w := os_sleep os w wait_seconds in
      if force_kill then
        match kill_process w pid with
        | (Ok msg, w) => (Ok ("优雅降级完成: 已发送信号 " +:+ pretty signal +:+ "，等待 "
                              +:+ pretty wait_seconds +:+ " 秒后" +:+ msg), w)
        | (Err e, w) => (Err ("优雅降级失败: " +:+ e), w)
        end
      else (Ok ("已发送信号 " +:+ pretty signal +:+ "，等待 " +:+ pretty wait_seconds +:+ " 秒"), w)
  end.

Definition isolate_node (reason : string) : result string string := Ok ("节点已隔离: " +:+ reason).

(** The newest entry: a later one replaces it only when strictly newer. *)
Definition newest_entry (entries : list dir_entry) : option string :=
  (foldl (λ '(latest, latest_time) '(name, modified),
     match modified with
     | Some time => if decide (latest_time < time)%N then (Some name, time) else (latest, latest_time)
     | None => (latest, latest_time)
     end) (None, 0%N) entries).1.

Definition check_checkpoint (w : W) (checkpoint_dir : string) : result string string :=
  match os_metadata os w checkpoint_dir with
  | Err e => Err ("检查 Checkpoint 失败: " +:+ e)
  | Ok NotDir => Err (checkpoint_dir +:+ " 不是目录")
  | Ok (IsDir (Err e)) => Err ("读取目录失败: " +:+ e)
  | Ok (IsDir (Ok entries)) =>
      Ok ("Checkpoint 检查完成: 找到 " +:+ pretty (length entries) +:+ " 个文件，最新: "
          +:+ os_debug os (newest_entry entries))
  end.

Definition execute_custom_command (w : W) (command : string) (args : list string)
  : result string string * W :=
  match os_command os w command args with
  | (Err e, w) => (Err ("执行命令失败: " +:+ e), w)
  | (Ok output, w) =>
      if negb (success output) then (Err ("命令执行失败: " +:+ stderr output), w)
      else (Ok ("命令执行成功: " +:+ trim (stdout output)), w)
  end.

Definition execute (w : W) (action : ActionType) (pid : N) : result string string * W :=
  match action with
  | Signal signal => send_signal w signal pid
  | CgroupThrottle cpu_quota memory_limit io_limit =>
      apply_cgroup_throttle w pid cpu_quota memory_limit io_limit
  | NetworkRestart interface => restart_network_interface w interface
  | GracefulShutdown signal wait_seconds force_kill =>
      graceful_shutdown w signal wait_seconds force_kill pid
  | KillProcess => kill_process w pid
  | IsolateNode reason => (isolate_node reason, w)
  | CheckCheckpoint checkpoint_dir => (check_checkpoint w checkpoint_dir, w)
  | Custom command args => execute_custom_command w command args
  end.
End executor.

(** ** The fix engine *)

Definition action_priority (a : ActionType) : N :=
  match a with
  | Signal _ => 1
  | GracefulShutdown _ _ _ => 2
  | CgroupThrottle _ _ _ => 3
  | CheckCheckpoint _ => 4
  | NetworkRestart _ => 5
  | IsolateNode _ => 6
  | KillProcess => 10
  | Custom _ _ => 7
  end.

Definition by_priority (a b : ActionType * N) : bool := bool_decide (a.2 ≤ b.2)%N.

Definition parse_recommendations (recommendations : list string) : list (ActionType * N) :=
  stable_sort by_priority
    (map (λ a, (a, action_priority a)) (omap from_recommendation recommendations)).

Record ExecutedAction := mkExecutedAction { ea_action : string; ea_result : string; ea_priority : N }.
Record FailedAction := mkFailedAction { fa_action : string; fa_error : string; fa_priority : N }.
Record FixResult := mkFixResult {
  fix_success : bool; fix_message : string;
  executed_actions : list ExecutedAction; failed_actions : list FailedAction }.

Section fix_engine.
Context {W : Type} (os : Os W).

Fixpoint run_actions (w : W) (actions : list (ActionType * N)) (pid : N)
    (executed : list ExecutedAction) (failed : list FailedAction)
  : list ExecutedAction * list FailedAction * W :=
  match actions with
  | [] => (executed, failed, w)
  | (action, priority) :: actions' =>
      match execute os w action pid with
      | (Ok msg, w) =>
          run_actions w actions' pid
            (executed ++ [mkExecutedAction (description action) msg priority]) failed
      | (Err e, w) =>
          run_actions w actions' pid executed
            (failed ++ [mkFailedAction (description action) e priority])
      end
  end.

Definition fix_from_analysis (w : W) (result : AnalysisResult) (pid : N) : FixResult * W :=
  let actions := parse_recommendations (ar_recommended_actions result) in
  match actions with
  | [] => (mkFixResult false "没有可执行的动作" [] [], w)
  | _ =>
      let '(executed, failed, w) := run_actions w actions pid [] [] in
      let success := bool_decide (length failed = 0) in
      let message :=
        if success then "成功执行 " +:+ pretty (length executed) +:+ " 个动作"
        else "执行完成：" +:+ pretty (length executed) +:+ " 成功，"
             +:+ pretty (length failed) +:+ " 失败" in
      (mkFixResult success message executed failed, w)
  end.

(** ** The [fix] command *)

Fixpoint identify_scene_from_causes (causes : list string) : option SceneType :=
  match causes with
  | [] => Some WorkloadStalled
  | cause :: causes' =>
      let cause_lower := to_lowercase cause in
      if contains "gpu" cause_lower && contains "oom" cause_lower then Some GpuOom
      else if contains "network" cause_lower || contains "网络" cause_lower then Some NetworkStall
      else if contains "storage" cause_lower || contains "存储" cause_lower then Some StorageIoError
      else if contains "crash" cause_lower || contains "崩溃" cause_lower then Some ProcessCrash
      else identify_scene_from_causes causes'
  end.

Definition create_analysis_from_causes (scene : SceneType) (causes : list string) : AnalysisResult :=
  let recommended_actions :=
    match scene with
    | GpuOom => ["尝试触发框架层的 Checkpoint Dump 信号 (SIGUSR1)";
                 "隔离该节点，执行 ark zap 清理僵尸进程"]
    | NetworkStall => ["检查交换机 PFC 配置"; "检查 RoCE/HCCS 连接状态"]
    | WorkloadStalled => ["如果确认卡死，执行 ark zap 终止进程"; "检查是否有 Checkpoint 可以恢复"]
    | _ => ["执行 ark zap 终止进程"]
    end in
  mkAnalysisResult scene causes (f64_of_dec false 7 (-1)) ["根据根因分析执行修复"]
    recommended_actions Warning.

(** The answer to the confirmation prompt that lets the command go on. *)
Definition confirmed (auto_yes : bool) (input : string) : bool :=
  auto_yes || eq_ignore_ascii_case (trim input) "y" || eq_ignore_ascii_case (trim input) "yes".

(** [None]: the command has stopped without acting. *)
Definition fix_process (w : W) (pid : N) (causes : list string) (auto_yes : bool) (input : string)
  : option FixResult * W :=
  match identify_scene_from_causes causes with
  | None => (None, w)
  | Some scene =>
      let analysis := create_analysis_from_causes scene causes in
      if negb (confirmed auto_yes input) then (None, w)
      else let '(r, w) := fix_from_analysis w analysis pid in (Some r, w)
  end.
End fix_engine.

(** ** An operating system that records what it is asked *)

Inductive Effect := Ran (command : string) (args : list string) | Wrote (path content : string)
| Slept (seconds : N).
Global Instance effect_eq_dec : EqDecision Effect.
Proof. solve_decision. Defined.

(** Commands succeed or fail as [answer] says. *)
Definition recording_os (answer : string → list string → result string Output)
    (meta : string → result string Metadata) : Os (list Effect) :=
  mkOs (list Effect)
    (λ w c args, (answer c args, w ++ [Ran c args]))
    (λ w p c, (Ok (), w ++ [Wrote p c]))
    (λ _ d, meta d)
    (λ w s, w ++ [Slept s])
    (λ o, match o with Some s => "Some(" +:+ s +:+ ")" | None => "None" end).

Definition kill_effect (pid : N) : Effect := Ran "kill" ["-9"; pretty pid].

(** ** Lemmas *)

Lemma by_priority_total x y : by_priority x y = true ∨ by_priority y x = true.
Proof. unfold by_priority. rewrite !bool_decide_eq_true. lia. Qed.
Lemma by_priority_trans x y z :
  by_priority x y = true → by_priority y z = true → by_priority x z = true.
Proof. unfold by_priority. rewrite !bool_decide_eq_true. lia. Qed.

Lemma parse_recommendations_sorted recs :
  StronglySorted (λ a b, a.2 ≤ b.2)%N (parse_recommendations recs).
Proof.
  eapply StronglySorted_impl; [|apply (stable_sort_sorted _ by_priority_total by_priority_trans)].
  intros a b. unfold by_priority. by rewrite bool_decide_eq_true.
Qed.

Lemma parse_recommendations_perm recs :
  map fst (parse_recommendations recs) ≡ₚ omap from_recommendation recs.
Proof.
  unfold parse_recommendations. rewrite (stable_sort_perm by_priority _), map_map.
  simpl. by rewrite map_id.
Qed.

Lemma parse_recommendations_priority recs a p :
  (a, p) ∈ parse_recommendations recs → p = action_priority a.
Proof.
  unfold parse_recommendations. rewrite elem_of_stable_sort, list_elem_of_fmap.
  by intros (b & [= -> ->] & _).
Qed.

Lemma action_priority_kill a : (10 ≤ action_priority a)%N → a = KillProcess.
Proof. destruct a; simpl; lia || done. Qed.

Section run.
Context {W : Type} (os : Os W).

Lemma run_actions_reports w actions pid ex fa :
  let '(ex', fa', _) := run_actions os w actions pid ex fa in
  map ea_action ex' ++ map fa_action fa'
  ≡ₚ map (λ x, description x.1) actions ++ map ea_action ex ++ map fa_action fa.
Proof.
  revert w ex fa. induction actions as [|[a p] actions IH]; intros w ex fa; simpl; [done|].
  destruct (execute os w a pid) as [[msg|e] w'].
  - specialize (IH w' (ex ++ [mkExecutedAction (description a) msg p]) fa).
    destruct (run_actions _ _ _ _ _ _) as [[ex' fa'] ?].
    rewrite IH, map_app. simpl. solve_Permutation.
  - specialize (IH w' ex (fa ++ [mkFailedAction (description a) e p])).
    destruct (run_actions _ _ _ _ _ _) as [[ex' fa'] ?].
    rewrite IH, map_app. simpl. solve_Permutation.
Qed.
End run.

Lemma stalled_actions :
  parse_recommendations ["如果确认卡死，执行 ark zap 终止进程"; "检查是否有 Checkpoint 可以恢复"]
  = [(CheckCheckpoint "/tmp/checkpoints", 4%N); (KillProcess, 10%N)].
Proof. vm_compute. reflexivity. Qed.

(** ** Claims *)

(** Actions run in order of priority and a kill comes last: what is executed
    is exactly the recognised recommendations, sorted, recommendations of one
    priority in their order, and nothing but kills ever follows a kill. *)
Theorem kill_runs_last recs :
  map fst (parse_recommendations recs) ≡ₚ omap from_recommendation recs
  ∧ (∀ p, filter (λ a, action_priority a = p) (map fst (parse_recommendations recs))
          = filter (λ a, action_priority a = p) (omap from_recommendation recs))
  ∧ (∀ i j a b, i < j → map fst (parse_recommendations recs) !! i = Some a →
       map fst (parse_recommendations recs) !! j = Some b →
       (action_priority a ≤ action_priority b)%N ∧ (a = KillProcess → b = KillProcess)).
Proof.
  split_and!; [apply parse_recommendations_perm|..].
  - intros p. unfold parse_recommendations.
    assert (∀ l : list (ActionType * N), (∀ a q, (a, q) ∈ l → q = action_priority a) →
      filter (λ a, action_priority a = p) (map fst l) = map fst (filter (λ x, x.2 = p) l)) as Hf.
    { induction l as [|[a q] l IH]; intros Hl; simpl; [done|]. rewrite !filter_cons. simpl.
      rewrite (Hl a q) by by left. rewrite IH by (intros; apply Hl; by right). by case_decide. }
    rewrite Hf, stable_sort_stable, <-Hf, map_map; simpl.
    + by rewrite map_id.
    + intros a q (b & [= -> ->] & _)%list_elem_of_fmap. done.
    + intros [a q] [b q'] ? ?. unfold by_priority. apply bool_decide_eq_true. simpl in *. lia.
    + intros a q Hin. by eapply parse_recommendations_priority.
  - intros i j a b Hij Ha Hb.
    apply list_lookup_fmap_Some in Ha as ([a' pa] & -> & Ha).
    apply list_lookup_fmap_Some in Hb as ([b' pb] & -> & Hb). simpl.
    pose proof (parse_recommendations_priority _ _ _ (list_elem_of_lookup_2 _ _ _ Ha)) as ->.
    pose proof (parse_recommendations_priority _ _ _ (list_elem_of_lookup_2 _ _ _ Hb)) as ->.
    assert (action_priority a' ≤ action_priority b')%N as Hle.
    { pose proof (parse_recommendations_sorted recs) as Hs.
      rewrite <-(take_drop (S i) (parse_recommendations recs)) in Hs.
      eapply (StronglySorted_app_1_elem_of _ _ _ (a', action_priority a') (b', action_priority b') Hs).
      - eapply (list_elem_of_lookup_2 _ i). rewrite lookup_take_lt by lia. done.
      - eapply (list_elem_of_lookup_2 _ (j - S i)). rewrite lookup_drop.
        by replace (S i + (j - S i)) with j by lia. }
    split; [done|]. intros ->. by apply action_priority_kill.
Qed.

(** The result accounts for every action: each recognised recommendation is
    reported exactly once, as executed or as failed, and the fix counts as a
    success exactly when there was something to do and nothing failed. *)
Theorem fix_reports_every_action {W} (os : Os W) w result pid :
  let r := (fix_from_analysis os w result pid).1 in
  let recognised := omap from_recommendation (ar_recommended_actions result) in
  map ea_action (executed_actions r) ++ map fa_action (failed_actions r)
    ≡ₚ map description recognised
  ∧ (fix_success r = true ↔ recognised ≠ [] ∧ failed_actions r = []).
Proof.
  intros r recognised. subst r recognised. unfold fix_from_analysis.
  pose proof (parse_recommendations_perm (ar_recommended_actions result)) as Hp.
  revert Hp. generalize (parse_recommendations (ar_recommended_actions result)) as actions.
  generalize (omap from_recommendation (ar_recommended_actions result)) as recognised.
  intros recognised actions Hp.
  pose proof (run_actions_reports os w actions pid [] []) as Hl.
  destruct (run_actions os w actions pid [] []) as [[ex fa] w'].
  pose proof (Permutation_map description Hp) as Hd. rewrite map_map in Hd.
  destruct actions as [|a l]; simpl in *.
  - apply Permutation_nil_l in Hp as ->. split; [done|]. split; [done|by intros []].
  - rewrite app_nil_r in Hl. split; [by rewrite Hl, Hd|].
    rewrite bool_decide_eq_true, length_zero_iff_nil. split; [|by intros []].
    intros ->. split; [|done]. intros ->. by apply Permutation_nil_r in Hp.
Qed.

(** A forced graceful shutdown always goes through: the signal, the wait and
    the kill are issued in this order whatever the commands answer; without
    force, a signal that cannot be delivered ends the action at once. *)
Lemma graceful_sequence answer meta w sig secs pid :
  (graceful_shutdown (recording_os answer meta) w sig secs true pid).2
    = w ++ [Ran "kill" ["-" +:+ pretty sig; pretty pid]; Slept secs; kill_effect pid]
  ∧ (is_ok (send_signal (recording_os answer meta) w sig pid).1 = false →
     (graceful_shutdown (recording_os answer meta) w sig secs false pid).2
     = w ++ [Ran "kill" ["-" +:+ pretty sig; pretty pid]]).
Proof.
  unfold graceful_shutdown, send_signal, kill_process. simpl. split.
  - destruct (answer "kill" ["-" +:+ pretty sig; pretty pid]) as [o|e]; simpl;
      [destruct (success o); simpl|];
      destruct (answer "kill" ["-9"; pretty pid]) as [o'|e']; simpl;
      repeat case_match; simplify_eq/=; by rewrite <-!app_assoc.
  - destruct (answer "kill" ["-" +:+ pretty sig; pretty pid]) as [o|e]; simpl; [|done].
    by destruct (success o).
Qed.

(** The [fix] command acts on every process: some scene is always identified,
    and for a process without any root cause the default scene leads to
    [kill -9], although the command has a branch for an unrecognised problem
    that is meant to leave the process alone. *)
Theorem fix_kills_without_cause answer meta pid input :
  (∀ causes, identify_scene_from_causes causes ≠ None)
  ∧ (fix_process (recording_os answer meta) [] pid [] true input).2 = [kill_effect pid].
Proof.
  split.
  - induction causes as [|c causes IH]; simpl; [done|]. by repeat case_match.
  - unfold fix_process, fix_from_analysis. cbn [identify_scene_from_causes].
    change (confirmed true input) with true. cbn [negb].
    change (ar_recommended_actions (create_analysis_from_causes WorkloadStalled []))
      with ["如果确认卡死，执行 ark zap 终止进程"; "检查是否有 Checkpoint 可以恢复"].
    rewrite stalled_actions. cbn [run_actions execute]. unfold kill_process.
    destruct (check_checkpoint _ _ _); cbn [os_command recording_os];
      destruct (answer "kill" ["-9"; pretty pid]) as [o|]; [|done| |done];
      destruct (success o), (contains "No such process" (stderr o)); done.
Qed.

Lemma kill_runs_last_witness :
  let l := map fst (parse_recommendations ["kill it"; "隔离该节点"; "SIGUSR1"]) in
  l = [Signal 10; IsolateNode "隔离该节点"; KillProcess]
  ∧ (action_priority (Signal 10) ≤ action_priority KillProcess)%N.
Proof.
  split; [vm_compute; reflexivity|].
  apply (proj2 (proj2 (kill_runs_last ["kill it"; "隔离该节点"; "SIGUSR1"])) 0 2 (Signal 10) KillProcess);
    [lia|vm_compute; reflexivity|vm_compute; reflexivity].
Defined.
