(* ===== verification/Zap.v ===== *)
(** * Killing a process tree (agent/src/exec/mod.rs, [SystemActuator])

    [ark zap] reads the process group of its target from /proc and kills the
    whole group.  The theorems: for a process whose name has no white space
    exactly the group of the process is killed; for a name of two words the
    fields are taken one too early, and the group that is killed is the one
    numbered like the parent. *)

From S2P Require Import Prelude Text F64 Event Signals Graph Scene Exec.

Definition get_process_group (pid : N) (stat : result string string) (parse_error : string → string)
  : result string N :=
  match stat with
  | Err e => Err ("读取 /proc/" +:+ pretty pid +:+ "/stat 失败: " +:+ e)
  | Ok stat_content =>
      let fields := split_whitespace stat_content in
      if decide (length fields < 5) then Err "stat 文件格式错误"
      else match parse_u32 (default "" (fields !! 4)) with
           | Some pgid => Ok pgid
           | None => Err ("解析进程组 ID 失败: " +:+ parse_error (default "" (fields !! 4)))
           end
  end.

Section actuator.
(** [read w path] is [fs::read_to_string]; [parse_error] the text of a number
    format error. *)
Context {W : Type} (os : Os W) (read : W → string → result string string)
        (parse_error : string → string).

Definition run_kill (w : W) (target : string) : result string unit * W :=
  match os_command os w "kill" ["-9"; target] with
  | (Err e, w) => (Err ("执行 kill 失败: " +:+ e), w)
  | (Ok output, w) =>
      if negb (success output) then
        if contains "No such process" (stderr output) then (Ok (), w)
        else (Err ("kill 失败: " +:+ stderr output), w)
      else (Ok (), w)
  end.

Definition kill_process_tree (w : W) (pid : N) : result string unit * W :=
  match get_process_group pid (read w ("/proc/" +:+ pretty pid +:+ "/stat")) parse_error with
  | Ok pgid => run_kill w ("-" +:+ pretty pgid)
  | Err _ => run_kill w (pretty pid)
  end.

Definition actuator_execute (w : W) (target_pid : N) (action : string) : result string unit * W :=
  if decide (action ∈ ["kill"; "zap"]) then kill_process_tree w target_pid
  else if decide (action = "reset") then (Err "重置操作尚未实现", w)
  else (Err ("未知动作: " +:+ action), w).

(** [ark zap] *)
Definition zap_process (w : W) (pid : N) : result string unit * W := actuator_execute w pid "zap".
End actuator.

(** ** The stat file *)

(** The fields of proc(5): pid, name in parentheses (of one or more words),
    state, parent, group, and the rest. *)
Record ProcStat := mkProcStat {
  st_pid : N; st_name : list string; st_state : string; st_ppid : N; st_pgrp : N;
  st_rest : list string }.

Definition stat_words (s : ProcStat) : list string :=
  [pretty (st_pid s)] ++ st_name s
  ++ [st_state s; pretty (st_ppid s); pretty (st_pgrp s)] ++ st_rest s.

Definition stat_text (s : ProcStat) : string := join " " (stat_words s).

Record stat_wf (s : ProcStat) : Prop := {
  sw_name : Forall word (st_name s);
  sw_state : word (st_state s);
  sw_rest : Forall word (st_rest s);
  sw_ppid : (st_ppid s ≤ u32_max)%N;
  sw_pgrp : (st_pgrp s ≤ u32_max)%N
}.

Lemma pretty_word (n : N) : word (pretty n).
Proof.
  split; [apply pretty_not_empty|]. eapply Forall_impl; [apply pretty_digits|].
  intros a Ha%is_digit_range. unfold graphic. apply bool_decide_eq_true. lia.
Qed.

Lemma stat_words_split s : stat_wf s → split_whitespace (stat_text s) = stat_words s.
Proof.
  intros []. apply split_whitespace_join. unfold stat_words.
  rewrite !Forall_app. split_and!; [|done| |done];
    repeat first [apply Forall_nil_2 | apply Forall_cons_2]; try done; apply pretty_word.
Qed.

Lemma process_group_field pid s pe n :
  stat_wf s → stat_words s !! 4 = Some (pretty n) → (n ≤ u32_max)%N →
  get_process_group pid (Ok (stat_text s)) pe = Ok n.
Proof.
  intros Hwf Hn Hle. unfold get_process_group. rewrite stat_words_split by done.
  apply lookup_lt_Some in Hn as Hlen. rewrite decide_False by lia. rewrite Hn. simpl.
  by rewrite parse_u32_pretty.
Qed.

Lemma kill_tree_effect answer meta rd pe w pid n :
  get_process_group pid (rd w ("/proc/" +:+ pretty pid +:+ "/stat")) pe = Ok n →
  (zap_process (recording_os answer meta) rd pe w pid).2
  = w ++ [Ran "kill" ["-9"; "-" +:+ pretty n]].
Proof.
  intros Hg. unfold zap_process, actuator_execute. rewrite decide_True by set_solver.
  unfold kill_process_tree. rewrite Hg. unfold run_kill. cbn [os_command recording_os].
  destruct (answer "kill" _) as [o|]; [|done]. by destruct (success o), (contains _ _).
Qed.

(** What [ark zap] kills: it issues one command, [kill -9] on the process
    group of the target, when the target's name is a single word; when the name
    is two words the group killed is instead the one whose number is the
    target's parent, which for an orphan, whose parent is 1, is [kill -9 -1]:
    every process the caller may signal. *)
Theorem zap_kills_group answer meta rd pe w s
  (Hwf : stat_wf s)
  (Hread : rd w ("/proc/" +:+ pretty (st_pid s) +:+ "/stat") = Ok (stat_text s)) :
  let after := (zap_process (recording_os answer meta) rd pe w (st_pid s)).2 in
  (length (st_name s) = 1 → after = w ++ [Ran "kill" ["-9"; "-" +:+ pretty (st_pgrp s)]])
  ∧ (length (st_name s) = 2 → after = w ++ [Ran "kill" ["-9"; "-" +:+ pretty (st_ppid s)]]).
Proof.
  assert (∀ n, stat_words s !! 4 = Some (pretty n) → (n ≤ u32_max)%N →
    (zap_process (recording_os answer meta) rd pe w (st_pid s)).2
    = w ++ [Ran "kill" ["-9"; "-" +:+ pretty n]]) as H.
  { intros n Hn Hle. apply kill_tree_effect. rewrite Hread. by apply process_group_field. }
  destruct Hwf. split; intros Hl; apply H; try done; unfold stat_words;
    destruct (st_name s) as [|a [|b [|c l]]]; done.
Qed.

Definition orphan (name : list string) : ProcStat := mkProcStat 7 name "S" 1 7 ["7"; "0"; "-1"].

Lemma zap_kills_group_witness :
  (zap_process (recording_os (λ _ _, Ok (mkOutput true "" "")) (λ _, Err "ENOENT"))
     (λ _ _, Ok (stat_text (orphan ["(tmux:"; "server)"]))) (λ _, "") [] 7).2
  = [Ran "kill" ["-9"; "-1"]].
Proof.
  refine (proj2 (zap_kills_group (λ _ _, Ok (mkOutput true "" "")) (λ _, Err "ENOENT")
           (λ _ _, Ok (stat_text (orphan ["(tmux:"; "server)"]))) (λ _, "") []
           (orphan ["(tmux:"; "server)"]) _ eq_refl) eq_refl).
  split; [| | |vm_compute; discriminate|vm_compute; discriminate];
    repeat first [apply Forall_nil_2 | apply Forall_cons_2];
    (split; [discriminate|]; apply (bool_decide_unpack _); vm_compute; exact I).
Defined.
