(* ===== verification/Forwarder.v ===== *)
(** * The agent's forwarder (agent/src/hub_forwarder.rs)

    Which events an agent sends to the hub, the bounded queue of events that
    could not be sent, reconnecting and flushing, and the commands it accepts.
    The network is a list of outcomes of connection attempts; a connection
    carries some number of messages and then stays broken, as a WebSocket does.
    The theorems: nothing is lost silently, duplicated or reordered; the queue
    is bounded; and what the edge filter lets through. *)

From Stdlib Require Import SpecFloat.
From S2P Require Import Prelude F64 Event Exec.

Definition HUB_PROTOCOL_VERSION : string := "1.0".
Definition EVENT_SCHEMA_VERSION : string := "1.0".
Definition PENDING_EVENT_CAPACITY : nat := 1024.

Record HubEventEnvelope := mkHubEventEnvelope {
  kind : string; protocol_version : string; schema_version : string;
  agent_id : string; feature_flags : list string; event : Event }.

Record HubForwarder := mkHubForwarder {
  fw_node_id : string;
  fw_link : option nat;               (** the sender: how many messages it still takes *)
  fw_bindings : gset (N * string);
  fw_last_util : gmap (N * string) f64;
  fw_pending : list Event;
  fw_retries_total : N;
  fw_dropped_total : N;
  fw_flush_failures_total : N
}.

Definition forwarder_new (node_id : string) : HubForwarder :=
  mkHubForwarder node_id None ∅ ∅ [] 0 0 0.

(** The outcomes of the coming connection attempts (none left: refused), and
    what the hub has been sent. *)
Record Net := mkNet { net_connects : list (option nat); net_sent : list HubEventEnvelope }.

Definition with_link (l : option nat) (f : HubForwarder) : HubForwarder :=
  mkHubForwarder (fw_node_id f) l (fw_bindings f) (fw_last_util f) (fw_pending f)
    (fw_retries_total f) (fw_dropped_total f) (fw_flush_failures_total f).
Definition with_pending (p : list Event) (f : HubForwarder) : HubForwarder :=
  mkHubForwarder (fw_node_id f) (fw_link f) (fw_bindings f) (fw_last_util f) p
    (fw_retries_total f) (fw_dropped_total f) (fw_flush_failures_total f).
Definition count_retry (f : HubForwarder) : HubForwarder :=
  mkHubForwarder (fw_node_id f) (fw_link f) (fw_bindings f) (fw_last_util f) (fw_pending f)
    (saturating_add (fw_retries_total f) 1) (fw_dropped_total f) (fw_flush_failures_total f).
Definition count_dropped (f : HubForwarder) : HubForwarder :=
  mkHubForwarder (fw_node_id f) (fw_link f) (fw_bindings f) (fw_last_util f) (fw_pending f)
    (fw_retries_total f) (saturating_add (fw_dropped_total f) 1) (fw_flush_failures_total f).
Definition count_flush_failure (f : HubForwarder) : HubForwarder :=
  mkHubForwarder (fw_node_id f) (fw_link f) (fw_bindings f) (fw_last_util f) (fw_pending f)
    (fw_retries_total f) (fw_dropped_total f) (saturating_add (fw_flush_failures_total f) 1).

(** ** Sending *)

Definition connect (f : HubForwarder) (n : Net) : bool * HubForwarder * Net :=
  match net_connects n with
  | Some k :: rest => (true, with_link (Some k) f, mkNet rest (net_sent n))
  | None :: rest => (false, f, mkNet rest (net_sent n))
  | [] => (false, f, n)
  end.

Definition reconnect (f : HubForwarder) (n : Net) : bool * HubForwarder * Net :=
  connect (with_link None f) n.

Definition envelope (f : HubForwarder) (e : Event) : HubEventEnvelope :=
  mkHubEventEnvelope "event" HUB_PROTOCOL_VERSION EVENT_SCHEMA_VERSION (fw_node_id f)
    ["edge_rollup"] (with_node_id (Some (fw_node_id f)) e).

Definition forward_event (f : HubForwarder) (n : Net) (e : Event) : bool * HubForwarder * Net :=
  match fw_link f with
  | Some (S k) =>
      (true, with_link (Some k) f, mkNet (net_connects n) (net_sent n ++ [envelope f e]))
  | _ => (false, f, n)
  end.

(** [flush_pending_events]: a failed event goes back to the front. *)
Fixpoint flush_loop (f : HubForwarder) (n : Net) (pending : list Event)
  : bool * HubForwarder * Net :=
  match pending with
  | [] => (true, with_pending [] f, n)
  | e :: pending' =>
      match forward_event f n e with
      | (true, f', n') => flush_loop f' n' pending'
      | (false, f', n') => (false, with_pending (e :: pending') f', n')
      end
  end.
Definition flush_pending_events (f : HubForwarder) (n : Net) : bool * HubForwarder * Net :=
  flush_loop f n (fw_pending f).

Definition enqueue_pending_event (f : HubForwarder) (e : Event) : HubForwarder :=
  let f := if decide (PENDING_EVENT_CAPACITY ≤ length (fw_pending f))
           then count_dropped (with_pending (drop 1 (fw_pending f)) f) else f in
  with_pending (fw_pending f ++ [e]) f.

Definition forward_event_with_retry (f : HubForwarder) (n : Net) (e : Event)
  : bool * HubForwarder * Net :=
  let '(f, n) :=
    match fw_pending f with
    | [] => (f, n)
    | _ =>
        let '(flushed, f, n) := flush_pending_events f n in
        if flushed then (f, n)
        else
          let f := count_retry (count_flush_failure f) in
          let '(connected, f, n) := reconnect f n in
          if connected then
            let '(flushed, f, n) := flush_pending_events f n in
            (if flushed then f else count_flush_failure f, n)
          else (f, n)
    end in
  let '(sent, f, n) := forward_event f n e in
  if sent then (true, f, n)
  else
    let f := count_retry (enqueue_pending_event f e) in
    let '(connected, f, n) := reconnect f n in
    if negb connected then (false, f, n)
    else
      let '(flushed, f, n) := flush_pending_events f n in
      if flushed then (true, f, n) else (false, count_flush_failure f, n).

Record ForwarderReliabilitySnapshot := mkSnapshot {
  pending_queue_len : nat; retries_total : N; dropped_events_total : N; flush_failures_total : N }.
Definition reliability_snapshot (f : HubForwarder) : ForwarderReliabilitySnapshot :=
  mkSnapshot (length (fw_pending f)) (fw_retries_total f) (fw_dropped_total f)
    (fw_flush_failures_total f).

(** ** The edge filter *)

Definition with_filter (b : gset (N * string)) (u : gmap (N * string) f64) (f : HubForwarder)
  : HubForwarder :=
  mkHubForwarder (fw_node_id f) (fw_link f) b u (fw_pending f)
    (fw_retries_total f) (fw_dropped_total f) (fw_flush_failures_total f).

(** A binding seen for the first time is forwarded and remembered. *)
Definition first_binding (f : HubForwarder) (e : Event) : bool * HubForwarder :=
  match ev_pid e with
  | Some pid =>
      let key := (pid, ev_entity_id e) in
      if decide (key ∈ fw_bindings f) then (false, f)
      else (true, with_filter ({[key]} ∪ fw_bindings f) (fw_last_util f) f)
  | None => (false, f)
  end.

Definition drastic (last current : f64) : bool :=
  (f64_gt last (f64_of_N 80) && f64_lt current (f64_of_N 1))
  || (f64_lt last (f64_of_N 1) && f64_gt current (f64_of_N 80)).

Definition should_forward (f : HubForwarder) (e : Event) : bool * HubForwarder :=
  match ev_type e with
  | ErrorHw | ErrorNet | ProcessState | TransportDrop | TopoLinkDown => (true, f)
  | ComputeUtil | ComputeMem =>
      match ev_pid e with
      | Some pid =>
          let key := (pid, ev_entity_id e) in
          if decide (key ∉ fw_bindings f) then
            let last := match parse_f64 (ev_value e) with
                        | Some util => <[key := util]> (fw_last_util f)
                        | None => fw_last_util f
                        end in
            (true, with_filter ({[key]} ∪ fw_bindings f) last f)
          else
            match parse_f64 (ev_value e), fw_last_util f !! key with
            | Some current, Some last =>
                if drastic last current
                then (true, with_filter (fw_bindings f) (<[key := current]> (fw_last_util f)) f)
                else (false, f)
            | _, _ => (false, f)
            end
      | None => (false, f)
      end
  | StorageIops | StorageQDepth => first_binding f e
  | TransportBw => first_binding f e
  | _ => (false, f)
  end.

(** The agent's event loop, the part that talks to the hub. *)
Definition offer (s : HubForwarder * Net) (e : Event) : HubForwarder * Net :=
  let '(f, n) := s in
  let '(wanted, f) := should_forward f e in
  if wanted then let '(_, f, n) := forward_event_with_retry f n e in (f, n) else (f, n).

(** ** Commands *)

Record HubCommand := mkHubCommand { intent : string; target_pid : N; cmd_action : option string }.

Definition action_from_string (action_str : string) : result string ActionType :=
  let lower := to_lowercase action_str in
  if decide (lower ∈ ["gracefulshutdown"; "graceful_shutdown"]) then Ok (GracefulShutdown 10 10 true)
  else if decide (lower ∈ ["killprocess"; "kill_process"; "kill"]) then Ok KillProcess
  else if decide (lower ∈ ["signal"; "sigusr1"]) then Ok (Signal 10)
  else match from_recommendation action_str with
       | Some a => Ok a
       | None => Err ("未知动作类型: " +:+ action_str)
       end.

Definition handle_command {W} (os : Os W) (w : W) (cmd : HubCommand) : result string unit * W :=
  if decide (intent cmd = "fix") then
    match (match cmd_action cmd with
           | Some s => action_from_string s
           | None => Ok (GracefulShutdown 10 10 true)
           end) with
    | Err e => (Err e, w)
    | Ok action =>
        match execute os w action (target_pid cmd) with
        | (Ok _, w) => (Ok (), w)
        | (Err e, w) => (Err e, w)
        end
    end
  else (Ok (), w).

(** ** What has been sent and what is waiting *)

Definition attributed (f : HubForwarder) : list Event → list Event :=
  map (with_node_id (Some (fw_node_id f))).

(** The events the hub has, followed by those still to come. *)
Definition stream (f : HubForwarder) (n : Net) : list Event :=
  map event (net_sent n) ++ attributed f (fw_pending f).

Definition broken (l : option nat) : Prop := l = None ∨ l = Some 0.

(** Between calls: the queue is bounded, and only a broken link leaves events
    waiting. *)
Definition fw_ok (f : HubForwarder) : Prop :=
  length (fw_pending f) ≤ PENDING_EVENT_CAPACITY ∧ (fw_pending f ≠ [] → broken (fw_link f)).

Lemma flush_loop_stream f n p :
  let '(ok, f', n') := flush_loop f n p in
  map event (net_sent n') ++ attributed f (fw_pending f')
    = map event (net_sent n) ++ attributed f p
  ∧ fw_node_id f' = fw_node_id f ∧ fw_dropped_total f' = fw_dropped_total f
  ∧ length (fw_pending f') ≤ length p
  ∧ if ok then fw_pending f' = [] else broken (fw_link f').
Proof.
  revert f n. induction p as [|e p IH]; intros f n; simpl; [done|].
  unfold forward_event. destruct (fw_link f) as [[|k]|] eqn:El; simpl.
  - split_and!; auto. right. done.
  - specialize (IH (with_link (Some k) f) (mkNet (net_connects n) (net_sent n ++ [envelope f e]))).
    destruct (flush_loop _ _ p) as [[ok f'] n']. simpl in IH.
    destruct IH as (Hs & ? & ? & ? & ?). split_and!; auto with lia.
    change (attributed f) with (attributed (with_link (Some k) f)). rewrite Hs, map_app. simpl.
    by rewrite <-app_assoc.
  - split_and!; auto. left. done.
Qed.

Lemma flush_pending_events_spec f n :
  length (fw_pending f) ≤ PENDING_EVENT_CAPACITY →
  let '(ok, f', n') := flush_pending_events f n in
  stream f' n' = stream f n ∧ fw_node_id f' = fw_node_id f
  ∧ fw_dropped_total f' = fw_dropped_total f ∧ fw_ok f' ∧ (ok = true → fw_pending f' = []).
Proof.
  intros Hl. unfold flush_pending_events. pose proof (flush_loop_stream f n (fw_pending f)) as H.
  destruct (flush_loop f n (fw_pending f)) as [[ok f'] n'].
  destruct H as (Hs & Hn & Hd & Hlen & Hok). unfold stream, attributed in *. rewrite Hn.
  split_and!; [done..| |by intros ->]. split; [lia|]. destruct ok; [by rewrite Hok|done].
Qed.

Lemma reconnect_spec f n :
  let '(ok, f', n') := reconnect f n in
  stream f' n' = stream f n ∧ fw_node_id f' = fw_node_id f
  ∧ fw_dropped_total f' = fw_dropped_total f ∧ fw_pending f' = fw_pending f
  ∧ (ok = false → broken (fw_link f')).
Proof.
  unfold reconnect, connect, stream, attributed, broken.
  destruct (net_connects n) as [|[k|] rest]; simpl; split_and!; try done; by left.
Qed.

(** The first phase: the queue is empty or the link is broken afterwards. *)
Definition try_flush (f : HubForwarder) (n : Net) : HubForwarder * Net :=
  match fw_pending f with
  | [] => (f, n)
  | _ =>
      let '(flushed, f, n) := flush_pending_events f n in
      if flushed then (f, n)
      else
        let f := count_retry (count_flush_failure f) in
        let '(connected, f, n) := reconnect f n in
        if connected then
          let '(flushed, f, n) := flush_pending_events f n in
          (if flushed then f else count_flush_failure f, n)
        else (f, n)
  end.

Lemma try_flush_spec f n :
  fw_ok f → let '(f', n') := try_flush f n in
  stream f' n' = stream f n ∧ fw_node_id f' = fw_node_id f
  ∧ fw_dropped_total f' = fw_dropped_total f ∧ fw_ok f'.
Proof.
  intros [Hl Hb]. unfold try_flush. destruct (fw_pending f) as [|e p] eqn:Ep.
  { unfold fw_ok. rewrite Ep. split_and!; auto. }
  rewrite <-Ep in *. pose proof (flush_pending_events_spec f n Hl) as H.
  destruct (flush_pending_events f n) as [[ok1 f1] n1]. destruct H as (Hs1 & Hn1 & Hd1 & Hok1 & _).
  destruct ok1; [done|].
  pose proof (reconnect_spec (count_retry (count_flush_failure f1)) n1) as H.
  destruct (reconnect _ n1) as [[ok2 f2] n2]. destruct H as (Hs2 & Hn2 & Hd2 & Hp2 & Hb2).
  assert (stream (count_retry (count_flush_failure f1)) n1 = stream f1 n1) as He by done.
  rewrite He in Hs2. simpl in Hn2, Hd2, Hp2.
  destruct Hok1 as [Hl1 Hb1]. rewrite <-Hp2 in Hl1.
  destruct ok2; [|split_and!; [congruence..|split; auto]].
  pose proof (flush_pending_events_spec f2 n2 Hl1) as H.
  destruct (flush_pending_events f2 n2) as [[ok3 f3] n3]. destruct H as (Hs3 & Hn3 & Hd3 & Hok3 & _).
  destruct ok3; [split_and!; [congruence..|done]|].
  change (stream (count_flush_failure f3) n3) with (stream f3 n3).
  split_and!; simpl; [congruence..|done].
Qed.

Lemma forward_with_retry_spec f n e :
  fw_ok f → (fw_dropped_total f < u64_max)%N →
  let '(_, f', n') := forward_event_with_retry f n e in
  fw_ok f' ∧ fw_node_id f' = fw_node_id f
  ∧ ∃ kept, stream f' n' = kept ++ attributed f [e] ∧ sublist kept (stream f n)
      ∧ (N.of_nat (length kept) + fw_dropped_total f'
         = N.of_nat (length (stream f n)) + fw_dropped_total f)%N.
Proof.
  intros Hok Hd. unfold forward_event_with_retry. fold (try_flush f n).
  pose proof (try_flush_spec f n Hok) as H. destruct (try_flush f n) as [f1 n1].
  destruct H as (Hs1 & Hn1 & Hd1 & [Hl1 Hb1]).
  destruct (forward_event f1 n1 e) as [[sent f2] n2] eqn:Ef. unfold forward_event in Ef.
  assert (sent = true ∧ fw_pending f1 = [] ∨ sent = false ∧ f2 = f1 ∧ n2 = n1) as Hcase.
  { destruct (fw_link f1) as [[|k]|] eqn:El; simplify_eq; auto. left. split; [done|].
    destruct (fw_pending f1); [done|]. by destruct Hb1 as [?|?]. }
  destruct Hcase as [[-> Hp]|(-> & -> & ->)].
  { destruct (fw_link f1) as [[|k]|]; simplify_eq. split_and!; [|done|].
    - split; simpl; rewrite Hp; [simpl; unfold PENDING_EVENT_CAPACITY; lia|done].
    - exists (stream f n). rewrite <-Hs1. unfold stream, attributed. simpl.
      rewrite Hp, map_app, !app_nil_r. simpl. rewrite Hn1. split_and!; [done..|]. by rewrite Hd1. }
  clear Ef. set (f3 := count_retry (enqueue_pending_event f1 e)).
  assert (∃ kept, stream f3 n1 = kept ++ attributed f [e] ∧ sublist kept (stream f n)
    ∧ (N.of_nat (length kept) + fw_dropped_total f3
       = N.of_nat (length (stream f n)) + fw_dropped_total f)%N
    ∧ length (fw_pending f3) ≤ PENDING_EVENT_CAPACITY ∧ fw_node_id f3 = fw_node_id f)
    as (kept & Hk & Hsub & Hcnt & Hl3 & Hn3).
  { rewrite <-Hs1. unfold f3, enqueue_pending_event. case_decide as Hfull; simpl.
    - destruct (fw_pending f1) as [|x p] eqn:Ep; [unfold PENDING_EVENT_CAPACITY in Hfull; simpl in Hfull; lia|].
      exists (map event (net_sent n1) ++ attributed f p).
      unfold stream, attributed. simpl. rewrite Hn1, Ep, map_app. simpl.
      assert (length (p ++ [e]) = length (x :: p)) as Hsame by (rewrite length_app; simpl; lia).
      split_and!; [by rewrite <-app_assoc| | |etrans; [apply Nat.eq_le_incl, Hsame|done]|done].
      + apply sublist_app; [done|]. by constructor.
      + rewrite !length_app. simpl. unfold saturating_add. rewrite Hd1 in *. lia.
    - exists (stream f1 n1). unfold stream, attributed. simpl. rewrite Hn1, map_app. simpl.
      assert (length (fw_pending f1 ++ [e]) = S (length (fw_pending f1))) as Hone
        by (rewrite length_app; simpl; lia).
      split_and!; [by rewrite <-app_assoc|done|by rewrite Hd1| |done]. rewrite Hone. lia. }
  pose proof (reconnect_spec f3 n1) as H. destruct (reconnect f3 n1) as [[ok4 f4] n4].
  destruct H as (Hs4 & Hn4 & Hd4 & Hp4 & Hb4). rewrite <-Hp4 in Hl3. rewrite <-Hd4 in Hcnt.
  destruct ok4; simpl.
  2: { split_and!; [split; auto|congruence|]. exists kept. rewrite Hs4. done. }
  pose proof (flush_pending_events_spec f4 n4 Hl3) as H.
  destruct (flush_pending_events f4 n4) as [[ok5 f5] n5]. destruct H as (Hs5 & Hn5 & Hd5 & Hok5 & _).
  rewrite <-Hd5 in Hcnt.
  destruct ok5; (split_and!; [done|simpl; congruence|]); exists kept; split_and!; try done.
  - by rewrite Hs5, Hs4.
  - change (stream (count_flush_failure f5) n5) with (stream f5 n5). by rewrite Hs5, Hs4.
Qed.

(** ** The edge filter *)

Definition filter_run (f : HubForwarder) (evs : list Event) : HubForwarder :=
  foldl (λ f e, (should_forward f e).2) f evs.

(** A binding whose remembered utilisation is neither high nor low. *)
Definition stuck (key : N * string) (f : HubForwarder) : Prop :=
  key ∈ fw_bindings f ∧ ∃ v, fw_last_util f !! key = Some v
    ∧ f64_gt v (f64_of_N 80) = false ∧ f64_lt v (f64_of_N 1) = false.

Lemma first_binding_stuck key f e : stuck key f → stuck key (first_binding f e).2.
Proof.
  intros (Hk & v & Hv & Hr). unfold first_binding. destruct (ev_pid e); [|by repeat (split; eauto)].
  case_decide; simpl; (split; [simpl; set_solver|eauto]).
Qed.

Lemma should_forward_stuck key f e : stuck key f → stuck key (should_forward f e).2.
Proof.
  intros Hs. unfold should_forward.
  destruct (ev_type e); try done; try by apply first_binding_stuck.
  all: destruct (ev_pid e) as [p|]; [|done]; case_decide as Hnew; simpl.
  all: destruct Hs as (Hk & v & Hv & Hhi & Hlo).
  all: try (assert (key ≠ (p, ev_entity_id e)) as Hne by (intros ->; done);
            split; [simpl; set_solver|]; exists v; split_and!; [|done..]; simpl;
            case_match; [by rewrite lookup_insert_ne|done]).
  all: destruct (parse_f64 (ev_value e)) as [c|]; [|by repeat (split; eauto)].
  all: destruct (fw_last_util f !! (p, ev_entity_id e)) as [l|] eqn:El; [|by repeat (split; eauto)].
  all: destruct (drastic l c) eqn:Ed; [|by repeat (split; eauto)]; simpl.
  all: split; [done|]; exists v; split_and!; [|done..]; simpl; rewrite lookup_insert_ne; [done|].
  all: intros <-; rewrite El in Hv; simplify_eq; unfold drastic in Ed; by rewrite Hhi, Hlo in Ed.
Qed.

Lemma filter_run_stuck key evs f : stuck key f → stuck key (filter_run f evs).
Proof.
  revert f. unfold filter_run. induction evs as [|e evs IH]; intros f Hs; simpl; [done|].
  by apply IH, should_forward_stuck.
Qed.

Definition is_compute (t : EventType) : bool :=
  match t with ComputeUtil | ComputeMem => true | _ => false end.

(** ** Claims *)

Definition forward_run (node_id : string) (net : list (option nat)) (evs : list Event)
  : HubForwarder * Net :=
  foldl (λ s e, let '(_, f, n) := forward_event_with_retry s.1 s.2 e in (f, n))
    (forwarder_new node_id, mkNet net []) evs.

(** The events sent, followed by the queue, as the run goes on. *)
Lemma forward_run_from node_id evs f n past :
  fw_ok f → fw_node_id f = node_id → sublist (stream f n) past →
  (N.of_nat (length (stream f n)) + fw_dropped_total f = N.of_nat (length past))%N →
  (N.of_nat (length past + length evs) < u64_max)%N →
  let '(f', n') := foldl (λ s e, let '(_, f, n) := forward_event_with_retry s.1 s.2 e in (f, n))
                     (f, n) evs in
  let all := past ++ map (with_node_id (Some node_id)) evs in
  sublist (stream f' n') all
  ∧ (N.of_nat (length (stream f' n')) + fw_dropped_total f' = N.of_nat (length all))%N
  ∧ length (fw_pending f') ≤ PENDING_EVENT_CAPACITY ∧ fw_node_id f' = node_id.
Proof.
  revert f n past. induction evs as [|e evs IH]; intros f n past Hok Hid Hsub Hcnt Hlen; simpl.
  { rewrite app_nil_r. split_and!; [done..|apply Hok|done]. }
  simpl in Hlen. pose proof (forward_with_retry_spec f n e Hok ltac:(lia)) as H.
  destruct (forward_event_with_retry f n e) as [[r f1] n1].
  destruct H as (Hok1 & Hn1 & kept & Hs1 & Hk & Hc1).
  unfold attributed in Hs1. rewrite Hid in Hs1. simpl in Hs1.
  specialize (IH f1 n1 (past ++ [with_node_id (Some node_id) e]) Hok1 ltac:(congruence)).
  rewrite <-app_assoc in IH. apply IH.
  - rewrite Hs1. apply sublist_app; [by etrans|done].
  - rewrite Hs1, !length_app. simpl. lia.
  - rewrite length_app. simpl. lia.
Qed.

Lemma forward_run_stream node_id net evs :
  (N.of_nat (length evs) < u64_max)%N →
  let '(f, n) := forward_run node_id net evs in
  sublist (stream f n) (map (with_node_id (Some node_id)) evs)
  ∧ (N.of_nat (length (stream f n)) + fw_dropped_total f = N.of_nat (length evs))%N
  ∧ length (fw_pending f) ≤ PENDING_EVENT_CAPACITY ∧ fw_node_id f = node_id.
Proof.
  intros Hlen. unfold forward_run.
  pose proof (forward_run_from node_id evs (forwarder_new node_id) (mkNet net []) []) as Hgen.
  destruct (foldl _ _ evs) as [f n]. simpl in Hgen. rewrite length_map in Hgen. apply Hgen; try done.
  split; [simpl; unfold PENDING_EVENT_CAPACITY; lia|done].
Qed.

(** C14 The forwarder loses nothing silently: over any run of events and any
    network, what the hub has been sent followed by what is still queued is the
    run, in order, each event at most once and stamped with the node, less the
    events counted as dropped; and the queue never exceeds its capacity. *)
Theorem forwarder_keeps_order node_id net evs
  (Hlen : (N.of_nat (length evs) < u64_max)%N) :
  let '(f, n) := forward_run node_id net evs in
  sublist (stream f n) (map (with_node_id (Some node_id)) evs)
  ∧ (N.of_nat (length (stream f n)) + fw_dropped_total f = N.of_nat (length evs))%N
  ∧ length (fw_pending f) ≤ PENDING_EVENT_CAPACITY.
Proof.
  pose proof (forward_run_stream node_id net evs Hlen) as H.
  destruct (forward_run node_id net evs) as [f n]. naive_solver.
Qed.

(** A binding that starts in the middle range is never reported again: when
    the first utilisation seen for a process and device lies between 1 and 80,
    no later compute event of that pair passes the filter, whatever its value,
    because the remembered value is only replaced when a change is forwarded. *)
Theorem mid_range_start_never_reported f e pid v evs e'
  (Hcompute : is_compute (ev_type e) = true) (Hpid : ev_pid e = Some pid)
  (Hnew : (pid, ev_entity_id e) ∉ fw_bindings f)
  (Hval : parse_f64 (ev_value e) = Some v)
  (Hhi : f64_gt v (f64_of_N 80) = false) (Hlo : f64_lt v (f64_of_N 1) = false)
  (Hcompute' : is_compute (ev_type e') = true) (Hpid' : ev_pid e' = Some pid)
  (Hentity : ev_entity_id e' = ev_entity_id e) :
  (should_forward f e).1 = true
  ∧ (should_forward (filter_run (should_forward f e).2 evs) e').1 = false.
Proof.
  assert (stuck (pid, ev_entity_id e) (should_forward f e).2 ∧ (should_forward f e).1 = true)
    as [Hs Ht].
  { unfold should_forward. destruct (ev_type e); try done; rewrite Hpid, decide_True, Hval by done;
      (split; [|done]); (split; [simpl; set_solver|]); exists v; simpl;
      by rewrite lookup_insert_eq. }
  split; [done|]. apply (filter_run_stuck _ evs) in Hs as (Hk & l & Hl & Hh & Hlow).
  revert Hk Hl. generalize (filter_run (should_forward f e).2 evs) as f'. intros f' Hk Hl.
  unfold should_forward. destruct (ev_type e'); try done;
    rewrite Hpid', Hentity, decide_False by (by intros []); rewrite Hl;
    (destruct (parse_f64 (ev_value e')); [|done]); unfold drastic; by rewrite Hh, Hlow.
Qed.

Lemma forwarder_keeps_order_witness :
  let '(f, n) := forward_run "n1" [None; Some 2; None; Some 5]
      [mkEvent 1 ErrorHw "gpu-0" None None "XID" None; mkEvent 2 ErrorHw "gpu-0" None None "XID" None;
       mkEvent 3 ErrorHw "gpu-0" None None "XID" None] in
  (N.of_nat (length (stream f n)) + fw_dropped_total f = 3)%N ∧ length (net_sent n) = 2.
Proof.
  pose proof (forwarder_keeps_order "n1" [None; Some 2; None; Some 5]
    [mkEvent 1 ErrorHw "gpu-0" None None "XID" None; mkEvent 2 ErrorHw "gpu-0" None None "XID" None;
     mkEvent 3 ErrorHw "gpu-0" None None "XID" None] ltac:(vm_compute; reflexivity)) as H.
  destruct (forward_run _ _ _) as [f n] eqn:E. destruct H as (_ & Hc & _). split; [exact Hc|].
  vm_compute in E. injection E as <- <-. reflexivity.
Defined.

Definition util_event (ts : N) (v : string) : Event :=
  mkEvent ts ComputeUtil "gpu-0" None (Some 7%N) v None.

Lemma mid_range_start_never_reported_witness :
  (should_forward (filter_run (should_forward (forwarder_new "n1") (util_event 1 "50")).2
     [util_event 2 "95"]) (util_event 3 "0")).1 = false.
Proof.
  refine (proj2 (mid_range_start_never_reported (forwarder_new "n1") (util_event 1 "50") 7
    (f64_of_N 50) [util_event 2 "95"] (util_event 3 "0") _ _ _ _ _ _ _ _ _));
    try (vm_compute; reflexivity).
  apply (bool_decide_unpack _). vm_compute. exact I.
Defined.
