(* ===== verification/Metrics.v ===== *)
(** * Exported metrics (agent/src/metrics.rs and hub/src/metrics.rs)

    Gauges and counters by label values.  The registry of the metrics library is
    a map per metric; values are counts, which the library keeps as binary64
    numbers exactly up to 2^53.  Histograms are only handed to the library.  The
    theorems: what the graph gauges show after an update, including the types
    they leave stale, and that the exported counters of the forwarder equal its
    totals although they are updated by differences. *)

From S2P Require Import Prelude F64 Event Signals Graph Rule RuleFiles RuleEngine Forwarder.

(** ** Metrics by label *)

Abbreviation metric_vec := (gmap (list string) N).

Definition inc_by (labels : list string) (n : N) (m : metric_vec) : metric_vec :=
  <[labels := (default 0 (m !! labels) + n)%N]> m.
Definition inc (labels : list string) (m : metric_vec) : metric_vec := inc_by labels 1 m.
Definition set (labels : list string) (n : N) (m : metric_vec) : metric_vec := <[labels := n]> m.

Definition node_type_label (t : NodeType) : string :=
  match t with Process => "process" | Resource => "resource" | Error => "error" end.

(** [*counts.entry(label).or_insert(0) += 1] over the labels. *)
Definition count_labels (labels : list string) : gmap string N :=
  foldl (λ m l, <[l := (default 0 (m !! l) + 1)%N]> m) ∅ labels.

(** [for (label, count) in counts { gauge.with(label).set(count) }] *)
Definition set_all (counts : gmap string N) (m : metric_vec) : metric_vec :=
  foldl (λ m lc, set [lc.1] lc.2 m) m (map_to_list counts).

Definition node_labels (g : StateGraph) : list string :=
  map (λ n, node_type_label (node_type n)) (map snd (map_to_list (get_nodes_async g))).
Definition edge_labels (g : StateGraph) : list string :=
  map (λ e, edge_type_name (edge_type e)) (get_all_edges_async g).

(** Both collectors update their two gauges in the same way. *)
Definition update_graph_metrics (g : StateGraph) (gauges : metric_vec * metric_vec)
  : metric_vec * metric_vec :=
  (set_all (count_labels (node_labels g)) gauges.1, set_all (count_labels (edge_labels g)) gauges.2).

(** ** The agent's collector *)

Record MetricsCollector := mkMetricsCollector {
  mc_graph : metric_vec * metric_vec;
  mc_events_processed : metric_vec;
  mc_probe_errors : metric_vec;
  mc_error_count : metric_vec;
  mc_rule_matches : metric_vec;
  mc_forwarder_pending : N;
  mc_forwarder_retries : N;
  mc_forwarder_dropped : N;
  mc_forwarder_flush_failures : N;
  mc_last_snapshot : ForwarderReliabilitySnapshot
}.

Definition metrics_new : MetricsCollector :=
  mkMetricsCollector (∅, ∅) ∅ ∅ ∅ ∅ 0 0 0 0 (mkSnapshot 0 0 0 0).

Definition mc_update_graph_metrics (g : StateGraph) (m : MetricsCollector) : MetricsCollector :=
  mkMetricsCollector (update_graph_metrics g (mc_graph m)) (mc_events_processed m)
    (mc_probe_errors m) (mc_error_count m) (mc_rule_matches m) (mc_forwarder_pending m)
    (mc_forwarder_retries m) (mc_forwarder_dropped m) (mc_forwarder_flush_failures m)
    (mc_last_snapshot m).

Definition event_metric_label (t : EventType) : string :=
  match t with
  | ComputeUtil => "compute_util" | ComputeMem => "compute_mem"
  | TransportBw => "transport_bw" | TransportDrop => "transport_drop"
  | StorageIops => "storage_iops" | StorageQDepth => "storage_qdepth"
  | ProcessState => "process_state" | ErrorHw => "error_hw" | ErrorNet => "error_net"
  | TopoLinkDown => "topo_link_down" | IntentRun => "intent_run" | ActionExec => "action_exec"
  end.

Definition with_events (v : metric_vec) (m : MetricsCollector) : MetricsCollector :=
  mkMetricsCollector (mc_graph m) v (mc_probe_errors m) (mc_error_count m) (mc_rule_matches m)
    (mc_forwarder_pending m) (mc_forwarder_retries m) (mc_forwarder_dropped m)
    (mc_forwarder_flush_failures m) (mc_last_snapshot m).
Definition record_event (t : EventType) (m : MetricsCollector) : MetricsCollector :=
  with_events (inc [event_metric_label t] (mc_events_processed m)) m.

Definition record_probe_error (probe_name : string) (m : MetricsCollector) : MetricsCollector :=
  mkMetricsCollector (mc_graph m) (mc_events_processed m) (inc [probe_name] (mc_probe_errors m))
    (mc_error_count m) (mc_rule_matches m) (mc_forwarder_pending m) (mc_forwarder_retries m)
    (mc_forwarder_dropped m) (mc_forwarder_flush_failures m) (mc_last_snapshot m).
Definition record_error (error_type node_id : string) (m : MetricsCollector) : MetricsCollector :=
  mkMetricsCollector (mc_graph m) (mc_events_processed m) (mc_probe_errors m)
    (inc [error_type; node_id] (mc_error_count m)) (mc_rule_matches m) (mc_forwarder_pending m)
    (mc_forwarder_retries m) (mc_forwarder_dropped m) (mc_forwarder_flush_failures m)
    (mc_last_snapshot m).
Definition record_rule_match (rule_name : string) (m : MetricsCollector) : MetricsCollector :=
  mkMetricsCollector (mc_graph m) (mc_events_processed m) (mc_probe_errors m) (mc_error_count m)
    (inc [rule_name] (mc_rule_matches m)) (mc_forwarder_pending m) (mc_forwarder_retries m)
    (mc_forwarder_dropped m) (mc_forwarder_flush_failures m) (mc_last_snapshot m).

(** Counters only go up: the difference to the last snapshot is added. *)
Definition update_forwarder_reliability (s : ForwarderReliabilitySnapshot) (m : MetricsCollector)
  : MetricsCollector :=
  let last := mc_last_snapshot m in
  mkMetricsCollector (mc_graph m) (mc_events_processed m) (mc_probe_errors m) (mc_error_count m)
    (mc_rule_matches m) (N.of_nat (pending_queue_len s))
    (mc_forwarder_retries m + saturating_sub (retries_total s) (retries_total last))
    (mc_forwarder_dropped m + saturating_sub (dropped_events_total s) (dropped_events_total last))
    (mc_forwarder_flush_failures m
     + saturating_sub (flush_failures_total s) (flush_failures_total last))
    s.

(** ** The hub's collector *)

Record HubMetrics := mkHubMetrics {
  hm_graph_gauges : metric_vec * metric_vec;
  hm_events_received : metric_vec;
  hm_agent_events_received : metric_vec;
  hm_websocket_connections : metric_vec;
  hm_fix_actions : metric_vec;
  hm_rules : gmap string N;                 (** the rule gauges by name *)
  hm_rules_skipped_reason : metric_vec;
  hm_wal : gmap string N                    (** the log counters and its size, by name *)
}.
Definition hub_metrics_new : HubMetrics := mkHubMetrics (∅, ∅) ∅ ∅ ∅ ∅ ∅ ∅ ∅.

Definition hub_update_graph_metrics (g : StateGraph) (m : HubMetrics) : HubMetrics :=
  mkHubMetrics (update_graph_metrics g (hm_graph_gauges m)) (hm_events_received m)
    (hm_agent_events_received m) (hm_websocket_connections m) (hm_fix_actions m) (hm_rules m)
    (hm_rules_skipped_reason m) (hm_wal m).

Definition record_event_received (event_type node_id : string) (m : HubMetrics) : HubMetrics :=
  mkHubMetrics (hm_graph_gauges m) (inc [event_type; node_id] (hm_events_received m))
    (inc [node_id; event_type] (hm_agent_events_received m)) (hm_websocket_connections m)
    (hm_fix_actions m) (hm_rules m) (hm_rules_skipped_reason m) (hm_wal m).

Definition update_websocket_connections (connected disconnected : nat) (m : HubMetrics)
  : HubMetrics :=
  mkHubMetrics (hm_graph_gauges m) (hm_events_received m) (hm_agent_events_received m)
    (set ["disconnected"] (N.of_nat disconnected)
       (set ["connected"] (N.of_nat connected) (hm_websocket_connections m)))
    (hm_fix_actions m) (hm_rules m) (hm_rules_skipped_reason m) (hm_wal m).

Definition record_fix_action (action_type node_id result : string) (m : HubMetrics) : HubMetrics :=
  mkHubMetrics (hm_graph_gauges m) (hm_events_received m) (hm_agent_events_received m)
    (hm_websocket_connections m) (inc [action_type; node_id; result] (hm_fix_actions m))
    (hm_rules m) (hm_rules_skipped_reason m) (hm_wal m).

Definition record_rule_load_stats (stats : RuleLoadStats) (m : HubMetrics) : HubMetrics :=
  mkHubMetrics (hm_graph_gauges m) (hm_events_received m) (hm_agent_events_received m)
    (hm_websocket_connections m) (hm_fix_actions m)
    (<["legacy_unsupported" := N.of_nat (legacy_unsupported_total stats)]>
     (<["legacy_migratable" := N.of_nat (legacy_migratable_total stats)]>
      (<["legacy" := N.of_nat (legacy_total stats)]>
       (<["invalid" := N.of_nat (skipped_rules stats)]>
        (<["skipped" := N.of_nat (skipped_rules stats)]>
         (<["loaded" := N.of_nat (loaded_rules stats)]> (hm_rules m)))))))
    (foldl (λ v rc, inc_by [rc.1] (N.of_nat rc.2) v) (hm_rules_skipped_reason m)
       (map_to_list (skipped_by_reason stats)))
    (hm_wal m).

Definition with_wal (w : gmap string N) (m : HubMetrics) : HubMetrics :=
  mkHubMetrics (hm_graph_gauges m) (hm_events_received m) (hm_agent_events_received m)
    (hm_websocket_connections m) (hm_fix_actions m) (hm_rules m) (hm_rules_skipped_reason m) w.
Definition count_wal (name : string) (n : N) (m : HubMetrics) : HubMetrics :=
  with_wal (<[name := (default 0 (hm_wal m !! name) + n)%N]> (hm_wal m)) m.

(** [if count > 0 { counter.inc_by(count) }] *)
Definition count_wal_positive (name : string) (count : nat) (m : HubMetrics) : HubMetrics :=
  if decide (0 < count) then count_wal name (N.of_nat count) m else m.
Definition record_wal_replayed := count_wal_positive "replayed".
Definition record_wal_replay_corrupted_lines := count_wal_positive "replay_corrupted_lines".
Definition record_wal_replay_dedup_dropped := count_wal_positive "replay_dedup_dropped".
Definition record_wal_replay_process_failed := count_wal_positive "replay_process_failed".
Definition record_wal_append_error := count_wal "append_errors" 1.
Definition record_wal_rotation := count_wal "rotations" 1.
Definition update_wal_size_bytes (size : N) (m : HubMetrics) : HubMetrics :=
  with_wal (<["size_bytes" := size]> (hm_wal m)) m.

(** ** What the gauges show *)

Definition occurrences (l : string) (labels : list string) : N :=
  N.of_nat (length (filter (λ l', l' = l) labels)).

Lemma occurrences_snoc l labels l' :
  occurrences l (labels ++ [l']) = (occurrences l labels + if decide (l' = l) then 1 else 0)%N.
Proof.
  unfold occurrences. rewrite filter_app, length_app, filter_cons. case_decide; simpl; lia.
Qed.

Lemma count_labels_lookup labels l :
  count_labels labels !! l = if decide (l ∈ labels) then Some (occurrences l labels) else None.
Proof.
  induction labels as [|l' labels IH] using rev_ind; [done|].
  unfold count_labels in *. rewrite foldl_app. simpl. rewrite occurrences_snoc.
  destruct (decide (l' = l)) as [->|Hne].
  - rewrite lookup_insert_eq, IH, (decide_True (P := l ∈ labels ++ [l])) by set_solver.
    case_decide as Hin; simpl; [done|]. do 2 f_equal.
    unfold occurrences. assert (filter (λ l', l' = l) labels = []) as ->; [|done].
    apply elem_of_nil_inv. intros x [-> ?]%list_elem_of_filter. done.
  - rewrite lookup_insert_ne, IH by done. rewrite N.add_0_r.
    repeat case_decide; set_solver.
Qed.

Lemma set_all_lookup counts m l :
  set_all counts m !! [l] = match counts !! l with Some c => Some c | None => m !! [l] end.
Proof.
  unfold set_all. pose proof (NoDup_fst_map_to_list counts) as Hnd.
  rewrite <-(list_to_map_to_list counts) at 2. revert m Hnd.
  induction (map_to_list counts) as [|[k c] kvs IH]; intros m Hnd; [done|].
  simpl in *. apply NoDup_cons in Hnd as [Hk Hnd]. rewrite IH by done. unfold set.
  destruct (decide (k = l)) as [->|Hne].
  - rewrite lookup_insert_eq, not_elem_of_list_to_map_1 by done. by rewrite lookup_insert_eq.
  - rewrite !lookup_insert_ne by congruence. done.
Qed.

(** The graph gauges: after an update, the gauge of a node type that occurs in
    the graph is the number of its nodes, and likewise for edges; the gauge of a
    type that no longer occurs is not reset but keeps the value it had, so the
    last node or edge of a type never disappears from the metrics. *)
Theorem graph_gauges_exact_or_stale g gauges :
  (∀ t, (update_graph_metrics g gauges).1 !! [t]
    = if decide (t ∈ node_labels g) then Some (occurrences t (node_labels g)) else gauges.1 !! [t])
  ∧ ∀ t, (update_graph_metrics g gauges).2 !! [t]
    = if decide (t ∈ edge_labels g) then Some (occurrences t (edge_labels g)) else gauges.2 !! [t].
Proof.
  split; intros t; simpl; rewrite set_all_lookup, count_labels_lookup; by case_decide.
Qed.

(** The exported counters are the totals of the last snapshot. *)
Definition counters_of (s : ForwarderReliabilitySnapshot) (m : MetricsCollector) : Prop :=
  mc_last_snapshot m = s ∧ mc_forwarder_retries m = retries_total s
  ∧ mc_forwarder_dropped m = dropped_events_total s
  ∧ mc_forwarder_flush_failures m = flush_failures_total s.

Definition snapshot_le (s t : ForwarderReliabilitySnapshot) : Prop :=
  (retries_total s ≤ retries_total t)%N ∧ (dropped_events_total s ≤ dropped_events_total t)%N
  ∧ (flush_failures_total s ≤ flush_failures_total t)%N.

Global Instance snapshot_le_preorder : PreOrder snapshot_le.
Proof. unfold snapshot_le. split; [by intros s|]. intros s t u ? ?. lia. Qed.

Lemma reliability_counters s s' m :
  counters_of s m → snapshot_le s s' → counters_of s' (update_forwarder_reliability s' m).
Proof.
  intros (Hl & H1 & H2 & H3) (L1 & L2 & L3). unfold counters_of, update_forwarder_reliability.
  simpl. rewrite Hl, H1, H2, H3. unfold saturating_sub. split_and!; [done|lia..].
Qed.

(** ** Operations no part of the programs calls *)

(** The labels and values of a gauge of real numbers, and of a histogram, whose
    observations are kept in order. *)
Abbreviation gauge_vec := (gmap (list string) f64).
Abbreviation histogram_vec := (gmap (list string) (list f64)).

Definition observe (labels : list string) (v : f64) (h : histogram_vec) : histogram_vec :=
  <[labels := default [] (h !! labels) ++ [v]]> h.

Definition update_process_resource (pid : N) (job_id : option string) (resource_type metric : string)
    (value : f64) (g : gauge_vec) : gauge_vec :=
  <[[pretty pid; default "unknown" job_id; resource_type; metric] := value]> g.

Definition record_process_wait_time (pid : N) (job_id : option string) (resource_type : string)
    (seconds : f64) (h : histogram_vec) : histogram_vec :=
  observe [pretty pid; default "unknown" job_id; resource_type] seconds h.

Definition record_query_duration (query_type : string) (duration_seconds : f64) (h : histogram_vec)
  : histogram_vec := observe [query_type] duration_seconds h.

(** ** Registration

    A collector registers each of its metrics by name with the registry of the
    process, which refuses a name it has. *)

Fixpoint register_all (names : list string) (registry : gset string) : result string unit * gset string :=
  match names with
  | [] => (Ok (), registry)
  | n :: names' =>
      if decide (n ∈ registry) then (Err "Duplicate metrics collector registration attempted", registry)
      else register_all names' ({[n]} ∪ registry)
  end.

(** The names of [MetricsCollector::new] and of [HubMetricsCollector::new]. *)
Definition agent_metric_names : list string :=
  ["ark_graph_nodes_total"; "ark_graph_edges_total"; "ark_events_processed_total";
   "ark_probe_errors_total"; "ark_process_resource_usage"; "ark_process_wait_time_seconds";
   "ark_error_count"; "ark_rule_matches_total"; "ark_forwarder_pending_queue_len";
   "ark_forwarder_retries_total"; "ark_forwarder_dropped_events_total";
   "ark_forwarder_flush_failures_total"].
Definition hub_metric_names : list string :=
  ["ark_hub_graph_nodes_total"; "ark_hub_graph_edges_total"; "ark_hub_events_received_total";
   "ark_hub_websocket_connections"; "ark_hub_cluster_query_duration_seconds";
   "ark_hub_cluster_fix_actions_total"; "ark_hub_agent_events_received_total";
   "ark_rules_loaded_total"; "ark_rules_skipped_total"; "ark_rules_invalid_total";
   "ark_rules_skipped_reason_total"; "ark_rules_legacy_total"; "ark_rules_legacy_migratable_total";
   "ark_rules_legacy_unsupported_total"; "ark_hub_wal_replayed_total";
   "ark_hub_wal_replay_corrupted_lines_total"; "ark_hub_wal_replay_dedup_dropped_total";
   "ark_hub_wal_replay_process_failed_total"; "ark_hub_wal_append_errors_total";
   "ark_hub_wal_rotations_total"; "ark_hub_wal_size_bytes"].

(** [new]: the collector, or the error of the first refused name. *)
Definition metrics_collector_new (registry : gset string) : result string MetricsCollector * gset string :=
  match register_all agent_metric_names registry with
  | (Ok _, r) => (Ok metrics_new, r)
  | (Err e, r) => (Err e, r)
  end.
Definition hub_metrics_collector_new (registry : gset string) : result string HubMetrics * gset string :=
  match register_all hub_metric_names registry with
  | (Ok _, r) => (Ok hub_metrics_new, r)
  | (Err e, r) => (Err e, r)
  end.

Lemma register_all_ok names registry :
  is_ok (register_all names registry).1 = true ↔ NoDup names ∧ ∀ n, n ∈ names → n ∉ registry.
Proof.
  revert registry. induction names as [|n names IH]; intros registry; simpl.
  { split; [|done]. intros _. split; [constructor|set_solver]. }
  case_decide as Hn; simpl.
  - split; [done|]. intros [_ H]. by destruct (H n); [left|].
  - rewrite IH, NoDup_cons. set_solver.
Qed.

(** Both collectors can be created in a fresh process, also side by side, and
    neither can be created twice: the names are pairwise distinct, and the second
    registration of the first name is refused. *)
Theorem collectors_register_once :
  let '(a, r1) := metrics_collector_new ∅ in
  let '(h, r2) := hub_metrics_collector_new r1 in
  is_ok a = true ∧ is_ok h = true
  ∧ is_ok (metrics_collector_new r2).1 = false ∧ is_ok (hub_metrics_collector_new r2).1 = false.
Proof. vm_compute. done. Qed.
