(* ===== verification/HubSystem.v ===== *)
(** * The hub as a whole (hub/src/main.rs: [Cli], [main], [create_api_routes])

    The command line, the start-up with its failures, and the running hub: the
    connections of the agents, the HTTP API, the background tasks of the
    Kubernetes controller, the operator and the metrics task, all on one shared
    state.  The inputs come in any order.  The theorems: when the hub comes up;
    that a restart recovers the state whatever the API and the tasks did; that a
    command is only ever queued on the connection of the node it is for; and how
    the hub ends. *)

From S2P Require Import Prelude Text Json Event Signals Graph GraphInv Dedup K8s Wal WalDisk Hub.
From S2P Require Import Rule RuleFiles RuleEngine HubApi HubViews Metrics.

(** ** Command line *)

Record Cli := mkCli {
  ws_listen : string;
  http_listen : string;
  enable_k8s_controller : bool;
  rules_dir : string;
  event_buffer_size : nat;
  wal_path : string;
  wal_max_mb : N;
  allow_execute : bool;
  dedup_window_s : N;
  execute_max_actions : nat;
  execute_max_concurrency : nat;
  execute_cooldown_s : N;
  policy_version : string;
  enable_operator : bool;
  operator_namespace : string;
  operator_poll_s : N
}.

(** The hub started without arguments. *)
Definition cli_defaults : Cli := mkCli
  "0.0.0.0:8080" "0.0.0.0:8081" false "rules" 20000 "tmp/hub-events.wal.jsonl" 256 false 300
  20 16 60 "v1" false "ark-system" 15.

(** [cli.dedup_window_s.saturating_mul(1000)] *)
Definition cli_dedup_window_ms (cli : Cli) : N := saturating_mul (dedup_window_s cli) 1000.

(** ** Routes *)

Inductive Method := GET | POST | OtherMethod.

Inductive Route :=
| MetricsRoute | HealthRoute | WhyRoute | PsRoute | DiagnoseRoute | IncidentsRoute
| PreflightRoute | TrainingSlowRoute | FixRoute.

(** [warp::path] takes one segment and leaves the rest, [warp::path!] takes the
    whole path; most routes do not test the method. *)
Definition route_of (method : Method) (path : list string) : option Route :=
  match path, method with
  | "metrics" :: _, GET => Some MetricsRoute
  | ["api"; "v1"; "health"], GET => Some HealthRoute
  | ["api"; "v1"; "why"], _ => Some WhyRoute
  | ["api"; "v1"; "ps"], _ => Some PsRoute
  | ["api"; "v1"; "diagnose"], _ => Some DiagnoseRoute
  | ["api"; "v1"; "incidents"], _ => Some IncidentsRoute
  | ["api"; "v1"; "preflight"], _ => Some PreflightRoute
  | ["api"; "v1"; "training_slow"], _ => Some TrainingSlowRoute
  | ["api"; "v1"; "fix"], POST => Some FixRoute
  | _, _ => None
  end.

(** What a handler gets: the query, the decoded body of a fix request, the
    clock, and the metadata of the two log files. *)
Record ApiRequest := mkApiRequest {
  rq_method : Method;
  rq_path : list string;
  rq_query : gmap string string;
  rq_body : option FixRequest;
  rq_now : N;
  rq_id_ms : N;
  rq_clock : nat → N * N;
  rq_active : option file_meta;
  rq_rotated : option file_meta
}.

Inductive Reply :=
| ReplyJson (status : N) (body : Json)
| ReplyText (status : N) (body : string)
| Rejected.

(** ** The running hub *)

Record HubSystem (C : Type) := mkHubSystem {
  hs_hub : HubState;
  hs_conns : list (option Conn);
  hs_closed : gset N;                  (** senders whose receiving end is gone *)
  hs_queued : list (N * string);       (** commands queued on senders *)
  hs_metrics : HubMetrics;
  hs_rules : RuleEngine;
  hs_guard : ExecuteGuard;
  hs_controller : option Controller;
  hs_cluster : C
}.
Global Arguments mkHubSystem {_} _ _ _ _ _ _ _ _ _.
Global Arguments hs_hub {_} _.
Global Arguments hs_conns {_} _.
Global Arguments hs_closed {_} _.
Global Arguments hs_queued {_} _.
Global Arguments hs_metrics {_} _.
Global Arguments hs_rules {_} _.
Global Arguments hs_guard {_} _.
Global Arguments hs_controller {_} _.
Global Arguments hs_cluster {_} _.

Inductive SysInput :=
| FromAgent (inp : Input)
| WriterFailed (i : nat)                 (** sending to the peer fails, the writer ends *)
| FaultTask (i : nat) (now done : N)     (** a background task handles the i-th fault *)
| OperatorPass
| MetricsTick
| Http (req : ApiRequest).

Section system.
Context {C : Type} (k8s : K8sApi C).
Context (parse_rule : string → result string RuleWire)
        (parse_manifest : string → result string RulesManifestWire).
Context (parse_envelope : string → result string HubEventEnvelope)
        (from_json : string → result string Event) (to_json : Event → result string string)
        (hasher : fingerprint_input → N) (render : Json → string)
        (gather : HubMetrics → result string string).
Context (cli : Cli).

Local Notation size := (event_buffer_size cli).
Local Notation window := (cli_dedup_window_ms cli).

(** The counters of one message, next to [Hub.handle_message]. *)
Definition message_metrics (c : Conn) (h : HubState) (msg : Message) (m : HubMetrics) : HubMetrics :=
  match msg with
  | Text text =>
      match parse_hub_event_message parse_envelope from_json text with
      | Ok event =>
          let '(c', h', event') := attribute c h event in
          let '(accepted, _) :=
            accept_event_with_dedup hasher event' (hm_dedup (hub_mem h')) window in
          if negb accepted then m
          else
            match process_event (hm_graph (hub_mem h')) event' with
            | (_, Err _) => m
            | (_, Ok _) =>
                let m := record_event_received (event_type_display (ev_type event')) (conn_node_id c') m in
                match append_wal_event to_json (hub_wal h') event' with
                | Ok (_, r) =>
                    update_wal_size_bytes (size_bytes r)
                      (if rotated r then record_wal_rotation m else m)
                | Err _ => record_wal_append_error m
                end
            end
      | Err _ => m
      end
  | _ => m
  end.

Definition with_agents (h : HubState) (cs : list (option Conn)) (closed : gset N) (m : HubMetrics)
    (s : HubSystem C) : HubSystem C :=
  mkHubSystem h cs closed (hs_queued s) m (hs_rules s) (hs_guard s) (hs_controller s) (hs_cluster s).

(** The clean-up aborts the writer; a read error leaves without the clean-up. *)
Definition ends_writer (cs : list (option Conn)) (inp : Input) : gset N :=
  match inp with
  | Received i Close | StreamEnded i =>
      match cs !! i with Some (Some c) => {[conn_tx c]} | _ => ∅ end
  | _ => ∅
  end.

Definition agent_input (s : HubSystem C) (inp : Input) : HubSystem C :=
  let '(h, cs) := hub_input parse_envelope from_json to_json hasher size window
                    (hs_hub s, hs_conns s) inp in
  let m := match inp with
           | Received i msg =>
               match hs_conns s !! i with
               | Some (Some c) => message_metrics c (hs_hub s) msg (hs_metrics s)
               | _ => hs_metrics s
               end
           | _ => hs_metrics s
           end in
  with_agents h cs (hs_closed s ∪ ends_writer (hs_conns s) inp) m s.

(** The context of the handlers, and its effects put back. *)
Definition api_of (s : HubSystem C) : ApiState C :=
  mkApiState (hm_graph (hub_mem (hs_hub s))) (hs_rules s) (hm_buffer (hub_mem (hs_hub s)))
    (allow_execute cli) (policy_version cli) (hs_guard s)
    (mkLinks (hub_connections (hs_hub s)) (hs_closed s) (hs_queued s))
    (hs_controller s) (hs_cluster s).

Definition with_api (a : ApiState C) (s : HubSystem C) : HubSystem C :=
  mkHubSystem (hs_hub s) (hs_conns s) (hs_closed s) (link_queued (api_links a)) (hs_metrics s)
    (hs_rules s) (api_guard a) (api_controller a) (api_cluster a).

Definition api_request (s : HubSystem C) (r : ApiRequest) : Reply * HubSystem C :=
  let a := api_of s in
  match route_of (rq_method r) (rq_path r) with
  | None => (Rejected, s)
  | Some MetricsRoute =>
      (match gather (hs_metrics s) with
       | Ok body => ReplyText 200 body
       | Err e => ReplyText 500 ("Error: " +:+ e)
       end, s)
  | Some HealthRoute =>
      (ReplyJson 200 (health (rq_now r) (api_graph a) (api_links a) (wal_path cli)
                        (rq_active r) (rq_rotated r) (hs_rules s)), s)
  | Some WhyRoute => (ReplyJson 200 (why (rq_query r) (api_graph a)), s)
  | Some PsRoute => (ReplyJson 200 (ps (api_graph a)), s)
  | Some DiagnoseRoute =>
      let '(body, a') := diagnose render k8s (rq_query r) (rq_now r) (rq_id_ms r) (rq_clock r) a in
      (ReplyJson 200 body, with_api a' s)
  | Some IncidentsRoute =>
      (ReplyJson 200 (incidents (rq_query r) (rq_now r) (api_graph a) (hs_rules s) (api_buffer a)), s)
  | Some PreflightRoute => (ReplyJson 200 (preflight (rq_query r) (rq_now r) (api_buffer a)), s)
  | Some TrainingSlowRoute =>
      (ReplyJson 200 (training_slow (rq_query r) (rq_now r) (api_buffer a)), s)
  | Some FixRoute =>
      match rq_body r with
      | None => (Rejected, s)
      | Some req =>
          let '(body, ok, l) := fix_route render req (api_links a) in
          (ReplyJson (if ok then 200 else 404) body,
           with_api (with_effects a (api_guard a) l (api_controller a) (api_cluster a)) s)
      end
  end.

Definition with_faults (fs : list IrreversibleFault) (h : HubState) : HubState :=
  mkHubState (hub_mem h) (hub_wal h) (hub_connections h) (hub_k8s h) fs.

Definition with_controller (k : option Controller) (c : C) (s : HubSystem C) : HubSystem C :=
  mkHubSystem (hs_hub s) (hs_conns s) (hs_closed s) (hs_queued s) (hs_metrics s) (hs_rules s)
    (hs_guard s) k c.

Definition fault_task (s : HubSystem C) (i : nat) (now done : N) : HubSystem C :=
  match hs_controller s, hub_faults (hs_hub s) !! i with
  | Some k, Some fault =>
      let '(_, k', c') := handle_irreversible_fault k8s k (hs_cluster s) now done fault in
      with_controller (Some k') c'
        (with_agents (with_faults (delete i (hub_faults (hs_hub s))) (hs_hub s))
           (hs_conns s) (hs_closed s) (hs_metrics s) s)
  | _, _ => s
  end.

(** The metrics task: the graph gauges and the number of connections. *)
Definition metrics_tick (s : HubSystem C) : HubSystem C :=
  let m := hub_update_graph_metrics (hm_graph (hub_mem (hs_hub s))) (hs_metrics s) in
  with_agents (hs_hub s) (hs_conns s) (hs_closed s)
    (update_websocket_connections (base.size (hub_connections (hs_hub s))) 0 m) s.

(** The operator runs when both flags are set and the controller came up. *)
Definition operator_runs (s : HubSystem C) : bool :=
  enable_operator cli && bool_decide (is_Some (hs_controller s)).

Definition sys_input (s : HubSystem C) (inp : SysInput) : HubSystem C :=
  match inp with
  | FromAgent i => agent_input s i
  | WriterFailed i =>
      with_agents (hs_hub s) (hs_conns s)
        (if decide (i < length (hs_conns s)) then hs_closed s ∪ {[N.of_nat i]} else hs_closed s)
        (hs_metrics s) s
  | FaultTask i now done => fault_task s i now done
  | OperatorPass =>
      match hs_controller s with
      | Some k => if operator_runs s
                  then with_controller (Some k) (operator_pass k8s k (hs_cluster s)) s
                  else s
      | None => s
      end
  | MetricsTick => metrics_tick s
  | Http r => (api_request s r).2
  end.

(** ** Start-up *)

(** What the hub finds: the registry of the process, the rules directory,
    whether memory can be had for so many events, the log files that exist and
    what goes wrong with reading them, whether the directory of the log can be
    made, the log opened and its metadata read, and the cluster. *)
Record HubEnv := mkHubEnv {
  he_registry : gset string;            (** metric names registered so far *)
  he_fs : FileSystem;
  he_strict_var : option string;
  he_reserve : nat → bool;              (** [VecDeque::with_capacity] *)
  he_log : Disk;
  he_read : ReadFaults;
  he_mkdir : result string unit;
  he_open : result string unit;
  he_metadata : result string unit;
  he_kube : result string unit;         (** [Config::infer] and [Client::try_from] *)
  he_cluster : C
}.

(** [K8sController::new(true)] *)
Definition controller_new (enabled : bool) (kube : result string unit) : result string Controller :=
  match kube with
  | Ok _ => Ok (mkController enabled ∅)
  | Err e => Err e
  end.

Definition start_controller (env : HubEnv) : option Controller :=
  if enable_k8s_controller cli
  then match controller_new true (he_kube env) with Ok k => Some k | Err _ => None end
  else None.

Definition replay_metrics (stats : WalReplayStats) (m : HubMetrics) : HubMetrics :=
  record_wal_replay_process_failed (process_failed stats)
    (record_wal_replay_dedup_dropped (dedup_dropped stats)
      (record_wal_replay_corrupted_lines (corrupted_lines stats)
        (record_wal_replayed (replayed stats) m))).

(** [Semaphore::MAX_PERMITS] of a 64-bit target; more make [Semaphore::new] panic. *)
Definition max_permits : N := 2305843009213693951.
Definition guard_fits (max_concurrency : nat) : bool :=
  bool_decide (N.of_nat (Nat.max max_concurrency 1) ≤ max_permits)%N.

(** The start, up to the servers.  A panic ends it like an error. *)
Definition hub_main (env : HubEnv) : result string (HubSystem C) :=
  match (hub_metrics_collector_new (he_registry env)).1 with
  | Err e => Err e
  | Ok metrics =>
  match load_from_dir parse_rule parse_manifest (he_fs env) (he_strict_var env) (rules_dir cli) with
  | Err e => Err ("加载规则目录失败 (" +:+ rules_dir cli +:+ "): " +:+ e)
  | Ok rules =>
      let m := record_rule_load_stats (load_stats rules) metrics in
      if negb (he_reserve env (event_buffer_size cli)) then Err "capacity overflow" else
      match replay_wal from_json hasher size window (he_read env) hub_mem_new (he_log env) with
      | Err e => Err e
      | Ok (mem, stats) =>
          let m := replay_metrics stats m in
          match he_mkdir env, he_open env with
          | Err e, _ => Err e
          | Ok _, Err e => Err e
          | Ok _, Ok _ =>
              let wal := open_wal_writer (he_log env) (wal_max_mb cli) in
              let m := match he_metadata env with
                       | Ok _ => update_wal_size_bytes (file_len (wal_file wal)) m
                       | Err _ => m
                       end in
              let k := start_controller env in
              if negb (guard_fits (execute_max_concurrency cli))
              then Err "a semaphore may not have more than MAX_PERMITS permits" else
              Ok (mkHubSystem (mkHubState mem wal ∅ (bool_decide (is_Some k)) []) [] ∅ [] m rules
                    (execute_guard_new (execute_max_concurrency cli) (execute_cooldown_s cli)
                       (execute_max_actions cli)) k (he_cluster env))
          end
      end
  end
  end.

(** ** The servers *)

(** [parse_addr] is the standard library's [SocketAddr] parser. *)
Definition http_bind_addr {A} (parse_addr : string → option A) (fallback : A) : A :=
  default fallback (parse_addr (http_listen cli)).

(** How a server task ends. *)
Inductive WsEnd := BindFailed (e : string) | AcceptFailed (e : string) | WsPanicked (e : string).
Inductive ServerEnd := WsEnded (w : WsEnd) | HttpEnded.

(** The value of the task's join handle: a task that returns an error has still
    been joined. *)
Definition join_result (w : WsEnd) : result string (result string unit) :=
  match w with
  | BindFailed e => Ok (Err e)
  | AcceptFailed _ => Ok (Ok ())
  | WsPanicked e => Err e
  end.

(** The last lines on stderr and stdout, and the exit status. *)
Definition hub_exit (e : ServerEnd) : list string * list string * N :=
  match e with
  | WsEnded w => (match join_result w with
                  | Err e => ["[hub] WebSocket 服务器错误: " +:+ e]
                  | Ok _ => []
                  end, [], 0%N)
  | HttpEnded => ([], ["[hub] HTTP 服务器已关闭"], 0%N)
  end.
End system.

(** ** When the hub comes up *)

Section start.
Context {C : Type} (parse_rule : string → result string RuleWire)
        (parse_manifest : string → result string RulesManifestWire).
Context (from_json : string → result string Event) (hasher : fingerprint_input → N).
Context (cli : Cli).

(** The files of the log with what goes wrong with reading each, in the order of
    the replay. *)
Definition log_files (rf : ReadFaults) (d : Disk) : list (option ReadFault * string) :=
  map (pair (rf_rotated rf)) (option_list (disk_rotated d))
  ++ map (pair (rf_active rf)) (option_list (disk_active d)).

(** A file that can be opened and read to its end, every line of it UTF-8. *)
Definition readable_log (fc : option ReadFault * string) : Prop :=
  fc.1 = None ∧ ∀ l, l ∈ file_lines fc.2 → utf8_valid l = true.

Lemma replay_lines_ok size window m s ls :
  is_ok (replay_lines from_json hasher size window m s ls) = true ↔
  ∀ l, l ∈ ls → utf8_valid l = true.
Proof.
  revert m s. induction ls as [|l ls IH]; intros m s; simpl; [split; [intros _ l Hl; by inversion Hl|done]|].
  destruct (utf8_valid l) eqn:E.
  - destruct (replay_line _ _ _ _ m s l) as [m' s']. rewrite IH. set_solver.
  - split; [done|]. intros H. by rewrite (H l) in E by by left.
Qed.

Lemma replay_wal_file_ok size window fault m content :
  is_ok (replay_wal_file from_json hasher size window fault m content) = true ↔
  readable_log (fault, content).
Proof.
  unfold readable_log. simpl. destruct fault as [[e|n e]|]; simpl; [by split; [|intros []]| |].
  - split; [by destruct (replay_lines _ _ _ _ _ _ _)|by intros []].
  - rewrite replay_lines_ok. naive_solver.
Qed.

Lemma replay_wal_ok size window rf m d :
  is_ok (replay_wal from_json hasher size window rf m d) = true ↔
  Forall readable_log (log_files rf d).
Proof.
  destruct d as [active rotated]. unfold log_files, replay_wal. cbn -[replay_wal_file].
  rewrite Forall_app, !Forall_map, !Forall_forall.
  destruct rotated as [old|]; cbn -[replay_wal_file].
  - pose proof (replay_wal_file_ok size window (rf_rotated rf) m old) as Ho.
    destruct active as [cur|]; cbn -[replay_wal_file];
      (destruct (replay_wal_file _ _ _ _ (rf_rotated rf) m old) as [[m1 s1]|]; cbn -[replay_wal_file] in *;
       [|set_solver]); [|set_solver].
    pose proof (replay_wal_file_ok size window (rf_active rf) m1 cur) as Hc.
    destruct (replay_wal_file _ _ _ _ _ m1 cur) as [[m2 s2]|]; simpl in *; set_solver.
  - destruct active as [cur|]; cbn -[replay_wal_file]; [|set_solver].
    pose proof (replay_wal_file_ok size window (rf_active rf) m cur) as Hc.
    destruct (replay_wal_file _ _ _ _ _ m cur) as [[m2 s2]|]; simpl in *; set_solver.
Qed.

(** C25 The hub gets as far as starting its servers exactly when none of
    its metrics is registered yet, the rules load, the event window can be allocated, every log file
    that exists can be opened and read and all its lines are UTF-8 (lines that
    are not JSON are skipped), the directory of the log can be made and the log
    opened, and the semaphore can hold the configured number of permits; a
    Kubernetes controller that cannot be created does not keep the hub down, but
    leaves it without isolation and without operator. *)
Theorem hub_comes_up_iff (env : HubEnv (C := C)) :
  (is_ok (hub_main parse_rule parse_manifest from_json hasher cli env) = true ↔
   (∀ name, name ∈ hub_metric_names → name ∉ he_registry env)
   ∧ is_ok (load_from_dir parse_rule parse_manifest (he_fs env) (he_strict_var env) (rules_dir cli)) = true
   ∧ he_reserve env (event_buffer_size cli) = true
   ∧ Forall readable_log (log_files (he_read env) (he_log env))
   ∧ is_ok (he_mkdir env) = true ∧ is_ok (he_open env) = true
   ∧ (N.of_nat (Nat.max (execute_max_concurrency cli) 1) ≤ max_permits)%N)
  ∧ ∀ s, hub_main parse_rule parse_manifest from_json hasher cli env = Ok s →
      (is_Some (hs_controller s) ↔ enable_k8s_controller cli = true ∧ is_ok (he_kube env) = true)
      ∧ (operator_runs cli s = true ↔
         enable_operator cli = true ∧ enable_k8s_controller cli = true ∧ is_ok (he_kube env) = true)
      ∧ 0 < available_permits (hs_guard s) ∧ 0 < guard_max_actions (hs_guard s).
Proof.
  split.
  - rewrite <-(replay_wal_ok (event_buffer_size cli) (cli_dedup_window_ms cli) (he_read env) hub_mem_new).
    unfold hub_main, guard_fits.
    assert (is_ok (hub_metrics_collector_new (he_registry env)).1 = true ↔
            ∀ name, name ∈ hub_metric_names → name ∉ he_registry env) as <-.
    { transitivity (is_ok (register_all hub_metric_names (he_registry env)).1 = true).
      - unfold hub_metrics_collector_new. by destruct (register_all _ _) as [[]].
      - rewrite register_all_ok. assert (NoDup hub_metric_names)
          by (apply (bool_decide_unpack _); by vm_compute). naive_solver. }
    destruct (hub_metrics_collector_new (he_registry env)).1 as [m0|]; simpl; [|naive_solver].
    destruct (load_from_dir _ _ _ _ _) as [rules|]; simpl; [|naive_solver].
    destruct (he_reserve env _); simpl; [|naive_solver].
    destruct (replay_wal _ _ _ _ _ _ _) as [[mem stats]|]; simpl; [|naive_solver].
    destruct (he_mkdir env); simpl; [|naive_solver]. destruct (he_open env); simpl; [|naive_solver].
    case_bool_decide; simpl; naive_solver.
  - intros s Hs.
    assert (hs_controller s = start_controller cli env
      ∧ hs_guard s = execute_guard_new (execute_max_concurrency cli) (execute_cooldown_s cli)
                       (execute_max_actions cli)) as [Hk ->].
    { unfold hub_main in Hs. repeat (case_match; try done); by simplify_eq/=. }
    unfold operator_runs. rewrite Hk, andb_true_iff, bool_decide_eq_true.
    assert (is_Some (start_controller cli env) ↔
      enable_k8s_controller cli = true ∧ is_ok (he_kube env) = true) as ->.
    { unfold start_controller, controller_new.
      destruct (enable_k8s_controller cli), (he_kube env); simpl; split; intros H;
        try (by destruct H); by eauto. }
    split_and!; [done|done| |]; simpl; lia.
Qed.
End start.

Section hub_core.
Context (to_json : Event → result string string) (hasher : fingerprint_input → N)
        (size : nat) (window : N).
Local Notation hub_ingest := (ingest to_json hasher size window).

(** What a restart depends on. *)
Definition core (h : HubState) : HubMem * WalState := (hub_mem h, hub_wal h).

Lemma ingest_core h h' e : core h = core h' → core (hub_ingest h e) = core (hub_ingest h' e).
Proof.
  unfold core. intros [= Hm Hw]. unfold ingest. rewrite Hm, Hw.
  destruct (accept_event_with_dedup hasher e _ window) as [[] d]; simpl; [|by rewrite Hw].
  by destruct (process_event _ e) as [g []]; simpl; rewrite ?Hw.
Qed.

Lemma ingest_core_run h h' evs :
  core h = core h' → core (foldl hub_ingest h evs) = core (foldl hub_ingest h' evs).
Proof. revert h h'. induction evs as [|e evs IH]; intros h h' H; simpl; [done|]. by apply IH, ingest_core. Qed.

End hub_core.

(** ** Runs *)

Section runs.
Context {C : Type} (k8s : K8sApi C).
Context (parse_rule : string → result string RuleWire)
        (parse_manifest : string → result string RulesManifestWire).
Context (parse_envelope : string → result string HubEventEnvelope)
        (from_json : string → result string Event) (to_json : Event → result string string)
        (hasher : fingerprint_input → N) (render : Json → string)
        (gather : HubMetrics → result string string).
Context (cli : Cli).

Local Notation size := (event_buffer_size cli).
Local Notation window := (cli_dedup_window_ms cli).
Local Notation step := (sys_input k8s parse_envelope from_json to_json hasher render gather cli).
Local Notation main := (hub_main (C := C) parse_rule parse_manifest from_json hasher cli).
Local Notation hub_ingest := (ingest to_json hasher size window).

Definition sys_run (s : HubSystem C) (inputs : list SysInput) : HubSystem C := foldl step s inputs.

(** *** The events that reach the graph *)

(** The event of an input, with the node it is attributed to. *)
Definition input_event (s : HubSystem C) (inp : SysInput) : option Event :=
  match inp with
  | FromAgent (Received i (Text text)) =>
      match hs_conns s !! i with
      | Some (Some c) =>
          match parse_hub_event_message parse_envelope from_json text with
          | Ok event => Some (attribute c (hs_hub s) event).2
          | Err _ => None
          end
      | _ => None
      end
  | _ => None
  end.

Fixpoint run_events (s : HubSystem C) (inputs : list SysInput) : list Event :=
  match inputs with
  | [] => []
  | inp :: inputs' => option_list (input_event s inp) ++ run_events (step s inp) inputs'
  end.

Lemma api_request_hub s r :
  hs_hub (api_request k8s render gather cli s r).2 = hs_hub s
  ∧ hs_conns (api_request k8s render gather cli s r).2 = hs_conns s
  ∧ hs_closed (api_request k8s render gather cli s r).2 = hs_closed s.
Proof.
  unfold api_request. destruct (route_of _ _) as [[]|]; try done.
  - by destruct (diagnose _ _ _ _ _ _ _).
  - destruct (rq_body r) as [req|]; [|done]. by destruct (fix_route _ _ _) as [[? ?] ?].
Qed.

Lemma fault_task_hub s i now done :
  core (hs_hub (fault_task k8s s i now done)) = core (hs_hub s)
  ∧ hub_connections (hs_hub (fault_task k8s s i now done)) = hub_connections (hs_hub s)
  ∧ hs_conns (fault_task k8s s i now done) = hs_conns s
  ∧ hs_closed (fault_task k8s s i now done) = hs_closed s
  ∧ hs_queued (fault_task k8s s i now done) = hs_queued s.
Proof.
  unfold fault_task. destruct (hs_controller s), (hub_faults (hs_hub s) !! i); try done.
  by destruct (handle_irreversible_fault _ _ _ _ _ _) as [[? ?] ?].
Qed.

(** Only the messages of agents change the graph, the window, the filter and
    the log, and they do so as the events they carry. *)
Lemma sys_input_core s inp :
  core (hs_hub (step s inp)) = core (foldl hub_ingest (hs_hub s) (option_list (input_event s inp))).
Proof.
  destruct inp as [inp|i|i now done| | |r]; simpl.
  - unfold agent_input.
    destruct inp as [ip|i msg|i]; simpl; [done| |].
    + destruct (hs_conns s !! i) as [[c|]|] eqn:Ei; simpl; [|by destruct msg..].
      destruct msg as [text| | |]; simpl; [|done..].
      destruct (parse_hub_event_message _ _ text) as [ev|]; simpl; [|done].
      unfold attribute. destruct (ev_node_id ev) as [id|]; [case_decide|]; simpl;
        try done. by apply ingest_core.
    + by destruct (hs_conns s !! i) as [[c|]|].
  - done.
  - apply fault_task_hub.
  - destruct (hs_controller s); [|done]. by destruct (operator_runs _ _).
  - done.
  - f_equal. apply api_request_hub.
Qed.

Lemma sys_run_core s inputs :
  core (hs_hub (sys_run s inputs)) = core (foldl hub_ingest (hs_hub s) (run_events s inputs)).
Proof.
  revert s. induction inputs as [|inp inputs IH]; intros s; simpl; [done|].
  unfold sys_run in *. simpl. rewrite IH, foldl_app. apply ingest_core_run, sys_input_core.
Qed.

(** The hub that comes up on an empty log. *)
Lemma main_empty env s :
  main env = Ok s → he_log env = mkDisk None None →
  hs_hub s = fresh_hub (wal_max_mb cli) (bool_decide (is_Some (start_controller cli env))).
Proof.
  unfold hub_main. intros Hs Hl. rewrite Hl in Hs. cbn [replay_wal disk_active disk_rotated] in Hs.
  destruct (hub_metrics_collector_new _).1; [|done]. destruct (load_from_dir _ _ _ _ _); [|done].
  destruct (he_reserve env _); [|done]. destruct (he_mkdir env); [|done].
  destruct (he_open env); [|done]. simpl in Hs. destruct (guard_fits _); [|done]. by injection Hs as <-.
Qed.

(** The environment with these log files in it, which can be read. *)
Definition with_log (d : Disk) (env : HubEnv (C := C)) : HubEnv :=
  mkHubEnv (he_registry env) (he_fs env) (he_strict_var env) (he_reserve env) d no_read_faults
    (he_mkdir env) (he_open env) (he_metadata env) (he_kube env) (he_cluster env).

(** A hub that comes up, and comes up again on a log its replay accepts. *)
Lemma main_again env s d h :
  main env = Ok s →
  hub_start from_json hasher size window no_read_faults d (wal_max_mb cli) (hub_k8s (hs_hub s)) = Ok h →
  ∃ s', main (with_log d env) = Ok s' ∧ hub_mem (hs_hub s') = hub_mem h ∧ hub_wal (hs_hub s') = hub_wal h.
Proof.
  unfold hub_main, hub_start. cbn -[hub_metrics_collector_new]. intros Hs Hh.
  destruct (hub_metrics_collector_new _).1; [|done].
  destruct (load_from_dir _ _ _ _ _) as [rules|]; [|done]. destruct (he_reserve env _); [|done].
  destruct (replay_wal _ _ _ _ _ _ d) as [[mem stats]|]; [|done]. injection Hh as <-.
  destruct (replay_wal _ _ _ _ _ _ (he_log env)) as [[mem0 stats0]|]; [|done].
  destruct (he_mkdir env); [|done]. destruct (he_open env); [|done]. simpl in *.
  destruct (guard_fits _); [|done]. eexists. by split_and!.
Qed.

(** *** Where commands go *)

(** Connection [i] is the one known as [node]: it is open under that name, or it
    has left the handler through a read error. *)
Definition failed_reading (i : nat) (inputs : list SysInput) : Prop :=
  ∃ e, FromAgent (Received i (ReadError e)) ∈ inputs.

Record routes_ok (s : HubSystem C) (past : list SysInput) : Prop := {
  ro_index : ∀ i c, hs_conns s !! i = Some (Some c) → conn_tx c = N.of_nat i;
  ro_table : ∀ node tx, hub_connections (hs_hub s) !! node = Some tx →
    ∃ i, tx = N.of_nat i ∧ i < length (hs_conns s)
      ∧ ((∃ c, hs_conns s !! i = Some (Some c) ∧ conn_node_id c = node) ∨ failed_reading i past)
}.

Lemma failed_reading_snoc i past inp : failed_reading i past → failed_reading i (past ++ [inp]).
Proof. intros [e He]. exists e. apply elem_of_app. by left. Qed.

(** Steps that leave connections and table alone. *)
Lemma routes_same s s' past inp :
  routes_ok s past → hs_conns s' = hs_conns s →
  hub_connections (hs_hub s') = hub_connections (hs_hub s) → routes_ok s' (past ++ [inp]).
Proof.
  intros [Hi Ht] Hc Hh. split; rewrite Hc; [done|]. rewrite Hh. intros node tx Hl.
  destruct (Ht _ _ Hl) as (i & -> & Hlen & H). exists i.
  destruct H; [by eauto|eauto 6 using failed_reading_snoc].
Qed.

(** The connection [i], known as [c], becomes [oc], and the table loses its old
    name and gets the new one. *)
Lemma routes_update s s' past inp i c oc :
  routes_ok s past → hs_conns s !! i = Some (Some c) →
  hs_conns s' = <[i := oc]> (hs_conns s) →
  hub_connections (hs_hub s') =
    match oc with
    | Some c' => <[conn_node_id c' := N.of_nat i]> (delete (conn_node_id c) (hub_connections (hs_hub s)))
    | None => delete (conn_node_id c) (hub_connections (hs_hub s))
    end →
  (∀ c', oc = Some c' → conn_tx c' = N.of_nat i) →
  routes_ok s' (past ++ [inp]).
Proof.
  intros [Hi Ht] Hc Hcs Hh Htx. pose proof (lookup_lt_Some _ _ _ Hc) as Hlt.
  split; rewrite Hcs.
  - intros j d [(<- & -> & _)|[_ Hj]]%list_lookup_insert_Some; [by apply Htx|by apply Hi].
  - rewrite Hh, length_insert. intros node tx Hl.
    assert (Hold : delete (conn_node_id c) (hub_connections (hs_hub s)) !! node = Some tx →
      ∃ j, tx = N.of_nat j ∧ j < length (hs_conns s)
        ∧ ((∃ d, <[i:=oc]> (hs_conns s) !! j = Some (Some d) ∧ conn_node_id d = node)
           ∨ failed_reading j (past ++ [inp]))).
    { intros [Hne Hl']%lookup_delete_Some. destruct (Ht _ _ Hl') as (j & -> & Hj & H).
      exists j. split_and!; [done..|]. destruct H as [(d & Hd & Hn)|H];
        [left|right; by apply failed_reading_snoc].
      exists d. split; [|done]. rewrite list_lookup_insert_ne; [done|]. intros ->. naive_solver. }
    destruct oc as [c'|]; [|by apply Hold]. apply lookup_insert_Some in Hl as [[<- <-]|[_ Hl]]; [|by apply Hold].
    exists i. split_and!; [done..|]. left. exists c'. by rewrite list_lookup_insert_eq.
Qed.

Lemma agent_input_routes s past inp :
  routes_ok s past → routes_ok (step s (FromAgent inp)) (past ++ [FromAgent inp]).
Proof.
  intros Hok. destruct inp as [ip|i msg|i]; simpl; unfold agent_input.
  - destruct Hok as [Hi Ht]. split; simpl.
    + intros j c [Hj|[-> Hj]]%lookup_snoc_Some; [by apply Hi; destruct Hj|by simplify_eq/=].
    + intros node tx [[<- <-]|[_ Hl]]%lookup_insert_Some; rewrite length_app; simpl.
      * exists (length (hs_conns s)). split_and!; [done|lia|]. left.
        eexists. rewrite lookup_app_r, Nat.sub_diag by lia. done.
      * destruct (Ht _ _ Hl) as (j & -> & Hj & H). exists j. split_and!; [done|lia|].
        rewrite lookup_app_l by done. destruct H; [by left|right; by apply failed_reading_snoc].
  - destruct (hs_conns s !! i) as [[c|]|] eqn:Ei; simpl; rewrite Ei; [|by apply (routes_same s)..].
    destruct msg as [text| | |e]; simpl.
    + destruct (parse_hub_event_message _ _ text) as [ev|]; simpl.
      2: { apply (routes_same s); [done| |done]. simpl. by apply list_insert_id. }
      unfold attribute. destruct (ev_node_id ev) as [id|]; [case_decide|]; simpl.
      * apply (routes_update s _ _ _ i c (Some (mkConn id (conn_tx c)))); [done..| |]; simpl.
        -- rewrite ingest_connections. simpl. by rewrite (ro_index _ _ Hok _ _ Ei).
        -- intros ? [= <-]. exact (ro_index _ _ Hok _ _ Ei).
      * apply (routes_same s); [done|by apply list_insert_id|apply ingest_connections].
      * apply (routes_same s); [done|by apply list_insert_id|apply ingest_connections].
    + by apply (routes_update s _ _ _ i c None).
    + apply (routes_same s); [done| |done]. by apply list_insert_id.
    + destruct Hok as [Hi Ht]. split; simpl.
      * intros j d [(<- & ? & _)|[_ Hj]]%list_lookup_insert_Some; [done|by apply Hi].
      * intros node tx Hl. destruct (Ht _ _ Hl) as (j & -> & Hj & H). exists j.
        rewrite length_insert. split_and!; [done..|]. destruct (decide (j = i)) as [->|Hne].
        -- right. exists e. apply elem_of_app. right. by left.
        -- rewrite list_lookup_insert_ne by done. destruct H; [by left|right; by apply failed_reading_snoc].
  - destruct (hs_conns s !! i) as [[c|]|] eqn:Ei; simpl; rewrite Ei; simpl; [|by apply (routes_same s)..].
    by apply (routes_update s _ _ _ i c None).
Qed.

Lemma sys_input_routes s past inp :
  routes_ok s past → routes_ok (step s inp) (past ++ [inp]).
Proof.
  intros Hok. destruct inp as [inp|i|i now done| | |r];
    [by apply agent_input_routes|apply (routes_same s); [exact Hok|..]..].
  1,2: done.
  1,2: apply fault_task_hub.
  1,2: simpl; destruct (hs_controller s); [|done]; by destruct (operator_runs _ _).
  1,2: done.
  1: apply api_request_hub.
  simpl. f_equal. apply api_request_hub.
Qed.

Lemma sys_run_routes s past inputs :
  routes_ok s past → routes_ok (sys_run s inputs) (past ++ inputs).
Proof.
  revert s past. induction inputs as [|inp inputs IH]; intros s past Hok; simpl; [by rewrite app_nil_r|].
  rewrite cons_middle, app_assoc. by apply IH, sys_input_routes.
Qed.

Lemma main_routes env s : main env = Ok s → routes_ok s [].
Proof.
  unfold hub_main. intros Hs.
  assert (hs_conns s = [] ∧ hub_connections (hs_hub s) = ∅) as [Hc Hh].
  { repeat (case_match; try done); by simplify_eq/=. }
  split; rewrite Hc; [done|]. by rewrite Hh.
Qed.
(** *** Which commands are sent *)

(** What an input asks to be done to process [pid] of [node]. *)
Definition asks_for (s : HubSystem C) (inp : SysInput) (node : string) (pid : N) (action : string)
  : Prop :=
  match inp with
  | Http r =>
      match route_of (rq_method r) (rq_path r) with
      | Some FixRoute =>
          rq_body r = Some (mkFixRequest node pid None) ∧ action = "GracefulShutdown"
          ∨ rq_body r = Some (mkFixRequest node pid (Some action))
      | Some DiagnoseRoute =>
          allow_execute cli = true ∧ execute_requested (rq_query r) = true
          ∧ ∃ job, rq_query r !! "job_id" = Some job
              ∧ job_target (hm_graph (hub_mem (hs_hub s))) job node pid
              ∧ action = policy_kind (diagnosed_scenes (rq_query r) (rq_now r) (api_of cli s) job)
      | _ => False
      end
  | _ => False
  end.

(** The commands a diagnosis queues. *)
Lemma diagnose_queues q now id_ms clock (a : ApiState C) :
  ∃ tried, link_queued (api_links (diagnose render k8s q now id_ms clock a).2)
             = link_queued (api_links a) ++ omap (delivered render (api_links a)) tried
    ∧ ∀ x, x ∈ tried → executing q a = true ∧ ∃ job, q !! "job_id" = Some job
        ∧ job_target (api_graph a) job (pa_node_id x) (pa_target_pid x)
        ∧ pa_action x = policy_kind (diagnosed_scenes q now a job).
Proof.
  destruct (q !! "job_id") as [job|] eqn:Hj.
  2: { exists []. unfold diagnose. rewrite Hj, app_nil_r. split; [done|]. intros x Hx. by inversion Hx. }
  destruct (diagnose_effects render k8s clock q now id_ms a job Hj) as (_ & Hl & _).
  rewrite Hl. destruct (executing q a) eqn:Hx.
  2: { exists []. rewrite app_nil_r. split; [done|]. intros x Hin. by inversion Hin. }
  set (acts := take _ _).
  destruct (execute_policy_attempts render now (next_request_id (api_guard a) id_ms).2 (api_links a) acts)
    as (tried & _ & _ & Hq & Hsub & _).
  exists tried. split; [done|]. intros x Hin. split; [done|]. exists job. split; [done|].
  apply (sublist_subseteq _ _ Hsub) in Hin.
  apply elem_of_take in Hin as (i & Hi%list_elem_of_lookup_2 & _).
  apply build_policy_actions_elem in Hi as (node & pid & Ht & ->). done.
Qed.

(** A command the API queues is one it was asked for, on the sender the table
    has for its node. *)
Lemma request_queues s r :
  ∃ new, hs_queued (step s (Http r)) = hs_queued s ++ new
    ∧ ∀ tx text, (tx, text) ∈ new → ∃ node pid action,
        text = render (fix_command pid action) ∧ asks_for s (Http r) node pid action
        ∧ hub_connections (hs_hub s) !! node = Some tx ∧ tx ∉ hs_closed s.
Proof.
  assert (Hsame : ∀ s' : HubSystem C, hs_queued s' = hs_queued s → ∃ new, hs_queued s' = hs_queued s ++ new
    ∧ ∀ tx text, (tx, text) ∈ new → ∃ node pid action,
        text = render (fix_command pid action) ∧ asks_for s (Http r) node pid action
        ∧ hub_connections (hs_hub s) !! node = Some tx ∧ tx ∉ hs_closed s).
  { intros s' ->. exists []. rewrite app_nil_r. split; [done|]. intros ? ? Hin. by inversion Hin. }
  cbn [sys_input]. unfold api_request.
  destruct (route_of _ _) as [[]|] eqn:Er; try (by apply Hsame).
  - destruct (diagnose_queues (rq_query r) (rq_now r) (rq_id_ms r) (rq_clock r) (api_of cli s))
      as (tried & Hq & Ht). destruct (diagnose _ _ _ _ _ _ _) as [body a']. simpl in *.
    exists (omap (delivered render (api_links (api_of cli s))) tried). split; [done|].
    intros tx text (x & Hx & Hd)%list_elem_of_omap.
    destruct (Ht x Hx) as (Hex & job & Hj & Hjt & Ha). apply andb_true_iff in Hex as [He1 He2].
    unfold delivered in Hd. apply bind_Some in Hd as (tx' & Htx & Hd). case_decide; [done|].
    injection Hd as <- <-. exists (pa_node_id x), (pa_target_pid x), (pa_action x).
    split_and!; [done| |done|done]. unfold asks_for. rewrite Er. split_and!; [done|done|]. by exists job.
  - destruct (rq_body r) as [req|] eqn:Eb; [|by apply Hsame].
    unfold fix_route, send_fix_command. simpl.
    destruct (hub_connections (hs_hub s) !! fix_node_id req) as [tx|] eqn:Et; simpl;
      [case_decide|]; simpl; [by apply Hsame| |by apply Hsame].
    eexists. split; [done|]. intros tx' text' [= -> ->]%list_elem_of_singleton.
    do 3 eexists. split_and!; [done| |done|done].
    unfold asks_for. rewrite Er. destruct req as [node pid [act|]]; simpl in *; eauto.
Qed.

Lemma sys_input_queues s inp :
  ∃ new, hs_queued (step s inp) = hs_queued s ++ new
    ∧ ∀ tx text, (tx, text) ∈ new → ∃ node pid action,
        text = render (fix_command pid action) ∧ asks_for s inp node pid action
        ∧ hub_connections (hs_hub s) !! node = Some tx ∧ tx ∉ hs_closed s.
Proof.
  destruct inp as [inp|i|i now done| | |r]; [..|apply request_queues].
  all: exists []; rewrite app_nil_r; split; [|intros ? ? Hin; by inversion Hin].
  - simpl. unfold agent_input. by destruct (hub_input _ _ _ _ _ _ _ _).
  - done.
  - apply fault_task_hub.
  - simpl. destruct (hs_controller s); [|done]. by destruct (operator_runs _ _).
  - done.
Qed.

(** The body of a fix request has a 32-bit process id. *)
Definition typed_input (inp : SysInput) : Prop :=
  match inp with
  | Http r => ∀ b, rq_body r = Some b → (fix_target_pid b ≤ u32_max)%N
  | _ => True
  end.

Lemma asks_for_pid s inp node pid action :
  typed_input inp → asks_for s inp node pid action → (pid ≤ u32_max)%N.
Proof.
  destruct inp as [| | | | |r]; simpl; try done. intros Hty.
  destruct (route_of _ _) as [[]|]; try done.
  - intros (_ & _ & job & _ & (id & _ & Hid) & _).
    by apply process_entry_shape in Hid as (node' & pid' & Hp & [= <- <-]).
  - intros [[Hb _]|Hb]; by apply Hty in Hb.
Qed.

Lemma sys_run_queued s inputs :
  Forall typed_input inputs →
  ∃ new, hs_queued (sys_run s inputs) = hs_queued s ++ new
    ∧ ∀ q, q ∈ new → ∃ pid action, (pid ≤ u32_max)%N ∧ q.2 = render (fix_command pid action).
Proof.
  intros Hty. revert s. induction Hty as [|inp inputs Hi Hty IH]; intros s.
  { exists []. rewrite app_nil_r. split; [done|]. intros q Hq. by inversion Hq. }
  destruct (sys_input_queues s inp) as (new & Hq & Hnew). destruct (IH (step s inp)) as (new' & Hq' & Hnew').
  exists (new ++ new'). split.
  - unfold sys_run in *. simpl. by rewrite Hq', Hq, app_assoc.
  - intros [tx text] [Hin|Hin]%elem_of_app; [|by apply Hnew'].
    destruct (Hnew _ _ Hin) as (node & pid & action & -> & Ha & _).
    exists pid, action. split; [by eapply asks_for_pid|done].
Qed.

(** C19 Commands are routed soundly: in every run of the hub, an input queues a
    command only when it is a fix request or an executing diagnosis on a hub
    that allows execution; the command is for the process that was asked for, or
    one of the diagnosed job; and it is queued on an open writer of the very
    connection that is known under the name of the node, unless reading from
    that connection has failed before. *)
Theorem commands_reach_their_node env s0 inputs inp
  (Hmain : main env = Ok s0) :
  let s := sys_run s0 inputs in
  ∃ new, hs_queued (step s inp) = hs_queued s ++ new
    ∧ ∀ tx text, (tx, text) ∈ new → ∃ node pid action i,
        text = render (fix_command pid action) ∧ asks_for s inp node pid action
        ∧ tx = N.of_nat i ∧ tx ∉ hs_closed s
        ∧ ((∃ c, hs_conns s !! i = Some (Some c) ∧ conn_node_id c = node) ∨ failed_reading i inputs).
Proof.
  intros s. pose proof (sys_run_routes s0 [] inputs (main_routes _ _ Hmain)) as [_ Ht]. fold s in Ht.
  destruct (sys_input_queues s inp) as (new & Hq & Hnew). exists new. split; [done|].
  intros tx text Hin. destruct (Hnew _ _ Hin) as (node & pid & action & -> & Ha & Hl & Hc).
  destruct (Ht _ _ Hl) as (i & -> & _ & Hi). eauto 12.
Qed.
End runs.

(** ** How the hub ends *)

(** A hub whose WebSocket address is taken ends at once with status 0 and
    without a word on stderr: the error is inside the value of the task, and
    only a panic of the task is reported. *)
Theorem bind_failure_is_silent e :
  hub_exit (WsEnded (BindFailed e)) = ([], [], 0%N)
  ∧ hub_exit (WsEnded (WsPanicked e)) = (["[hub] WebSocket 服务器错误: " +:+ e], [], 0%N).
Proof. done. Qed.

(** ** Concrete runs *)

(** Events in the form without envelope, all of one node. *)
Definition sys_from_json (s : string) : result string Event :=
  match demo_from_json s with
  | Ok e => Ok (with_node_id (Some "gpu-node") e)
  | Err e => Err e
  end.
Definition no_envelope (_ : string) : result string HubEventEnvelope := Err "missing field `event`".
Definition no_rules (_ : string) : result string RuleWire := Err "no rules".
Definition no_manifest (_ : string) : result string RulesManifestWire := Err "no manifest".
Definition demo_gather (_ : HubMetrics) : result string string := Ok "".

Definition demo_cli : Cli := mkCli "0.0.0.0:8080" "0.0.0.0:8081" false "rules" 16 "wal" 1 true 1
  20 16 60 "v1" false "ark-system" 15.
Definition demo_env : HubEnv := mkHubEnv ∅ (mkFileSystem []) None (λ _, true) (mkDisk None None)
  no_read_faults (Ok ()) (Ok ()) (Ok ()) (Err "no cluster") demo_cluster.

Definition demo_http (method : Method) (path : list string) (body : option FixRequest) : SysInput :=
  Http (mkApiRequest method path ∅ body 5000 5000 (λ _, (5000, 5000)%N) None None).
Definition demo_fix : SysInput :=
  demo_http POST ["api"; "v1"; "fix"] (Some (mkFixRequest "gpu-node" 42 None)).
Definition demo_sys_inputs : list SysInput :=
  [FromAgent (Connected "10.0.0.1"); FromAgent (Received 0 (Text "{1000}")); demo_fix; MetricsTick;
   FromAgent (Received 0 (Text "{1000}")); FromAgent (Received 0 (Text "{2800}"))].

Definition demo_up : HubSystem MemCluster :=
  mkHubSystem (fresh_hub 1 false) [] ∅ []
    (update_wal_size_bytes 0 (record_rule_load_stats stats_default hub_metrics_new))
    (mkRuleEngine [] stats_default) (execute_guard_new 16 60 20) None demo_cluster.

Lemma demo_main : hub_main no_rules no_manifest sys_from_json demo_hasher demo_cli demo_env = Ok demo_up.
Proof. vm_compute. reflexivity. Qed.

Lemma sys_good_line ts :
  bool_decide (sys_from_json (demo_text ts) = Ok (with_node_id (Some "gpu-node") (demo_event ts "eth0"))
    ∧ trim (demo_text ts) = demo_text ts ∧ is_empty (demo_text ts) = false
    ∧ split_char newline (demo_text ts) = [demo_text ts] ∧ utf8_valid (demo_text ts) = true) = true →
  good_line demo_to_json sys_from_json (with_node_id (Some "gpu-node") (demo_event ts "eth0")) (demo_text ts).
Proof. intros (? & ? & ? & ? & ?)%bool_decide_eq_true. by split. Qed.


Lemma commands_reach_their_node_witness :
  let s := sys_run mem_api no_envelope sys_from_json demo_to_json demo_hasher demo_render demo_gather
             demo_cli demo_up demo_sys_inputs in
  ∃ new, hs_queued (sys_input mem_api no_envelope sys_from_json demo_to_json demo_hasher demo_render
                      demo_gather demo_cli s demo_fix) = hs_queued s ++ new
    ∧ new ≠ []
    ∧ ∀ tx text, (tx, text) ∈ new → ∃ node pid action i,
        text = demo_render (fix_command pid action) ∧ asks_for demo_cli s demo_fix node pid action
        ∧ tx = N.of_nat i ∧ tx ∉ hs_closed s
        ∧ ((∃ c, hs_conns s !! i = Some (Some c) ∧ conn_node_id c = node)
           ∨ failed_reading i demo_sys_inputs).
Proof.
  intros s. destruct (commands_reach_their_node mem_api no_rules no_manifest no_envelope sys_from_json
    demo_to_json demo_hasher demo_render demo_gather demo_cli demo_env demo_up demo_sys_inputs demo_fix
    demo_main) as (new & Hq & Hnew).
  exists new. split; [exact Hq|]. split; [|exact Hnew]. intros ->.
  apply (f_equal length) in Hq. vm_compute in Hq. discriminate.
Defined.
