(* ===== verification/Daemon.v ===== *)
(** * The agent's daemon (agent/src/main.rs, [run_daemon])

    The loop that consumes the event bus: it counts the event, applies it to the
    local graph, offers it to the forwarder and exports the forwarder's counters;
    a timer exports the graph gauges.  The theorems: the local graph and the
    event counters follow the events whatever the network does, the exported
    reliability counters are the forwarder's; and a daemon whose first connection
    to the hub fails never forwards anything. *)

From S2P Require Import Prelude F64 Event Signals Graph Exec Forwarder Metrics.

Record Daemon := mkDaemon {
  d_graph : StateGraph;
  d_metrics : MetricsCollector;
  d_forwarder : option HubForwarder;
  d_net : Net
}.

(** The forwarder is kept only when its first connection succeeds. *)
Definition daemon_start (hub_configured : bool) (node_id : string) (net : Net) : Daemon :=
  if hub_configured then
    let '(connected, f, n) := connect (forwarder_new node_id) net in
    mkDaemon state_graph_new metrics_new (if connected then Some f else None) n
  else mkDaemon state_graph_new metrics_new None net.

Inductive DaemonInput := Received (e : Event) | MetricsTick.

Definition daemon_event (d : Daemon) (e : Event) : Daemon :=
  let m := record_event (ev_type e) (d_metrics d) in
  let g := (process_event (d_graph d) e).1 in
  match d_forwarder d with
  | None => mkDaemon g m None (d_net d)
  | Some f =>
      let '(f', n') := offer (f, d_net d) e in
      mkDaemon g (update_forwarder_reliability (reliability_snapshot f') m) (Some f') n'
  end.

Definition daemon_step (d : Daemon) (i : DaemonInput) : Daemon :=
  match i with
  | Received e => daemon_event d e
  | MetricsTick => mkDaemon (d_graph d) (mc_update_graph_metrics (d_graph d) (d_metrics d))
                     (d_forwarder d) (d_net d)
  end.

Definition daemon_run (d : Daemon) (inputs : list DaemonInput) : Daemon :=
  foldl daemon_step d inputs.

Definition received (inputs : list DaemonInput) : list Event :=
  omap (λ i, match i with Received e => Some e | MetricsTick => None end) inputs.

(** ** The forwarder's counters never go down *)

Definition fw_bounded (f : HubForwarder) : Prop :=
  (fw_retries_total f ≤ u64_max ∧ fw_dropped_total f ≤ u64_max
   ∧ fw_flush_failures_total f ≤ u64_max)%N.

Definition fw_le (f f' : HubForwarder) : Prop :=
  fw_bounded f → fw_bounded f' ∧ snapshot_le (reliability_snapshot f) (reliability_snapshot f').

Global Instance fw_le_preorder : PreOrder fw_le.
Proof.
  split; [by intros f Hf|]. intros f g h H1 H2 Hf. destruct (H1 Hf) as [Hg L1].
  destruct (H2 Hg) as [Hh L2]. split; [done|]. by etrans.
Qed.

Ltac solve_fw_le :=
  intros (? & ? & ?); unfold fw_bounded, snapshot_le, reliability_snapshot;
  cbn -[saturating_add u64_max]; unfold saturating_add; split_and!; lia.

Lemma with_link_le l f : fw_le f (with_link l f).
Proof. solve_fw_le. Qed.
Lemma with_pending_le p f : fw_le f (with_pending p f).
Proof. solve_fw_le. Qed.
Lemma with_filter_le b u f : fw_le f (with_filter b u f).
Proof. solve_fw_le. Qed.
Lemma count_retry_le f : fw_le f (count_retry f).
Proof. solve_fw_le. Qed.
Lemma count_dropped_le f : fw_le f (count_dropped f).
Proof. solve_fw_le. Qed.
Lemma count_flush_failure_le f : fw_le f (count_flush_failure f).
Proof. solve_fw_le. Qed.
#[local] Hint Resolve with_link_le with_pending_le with_filter_le count_retry_le count_dropped_le
  count_flush_failure_le : core.

Lemma connect_le f n : fw_le f (connect f n).1.2.
Proof. unfold connect. by destruct (net_connects n) as [|[] ?]; simpl. Qed.

Lemma reconnect_le f n : fw_le f (reconnect f n).1.2.
Proof. unfold reconnect. etrans; [apply with_link_le|apply connect_le]. Qed.

Lemma forward_event_le f n e : fw_le f (forward_event f n e).1.2.
Proof. unfold forward_event. by destruct (fw_link f) as [[]|]; simpl. Qed.

Lemma flush_loop_le p f n : fw_le f (flush_loop f n p).1.2.
Proof.
  revert f n. induction p as [|e p IH]; intros f n; simpl; [done|].
  pose proof (forward_event_le f n e) as H. destruct (forward_event f n e) as [[[] f'] n']; simpl in *.
  - etrans; [exact H|apply IH].
  - etrans; [exact H|done].
Qed.

Lemma flush_le f n : fw_le f (flush_pending_events f n).1.2.
Proof. apply flush_loop_le. Qed.

Lemma enqueue_le f e : fw_le f (enqueue_pending_event f e).
Proof.
  unfold enqueue_pending_event. case_decide; [|done].
  etrans; [|apply with_pending_le]. etrans; [apply with_pending_le|apply count_dropped_le].
Qed.

Lemma try_flush_le f n : fw_le f (try_flush f n).1.
Proof.
  unfold try_flush. destruct (fw_pending f); [done|].
  pose proof (flush_le f n) as H1. destruct (flush_pending_events f n) as [[[] f1] n1]; [done|].
  simpl in H1. pose proof (reconnect_le (count_retry (count_flush_failure f1)) n1) as H2.
  destruct (reconnect _ n1) as [[ok f2] n2]. simpl in H2.
  assert (fw_le f f2) as Hf2.
  { etrans; [exact H1|]. etrans; [apply count_flush_failure_le|].
    etrans; [apply count_retry_le|exact H2]. }
  destruct ok; [|exact Hf2]. pose proof (flush_le f2 n2) as H3.
  destruct (flush_pending_events f2 n2) as [[[] f3] n3]; simpl in *; [by etrans|].
  etrans; [exact Hf2|]. etrans; [exact H3|done].
Qed.

Lemma forward_with_retry_le f n e : fw_le f (forward_event_with_retry f n e).1.2.
Proof.
  change (fw_le f (let '(f, n) := try_flush f n in
    let '(sent, f, n) := forward_event f n e in
    if sent then (true, f, n)
    else
      let f := count_retry (enqueue_pending_event f e) in
      let '(connected, f, n) := reconnect f n in
      if negb connected then (false, f, n)
      else
        let '(flushed, f, n) := flush_pending_events f n in
        if flushed then (true, f, n) else (false, count_flush_failure f, n)).1.2).
  pose proof (try_flush_le f n) as H0. destruct (try_flush f n) as [f0 n0]. simpl in H0.
  pose proof (forward_event_le f0 n0 e) as H1. destruct (forward_event f0 n0 e) as [[[] f1] n1];
    simpl in H1; [by etrans|].
  cbv zeta. pose proof (reconnect_le (count_retry (enqueue_pending_event f1 e)) n1) as H2.
  destruct (reconnect _ n1) as [[ok f2] n2]. simpl in H2.
  assert (fw_le f f2) as Hf2.
  { etrans; [exact H0|]. etrans; [exact H1|]. etrans; [apply enqueue_le|].
    etrans; [apply count_retry_le|exact H2]. }
  destruct ok; [|exact Hf2]. simpl. pose proof (flush_le f2 n2) as H3.
  destruct (flush_pending_events f2 n2) as [[[] f3] n3]; simpl in *; [by etrans|].
  etrans; [exact Hf2|]. etrans; [exact H3|done].
Qed.

Lemma should_forward_le f e : fw_le f (should_forward f e).2.
Proof. unfold should_forward, first_binding. repeat case_match; simplify_eq; done. Qed.

Lemma offer_le f n e : fw_le f (offer (f, n) e).1.
Proof.
  unfold offer. pose proof (should_forward_le f e) as H1.
  destruct (should_forward f e) as [[] f1]; simpl in *; [|done].
  pose proof (forward_with_retry_le f1 n e) as H2.
  destruct (forward_event_with_retry f1 n e) as [[? f2] n2]. simpl in *. by etrans.
Qed.

(** ** What the daemon keeps *)

Definition event_count (t : EventType) (evs : list Event) : N :=
  N.of_nat (length (filter (λ e, ev_type e = t) evs)).

Lemma event_metric_label_inj t u : event_metric_label t = event_metric_label u → t = u.
Proof. by destruct t, u. Qed.

Record daemon_inv (evs : list Event) (d : Daemon) : Prop := {
  di_graph : d_graph d = process_events state_graph_new evs;
  di_events : ∀ t, default 0%N (mc_events_processed (d_metrics d) !! [event_metric_label t])
                   = event_count t evs;
  di_forwarder : ∀ f, d_forwarder d = Some f →
    fw_bounded f ∧ ∃ s, counters_of s (d_metrics d) ∧ snapshot_le s (reliability_snapshot f)
                     ∧ (evs ≠ [] → s = reliability_snapshot f)
}.

Lemma record_event_count t m evs e :
  (∀ t, default 0%N (mc_events_processed m !! [event_metric_label t]) = event_count t evs) →
  default 0%N (mc_events_processed (record_event (ev_type e) m) !! [event_metric_label t])
  = event_count t (evs ++ [e]).
Proof.
  intros H. unfold event_count. rewrite filter_app, length_app, filter_cons. simpl. unfold inc, inc_by.
  destruct (decide (ev_type e = t)) as [<-|Hne].
  - rewrite lookup_insert_eq, H. unfold event_count. simpl. lia.
  - rewrite lookup_insert_ne; [|by intros [= ?%event_metric_label_inj]].
    rewrite H. unfold event_count. simpl. lia.
Qed.

Lemma daemon_step_inv evs d i :
  daemon_inv evs d →
  daemon_inv (evs ++ match i with Received e => [e] | MetricsTick => [] end) (daemon_step d i).
Proof.
  intros [Hg He Hf]. destruct i as [e|]; [|rewrite app_nil_r; by split].
  assert (∀ t, default 0%N (mc_events_processed (record_event (ev_type e) (d_metrics d))
                              !! [event_metric_label t]) = event_count t (evs ++ [e])) as He'
    by (intros; by apply record_event_count).
  assert ((process_event (d_graph d) e).1 = process_events state_graph_new (evs ++ [e])) as Hg'.
  { unfold process_events in *. rewrite foldl_app, <-Hg. done. }
  simpl. unfold daemon_event. destruct (d_forwarder d) as [f|] eqn:Ef; [|by split].
  destruct (Hf f eq_refl) as (Hb & s & Hc & Hle & _).
  pose proof (offer_le f (d_net d) e) as Ho. destruct (offer (f, d_net d) e) as [f' n'].
  destruct (Ho Hb) as [Hb' Hle']. split; [done|done|].
  intros f0 [= <-]. split; [done|]. exists (reliability_snapshot f').
  split; [|done]. apply (reliability_counters s); [done|]. by etrans.
Qed.

Lemma daemon_run_inv evs d inputs :
  daemon_inv evs d → daemon_inv (evs ++ received inputs) (daemon_run d inputs).
Proof.
  revert evs d. induction inputs as [|i inputs IH]; intros evs d Hinv.
  - by rewrite app_nil_r.
  - cbn [daemon_run foldl]. assert (evs ++ received (i :: inputs)
            = (evs ++ match i with Received e => [e] | MetricsTick => [] end) ++ received inputs) as ->.
    { rewrite <-app_assoc. by destruct i. }
    by apply IH, daemon_step_inv.
Qed.

Lemma daemon_start_inv hub node net : daemon_inv [] (daemon_start hub node net).
Proof.
  unfold daemon_start. destruct hub.
  - unfold connect. destruct (net_connects net) as [|[k|] rest]; (split; [done|done|]);
      intros f Hf; simplify_eq/=. split; [done|]. by eexists.
  - split; [done|done|]. by intros f [=].
Qed.

(** The daemon follows its events whatever the network does: after any inputs
    the local graph is the one the events build, the counter of every event type
    is the number of events of that type, and, once an event has come in, the
    exported reliability counters are the totals of the forwarder. *)
Theorem daemon_tracks_events hub node net inputs :
  let d := daemon_run (daemon_start hub node net) inputs in
  let evs := received inputs in
  d_graph d = process_events state_graph_new evs
  ∧ (∀ t, default 0%N (mc_events_processed (d_metrics d) !! [event_metric_label t]) = event_count t evs)
  ∧ (∀ f, d_forwarder d = Some f → evs ≠ [] →
      mc_forwarder_retries (d_metrics d) = fw_retries_total f
      ∧ mc_forwarder_dropped (d_metrics d) = fw_dropped_total f
      ∧ mc_forwarder_flush_failures (d_metrics d) = fw_flush_failures_total f).
Proof.
  destruct (daemon_run_inv [] _ inputs (daemon_start_inv hub node net)) as [Hg He Hf].
  split_and!; [done|done|]. intros f E Hne.
  destruct (Hf f E) as (_ & s & (_ & Hr & Hd & Hfl) & _ & Hs). rewrite (Hs Hne) in *. done.
Qed.

(** A daemon whose first connection fails never forwards: when the first
    attempt to reach the hub is refused, nothing is ever sent, no matter which
    events follow and how many later attempts would succeed. *)
Theorem failed_first_connect_never_forwards node rest inputs :
  let d := daemon_run (daemon_start true node (mkNet (None :: rest) [])) inputs in
  net_sent (d_net d) = [] ∧ d_forwarder d = None.
Proof.
  assert (∀ inputs d, d_forwarder d = None →
    net_sent (d_net (daemon_run d inputs)) = net_sent (d_net d)
    ∧ d_forwarder (daemon_run d inputs) = None) as H.
  { clear. induction inputs as [|i inputs IH]; intros d Hd; [done|]. simpl.
    assert (d_forwarder (daemon_step d i) = None ∧ d_net (daemon_step d i) = d_net d) as [H1 H2].
    { destruct i; simpl; unfold daemon_event; by rewrite ?Hd. }
    destruct (IH _ H1) as [-> ->]. by rewrite H2. }
  by apply (H inputs (daemon_start true node (mkNet (None :: rest) []))).
Qed.
