(* ===== verification/AgentCli.v ===== *)
(** * The command line (agent/src/main.rs: [why], [ps] and the cluster commands)

    The report of [ark why], the table of [ark ps], and the cluster commands,
    which talk to the hub's HTTP API.  The theorems: the report's codes and
    evidence are exact; a cluster fix sends a command for exactly the processes
    of the job that have a connected agent; and what such a command makes the
    agent do. *)

From S2P Require Import Prelude Text F64 Json Event Signals Graph GraphInv RootCause GraphEffects.
From S2P Require Import Rule Matcher RuleFiles RuleEngine K8s Scene Exec Forwarder HubApi Ipc.

(** ** The report of [why] *)

Definition any_cause (t : string → bool) (causes : list string) : bool := existsb t causes.

Definition infer_scene (causes : list string) : option string :=
  match causes with
  | [] => None
  | _ =>
      if any_cause (λ c, contains "GPU" c || contains "OOM" c || contains "显存" c) causes
      then Some "gpu_oom"
      else if any_cause (λ c, contains "网络" c || contains "network" (to_ascii_lowercase c)
                              || contains "retransmit" (to_ascii_lowercase c)) causes
      then Some "network_stall"
      else if any_cause (λ c, contains "exit" (to_ascii_lowercase c)
                              || contains "crash" (to_ascii_lowercase c)
                              || contains "failed" (to_ascii_lowercase c)) causes
      then Some "process_crash"
      else None
  end.

(** The codes, each with the test of a cause that calls for it. *)
Definition reason_table : list (string * (string → bool)) :=
  [("TCP_RETRANSMIT_BURST", λ c, contains "retransmit" (to_ascii_lowercase c));
   ("TRANSPORT_DROP_OBSERVED", λ c, contains "transport.drop" (to_ascii_lowercase c)
                                    || contains "packet drop" (to_ascii_lowercase c));
   ("GPU_OOM", λ c, contains "oom" (to_ascii_lowercase c) || contains "显存" c
                    || contains "out of memory" (to_ascii_lowercase c));
   ("RESOURCE_WAIT", λ c, contains "等待资源" c || contains "resource wait" (to_ascii_lowercase c));
   ("PROCESS_CRASH", λ c, contains "crash" (to_ascii_lowercase c)
                          || contains "exit" (to_ascii_lowercase c)
                          || contains "segfault" (to_ascii_lowercase c))].

(** [if test && !codes.contains(code) { codes.push(code) }] *)
Definition push_code (cause : string) (codes : list string) (row : string * (string → bool))
  : list string :=
  if row.2 cause && negb (bool_decide (row.1 ∈ codes)) then codes ++ [row.1] else codes.

Definition infer_reason_codes (causes : list string) : list string :=
  foldl (λ codes cause, foldl (push_code cause) codes reason_table) [] causes.

Record WhyError := mkWhyError { we_code : string; we_message : string; we_hint : option string }.

Record WhyReport := mkWhyReport {
  wr_schema_version : N; wr_timestamp : string; wr_node_id : string; wr_agent_id : string;
  wr_pid : N; wr_scene : option string; wr_reason_codes : list string; wr_evidence : list string;
  wr_tags : gmap string string; wr_metrics : gmap string N; wr_error : option WhyError;
  wr_causes : list string }.

Definition build_why_report (now : string) (pid : N) (causes : list string)
    (node_id agent_id : string) : WhyReport :=
  let scene := infer_scene causes in
  let reason_codes := sort_dedup (infer_reason_codes causes) in
  let evidence := sort_dedup causes in
  let tags0 : gmap string string := <["source" := "ipc"]> ∅ in
  let tags := match scene with Some s => <["scene" := s]> tags0 | None => tags0 end in
  let metrics := <["reason_code_count" := N.of_nat (length reason_codes)]>
                   (<["cause_count" := N.of_nat (length causes)]> ∅) in
  mkWhyReport 1 now node_id agent_id pid scene reason_codes evidence tags metrics None causes.

Definition build_why_error_report (now : string) (pid : N) (node_id agent_id code message : string)
    (hint : option string) : WhyReport :=
  mkWhyReport 1 now node_id agent_id pid None [] [] (<["source" := "ipc"]> ∅) ∅
    (Some (mkWhyError code message hint)) [].

(** What [ark why] comes to: a report, and whether the command fails. *)
Definition query_why (now : string) (pid : N) (json_output : bool) (node_id : string)
    (ark_agent_id : option string) (ping : result string bool) (why : result string (list string))
  : option WhyReport * result string unit :=
  let agent_id := default node_id ark_agent_id in
  match ping with
  | Err e => (None, Err e)
  | Ok false =>
      (if json_output
       then Some (build_why_error_report now pid node_id agent_id "DAEMON_UNREACHABLE"
                    "ark daemon is not reachable" (Some "start daemon with `ark run`"))
       else None, Err "daemon 未运行")
  | Ok true =>
      match why with
      | Err e => (None, Err e)
      | Ok causes => (Some (build_why_report now pid causes node_id agent_id), Ok ())
      end
  end.

(** A line of [ark ps]: PID, job, resources, state. *)
Definition ps_row (proc : Json) : N * string * string * string :=
  let pid := (default 0%N (as_u64 (jindex "pid" proc)) mod 2 ^ 32)%N in
  let job_id := default "-" (as_str (jindex "job_id" proc)) in
  let state := default "unknown" (as_str (jindex "state" proc)) in
  let resources := omap as_str (default [] (as_array (jindex "resources" proc))) in
  (pid, job_id, match resources with [] => "-" | _ => join ", " resources end, state).

(** A line of [ark cluster ps]: node, job, PID, state. *)
Definition cluster_ps_row (proc : Json) : string * string * string * string :=
  let id := default "-" (as_str (jindex "id" proc)) in
  let job_id := default "-" (as_str (jindex "job_id" proc)) in
  let state := default "unknown" (as_str (jindex "state" proc)) in
  let '(node_id, pid) :=
    if contains "::" id then
      let parts := split_str "::" id in (default "" (head parts), default "-" (parts !! 1))
    else ("local", id) in
  (node_id, job_id, pid, state).

Definition cluster_ps_rows (reply : Json) : option (list (string * string * string * string)) :=
  map cluster_ps_row <$> (jget "processes" reply ≫= as_array).

(** ** Node and PID in the text of a cause *)

(** The number at the front of the text. *)
Definition leading_pid (s : string) : option N := parse_u32 (take_while is_digit s).1.

Definition first_digit (s : string) : string := (take_while (λ a, negb (is_digit a)) s).2.

Definition or_else {A} (o : option A) (k : option A) : option A :=
  match o with Some a => Some a | None => k end.

Definition extract_node_and_pid (cause_str : string) : option (string * N) :=
  let before pos := String.substring 0 pos cause_str in
  or_else
    (pos ← find "::pid-" cause_str;
     let rest := first_digit (str_from (pos + 6) cause_str) in
     if is_empty rest then None else pid ← leading_pid rest; Some (before pos, pid))
    (or_else
       (pos ← find ": pid-" cause_str;
        pid ← leading_pid (str_from (pos + 6) cause_str); Some (trim (before pos), pid))
       (pos ← find " pid-" cause_str;
        pid ← leading_pid (str_from (pos + 5) cause_str); Some (trim (before pos), pid))).

(** ** The cluster commands *)

(** The hub as the client sees it: a GET that is answered with a JSON value, a
    POST that is answered with a status. *)
Record HubHttp (H : Type) := mkHubHttp {
  http_get : H → string → result string Json;
  http_post : H → string → Json → result string bool * H }.
Global Arguments http_get {_} _ _ _.
Global Arguments http_post {_} _ _ _ _.

Definition process_target (process : Json) : option (string * N) :=
  node_id ← jget "node_id" process ≫= as_str;
  pid ← jget "pid" process ≫= as_u64;
  Some (node_id, (pid mod 2 ^ 32)%N).

Definition reply_targets (json : Json) : list (string * N) :=
  match omap process_target (default [] (jget "processes" json ≫= as_array)) with
  | [] => omap (λ c, s ← as_str c; extract_node_and_pid s)
            (default [] (jget "causes" json ≫= as_array))
  | targets => targets
  end.

Definition no_causes (json : Json) : bool :=
  match jget "causes" json ≫= as_array with Some [] => true | _ => false end.

(** [ark cluster why]: the error of the reply, or the causes printed. *)
Definition cluster_why_lines (json : Json) : result string (list string) :=
  match jget "error" json with
  | Some error => Err (default "unknown" (as_str error))
  | None => Ok (omap as_str (default [] (jget "causes" json ≫= as_array)))
  end.

Inductive FixOutcome :=
| FixFailed (e : string)          (** the request failed *)
| FixErrorReply (e : string)      (** the hub answered with an error *)
| FixNoCause
| FixNoTarget
| FixCancelled
| FixSent (success_count fail_count : nat).

Section cluster.
Context {H : Type} (http : HubHttp H).

Definition fix_body (node_id : string) (pid : N) : Json :=
  JObj [("node_id", JStr node_id); ("target_pid", JNum pid); ("action", JStr "GracefulShutdown")].

Fixpoint send_fixes (h : H) (fix_url : string) (targets : list (string * N)) (ok failed : nat)
  : nat * nat * H :=
  match targets with
  | [] => (ok, failed, h)
  | (node_id, pid) :: targets' =>
      match http_post http h fix_url (fix_body node_id pid) with
      | (Ok true, h') => send_fixes h' fix_url targets' (S ok) failed
      | (_, h') => send_fixes h' fix_url targets' ok (S failed)
      end
  end.

Definition why_url (hub_url job_id : string) : string :=
  trim_end_char "/" hub_url +:+ "/api/v1/why?job_id=" +:+ job_id.
Definition fix_url (hub_url : string) : string := trim_end_char "/" hub_url +:+ "/api/v1/fix".

Definition cluster_fix (h : H) (hub_url job_id : string) (auto_confirm : bool) (prompt : result string string)
  : FixOutcome * H :=
  match http_get http h (why_url hub_url job_id) with
  | Err e => (FixFailed e, h)
  | Ok json =>
      match jget "error" json with
      | Some error => (FixErrorReply (default "unknown" (as_str error)), h)
      | None =>
          if no_causes json then (FixNoCause, h)
          else match reply_targets json with
               | [] => (FixNoTarget, h)
               | targets =>
                   match (if auto_confirm then Ok true
                          else match prompt with
                               | Err e => Err e
                               | Ok input => Ok (bool_decide (to_lowercase (trim input) = "y"))
                               end) with
                   | Err e => (FixFailed e, h)
                   | Ok false => (FixCancelled, h)
                   | Ok true =>
                       let '(ok, failed, h') := send_fixes h (fix_url hub_url) targets 0 0 in
                       (FixSent ok failed, h')
                   end
               end
      end
  end.
End cluster.

(** ** The report is exact *)

Lemma push_code_elem cause codes row c :
  c ∈ push_code cause codes row ↔ c ∈ codes ∨ (row.2 cause = true ∧ c = row.1).
Proof.
  unfold push_code. destruct (row.2 cause); simpl; [|naive_solver].
  case_bool_decide as Hin; simpl; [naive_solver|]. rewrite elem_of_app, list_elem_of_singleton.
  naive_solver.
Qed.

Lemma push_codes_elem cause rows codes c :
  c ∈ foldl (push_code cause) codes rows ↔
  c ∈ codes ∨ ∃ t, (c, t) ∈ rows ∧ t cause = true.
Proof.
  revert codes. induction rows as [|[code t] rows IH]; intros codes; simpl.
  { split; [by left|]. by intros [?|(? & ?%elem_of_nil & _)]. }
  rewrite IH, push_code_elem. simpl. setoid_rewrite elem_of_cons. naive_solver.
Qed.

Lemma infer_reason_codes_elem causes c :
  c ∈ infer_reason_codes causes ↔
  ∃ t cause, (c, t) ∈ reason_table ∧ cause ∈ causes ∧ t cause = true.
Proof.
  unfold infer_reason_codes. enough (∀ codes,
    c ∈ foldl (λ codes cause, foldl (push_code cause) codes reason_table) codes causes ↔
    c ∈ codes ∨ ∃ t cause, (c, t) ∈ reason_table ∧ cause ∈ causes ∧ t cause = true) as H.
  { rewrite H. split; [|by right]. by intros [?%elem_of_nil|]. }
  induction causes as [|cause causes IH]; intros codes; cbn [foldl].
  { split; [by left|]. by intros [?|(? & ? & _ & ?%elem_of_nil & _)]. }
  rewrite IH, push_codes_elem. setoid_rewrite elem_of_cons. naive_solver.
Qed.

(** The report of [ark why] is exact: its reason codes are sorted without
    repetition and are precisely the codes whose test some cause passes, its
    evidence is the set of the causes, sorted without repetition, and its counters
    are those of the causes and of the codes. *)
Theorem why_report_exact now pid causes node agent :
  let r := build_why_report now pid causes node agent in
  StronglySorted str_lt (wr_reason_codes r)
  ∧ (∀ c, c ∈ wr_reason_codes r ↔
        ∃ t cause, (c, t) ∈ reason_table ∧ cause ∈ causes ∧ t cause = true)
  ∧ StronglySorted str_lt (wr_evidence r) ∧ (∀ c, c ∈ wr_evidence r ↔ c ∈ causes)
  ∧ wr_metrics r !! "cause_count" = Some (N.of_nat (length causes))
  ∧ wr_metrics r !! "reason_code_count" = Some (N.of_nat (length (wr_reason_codes r)))
  ∧ wr_tags r !! "scene" = wr_scene r.
Proof.
  intros r. split_and!; [apply sort_dedup_sorted| |apply sort_dedup_sorted| | | |].
  - intros c. simpl. by rewrite sort_dedup_elem_of, infer_reason_codes_elem.
  - intros c. apply sort_dedup_elem_of.
  - by simpl; rewrite lookup_insert_ne, lookup_insert_eq.
  - by simpl; rewrite lookup_insert_eq.
  - simpl. destruct (infer_scene causes); [by rewrite lookup_insert_eq|].
    by rewrite lookup_insert_ne.
Qed.

(** ** Reading a node and a PID back *)

Lemma take_while_digits n r :
  (∀ a r', r = String a r' → is_digit a = false) →
  take_while is_digit (pretty (n : N) +:+ r) = (pretty n, r).
Proof.
  intros Hr. apply take_while_app; [apply pretty_digits|]. destruct r as [|a r]; [done|].
  simpl. by rewrite (Hr a r eq_refl).
Qed.

(** The id of a process is read back from the front of a text. *)
Lemma extract_process_id node p r :
  ":"%char ∉ chars node → (p ≤ u32_max)%N → (∀ a r', r = String a r' → is_digit a = false) →
  extract_node_and_pid (node +:+ "::" +:+ pid_name p +:+ r) = Some (node, p).
Proof.
  intros Hn Hp Hr.
  assert (node +:+ "::" +:+ pid_name p +:+ r = (node +:+ "::pid-") +:+ (pretty p +:+ r)) as Heq.
  { unfold pid_name. rewrite !str_app_assoc. done. }
  unfold extract_node_and_pid. rewrite Heq at 1. rewrite str_app_assoc, find_fresh by done.
  cbn [mbind option_bind]. rewrite Heq.
  replace (String.length node + 6) with (String.length (node +:+ "::pid-"))
    by (rewrite str_app_length; done).
  rewrite str_from_app. unfold first_digit.
  assert (∃ a t, pretty p = String a t ∧ is_digit a = true) as (a & t & E & Ha).
  { pose proof (pretty_digits p) as Hd. destruct (pretty p) as [|a t] eqn:E;
      [by apply pretty_not_empty in E|]. exists a, t. split; [done|]. by inversion Hd. }
  assert (take_while (λ a, negb (is_digit a)) (pretty p +:+ r) = ("", pretty p +:+ r)) as ->.
  { rewrite E, str_app_cons. simpl. by rewrite Ha. }
  cbn [snd]. rewrite is_empty_false by by rewrite E.
  unfold leading_pid. rewrite take_while_digits by done. cbn [fst].
  rewrite parse_u32_pretty by done. cbn [mbind option_bind or_else].
  by rewrite str_app_assoc, substring_app.
Qed.

(** ** A cluster fix against the hub *)

(** The body of a fix request, as the hub reads it. *)
Definition fix_request_of_json (body : Json) : option FixRequest :=
  node ← jget "node_id" body ≫= as_str;
  pid ← jget "target_pid" body ≫= as_u64;
  if decide (pid ≤ u32_max)%N then
    match jget "action" body with
    | Some (JStr a) => Some (mkFixRequest node pid (Some a))
    | Some JNull | None => Some (mkFixRequest node pid None)
    | Some _ => None
    end
  else None.

Section hub.
(** [job_of_url] is how the server decodes the query of a URL. *)
Context (render : Json → string) (job_of_url : string → option string) (hub_url : string).

Definition hub_http : HubHttp (StateGraph * Links) :=
  mkHubHttp (StateGraph * Links)
    (λ h url, match job_of_url url with
              | Some job => Ok (why {["job_id" := job]} h.1)
              | None => Err "404"
              end)
    (λ h url body,
       match fix_request_of_json body with
       | Some req => let '(_, ok, l) := fix_route render req h.2 in (Ok ok, (h.1, l))
       | None => (Ok false, h)
       end).

Definition fix_action_of (t : string * N) : PolicyAction :=
  mkPolicyAction "send_fix_command" t.1 t.2 "GracefulShutdown" false.

(** The command a target becomes, when its agent is connected. *)
Definition relayed (l : Links) (t : string * N) : option (N * string) :=
  delivered render l (fix_action_of t).

Lemma post_fix g l node pid url :
  (pid ≤ u32_max)%N →
  http_post hub_http (g, l) url (fix_body node pid)
  = (Ok (bool_decide (is_Some (relayed l (node, pid)))),
     (g, queue_commands (option_list (relayed l (node, pid))) l)).
Proof.
  intros Hp. cbn [http_post hub_http]. unfold fix_request_of_json. simpl.
  rewrite decide_True by done. unfold fix_route. simpl.
  pose proof (send_fix_command_eq render l (fix_action_of (node, pid))) as Hs. simpl in Hs.
  unfold relayed, delivered in *. unfold send_fix_command in *. simpl in *.
  destruct (link_senders l !! node) as [tx|]; simpl in *; [case_decide|]; by rewrite <-?Hs.
Qed.

Lemma send_fixes_hub g l url targets ok failed :
  Forall (λ t, (t.2 ≤ u32_max)%N) targets →
  let msgs := omap (relayed l) targets in
  send_fixes hub_http (g, l) url targets ok failed
  = (ok + length msgs, failed + (length targets - length msgs), (g, queue_commands msgs l))
  ∧ length msgs ≤ length targets.
Proof.
  revert l ok failed. induction targets as [|[node pid] targets IH]; intros l ok failed Hall.
  { simpl. unfold queue_commands. destruct l. simpl. rewrite app_nil_r, !Nat.add_0_r. done. }
  apply Forall_cons in Hall as [Hp Hall]. cbn [send_fixes]. rewrite post_fix by done.
  assert (∀ ms, omap (relayed (queue_commands ms l)) targets = omap (relayed l) targets) as Ho
    by done.
  change (omap (relayed l) ((node, pid) :: targets))
    with (match relayed l (node, pid) with
          | Some m => m :: omap (relayed l) targets
          | None => omap (relayed l) targets
          end).
  destruct (relayed l (node, pid)) as [m|]; simpl option_list;
    [rewrite bool_decide_true by eauto|rewrite bool_decide_false by by intros []];
    match goal with |- context [send_fixes _ (g, queue_commands ?ms l) _ _ ?o ?f] =>
      destruct (IH (queue_commands ms l) o f Hall) as [E Hle] end;
    rewrite Ho in E, Hle; rewrite E, queue_commands_app; simpl length; (split; [|lia]).
  - do 2 f_equal; lia.
  - do 2 f_equal; lia.
Qed.

Lemma why_reply_targets g job :
  let targets := omap process_target (cluster_why g job).2 in
  (∀ node pid, (node, pid) ∈ targets ↔ job_target g job node pid)
  ∧ Forall (λ t, (t.2 ≤ u32_max)%N) targets
  ∧ (targets ≠ [] → reply_targets (why {["job_id" := job]} g) = targets).
Proof.
  intros targets.
  assert (∀ node pid, (node, pid) ∈ targets ↔ job_target g job node pid ∧ (pid ≤ u32_max)%N) as Ht.
  { intros node pid. unfold targets, job_target. rewrite list_elem_of_omap.
    setoid_rewrite cluster_why_processes. split.
    - intros (p & (id & Hid & Hp) & Hx). pose proof Hp as (n & q & Hb & ->)%process_entry_shape.
      unfold process_target in Hx. simpl in Hx. rewrite N.mod_small in Hx by (unfold u32_max in Hb; lia).
      simplify_eq. eauto.
    - intros [(id & Hid & Hp) Hb]. eexists. split; [by eauto|]. unfold process_target. simpl.
      rewrite N.mod_small by (unfold u32_max in Hb; lia). done. }
  split_and!.
  - intros node pid. rewrite Ht. split; [by intros []|]. intros Hj. split; [done|].
    destruct Hj as (id & _ & (n & q & Hb & [= <- <-])%process_entry_shape). done.
  - apply Forall_forall. intros [node pid] Hin. by apply Ht in Hin as [_ ?].
  - intros Hne. unfold why. rewrite lookup_singleton_eq.
    destruct (cluster_why g job) as [causes procs]. unfold reply_targets. simpl in *.
    fold targets. by destruct targets.
Qed.

(** The hub's reply gives at least one cause to act on. *)
Lemma why_no_causes g job : no_causes (why {["job_id" := job]} g) = bool_decide ((cluster_why g job).1 = []).
Proof.
  unfold why. rewrite lookup_singleton_eq. destruct (cluster_why g job) as [causes procs].
  by destruct causes.
Qed.

Lemma cluster_fix_sends g l job input :
  job_of_url (why_url hub_url job) = Some job →
  (cluster_why g job).1 ≠ [] → omap process_target (cluster_why g job).2 ≠ [] →
  let targets := omap process_target (cluster_why g job).2 in
  let msgs := omap (relayed l) targets in
  cluster_fix hub_http (g, l) hub_url job true input
  = (FixSent (length msgs) (length targets - length msgs), (g, queue_commands msgs l)).
Proof.
  intros Hroute Hc Ht targets msgs. unfold cluster_fix. cbn [http_get hub_http]. rewrite Hroute.
  destruct (why_reply_targets g job) as (_ & Hall & Hr).
  assert (jget "error" (why {["job_id" := job]} g) = None) as Herr.
  { unfold why. rewrite lookup_singleton_eq. by destruct (cluster_why g job). }
  cbn [fst]. rewrite Herr, why_no_causes, bool_decide_false by done. rewrite Hr by done.
  fold targets in Ht, Hall |- *.
  destruct (send_fixes_hub g l (fix_url hub_url) targets 0 0 Hall) as [E _].
  simpl in E. fold msgs in E. destruct targets as [|t ts]; [done|]. cbn [negb andb].
  by rewrite E.
Qed.

(** What the agent does with a command to shut a process down. *)
Lemma graceful_command_effect answer meta w pid :
  (handle_command (recording_os answer meta) w (mkHubCommand "fix" pid (Some "GracefulShutdown"))).2
  = w ++ [Ran "kill" ["-10"; pretty pid]; Slept 10; kill_effect pid].
Proof.
  unfold handle_command. cbn [intent cmd_action target_pid]. rewrite decide_True by done.
  assert (action_from_string "GracefulShutdown" = Ok (GracefulShutdown 10 10 true)) as Ha by done.
  rewrite Ha.
  pose proof (proj1 (graceful_sequence answer meta w 10 10 pid)) as Hs.
  unfold execute.
  destruct (graceful_shutdown _ w 10 10 true pid) as [[|] w']; simpl in *; done.
Qed.

(** C16 From the command line to the processes: [ark cluster fix] on a job with a
    root cause and at least one process asks the hub, and sends a command for
    exactly the processes of the job in the hub's graph; each one whose node has
    an open connection is queued there, the others are counted as failed; and
    the agent that decodes such a command signals the process, waits, and kills
    it, whatever the signal answered. *)
Theorem cluster_fix_reaches_processes g l job input
  (parse_command : string → result string HubCommand) answer meta
  (Hroute : job_of_url (why_url hub_url job) = Some job)
  (Hcause : (cluster_why g job).1 ≠ []) (Hproc : ∃ node pid, job_target g job node pid)
  (Hcodec : ∀ pid, parse_command (render (fix_command pid "GracefulShutdown"))
                   = Ok (mkHubCommand "fix" pid (Some "GracefulShutdown"))) :
  ∃ targets msgs failed,
    cluster_fix hub_http (g, l) hub_url job true input
      = (FixSent (length msgs) failed, (g, queue_commands msgs l))
    ∧ length msgs + failed = length targets
    ∧ (∀ node pid, (node, pid) ∈ targets ↔ job_target g job node pid)
    ∧ (∀ tx text, (tx, text) ∈ msgs ↔
        ∃ node pid, job_target g job node pid ∧ link_senders l !! node = Some tx
          ∧ tx ∉ link_closed l ∧ text = render (fix_command pid "GracefulShutdown"))
    ∧ (∀ tx text, (tx, text) ∈ msgs → ∃ node pid cmd, job_target g job node pid
        ∧ parse_command text = Ok cmd
        ∧ ∀ w, (handle_command (recording_os answer meta) w cmd).2
               = w ++ [Ran "kill" ["-10"; pretty pid]; Slept 10; kill_effect pid]).
Proof.
  destruct (why_reply_targets g job) as (Ht & Hall & _).
  set (targets := omap process_target (cluster_why g job).2) in *.
  assert (targets ≠ []) as Hne.
  { destruct Hproc as (node & pid & Hp%Ht). intros E. rewrite E in Hp. by apply elem_of_nil in Hp. }
  destruct (send_fixes_hub g l "" targets 0 0 Hall) as [_ Hle].
  assert (∀ tx text, (tx, text) ∈ omap (relayed l) targets ↔
        ∃ node pid, job_target g job node pid ∧ link_senders l !! node = Some tx
          ∧ tx ∉ link_closed l ∧ text = render (fix_command pid "GracefulShutdown")) as Hmsgs.
  { intros tx text. rewrite list_elem_of_omap. unfold relayed, delivered. split.
    - intros ([node pid] & Hin%Ht & Hd). simpl in Hd.
      destruct (link_senders l !! node) as [tx'|] eqn:E; simpl in Hd; [|done].
      case_decide; simplify_eq. exists node, pid. done.
    - intros (node & pid & Hin%Ht & Hs & Hc & ->). exists (node, pid). split; [done|]. simpl.
      rewrite Hs. simpl. by rewrite decide_False. }
  exists targets, (omap (relayed l) targets), (length targets - length (omap (relayed l) targets)).
  split_and!; [by apply cluster_fix_sends|lia|done|done|].
  intros tx text (node & pid & Hin & _ & _ & ->)%Hmsgs.
  exists node, pid, (mkHubCommand "fix" pid (Some "GracefulShutdown")).
  split_and!; [done|done|]. intros w. apply graceful_command_effect.
Qed.
End hub.

(** ** Examples *)

(** The processes of the job wait on a network; [node-b] is not connected. *)
Definition demo_stalled : StateGraph :=
  process_events demo_graph
    [mkEvent 1100 TransportDrop "eth0" None (Some 7%N) "9" (Some "node-a")]%N.
Definition demo_links : Links := mkLinks {["node-a" := 0%N]} ∅ [].

(** A reader for the commands as [demo_render] writes them. *)
Definition demo_parse_command (text : string) : result string HubCommand :=
  match strip_prefix "intent='fix';target_pid=" text with
  | Some rest =>
      let '(digits, tail) := take_while is_digit rest in
      match digits_value 0 digits with
      | Some pid => Ok (mkHubCommand "fix" pid
                          (strip_prefix ";action='" tail ≫= λ a, head (split_str "'" a)))
      | None => Err "invalid digit"
      end
  | None => Err "unknown command"
  end.
Definition demo_job_of_url (url : string) : option string :=
  strip_prefix "http://hub:8081/api/v1/why?job_id=" url.

Lemma demo_codec pid :
  demo_parse_command (demo_render (fix_command pid "GracefulShutdown"))
  = Ok (mkHubCommand "fix" pid (Some "GracefulShutdown")).
Proof.
  assert (demo_render (fix_command pid "GracefulShutdown")
          = "intent='fix';target_pid=" +:+ (pretty pid +:+ ";action='GracefulShutdown';")) as ->.
  { unfold demo_render, fix_command. cbn [foldl fst snd demo_value].
    rewrite !str_app_assoc. rewrite str_app_nil_l. reflexivity. }
  unfold demo_parse_command.
  rewrite (proj2 (strip_prefix_Some _ _ _) eq_refl).
  rewrite take_while_digits by by intros ? ? [= <- <-].
  by rewrite digits_value_pretty.
Qed.

Lemma cluster_fix_reaches_processes_witness :
  ∃ (targets : list (string * N)) (msgs : list (N * string)) (failed : nat),
    cluster_fix (hub_http demo_render demo_job_of_url) (demo_stalled, demo_links)
      "http://hub:8081/" "job-1" true (Ok "")
      = (FixSent (length msgs) failed, (demo_stalled, queue_commands msgs demo_links))
    ∧ length msgs + failed = length targets
    ∧ length targets = 3 ∧ failed = 1.
Proof.
  destruct (cluster_fix_reaches_processes demo_render demo_job_of_url "http://hub:8081/"
              demo_stalled demo_links "job-1" (Ok "") demo_parse_command
              (λ _ _, Ok (mkOutput true "" "")) (λ _, Err "ENOENT"))
    as (targets & msgs & failed & Hf & Hlen & _).
  - vm_compute. reflexivity.
  - vm_compute. discriminate.
  - exists "node-b", 9%N, "node-b::pid-9". split; [|vm_compute; reflexivity].
    eexists. split_and!; [vm_compute; reflexivity|reflexivity|reflexivity].
  - apply demo_codec.
  - assert (FixSent (length msgs) failed = FixSent 2 1) as [= Hm Hd].
    { change (FixSent (length msgs) failed)
        with (FixSent (length msgs) failed, (demo_stalled, queue_commands msgs demo_links)).1.
      rewrite <-Hf. vm_compute. reflexivity. }
    exists targets, msgs, failed. split_and!; [exact Hf|exact Hlen|lia|exact Hd].
Defined.
