(* ===== verification/FixRun.v ===== *)
(** * The [fix] command as a whole (agent/src/main.rs, [fix_process])

    The daemon is asked for the root causes, the answer is confirmed, the audit
    log is opened, the actions are executed and one line is logged; reading the
    answer, opening the log and logging may fail.  The theorem: nothing is executed
    when the daemon cannot be reached, the answer is no or the audit log cannot be
    opened; and an execution under an audit log is recorded there with its outcome
    exactly when logging works, which is reported when it does not. *)

From S2P Require Import Prelude Text F64 Event Signals Graph Scene Exec Rule RuleFiles AuditLog.

(** [{:?}] of a scene. *)
Definition scene_debug (s : SceneType) : string :=
  match s with
  | GpuOom => "GpuOom" | GpuUtilLow => "GpuUtilLow" | GpuError => "GpuError"
  | NpuSubhealth => "NpuSubhealth" | WorkloadStalled => "WorkloadStalled"
  | NetworkStall => "NetworkStall" | NetworkDrop => "NetworkDrop"
  | StorageIoError => "StorageIoError" | StorageSlow => "StorageSlow"
  | ProcessBlocked => "ProcessBlocked" | ProcessCrash => "ProcessCrash"
  end.

(** What the audit line says of an execution. *)
Definition audited_action (result : FixResult) (analysis : AnalysisResult) : string :=
  match executed_actions result, ar_recommended_actions analysis with
  | a :: _, _ => ea_action a
  | [], r :: _ => r
  | [], [] => "Unknown"
  end.

Definition audit_details (result : FixResult) (analysis : AnalysisResult) : string :=
  "执行动作: " +:+ audited_action result analysis
  +:+ "; 成功: " +:+ pretty (length (executed_actions result))
  +:+ "; 失败: " +:+ pretty (length (failed_actions result))
  +:+ "; 场景: " +:+ scene_debug (ar_scene analysis).

Definition fix_entry (now : string) (user username : option string) (pid : N)
    (result : FixResult) (analysis : AnalysisResult) : AuditLogEntry :=
  create_audit_entry now user username (audited_action result analysis) pid None
    (if fix_success result then "success" else "partial_failure") (audit_details result analysis).

Section command.
Context {W : Type} (os : Os W) (to_string : AuditLogEntry → result string string)
        (now stamp : string) (user username : option string).

(** The question: [print], [flush] and [read_line] may fail. *)
Definition asked (auto_yes : bool) (prompt : result string string) : result string bool :=
  if auto_yes then Ok true
  else match prompt with Err e => Err e | Ok input => Ok (confirmed false input) end.

Definition audit_failure (e : string) : string := "[audit] 记录审计日志失败: " +:+ e.

(** The result, [Ok None] when the command stopped without acting; the line on
    stderr when the execution could not be logged; the system and the files. *)
Definition ark_fix (w : W) (fs : files) (pid : N) (ping : result string bool)
    (causes : result string (list string)) (auto_yes : bool) (prompt : result string string)
    (audit_log : option string) (af : AuditFaults)
  : result string (option FixResult) * list string * W * files :=
  match ping with
  | Err e => (Err e, [], w, fs)
  | Ok false => (Err "无法连接到 daemon，请先运行: ark run", [], w, fs)
  | Ok true =>
      match causes with
      | Err e => (Err e, [], w, fs)
      | Ok causes =>
          match identify_scene_from_causes causes with
          | None => (Ok None, [], w, fs)
          | Some scene =>
              let analysis := create_analysis_from_causes scene causes in
              match asked auto_yes prompt with
              | Err e => (Err e, [], w, fs)
              | Ok false => (Ok None, [], w, fs)
              | Ok true =>
                  match audit_log with
                  | None =>
                      let '(r, w') := fix_from_analysis os w analysis pid in (Ok (Some r), [], w', fs)
                  | Some path =>
                      match audit_open af fs path 100 with
                      | (Err e, fs1) => (Err e, [], w, fs1)
                      | (Ok lg, fs1) =>
                          let '(r, w') := fix_from_analysis os w analysis pid in
                          let '(logged, (_, fs2)) :=
                            log to_string stamp (af_rename af) (af_reopen af) (af_write af)
                              (fix_entry now user username pid r analysis) (lg, fs1) in
                          (Ok (Some r), match logged with Ok _ => [] | Err e => [audit_failure e] end,
                           w', fs2)
                      end
                  end
              end
          end
      end
  end.

(** ** Logging *)

(** The log is rotated before the line. *)
Definition rotates_for (cur json : string) : Prop :=
  (104857600 < byte_len cur + byte_len (json +:+ newline))%N.

(** The line of the entry can be logged. *)
Definition can_log (af : AuditFaults) (cur : string) (entry : AuditLogEntry) : Prop :=
  ∃ json, to_string entry = Ok json ∧ af_write af = None
    ∧ (rotates_for cur json → af_rename af = None ∧ af_reopen af = None).

(** The file at [path] held [cur]; now the line follows it, or is alone in a new
    file while [cur] has been moved away. *)
Definition has_line (path cur json : string) (fs : files) : Prop :=
  fs !! path = Some (cur +:+ json +:+ newline)
  ∨ (rotated_path path stamp ≠ path →
     fs !! path = Some (json +:+ newline) ∧ fs !! rotated_path path stamp = Some cur).

Lemma audit_open_ok af fs path mb lg fs1 :
  audit_open af fs path mb = (Ok lg, fs1) →
  lg = mkAuditLogger path path (mb * 1024 * 1024) (byte_len (default "" (fs !! path)))
  ∧ fs1 !! path = Some (default "" (fs !! path)).
Proof.
  unfold audit_open, audit_new, open_append. destruct (af_mkdir af), (af_open af); try done.
  destruct (af_metadata af); [done|]. intros [= <- <-].
  destruct (fs !! path) as [c|] eqn:E; simpl; rewrite ?E, ?lookup_insert_eq; done.
Qed.

Lemma log_outcome af fs1 path cur entry r lg' fs2 :
  fs1 !! path = Some cur →
  log to_string stamp (af_rename af) (af_reopen af) (af_write af) entry
    (mkAuditLogger path path (100 * 1024 * 1024) (byte_len cur), fs1) = (r, (lg', fs2)) →
  (is_ok r = true ↔ can_log af cur entry)
  ∧ (is_ok r = true → ∃ json, to_string entry = Ok json ∧ has_line path cur json fs2).
Proof.
  intros Hc. unfold log, can_log, has_line, rotates_for.
  destruct (to_string entry) as [json|e]; [|intros [= <- _ _]; split; [naive_solver|done]].
  change (max_size (mkAuditLogger path path (100 * 1024 * 1024) (byte_len cur), fs1).1) with 104857600%N.
  cbn [current_size fst]. case_decide as Hr.
  - unfold rotate_log. cbn [log_path]. rewrite Hc.
    destruct (af_rename af), (af_reopen af); try (intros [= <- _ _]; split; [naive_solver|done]).
    unfold write_line. destruct (af_write af) as [[n e]|]; [intros [= <- _ _]; split; [naive_solver|done]|].
    intros [= <- <- <-]. split; [naive_solver|]. intros _. exists json. split; [done|]. right. intros Hne.
    assert (<[rotated_path path stamp := cur]> (delete path fs1) !! path = None) as Hp.
    { by rewrite lookup_insert_ne, lookup_delete_eq. }
    unfold open_append. rewrite Hp. simpl. rewrite !lookup_insert_eq.
    by rewrite !(lookup_insert_ne _ path), lookup_insert_eq by done.
  - unfold write_line. destruct (af_write af) as [[n e]|]; [intros [= <- _ _]; split; [naive_solver|done]|].
    intros [= <- <- <-]. split; [naive_solver|]. intros _. exists json. split; [done|]. left. simpl.
    by rewrite Hc, lookup_insert_eq.
Qed.

End command.
