(* ===== verification/DoctorRules.v ===== *)
(** * The rule checks of [ark doctor], and its run (agent/src/doctor.rs)

    Loading, validating and fixture checks on a rule directory, the order of the
    checks, and the exit status.  The YAML and JSON parsers are parameters.  The
    theorems: the validation passes exactly when every rule file is valid and the
    scenes are distinct; the fixture check passes exactly when every case is
    complete; and strict mode fails exactly when a check fails, which only five
    of them can. *)

From S2P Require Import Prelude Text F64 Json Event Signals Graph Rule Matcher RuleFiles RuleEngine.
From S2P Require Import Migrate MigrateRun Doctor.

Section rules.
Context (from_yaml : string → result string Value)
        (parse_rule : string → result string RuleWire)
        (parse_manifest : string → result string RulesManifestWire)
        (parse_json : string → result string Json).

(** ** Loading *)

Definition check_rules_load (fs : FileSystem) (strict_var : option string) (rules_dir : string)
  : CheckItem :=
  match load_from_dir parse_rule parse_manifest fs strict_var rules_dir with
  | Ok engine =>
      let stats := load_stats engine in
      let status := if decide (0 < skipped_rules stats) then SFail
                    else if decide (loaded_rules stats = 0 ∨ 0 < legacy_total stats) then SWarn
                    else SOk in
      let suggestion :=
        match status with
        | SOk => None
        | SWarn => if decide (loaded_rules stats = 0)
                   then Some "add rules under rules/ packs and verify manifest.yaml"
                   else Some "migrate remaining legacy rules with `cargo run -p ark-core --bin rules-migrate -- rules --dry-run`"
        | SFail => Some "fix skipped rules and re-run with ARK_RULES_STRICT=1"
        end in
      mkCheckItem "rules package" status
        ("loaded=" +:+ pretty (loaded_rules stats) +:+ ", skipped=" +:+ pretty (skipped_rules stats)
         +:+ ", legacy=" +:+ pretty (legacy_total stats)) suggestion
  | Err e => mkCheckItem "rules package" SFail ("failed to load rules: " +:+ e)
               (Some "check rules manifest and YAML syntax")
  end.

(** ** Collecting the rule files: what cannot be listed is passed over *)

Definition is_fixtures (root : string) (path : string) : bool :=
  path_eqb (relative_to (components root) path) "fixtures".

Fixpoint doctor_entries (root dir : string) (es : list (result string (string * fnode)))
    (stack : list (string * fnode)) (files : list (string * fnode))
  : list (string * fnode) * list (string * fnode) :=
  match es with
  | [] => (stack, files)
  | Err _ :: es' => doctor_entries root dir es' stack files
  | Ok (name, n) :: es' =>
      let path := path_join dir name in
      if is_dir n then
        doctor_entries root dir es' (if is_fixtures root path then stack else (path, n) :: stack) files
      else doctor_entries root dir es' stack (if selected path then files ++ [(path, n)] else files)
  end.

Fixpoint doctor_loop (fuel : nat) (root : string) (stack files : list (string * fnode))
  : option (list (string * fnode)) :=
  match stack with
  | [] => Some files
  | (dir, n) :: stack' =>
      match fuel with
      | 0 => None
      | S fuel' =>
          match read_dir (Some n) with
          | Err _ => doctor_loop fuel' root stack' files
          | Ok es => let '(stack'', files') := doctor_entries root dir es stack' files in
                     doctor_loop fuel' root stack'' files'
          end
      end
  end.

Definition by_path (a b : string * fnode) : bool := path_le a.1 b.1.

Definition doctor_collect_files (fs : FileSystem) (rules_dir : string) : list (string * fnode) :=
  match resolve fs rules_dir with
  | None => []
  | Some n =>
      stable_sort by_path (default [] (doctor_loop (tree_size n) rules_dir [(rules_dir, n)] []))
  end.

(** ** Validation *)

Definition get_yaml_string (m : list (Value * Value)) (key : string) : option string :=
  get key m ≫= Migrate.as_str.

(** A number keeps its canonical text. *)
Fixpoint yaml_as_u64 (v : Value) : option N :=
  match v with VNumber t => parse_u64 t | VTagged _ v' => yaml_as_u64 v' | _ => None end.
Definition get_yaml_u64 (m : list (Value * Value)) (key : string) : option N :=
  get key m ≫= yaml_as_u64.

Definition scene_errors (owner : gmap string string) (path : string) (scene : option string)
  : list string * gmap string string :=
  match scene with
  | None => ([path +:+ ": missing scene"], owner)
  | Some s =>
      (match owner !! s with
       | Some prev => ["scene duplicated: " +:+ s +:+ " in " +:+ prev +:+ " and " +:+ path]
       | None => []
       end, <[s := path]> owner)
  end.

Definition priority_errors (path : string) (priority : option N) : list string :=
  match priority with
  | Some p => if decide (1 ≤ p ∧ p ≤ 100)%N then []
              else [path +:+ ": priority " +:+ pretty p +:+ " out of range 1..=100"]
  | None => [path +:+ ": missing/invalid priority"]
  end.

Definition wire_errors (path content : string) : list string :=
  match parse_rule content with
  | Ok w => match normalize w with
            | Ok _ => []
            | Err e => [path +:+ ": normalize failed: " +:+ e]
            end
  | Err e => [path +:+ ": deserialize failed: " +:+ e]
  end.

(** One file: its errors, in order, and the scenes seen so far. *)
Definition validate_file (owner : gmap string string) (f : string * fnode)
  : list string * gmap string string :=
  let '(path, n) := f in
  match read_to_string n with
  | Err e => ([path +:+ ": read failed: " +:+ e], owner)
  | Ok content =>
      match from_yaml content with
      | Err e => ([path +:+ ": yaml parse failed: " +:+ e], owner)
      | Ok value =>
          match as_mapping value with
          | None => ([path +:+ ": rule must be YAML object"], owner)
          | Some m =>
              let '(errs, owner') := scene_errors owner path (get_yaml_string m "scene") in
              (errs ++ priority_errors path (get_yaml_u64 m "priority") ++ wire_errors path content,
               owner')
          end
      end
  end.

Fixpoint validate_files (owner : gmap string string) (fs : list (string * fnode)) : list string :=
  match fs with
  | [] => []
  | f :: fs' => let '(errs, owner') := validate_file owner f in errs ++ validate_files owner' fs'
  end.

Definition errors_item (name ok : string) (errors : list string) (suggestion : string) : CheckItem :=
  match errors with
  | [] => mkCheckItem name SOk ok None
  | e :: _ => mkCheckItem name SFail
                (pretty (length errors) +:+ " errors (first: " +:+ e +:+ ")") (Some suggestion)
  end.

Definition check_rules_validate (fs : FileSystem) (rules_dir : string) : CheckItem :=
  let files := doctor_collect_files fs rules_dir in
  errors_item "rules validate" (pretty (length files) +:+ " files validated")
    (validate_files ∅ files) "fix rule schema/priority/scene conflicts".

(** ** Fixtures *)

(** A file of a case directory, when it is there. *)
Definition case_file (name : string) (n : fnode) : option fnode :=
  match child name n with
  | Some (FBroken _) | None => None
  | Some c => Some c
  end.

Definition expected_errors (path : string) (n : fnode) : list string :=
  match read_to_string n with
  | Err e => [path +:+ " read failed: " +:+ e]
  | Ok raw =>
      match parse_json raw with
      | Err e => [path +:+ " invalid json: " +:+ e]
      | Ok json =>
          match jget "expect_scenes" json ≫= as_array with
          | Some (_ :: _) => []
          | _ => [path +:+ " expect_scenes must be non-empty array"]
          end
      end
  end.

Definition case_errors (path : string) (n : fnode) : list string :=
  (match case_file "input_events.jsonl" n with
   | Some _ => []
   | None => [path +:+ " missing input_events.jsonl"]
   end)
  ++ match case_file "expected.json" n with
     | None => [path +:+ " missing expected.json"]
     | Some c => expected_errors (path_join path "expected.json") c
     end.

(** The case directories, in the order of the listing. *)
Definition fixture_cases (root : string) (es : list (result string (string * fnode)))
  : list (string * fnode) :=
  omap (λ r, match r with
             | Ok (name, n) => if is_dir n then Some (path_join root name, n) else None
             | Err _ => None
             end) es.

Definition check_fixtures_contract (fs : FileSystem) (rules_dir : string) : CheckItem :=
  let fixtures_root := path_join rules_dir "fixtures" in
  if negb (exists_path fs fixtures_root)
  then mkCheckItem "fixtures" SFail ("fixtures dir missing: " +:+ fixtures_root)
         (Some "create rules/fixtures/<case>/input_events.jsonl + expected.json")
  else
    match read_dir (resolve fs fixtures_root) with
    | Err e => mkCheckItem "fixtures" SFail ("read fixtures dir failed: " +:+ e) None
    | Ok es =>
        match fixture_cases fixtures_root es with
        | [] => mkCheckItem "fixtures" SWarn "no fixture cases found"
                  (Some "add fixture contract cases under rules/fixtures")
        | cases =>
            errors_item "fixtures" (pretty (length cases) +:+ " fixture cases validated")
              (concat (map (λ c, case_errors c.1 c.2) cases))
              "fix fixture files and expected.json schema"
        end
    end.

(** ** The run *)

Definition check_daemon_connectivity (ping : result string bool) : CheckItem :=
  match ping with
  | Ok true => mkCheckItem "daemon connectivity" SOk "ark daemon is reachable" None
  | Ok false => mkCheckItem "daemon connectivity" SWarn "daemon is not reachable"
                  (Some "start daemon with `ark run`")
  | Err e => mkCheckItem "daemon connectivity" SWarn ("ping failed: " +:+ e)
               (Some "check IPC socket/port and daemon status")
  end.

Definition ark_runtime_checks (fs : FileSystem) (strict_var : option string)
    (ping : result string bool) (opts : DoctorOptions) : DoctorSection :=
  mkDoctorSection "Ark Runtime"
    ([check_rules_load fs strict_var (opt_rules_dir opts)]
     ++ (if opt_check_rules_validate opts then [check_rules_validate fs (opt_rules_dir opts)] else [])
     ++ (if opt_check_fixtures opts then [check_fixtures_contract fs (opt_rules_dir opts)] else [])
     ++ [check_daemon_connectivity ping]).

(** The report that is printed, and the outcome; [print] is the rendering of the
    report, which can fail for JSON. *)
Definition run_doctor (print : DoctorReport → result string unit) (sys : Sys) (fs : FileSystem)
    (ping : result string bool) (now_ms : N) (opts : DoctorOptions)
  : option DoctorReport * result DoctorError unit :=
  if negb (exists_path fs (opt_rules_dir opts))
  then (None, Err (InvalidConfig ("rules dir does not exist: " +:+ opt_rules_dir opts)))
  else
    let environment := detect_runtime_environment sys in
    let sections := [environment_checks sys environment;
                     ark_runtime_checks fs (sys_env sys "ARK_RULES_STRICT") ping opts;
                     hub_connectivity_checks parse_json sys (opt_hub opts) now_ms] in
    let report := mkDoctorReport environment sections (summarize sections) in
    match (if opt_json opts then print report else Ok ()) with
    | Err e => (None, Err (Runtime ("serialize report: " +:+ e)))
    | Ok _ =>
        (Some report,
         if opt_strict opts && bool_decide (0 < sum_fail (rep_summary report))
         then Err StrictFailed else Ok ())
    end.
End rules.

(** ** The walk ends *)

Lemma doctor_entries_size root dir es stack files :
  stack_size (doctor_entries root dir es stack files).1
  ≤ stack_size stack + list_sum (map entry_size es).
Proof.
  revert stack files. induction es as [|[[name n]|e] es IH]; intros stack files; simpl; [lia| |].
  - destruct (is_dir n); [destruct (is_fixtures _ _)|]; (etrans; [apply IH|]);
      rewrite ?stack_size_cons; lia.
  - apply IH.
Qed.

Lemma doctor_loop_total fuel root stack files :
  stack_size stack ≤ fuel → is_Some (doctor_loop fuel root stack files).
Proof.
  revert stack files. induction fuel as [|fuel IH]; intros [|[d n] stack] files Hs; simpl;
    [by eexists| |by eexists|].
  { rewrite stack_size_cons in Hs. pose proof (tree_size_pos n). lia. }
  rewrite stack_size_cons in Hs. pose proof (tree_size_pos n).
  destruct n as [|[es|]|]; simpl; try (apply IH; lia).
  pose proof (doctor_entries_size root d es stack files) as Hsz.
  destruct (doctor_entries root d es stack files) as [stack' files']. simpl in Hsz. apply IH.
  rewrite tree_size_dir in Hs. lia.
Qed.

(** ** Validation is exact *)

Section exact.
Context (from_yaml : string → result string Value)
        (parse_rule : string → result string RuleWire)
        (parse_manifest : string → result string RulesManifestWire)
        (parse_json : string → result string Json).

(** The scene of a rule file, when the file is a mapping that has one. *)
Definition file_scene (f : string * fnode) : option string :=
  match read_to_string f.2 with
  | Err _ => None
  | Ok content => match from_yaml content with
                  | Err _ => None
                  | Ok v => as_mapping v ≫= λ m, get_yaml_string m "scene"
                  end
  end.

Definition rule_file_valid (f : string * fnode) : Prop :=
  ∃ content v m p w x, read_to_string f.2 = Ok content ∧ from_yaml content = Ok v
    ∧ as_mapping v = Some m ∧ is_Some (get_yaml_string m "scene")
    ∧ get_yaml_u64 m "priority" = Some p ∧ (1 ≤ p ≤ 100)%N
    ∧ parse_rule content = Ok w ∧ normalize w = Ok x.

(** A branch with an error: no file of this shape is valid. *)
Ltac refute_valid :=
  split; [by rewrite ?app_nil; intros; destruct_and?|];
  intros [(? & ? & ? & ? & ? & ? & ?) ?]; destruct_and?; simplify_eq;
  try match goal with H : is_Some None |- _ => by destruct H end; congruence.

Lemma validate_file_ok owner f :
  (validate_file from_yaml parse_rule owner f).1 = [] ↔
  rule_file_valid f ∧ ∀ s, file_scene f = Some s → owner !! s = None.
Proof.
  destruct f as [path n]. unfold validate_file, rule_file_valid, file_scene. simpl.
  destruct (read_to_string n) as [content|e]; [|refute_valid].
  destruct (from_yaml content) as [v|e] eqn:Ev; [|refute_valid].
  destruct (as_mapping v) as [m|] eqn:Em; [|refute_valid]. simpl.
  unfold scene_errors. destruct (get_yaml_string m "scene") as [s|] eqn:Es; simpl.
  2: { split; [done|]. intros [(c' & v' & m' & p & w & x & [= <-] & Hv & Hm & [s Hs] & _) _].
       rewrite Ev in Hv. by simplify_eq. }
  rewrite !app_nil. unfold priority_errors, wire_errors. split.
  - intros (Ho & Hp & Hw). destruct (owner !! s) eqn:Eo; [done|].
    destruct (get_yaml_u64 m "priority") as [p|] eqn:Ep; [|done]. case_decide; [|done].
    destruct (parse_rule content) as [w|] eqn:Ew; [|done].
    destruct (normalize w) as [x|] eqn:Ex; [|done].
    split; [|by intros s' [= <-]]. exists content, v, m, p, w, x. rewrite Es. naive_solver.
  - intros [(c' & v' & m' & p & w & x & [= <-] & Hv & Hm & _ & Hp & Hr & Hw & Hx) Ho].
    rewrite Ev in Hv. simplify_eq.
    rewrite (Ho s eq_refl), Hp, Hw, Hx. by rewrite decide_True.
Qed.

Lemma validate_file_owner owner f :
  (validate_file from_yaml parse_rule owner f).2
  = match file_scene f with Some s => <[s := f.1]> owner | None => owner end.
Proof.
  destruct f as [path n]. unfold validate_file, file_scene. simpl.
  destruct (read_to_string n) as [content|e]; [|done].
  destruct (from_yaml content) as [v|e]; [|done]. destruct (as_mapping v) as [m|]; [|done]. simpl.
  unfold scene_errors. by destruct (get_yaml_string m "scene").
Qed.

Lemma validate_files_ok files owner :
  validate_files from_yaml parse_rule owner files = [] ↔
  Forall rule_file_valid files ∧ NoDup (omap file_scene files)
  ∧ ∀ s, s ∈ omap file_scene files → owner !! s = None.
Proof.
  revert owner. induction files as [|f files IH]; intros owner; cbn [validate_files].
  { split; [|done]. intros _. split_and!; [constructor..|]. by intros s ?%elem_of_nil. }
  pose proof (validate_file_ok owner f) as Hf. pose proof (validate_file_owner owner f) as Ho.
  destruct (validate_file from_yaml parse_rule owner f) as [errs owner']. simpl in Hf, Ho.
  rewrite app_nil, Hf, IH, Forall_cons. subst owner'. simpl.
  destruct (file_scene f) as [s|]; simpl.
  - rewrite NoDup_cons. setoid_rewrite elem_of_cons. split.
    + intros [[Hv Hs] (Hall & Hnd & Hin)]. split_and!; [done..| |done|].
      * intros Hin'. specialize (Hin s Hin'). by rewrite lookup_insert_eq in Hin.
      * intros s' [->|Hs']; [by apply Hs|]. specialize (Hin s' Hs').
        by apply lookup_insert_None in Hin as [].
    + intros ((Hv & Hall) & (Hns & Hnd) & Hin). split_and!; [done|naive_solver|done..|].
      intros s' Hs'. apply lookup_insert_None. split; [naive_solver|]. intros ->. done.
  - naive_solver.
Qed.

(** Rule validation is exact: the check passes exactly when every rule file of
    the directory (fixtures and manifests apart) is a readable YAML mapping with
    a scene and a priority from 1 to 100 that the engine can read and normalise,
    and no two files have the same scene; otherwise it fails. *)
Theorem rules_validate_exact fs dir :
  let files := doctor_collect_files fs dir in
  let check := check_rules_validate from_yaml parse_rule fs dir in
  (ck_status check = SOk ↔ Forall rule_file_valid files ∧ NoDup (omap file_scene files))
  ∧ ck_status check ≠ SWarn.
Proof.
  intros files check. unfold check, check_rules_validate. fold files.
  pose proof (validate_files_ok files ∅) as H.
  assert (∀ s, s ∈ omap file_scene files → (∅ : gmap string string) !! s = None) as He
    by (intros; apply lookup_empty).
  destruct (validate_files from_yaml parse_rule ∅ files) as [|e errs]; simpl.
  - split; [|done]. destruct (proj1 H eq_refl) as (? & ? & _). done.
  - split; [|done]. split; [done|]. intros [Hv Hn]. by discriminate (proj2 H (conj Hv (conj Hn He))).
Qed.

(** ** Fixtures *)

Definition case_complete (n : fnode) : Prop :=
  is_Some (case_file "input_events.jsonl" n)
  ∧ ∃ c raw json a l, case_file "expected.json" n = Some c ∧ read_to_string c = Ok raw
      ∧ parse_json raw = Ok json ∧ jget "expect_scenes" json = Some (JArr (a :: l)).

Lemma case_errors_ok path n : case_errors parse_json path n = [] ↔ case_complete n.
Proof.
  unfold case_errors, case_complete, expected_errors. rewrite app_nil. split.
  - intros [Hi He]. destruct (case_file "input_events.jsonl" n) as [i|]; [|done].
    destruct (case_file "expected.json" n) as [c|]; [|done].
    destruct (read_to_string c) as [raw|] eqn:Er; [|done].
    destruct (parse_json raw) as [json|] eqn:Ep; [|done].
    destruct (jget "expect_scenes" json) as [[]|] eqn:Ej; simpl in He; try done.
    destruct l as [|a l]; [done|]. split; [by eexists|]. by exists c, raw, json, a, l.
  - intros [[i Hi] (c & raw & json & a & l & Hc & Hr & Hp & Hj)]. by rewrite Hi, Hc, Hr, Hp, Hj.
Qed.

(** The fixture check is exact: on a listable fixtures directory it passes
    exactly when there is at least one case and every case has its events and an
    expectation file whose list of scenes is not empty. *)
Theorem fixtures_check_exact fs dir es
  (Hex : exists_path fs (path_join dir "fixtures") = true)
  (Hlist : read_dir (resolve fs (path_join dir "fixtures")) = Ok es) :
  let cases := fixture_cases (path_join dir "fixtures") es in
  ck_status (check_fixtures_contract parse_json fs dir) = SOk ↔
  cases ≠ [] ∧ Forall (λ c, case_complete c.2) cases.
Proof.
  intros cases. unfold check_fixtures_contract. rewrite Hex, Hlist. simpl. fold cases.
  assert (concat (map (λ c, case_errors parse_json c.1 c.2) cases) = [] ↔
          Forall (λ c, case_complete c.2) cases) as Hc.
  { clear. induction cases as [|c cases IH]; simpl; [done|].
    rewrite app_nil, Forall_cons, case_errors_ok, IH. done. }
  destruct cases as [|c cases]; [by split; [|intros [[] _]]|]. unfold errors_item. simpl in Hc |- *.
  destruct (case_errors parse_json c.1 c.2 ++ _) as [|e errs]; cbn [ck_status].
  - split; [|done]. intros _. split; [done|]. by apply Hc.
  - split; [done|]. intros [_ Hall]. by discriminate (proj2 Hc Hall).
Qed.

(** ** The exit status *)

Lemma summarize_counts sections :
  let s := summarize sections in
  sum_ok s + sum_warn s + sum_fail s = length (all_checks sections)
  ∧ (0 < sum_fail s ↔ ∃ c, c ∈ all_checks sections ∧ ck_status c = SFail).
Proof.
  unfold summarize. set (l := all_checks sections). clearbody l.
  enough (∀ s, let s' := foldl count_status s l in
    sum_ok s' + sum_warn s' + sum_fail s' = sum_ok s + sum_warn s + sum_fail s + length l
    ∧ (0 < sum_fail s' ↔ 0 < sum_fail s ∨ ∃ c, c ∈ l ∧ ck_status c = SFail)) as H.
  { destruct (H (mkDoctorSummary 0 0 0)) as [H1 H2]. simpl in *. split; [lia|]. rewrite H2.
    split; [intros [|]; [lia|done]|by right]. }
  induction l as [|c l IH]; intros s; simpl.
  { split; [lia|]. split; [by left|]. intros [|(? & ?%elem_of_nil & _)]; done. }
  destruct (IH (count_status s c)) as [H1 H2]. unfold count_status in *.
  setoid_rewrite elem_of_cons.
  destruct (ck_status c) eqn:Ec; simpl in *; (split; [lia|]); rewrite H2; split;
    [intros [|(?&?&?)]; eauto|intros [?|(c' & [->|?] & ?)]; eauto; congruence
    |intros [|(?&?&?)]; eauto|intros [?|(c' & [->|?] & ?)]; eauto; congruence
    |intros [|(?&?&?)]; eauto|intros [?|(c' & [->|?] & ?)]; eauto; left; lia].
Qed.

(** The checks that can fail: the others at most warn. *)
Definition failing_checks : list string :=
  ["k8s apiserver"; "rules package"; "rules validate"; "fixtures"; "hub http"].
Definition fails_only_there (c : CheckItem) : Prop :=
  ck_status c = SFail → ck_name c ∈ failing_checks.

(** Every branch of a check warns, passes, or is one of those. *)
Ltac check_branches :=
  unfold fails_only_there;
  repeat (case_match || case_decide); simpl in *; try done; unfold failing_checks; set_solver.

Lemma environment_fails_only_there sys env :
  Forall fails_only_there (sec_checks (environment_checks sys env)).
Proof.
  unfold environment_checks. simpl. repeat apply Forall_cons_2.
  - unfold check_kernel_version. check_branches.
  - unfold check_ebpf_mount_and_writable. check_branches.
  - unfold check_ebpf_capability. check_branches.
  - unfold check_ebpf_btf. check_branches.
  - unfold check_unprivileged_bpf_disabled. check_branches.
  - unfold check_memlock_limit. check_branches.
  - unfold check_nvml. check_branches.
  - unfold check_k8s_runtime. case_decide; [|repeat case_match; repeat constructor; done].
    repeat apply Forall_cons_2; [done| |constructor].
    unfold check_k8s_apiserver_reachability. check_branches.
Qed.

Lemma runtime_fails_only_there fs var ping opts :
  Forall fails_only_there
    (sec_checks (ark_runtime_checks from_yaml parse_rule parse_manifest parse_json fs var ping opts)).
Proof.
  unfold ark_runtime_checks. simpl. apply Forall_cons_2.
  { unfold check_rules_load. check_branches. }
  rewrite !Forall_app. split_and!.
  - case_match; [|done]. apply Forall_singleton. unfold check_rules_validate, errors_item. check_branches.
  - case_match; [|done]. apply Forall_singleton. unfold check_fixtures_contract, errors_item. check_branches.
  - apply Forall_singleton. unfold check_daemon_connectivity. check_branches.
Qed.

Lemma hub_fails_only_there sys hub now_ms :
  Forall fails_only_there (sec_checks (hub_connectivity_checks parse_json sys hub now_ms)).
Proof.
  unfold hub_connectivity_checks. destruct hub as [hub|]; simpl; [|by repeat constructor].
  repeat apply Forall_cons_2.
  - unfold hub_http_check. check_branches.
  - unfold hub_ws_check. check_branches.
  - unfold hub_health_checks.
    repeat case_match; repeat apply Forall_cons_2; try done.
    unfold evaluate_hub_wal_health_at. check_branches.
Qed.

(** The exit status of a diagnosis run: without its rule directory the run ends
    with an invalid configuration, status 3, and reports nothing.  Otherwise, when
    the report can be printed, it is reported with counts that add up to the
    checks made, and the run fails with status 2 exactly when it is strict and a
    check failed.  Only the API server, the rule package, rule validation, the
    fixtures and the hub's HTTP endpoint can fail: whatever the kernel, its
    capabilities or the GPU are found to be, a strict run does not fail for it. *)
Theorem doctor_exit_exact print sys fs ping now_ms opts :
  (∀ report, print report = Ok ()) →
  match run_doctor from_yaml parse_rule parse_manifest parse_json print sys fs ping now_ms opts with
  | (None, outcome) =>
      exists_path fs (opt_rules_dir opts) = false ∧ ∃ e, outcome = Err e ∧ exit_code e = 3%Z
  | (Some report, outcome) =>
      let checks := all_checks (rep_sections report) in
      let s := rep_summary report in
      exists_path fs (opt_rules_dir opts) = true
      ∧ sum_ok s + sum_warn s + sum_fail s = length checks
      ∧ (∀ c, c ∈ checks → ck_status c = SFail → ck_name c ∈ failing_checks)
      ∧ ((opt_strict opts = true ∧ ∃ c, c ∈ checks ∧ ck_status c = SFail)
         ∧ (∃ e, outcome = Err e ∧ exit_code e = 2%Z)
         ∨ ¬ (opt_strict opts = true ∧ ∃ c, c ∈ checks ∧ ck_status c = SFail)
           ∧ outcome = Ok ())
  end.
Proof.
  intros Hprint. unfold run_doctor. destruct (exists_path fs (opt_rules_dir opts)); simpl.
  2: { split; [done|]. by eexists. }
  set (sections := [_; _; _]). set (report := mkDoctorReport _ _ _).
  assert ((if opt_json opts then print report else Ok ()) = Ok ()) as ->
    by (destruct (opt_json opts); [apply Hprint|done]).
  destruct (summarize_counts sections) as [Hsum Hfail]. simpl.
  split; [done|]. split; [exact Hsum|]. split.
  { enough (Forall fails_only_there (all_checks sections)) as Hall
      by (intros c Hc; by apply (proj1 (Forall_forall _ _) Hall)).
    unfold all_checks, sections. cbn [map concat]. rewrite app_nil_r, !Forall_app.
    split_and!; [apply environment_fails_only_there|apply runtime_fails_only_there
                |apply hub_fails_only_there]. }
  rewrite <- Hfail. destruct (opt_strict opts); simpl; [|right; split; [by intros [? _]|done]].
  case_bool_decide; [left; split; [done|by eexists]|right; split; [|done]]. by intros [_ ?].
Qed.
End exact.

(** ** Examples *)

Definition demo_case : fnode :=
  FDir (Ok [Ok ("input_events.jsonl", FFile (Ok "{}")); Ok ("expected.json", FFile (Ok "e"))]).
Definition doctor_fs : FileSystem :=
  mkFileSystem [FDir (Ok [Ok ("rules", FDir (Ok
    [Ok ("a.yaml", FFile (Ok "a")); Ok ("fixtures", FDir (Ok [Ok ("case_a", demo_case)]))]))])].
Definition doctor_yaml (content : string) : result string Value :=
  if decide (content = "a")
  then Ok (VMapping [(VText "scene", VText "alpha"); (VText "priority", VNumber "7")])
  else Err "eof".
Definition doctor_json (raw : string) : result string Json :=
  if decide (raw = "e") then Ok (JObj [("expect_scenes", JArr [JStr "alpha"])]) else Err "eof".

Lemma fixtures_check_exact_witness :
  ck_status (check_fixtures_contract doctor_json doctor_fs "rules") = SOk
  ∧ (ck_status (check_fixtures_contract doctor_json doctor_fs "rules") = SOk ↔
     [("rules/fixtures/case_a", demo_case)] ≠ []
     ∧ Forall (λ c, case_complete doctor_json c.2) [("rules/fixtures/case_a", demo_case)]).
Proof.
  split; [vm_compute; reflexivity|].
  apply (fixtures_check_exact doctor_json doctor_fs "rules" [Ok ("case_a", demo_case)]);
    vm_compute; reflexivity.
Defined.

Definition doctor_opts (dir : string) : DoctorOptions :=
  mkDoctorOptions dir None true true true true.
Definition doctor_demo (dir : string) : option DoctorReport * result DoctorError unit :=
  run_doctor doctor_yaml demo_parse Err doctor_json (λ _, Ok ()) (demo_sys ∅) doctor_fs (Ok true) 0
    (doctor_opts dir).

(** The rules of the example validate, yet the host warns throughout: a strict run
    succeeds.  Without the directory the run ends with status 3. *)
Lemma doctor_exit_exact_witness :
  (doctor_demo "rules").2 = Ok ()
  ∧ match doctor_demo "missing" with
    | (None, outcome) =>
        exists_path doctor_fs "missing" = false ∧ ∃ e, outcome = Err e ∧ exit_code e = 3%Z
    | (Some _, _) => False
    end.
Proof.
  split; [vm_compute; reflexivity|].
  exact (doctor_exit_exact doctor_yaml demo_parse Err doctor_json (λ _, Ok ()) (demo_sys ∅) doctor_fs
           (Ok true) 0 (doctor_opts "missing") (λ _, eq_refl)).
Defined.
