(* ===== verification/AgentMain.v ===== *)
(** * The agent's commands as a whole (agent/src/main.rs: [Commands], [main])

    The arguments, what each command prints, what it does, and the status the
    process ends with.  Text is without its colours, a table line is the list of
    its columns.  The message the runtime prints for an error that leaves [main]
    is left out.

    The theorems: [ark ps] prints one line for each active process of the
    daemon's graph; without a daemon the commands that need one end with status 1
    and do nothing; and which outcomes the exit status tells apart. *)

From S2P Require Import Migrate Prelude Text F64 Json Event Signals Graph GraphInv RootCause GraphEffects.
From S2P Require Import Rule Matcher RuleFiles RuleEngine K8s Ipc Diag AuditLog HubApi Scene Exec Zap.
From S2P Require Import Forwarder AgentCli FixRun Doctor DoctorRules.

(** ** Arguments *)

Inductive ClusterCommands :=
| ClusterPs
| ClusterWhy (job_id : string)
| ClusterFix (job_id : string) (yes : bool).

Inductive Commands :=
| Run (socket_path probe hub_url : option string)
| Ps (socket_path : option string)
| Why (pid : N) (json : bool) (socket_path : option string)
| DoctorCmd (opts : DoctorOptions) (socket_path : option string)
| ZapCmd (pid : N)
| DiagCmd (pid : N) (socket_path provider rules_dir : option string)
| FixCmd (pid : N) (audit_log socket_path rules_dir : option string) (yes : bool)
| Cluster (command : ClusterCommands) (hub : string).

(** The defaults of the arguments that have one. *)
Definition default_hub : string := "http://localhost:8081".
Definition default_rules_dir : string := "rules".

(** ** Output *)

Inductive Printed := Line (s : string) | Row (columns : list string).

(** What a command prints on stdout and stderr, and how it returns. *)
Record Done := mkDone { done_out : list Printed; done_err : list string; done_result : result string unit }.

Definition is_nil {A} (l : list A) : bool := match l with [] => true | _ => false end.

Definition rule_line (width : nat) (c : string) : Printed := Line (foldr String.append "" (replicate width c)).

Definition daemon_hint : list string := ["[ark] 错误：无法连接到 daemon"; "[ark] 请先运行: ark run"].

(** ** [ark ps] *)

Definition ps_columns (proc : Json) : list string :=
  let '(pid, job_id, resources, state) := ps_row proc in [pretty pid; job_id; resources; state].

Definition query_processes (ping : result string bool) (processes : result string (list Json)) : Done :=
  match ping with
  | Err e => mkDone [] [] (Err e)
  | Ok false => mkDone [] daemon_hint (Err "daemon 未运行")
  | Ok true =>
      match processes with
      | Err e => mkDone [] [] (Err e)
      | Ok [] => mkDone [Line "没有活跃进程"] [] (Ok ())
      | Ok ps =>
          mkDone ([Row ["PID"; "JOB_ID"; "RESOURCES"; "STATE"]; rule_line 80 "-"]
                  ++ map (λ p, Row (ps_columns p)) ps) [] (Ok ())
      end
  end.

(** ** [ark why] *)

Definition print_why_report (report : WhyReport) (pid_display : string) : list Printed :=
  if is_nil (wr_causes report) then [Line ("进程 " +:+ pid_display +:+ " 未发现阻塞问题")]
  else
    [Line ("Scene: " +:+ default "unknown" (wr_scene report)); Line ("Process: " +:+ pid_display);
     Line ""; Line "Reasons:"]
    ++ match wr_reason_codes report with
       | [] => [Line " - NO_REASON_CODE"]
       | codes => map (λ c, Line (" - " +:+ c)) codes
       end
    ++ [Line ""; Line "Evidence:"] ++ map (λ e, Line (" - " +:+ e)) (wr_evidence report).

(** [pretty_json] is [serde_json::to_string_pretty] of the report. *)
Definition why_command (pretty_json : WhyReport → result string string) (now node_id : string)
    (ark_agent_id : option string) (pid : N) (json : bool)
    (ping : result string bool) (why : result string (list string)) : Done :=
  let '(report, r) := query_why now pid json node_id ark_agent_id ping why in
  let hint := match ping with Ok false => daemon_hint | _ => [] end in
  match report with
  | None => mkDone [] hint r
  | Some report =>
      if json then
        match pretty_json report with
        | Ok text => mkDone [Line text] hint r
        | Err e => mkDone [] [] (Err e)
        end
      else mkDone (print_why_report report (pretty pid)) hint r
  end.

(** ** [ark diag] *)

(** [rules_dir.or_else(...)]: the default directory when it exists. *)
Definition rules_path (default_exists : bool) (rules_dir : option string) : option string :=
  match rules_dir with
  | Some d => Some d
  | None => if default_exists then Some default_rules_dir else None
  end.

Definition recommendation_line (line : string) : Printed :=
  let trimmed := trim line in
  if is_empty trimmed then Line ""
  else if starts_with "#" trimmed then Line trimmed
  else Line ("  " +:+ trimmed).

Definition numbered (i : nat) (s : string) : Printed := Line ("  " +:+ pretty (S i) +:+ ". " +:+ s).

Definition diag_hint (e : string) : list string :=
  ["[ark] 诊断失败: " +:+ e; lf +:+ "提示:"; "  1. 确保 daemon 正在运行: ark run"; "  2. 设置 API Key:";
   "     export OPENAI_API_KEY=your_key"; "     或"; "     export ANTHROPIC_API_KEY=your_key";
   "  3. 检查网络连接"].

(** [percent] is [{:.0}] of a number. *)
Definition diagnose_process (percent : f64 → string) (pid : N) (diagnosis : result string Diagnosis) : Done :=
  let head := [Line ("[ark] 正在诊断进程 " +:+ pretty pid +:+ "..."); Line ("[ark] 收集诊断信息..." +:+ lf)] in
  match diagnosis with
  | Err e => mkDone head (diag_hint e) (Err e)
  | Ok d =>
      mkDone
        (head
         ++ [rule_line 70 "="; Line "AI 诊断报告"; rule_line 70 "="; Line ""]
         ++ (if is_nil (dg_causes d) then []
             else [Line "阻塞根因:"] ++ imap numbered (dg_causes d) ++ [Line ""])
         ++ [Line "AI 诊断建议:"; rule_line 70 "-"]
         ++ map recommendation_line (lines (dg_recommendation d))
         ++ [Line ""; Line ("置信度: " +:+ percent (f64_mul (dg_confidence d) (f64_of_N 100)) +:+ "%"); Line ""])
        [] (Ok ())
  end.

(** ** [ark fix] *)

(** What is printed of the result. *)
Definition fix_report (r : FixResult) : list Printed :=
  [Line (lf +:+ foldr String.append "" (replicate 70 "=")); Line "修复结果"; rule_line 70 "="; Line "";
   Line ((if fix_success r then "✅ " else "⚠️  ") +:+ fix_message r)]
  ++ (if is_nil (executed_actions r) then []
      else [Line (lf +:+ "已执行的动作:")]
           ++ map (λ a, Line ("  ✅ " +:+ ea_action a +:+ ": " +:+ ea_result a)) (executed_actions r))
  ++ (if is_nil (failed_actions r) then []
      else [Line (lf +:+ "失败的动作:")]
           ++ map (λ a, Line ("  ❌ " +:+ fa_action a +:+ ": " +:+ fa_error a)) (failed_actions r)).

Definition fix_command_done (pid : N) (r : result string (option FixResult)) : Done :=
  let head := [Line ("[ark] 正在修复进程 " +:+ pretty pid +:+ "...")] in
  match r with
  | Err e => mkDone head [] (Err e)
  | Ok None => mkDone head [] (Ok ())
  | Ok (Some result) => mkDone (head ++ fix_report result) [] (Ok ())
  end.

(** ** [ark doctor] *)

(** [{:<n}] of ASCII text. *)
Definition pad_to (n : nat) (s : string) : string :=
  s +:+ foldr String.append "" (replicate (n - String.length s) " ").

Definition status_text (s : CheckStatus) : string :=
  match s with SOk => "OK" | SWarn => "WARN" | SFail => "FAIL" end.

Definition check_lines (c : CheckItem) : list Printed :=
  Line (pad_to 24 (ck_name c) +:+ " " +:+ pad_to 5 (status_text (ck_status c)) +:+ " " +:+ ck_detail c)
  :: match ck_suggestion c with
     | Some hint => [Line (pad_to 24 "" +:+ "       hint: " +:+ hint)]
     | None => []
     end.

Definition print_report (r : DoctorReport) : list Printed :=
  [Line ("Environment: " +:+ rep_environment r); Line ""]
  ++ concat (map (λ s, [Line (sec_name s); rule_line (String.length (sec_name s) `max` 24) "-"]
                       ++ concat (map check_lines (sec_checks s)) ++ [Line ""]) (rep_sections r))
  ++ [Line ("Summary: OK=" +:+ pretty (sum_ok (rep_summary r)) +:+ " WARN=" +:+ pretty (sum_warn (rep_summary r))
            +:+ " FAIL=" +:+ pretty (sum_fail (rep_summary r)))].

(** ** [ark zap] *)

Definition zap_done (pid : N) (r : result string unit) : Done :=
  let head := Line ("[ark] 正在终止进程 " +:+ pretty pid +:+ "...") in
  match r with
  | Ok _ => mkDone [head; Line ("[ark] 进程 " +:+ pretty pid +:+ " 已成功终止")] [] (Ok ())
  | Err e => mkDone [head] ["[ark] 终止进程失败: " +:+ e] (Err e)
  end.

(** ** The cluster commands *)

Definition ps_url (hub_url : string) : string := trim_end_char "/" hub_url +:+ "/api/v1/ps".

Definition cluster_ps (reply : result string Json) : Done :=
  match reply with
  | Err e => mkDone [] [] (Err e)
  | Ok json =>
      match cluster_ps_rows json with
      | None => mkDone [] ["错误：无法解析 Hub 响应"] (Ok ())
      | Some [] => mkDone [Line "集群中没有活跃进程"] [] (Ok ())
      | Some rows =>
          mkDone ([Row ["NODE_ID"; "JOB_ID"; "PID"; "STATE"]; rule_line 80 "-"]
                  ++ map (λ '(n, j, p, s), Row [n; j; p; s]) rows) [] (Ok ())
      end
  end.

Definition numbered_cause (i : nat) (c : Json) : option Printed := numbered i <$> as_str c.

Definition cluster_why_command (job_id : string) (reply : result string Json) : Done :=
  match reply with
  | Err e => mkDone [] [] (Err e)
  | Ok json =>
      match jget "error" json with
      | Some error => mkDone [] ["错误: " +:+ default "unknown" (as_str error)] (Ok ())
      | None =>
          mkDone ([Line ("🔍 集群级根因分析：job_id = " +:+ job_id); Line ""]
                  ++ match jget "causes" json ≫= as_array with
                     | Some [] => [Line "未发现阻塞根因"]
                     | Some causes => Line "发现的根因：" :: omap id (imap numbered_cause causes)
                     | None => []
                     end) [] (Ok ())
      end
  end.

(** How a cluster fix returns: only a failing request is an error. *)
Definition cluster_fix_result (o : FixOutcome) : result string unit :=
  match o with FixFailed e => Err e | _ => Ok () end.
Definition cluster_fix_lines (o : FixOutcome) : list Printed :=
  match o with
  | FixSent ok failed =>
      (if decide (0 < ok) then [Line ("✅ 成功发送 " +:+ pretty ok +:+ " 个修复命令")] else [])
      ++ (if decide (0 < failed) then [Line ("❌ 失败 " +:+ pretty failed +:+ " 个命令")] else [])
  | _ => []
  end.

(** ** [main] *)

(** What the process finds: the daemons behind the socket paths, the world the
    commands act on, the hub, and the answers of the surroundings.  [W] is the
    machine, [H] the hub. *)
Record Surroundings (W H : Type) := mkSurroundings {
  su_daemon : option string → result string (string → string);
  su_run : result string unit;           (** how a daemon started here ends *)
  su_input : result string string;       (** the line typed at a question *)
  su_world : W;
  su_hub : H;
  su_files : files;
  su_audit_faults : AuditFaults;
  su_sys : Sys;
  su_fs : FileSystem;
  su_env : environ;
  su_now : string;
  su_stamp : string;
  su_now_ms : N;
  su_node_id : string;
  su_agent_id : option string;
  su_user : option string;
  su_username : option string
}.
Global Arguments su_daemon {_ _} _ _.
Global Arguments su_run {_ _} _.
Global Arguments su_input {_ _} _.
Global Arguments su_world {_ _} _.
Global Arguments su_hub {_ _} _.
Global Arguments su_files {_ _} _.
Global Arguments su_audit_faults {_ _} _.
Global Arguments su_sys {_ _} _.
Global Arguments su_fs {_ _} _.
Global Arguments su_env {_ _} _.
Global Arguments su_now {_ _} _.
Global Arguments su_stamp {_ _} _.
Global Arguments su_now_ms {_ _} _.
Global Arguments su_node_id {_ _} _.
Global Arguments su_agent_id {_ _} _.
Global Arguments su_user {_ _} _.
Global Arguments su_username {_ _} _.

(** What is left: output, exit status, the machine, the hub, the audit files, and
    the requests that were made to a language model. *)
Record AgentEnd (W H : Type) := mkAgentEnd {
  en_out : list Printed; en_err : list string; en_status : Z;
  en_world : W; en_hub : H; en_files : files; en_requests : list HttpRequest }.
Global Arguments mkAgentEnd {_ _} _ _ _ _ _ _ _.
Global Arguments en_out {_ _} _.
Global Arguments en_err {_ _} _.
Global Arguments en_status {_ _} _.
Global Arguments en_world {_ _} _.
Global Arguments en_hub {_ _} _.
Global Arguments en_files {_ _} _.
Global Arguments en_requests {_ _} _.

Section main.
Context {W H : Type} (os : Os W) (http : HubHttp H) (post : HttpRequest → HttpReply).
Context (request_to_vec : RpcRequest → result string string)
        (response_from_slice : string → result string RpcResponse) (eof not_a_sequence : string).
Context (read : W → string → result string string) (parse_error : string → string).
Context (pretty_json : WhyReport → result string string) (percent : f64 → string).
Context (entry_to_string : AuditLogEntry → result string string).
Context (from_yaml : string → result string Value) (parse_rule : string → result string RuleWire)
        (parse_manifest : string → result string RulesManifestWire)
        (parse_json : string → result string Json)
        (report_json : DoctorReport → result string string).

Local Notation ask_ping d := (ping request_to_vec response_from_slice eof d).
Local Notation ask_list d := (list_processes request_to_vec response_from_slice eof not_a_sequence d).
Local Notation ask_why d pid := (why_process request_to_vec response_from_slice eof d pid).

(** [fn main() -> Result]: an error is status 1. *)
Definition status_of (r : result string unit) : Z := match r with Ok _ => 0 | Err _ => 1 end.

Definition finish (s : Surroundings W H) (d : Done) : AgentEnd W H :=
  mkAgentEnd (done_out d) (done_err d) (status_of (done_result d)) (su_world s) (su_hub s) (su_files s) [].

(** The rules of [ark diag]: a directory that cannot be loaded is passed over. *)
Definition diag_rules (s : Surroundings W H) (rules_dir : option string) : option RuleEngine :=
  d ← rules_path (exists_path (su_fs s) default_rules_dir) rules_dir;
  match load_from_dir parse_rule parse_manifest (su_fs s) (sys_env (su_sys s) "ARK_RULES_STRICT") d with
  | Ok e => Some e
  | Err _ => None
  end.

Definition agent_main (s : Surroundings W H) (cmd : Commands) : AgentEnd W H :=
  match cmd with
  | Run _ _ _ => finish s (mkDone [] [] (su_run s))
  | Ps socket_path =>
      let d := su_daemon s socket_path in finish s (query_processes (ask_ping d) (ask_list d))
  | Why pid json socket_path =>
      let d := su_daemon s socket_path in
      finish s (why_command pretty_json (su_now s) (su_node_id s) (su_agent_id s) pid json
                  (ask_ping d) (ask_why d pid))
  | DoctorCmd opts socket_path =>
      let d := su_daemon s socket_path in
      let '(report, r) := run_doctor from_yaml parse_rule parse_manifest parse_json
                            (λ rep, match report_json rep with Ok _ => Ok () | Err e => Err e end)
                            (su_sys s) (su_fs s) (ask_ping d) (su_now_ms s) opts in
      let out := match report with
                 | Some rep => if opt_json opts
                               then match report_json rep with Ok text => [Line text] | Err _ => [] end
                               else print_report rep
                 | None => []
                 end in
      match r with
      | Ok _ => finish s (mkDone out [] (Ok ()))
      | Err e => mkAgentEnd out ["[ark] doctor failed: " +:+ doctor_error_display e] (exit_code e)
                   (su_world s) (su_hub s) (su_files s) []
      end
  | ZapCmd pid =>
      let '(r, w) := zap_process os read parse_error (su_world s) pid in
      let d := zap_done pid r in
      mkAgentEnd (done_out d) (done_err d) (status_of (done_result d)) w (su_hub s) (su_files s) []
  | DiagCmd pid socket_path provider rules_dir =>
      let d := su_daemon s socket_path in
      let '(requests, r) := run_diagnosis post (su_env s) (su_now_ms s) pid (ask_ping d) (ask_why d pid)
                              (ask_list d) (diag_rules s rules_dir) provider in
      let o := diagnose_process percent pid r in
      mkAgentEnd (done_out o) (done_err o) (status_of (done_result o)) (su_world s) (su_hub s) (su_files s)
        requests
  | FixCmd pid audit_log socket_path _ yes =>
      let d := su_daemon s socket_path in
      let '(r, audit_err, w, fs) :=
        ark_fix os entry_to_string (su_now s) (su_stamp s) (su_user s) (su_username s) (su_world s)
          (su_files s) pid (ask_ping d) (ask_why d pid) yes (su_input s) audit_log (su_audit_faults s) in
      let o := fix_command_done pid r in
      mkAgentEnd (done_out o) (audit_err ++ done_err o) (status_of (done_result o)) w (su_hub s) fs []
  | Cluster ClusterPs hub => finish s (cluster_ps (http_get http (su_hub s) (ps_url hub)))
  | Cluster (ClusterWhy job_id) hub =>
      finish s (cluster_why_command job_id (http_get http (su_hub s) (why_url hub job_id)))
  | Cluster (ClusterFix job_id yes) hub =>
      let '(o, h) := cluster_fix http (su_hub s) hub job_id yes (su_input s) in
      mkAgentEnd (cluster_fix_lines o) [] (status_of (cluster_fix_result o)) (su_world s) h (su_files s) []
  end.
Local Notation run := agent_main.

(** ** Without a daemon *)

(** The commands that ask the daemon, and at which socket. *)
Definition asks_daemon (cmd : Commands) : option (option string) :=
  match cmd with
  | Ps path | Why _ _ path | DiagCmd _ path _ _ | FixCmd _ _ path _ _ => Some path
  | _ => None
  end.

(** C27 When the daemon does not answer a ping, [ps], [why], [diag] and [fix] all end
    with status 1, touch neither a process nor the hub nor the audit log, and
    send nothing to a language model. *)
Theorem no_daemon_no_action s cmd path
  (Hcmd : asks_daemon cmd = Some path) (Hping : ask_ping (su_daemon s path) ≠ Ok true) :
  en_status (run s cmd) = 1%Z ∧ en_world (run s cmd) = su_world s ∧ en_hub (run s cmd) = su_hub s
  ∧ en_files (run s cmd) = su_files s ∧ en_requests (run s cmd) = [].
Proof.
  destruct cmd as [| |pid json ?| | |pid ? provider rules_dir|pid audit ? rd yes|]; try done;
    injection Hcmd as ->; cbn [agent_main];
    destruct (ask_ping (su_daemon s path)) as [[]|e]; try done;
    unfold why_command, query_why; destruct json; simpl; try done; by destruct (pretty_json _).
Qed.

(** ** What the exit status tells *)

(** When the question of a fix can be answered, the status of the cluster commands
    is 1 exactly when the request for the processes or the causes fails; a hub that answers with an error, a reply that
    cannot be read, and commands that could not be delivered leave it 0. *)
Theorem cluster_status_exact s c hub (Hin : is_ok (su_input s) = true) :
  let url := match c with ClusterPs => ps_url hub | ClusterWhy j | ClusterFix j _ => why_url hub j end in
  en_status (run s (Cluster c hub)) = (if http_get http (su_hub s) url is Err _ then 1 else 0)%Z
  ∧ en_world (run s (Cluster c hub)) = su_world s.
Proof.
  destruct c as [|job|job yes]; cbn zeta.
  - cbn [agent_main]. unfold cluster_ps. destruct (http_get _ _ _) as [json|e]; [|done].
    by destruct (cluster_ps_rows json) as [[]|].
  - cbn [agent_main]. unfold cluster_why_command. destruct (http_get _ _ _) as [json|e]; [|done].
    by destruct (jget "error" json).
  - cbn [agent_main]. unfold cluster_fix. destruct (http_get _ _ _) as [json|e]; [|done].
    destruct (jget "error" json); [done|]. destruct (no_causes json); [done|].
    destruct (reply_targets json) as [|t ts]; [done|]. destruct (su_input s) as [input|]; [|done].
    destruct (if yes then Ok true else _) as [[]|e] eqn:E; [|done|by destruct yes].
    by destruct (send_fixes _ _ _ _ _ _) as [[? ?] ?].
Qed.

(** [ark fix] that runs its actions ends with status 0 whatever became of them. *)
Theorem failed_fix_exits_zero s pid audit_log path rd r errs w fs
  (Hfix : ark_fix os entry_to_string (su_now s) (su_stamp s) (su_user s) (su_username s) (su_world s)
            (su_files s) pid (ask_ping (su_daemon s path)) (ask_why (su_daemon s path) pid) true (su_input s)
            audit_log (su_audit_faults s)
          = (Ok (Some r), errs, w, fs))
  (Hfail : fix_success r = false) :
  en_status (run s (FixCmd pid audit_log path rd true)) = 0%Z.
Proof. cbn [agent_main]. simpl. by rewrite Hfix. Qed.

(** ** The local queries are exact *)

Section local.
Context (request_from_slice : string → result string RpcRequest)
        (response_to_vec : RpcResponse → result string string).
Local Notation ok := (exchange_ok request_to_vec request_from_slice response_to_vec response_from_slice).

(** The daemon with graph [g] behind the socket. *)
Definition daemon_at (s : Surroundings W H) (path : option string) (g : StateGraph) : Prop :=
  su_daemon s path = Ok (λ sent, (serve_client request_from_slice response_to_vec eof g sent).2)
  ∧ ok Ping (response_success (JObj [("status", JStr "ok")])).

(** A line of the table, for a node of the graph. *)
Definition process_columns (g : StateGraph) (n : Node) : list string :=
  [pretty (process_pid n); default "-" (metadata n !! "job_id");
   match get_process_resources g (process_pid n) with [] => "-" | rs => join ", " rs end;
   default "unknown" (metadata n !! "state")].

Lemma ps_columns_process g n : ps_columns (process_json g n) = process_columns g n.
Proof.
  unfold ps_columns, ps_row, process_json, process_columns.
  change (jindex "pid" _) with (JNum (process_pid n)).
  change (jindex "job_id" _) with (jopt JStr (metadata n !! "job_id")).
  change (jindex "state" _) with (JStr (default "unknown" (metadata n !! "state"))).
  change (jindex "resources" _) with (jstrings (get_process_resources g (process_pid n))).
  cbn [as_u64 as_array jstrings from_option id]. rewrite omap_as_str.
  rewrite N.mod_small; [by destruct (metadata n !! "job_id"), (get_process_resources g (process_pid n))|].
  unfold process_pid. destruct (parse_u32 _) as [p|] eqn:E; simpl; [|lia].
  apply parse_uint_bound in E. unfold u32_max in E. lia.
Qed.

(** [ark ps] on a daemon. *)
Lemma ps_prints s path g :
  daemon_at s path g →
  ok ListProcesses (response_success (JArr (map (process_json g) (get_active_processes g)))) →
  en_status (run s (Ps path)) = 0%Z
  ∧ en_out (run s (Ps path))
    = match get_active_processes g with
      | [] => [Line "没有活跃进程"]
      | ps => [Row ["PID"; "JOB_ID"; "RESOURCES"; "STATE"]; rule_line 80 "-"]
              ++ map (λ n, Row (process_columns g n)) ps
      end.
Proof.
  intros [Hd Hp] Hlist. cbn [agent_main]. rewrite Hd. rewrite ipc_ping, ipc_list_exact by done.
  unfold query_processes.
  destruct (get_active_processes g) as [|n ns]; [done|]. cbn [map finish done_result done_out status_of].
  split; [done|]. simpl. do 3 f_equal; [by rewrite ps_columns_process|].
  rewrite map_map. apply map_ext. intros m. by rewrite ps_columns_process.
Qed.

(** [ark why] on a daemon. *)
Lemma why_prints s path g pid causes :
  daemon_at s path g → find_root_cause g pid = Some causes →
  ok (WhyProcess pid) (response_success (JObj [("pid", JNum pid); ("causes", jstrings causes)])) →
  en_status (run s (Why pid false path)) = 0%Z
  ∧ en_out (run s (Why pid false path))
    = print_why_report (build_why_report (su_now s) pid causes (su_node_id s)
                          (default (su_node_id s) (su_agent_id s))) (pretty pid).
Proof.
  intros [Hd Hp] Hc Hwhy. cbn [agent_main]. rewrite Hd, ipc_ping by done.
  assert (why_process request_to_vec response_from_slice eof
    (Ok (λ sent, (serve_client request_from_slice response_to_vec eof g sent).2)) pid = Ok causes) as Hw.
  { unfold why_process. rewrite (ask_reply _ request_from_slice response_to_vec _ _ g (WhyProcess pid)
      (JObj [("pid", JNum pid); ("causes", jstrings causes)])); [|by simpl; rewrite Hc|done].
    simpl. by rewrite omap_as_str. }
  by rewrite Hw.
Qed.

(** [ark ps] and [ark why] against a daemon: [ps] ends with status 0 and prints
    one line for each active process of the daemon's graph, with its PID, job,
    resources and state, and nothing else; [why] ends with status 0 and prints the
    report of precisely the root causes of the process. *)
Theorem local_queries_exact s path g pid causes
  (Hd : daemon_at s path g)
  (Hlist : ok ListProcesses (response_success (JArr (map (process_json g) (get_active_processes g)))))
  (Hc : find_root_cause g pid = Some causes)
  (Hwhy : ok (WhyProcess pid) (response_success (JObj [("pid", JNum pid); ("causes", jstrings causes)]))) :
  (en_status (run s (Ps path)) = 0%Z
   ∧ en_out (run s (Ps path))
     = match get_active_processes g with
       | [] => [Line "没有活跃进程"]
       | ps => [Row ["PID"; "JOB_ID"; "RESOURCES"; "STATE"]; rule_line 80 "-"]
               ++ map (λ n, Row (process_columns g n)) ps
       end)
  ∧ (en_status (run s (Why pid false path)) = 0%Z
     ∧ en_out (run s (Why pid false path))
       = print_why_report (build_why_report (su_now s) pid causes (su_node_id s)
                             (default (su_node_id s) (su_agent_id s))) (pretty pid))
  ∧ ∀ c, c ∈ causes ↔ is_root_cause (edge_out_index (store g)) (nodes g) (pid_name pid) c.
Proof.
  split; [by apply ps_prints|]. split; [by apply (why_prints s path g)|].
  destruct (find_root_cause_by_id_spec g (pid_name pid)) as (cs & E & Hcs).
  unfold find_root_cause in Hc. by simplify_eq.
Qed.
End local.
End main.

(** ** Concrete runs *)

(** A codec for the replies of one daemon. *)
Definition node_list : RpcResponse :=
  response_success (JArr (map (process_json demo_node) (get_active_processes demo_node))).
Definition node_ok : RpcResponse := response_success (JObj [("status", JStr "ok")]).
Definition node_response_to_vec (r : RpcResponse) : result string string :=
  match rpc_data r with
  | Some (JArr _) => Ok "list"
  | Some d => match jget "status" d with Some _ => Ok "ok" | None => demo_response_to_vec r end
  | None => demo_response_to_vec r
  end.
Definition node_response_from_slice (s : string) : result string RpcResponse :=
  if decide (s = "list") then Ok node_list
  else if decide (s = "ok") then Ok node_ok
  else demo_response_from_slice s.

Definition demo_surroundings (daemon : result string (string → string))
  : Surroundings (list Effect) unit :=
  mkSurroundings (list Effect) unit (λ _, daemon) (Ok ()) (Ok "n") [] () ∅ no_audit_faults (demo_sys ∅)
    (mkFileSystem []) (λ _, None) "2026-01-01T00:00:00Z" "20260101" 0 "node-a" None None None.

Definition demo_run (s : Surroundings (list Effect) unit) (cmd : Commands) : AgentEnd (list Effect) unit :=
  agent_main (recording_os (λ _ _, Ok (mkOutput true "" "")) (λ _, Err "ENOENT"))
    (mkHubHttp unit (λ _ _, Err "refused") (λ _ _ _, (Err "refused", ())))
    (λ _, ConnectError "refused") demo_request_to_vec node_response_from_slice "eof" "not a sequence"
    (λ _ _, Err "ENOENT") (λ s, s) (λ _, Ok "{}") (λ _, "90") (λ _, Ok "{}")
    (λ _, Err "no yaml") (λ _, Err "no rules") (λ _, Err "no manifest") (λ _, Err "no json")
    (λ _, Ok "{}") s cmd.

Lemma no_daemon_no_action_witness :
  en_status (demo_run (demo_surroundings (Err "refused")) (FixCmd 7 None None None true)) = 1%Z.
Proof.
  unfold demo_run.
  match goal with |- en_status (agent_main ?os ?http ?post ?rv ?rs ?eof ?ns ?rd ?pe ?pj ?pc ?es ?fy ?pr ?pm ?js ?rj ?s ?cmd) = _ =>
    refine (proj1 (no_daemon_no_action os http post rv rs eof ns rd pe pj pc es fy pr pm js rj s cmd None _ _)) end.
  - reflexivity.
  - vm_compute. discriminate.
Defined.

Definition demo_daemon : result string (string → string) :=
  Ok (λ sent, (serve_client demo_request_from_slice node_response_to_vec "eof" demo_node sent).2).

Lemma local_queries_exact_witness :
  en_out (demo_run (demo_surroundings demo_daemon) (Ps None))
  = [Row ["PID"; "JOB_ID"; "RESOURCES"; "STATE"]; rule_line 80 "-"; Row ["7"; "job-1"; "gpu-0"; "running"]].
Proof.
  unfold demo_run.
  match goal with |- en_out (agent_main ?os ?http ?post ?rv ?rs ?eof ?ns ?rd ?pe ?pj ?pc ?es ?fy ?pr ?pm ?js ?rj ?s ?cmd) = _ =>
    destruct (local_queries_exact os http post rv rs eof ns rd pe pj pc es fy pr pm js rj
      demo_request_from_slice node_response_to_vec s None demo_node 7 ["error-gpu-0: XID_79"])
      as [[_ Hps] _] end.
  - split; [reflexivity|]. exists "ping", "ok". split_and!; by vm_compute.
  - exists "list", "list". split_and!; by vm_compute.
  - vm_compute. reflexivity.
  - exists "why:7", "7|error-gpu-0: XID_79". split_and!; by vm_compute.
  - rewrite Hps. vm_compute. reflexivity.
Defined.
