(* ===== verification/EbpfProbe.v ===== *)
(** * The eBPF network probe (ark-probe-ebpf/)

    The kernel side (ark-probe-ebpf-ebpf/src/main.rs) remembers which process
    sends on a socket and charges retransmissions, seen in soft-interrupt
    context, to that process; the user side (ark-probe-ebpf/src/main.rs) reads
    the records and prints events.  The kernel's memory, its clock and its hash
    maps are parameters; the layout of a record is that of [repr(C)] on a
    little-endian 64-bit machine.

    The theorems: the process charged is exactly the last sender on the socket
    while the map has room; a record survives the ring buffer whatever its
    padding holds; addresses are printed back to front. *)

From S2P Require Import Prelude Text F64 Json.

(** ** Shared records (ark-probe-ebpf-ebpf/src/lib.rs) *)

Record SocketTuple := mkSocketTuple { src_ip : N; dst_ip : N; src_port : N; dst_port : N }.

Global Instance socket_tuple_eq_dec : EqDecision SocketTuple.
Proof. solve_decision. Defined.
Global Instance socket_tuple_countable : Countable SocketTuple.
Proof.
  refine (inj_countable' (λ t, (src_ip t, dst_ip t, src_port t, dst_port t))
            (λ p, mkSocketTuple p.1.1.1 p.1.1.2 p.1.2 p.2) _).
  by intros [].
Defined.

Record NetworkEvent := mkNetworkEvent {
  ne_pid : N; ne_event_type : N; ne_retransmit_count : N; ne_timestamp : N;
  ne_socket_tuple : SocketTuple }.

(** ** Kernel side *)

(** The fields of [bindings::sock_common]. *)
Record sock_common := mkSockCommon {
  skc_family : N; skc_state : N; skc_reuse : N; skc_bound_dev_if : N; skc_hash : N;
  skc_portpair : N; skc_num : N; skc_dport : N; skc_addrpair : N; skc_daddr : N;
  skc_rcv_saddr : N }.

(** What a probe can ask for: its first argument, the running task, the clock,
    and the [sock_common] a pointer leads to, when it can be read. *)
Record ProbeContext := mkProbeContext {
  ctx_arg0 : option N;
  ctx_pid_tgid : N;
  ctx_ktime_ns : N;
  ctx_read : N → option sock_common }.

Definition no_tuple : SocketTuple := mkSocketTuple 0 0 0 0.
Definition AF_INET : N := 2.

Definition extract_socket_tuple_from_sendmsg (ctx : ProbeContext) : SocketTuple :=
  match ctx_arg0 ctx with
  | None => no_tuple
  | Some sk_ptr =>
      match ctx_read ctx sk_ptr with
      | None => no_tuple
      | Some sk =>
          if decide (skc_family sk ≠ AF_INET) then no_tuple
          else mkSocketTuple (skc_rcv_saddr sk) (skc_daddr sk) (skc_num sk) (skc_dport sk)
      end
  end.

(** The same text in the source. *)
Definition extract_socket_tuple_from_retransmit : ProbeContext → SocketTuple :=
  extract_socket_tuple_from_sendmsg.

(** [(pid_tgid >> 32) as u32] *)
Definition current_pid (ctx : ProbeContext) : N := (N.shiftr (ctx_pid_tgid ctx) 32 mod 2 ^ 32)%N.

(** The key under which a process id would be found. *)
Definition pid_key (pid : N) : SocketTuple := mkSocketTuple pid 0 0 0.

(** A BPF hash map from socket tuples to process ids: an insertion can fail. *)
Class BpfHash (M : Type) := {
  bpf_empty : M;
  bpf_get : M → SocketTuple → option N;
  bpf_insert : M → SocketTuple → N → option M }.

(** Its documented behaviour, with room for [max] keys. *)
Class BpfHashLaws (M : Type) `{BpfHash M} (max : nat) (bpf_keys : M → gset SocketTuple) := {
  bpf_empty_get : ∀ k, bpf_get bpf_empty k = None;
  bpf_keys_get : ∀ m k, k ∈ bpf_keys m ↔ is_Some (bpf_get m k);
  bpf_insert_eq : ∀ m k v m', bpf_insert m k v = Some m' → bpf_get m' k = Some v;
  bpf_insert_ne : ∀ m k k' v m', k ≠ k' → bpf_insert m k v = Some m' → bpf_get m' k' = bpf_get m k';
  bpf_insert_room : ∀ m k v, size (bpf_keys m ∪ {[k]}) ≤ max → is_Some (bpf_insert m k v) }.

Section kernel.
Context {M : Type} `{!BpfHash M}.

(** The failure of the insertion is ignored. *)
Definition try_tcp_sendmsg (m : M) (ctx : ProbeContext) : M :=
  default m (bpf_insert m (extract_socket_tuple_from_sendmsg ctx) (current_pid ctx)).

Definition try_tcp_retransmit_skb (m : M) (ctx : ProbeContext) : NetworkEvent :=
  let fallback_pid := current_pid ctx in
  let socket_tuple := extract_socket_tuple_from_retransmit ctx in
  let real_pid := match bpf_get m socket_tuple with
                  | Some pid => pid
                  | None => default fallback_pid (bpf_get m (pid_key fallback_pid))
                  end in
  mkNetworkEvent real_pid 1 1 (ctx_ktime_ns ctx) socket_tuple.

(** The hooks as the kernel calls them. *)
Inductive Hook := Sendmsg (ctx : ProbeContext) | Retransmit (ctx : ProbeContext).

Definition hook_step (s : M * list NetworkEvent) (h : Hook) : M * list NetworkEvent :=
  match h with
  | Sendmsg ctx => (try_tcp_sendmsg s.1 ctx, s.2)
  | Retransmit ctx => (s.1, s.2 ++ [try_tcp_retransmit_skb s.1 ctx])
  end.

Definition run_hooks (hooks : list Hook) : M * list NetworkEvent :=
  foldl hook_step (bpf_empty, []) hooks.
End kernel.

(** ** User side *)

(** [u16::from_be] on a little-endian machine. *)
Definition u16_from_be (x : N) : N :=
  N.lor (N.shiftl (N.land x 255) 8) (N.land (N.shiftr x 8) 255).

Definition u32_to_ip_string (ip : N) : string :=
  if decide (ip = 0)%N then "0.0.0.0"
  else pretty (N.land (N.shiftr ip 24) 255) +:+ "." +:+ pretty (N.land (N.shiftr ip 16) 255)
       +:+ "." +:+ pretty (N.land (N.shiftr ip 8) 255) +:+ "." +:+ pretty (N.land ip 255).

(** Little-endian numbers, as bytes. *)
Fixpoint le_bytes (k : nat) (x : N) : list N :=
  match k with 0 => [] | S k' => (x mod 256)%N :: le_bytes k' (x / 256)%N end.
Fixpoint le_value (bs : list N) : N :=
  match bs with [] => 0%N | b :: bs' => (b + 256 * le_value bs')%N end.

Definition field (off len : nat) (buf : list N) : N := le_value (take len (drop off buf)).

(** [size_of::<NetworkEvent>()], and the offsets of [repr(C)]. *)
Definition NETWORK_EVENT_SIZE : nat := 40.

Definition parse_network_event (buf : list N) : result string NetworkEvent :=
  if decide (length buf < NETWORK_EVENT_SIZE) then Err "缓冲区太小"
  else Ok (mkNetworkEvent (field 0 4 buf) (field 4 1 buf) (field 8 4 buf) (field 16 8 buf)
             (mkSocketTuple (field 24 4 buf) (field 28 4 buf) (field 32 2 buf) (field 34 2 buf))).

Definition has_socket (e : NetworkEvent) : bool :=
  bool_decide (src_ip (ne_socket_tuple e) ≠ 0%N) || bool_decide (dst_ip (ne_socket_tuple e) ≠ 0%N).

Definition event_entity_id (e : NetworkEvent) : string :=
  let t := ne_socket_tuple e in
  if has_socket e
  then "network-" +:+ u32_to_ip_string (src_ip t) +:+ "-" +:+ u32_to_ip_string (dst_ip t)
       +:+ "-" +:+ pretty (u16_from_be (src_port t)) +:+ "-" +:+ pretty (u16_from_be (dst_port t))
  else "network-pid-" +:+ pretty (ne_pid e).

(** The JSON value printed; the other formats only log. *)
Definition output_event (e : NetworkEvent) (format : string) : option Json :=
  if decide (format = "jsonl") then
    Some (JObj [("ts", JNum (ne_timestamp e / 1000000)); ("event_type", JStr "transport.drop");
                ("entity_id", JStr (event_entity_id e)); ("pid", JNum (ne_pid e));
                ("value", JStr (pretty (ne_retransmit_count e)))])
  else None.

(** The events printed for the records of one read; a short record is passed
    over. *)
Definition output_records (format : string) (bufs : list (list N)) : list Json :=
  omap (λ buf, match parse_network_event buf with
               | Ok e => output_event e format
               | Err _ => None
               end) bufs.

(** ** The process charged *)

(** The sockets sent on, and the last process that sent on one. *)
Definition sent_tuples (hooks : list Hook) : gset SocketTuple :=
  list_to_set (omap (λ h, match h with
                          | Sendmsg ctx => Some (extract_socket_tuple_from_sendmsg ctx)
                          | Retransmit _ => None
                          end) hooks).
Definition sender_step (t : SocketTuple) (last : option N) (h : Hook) : option N :=
  match h with
  | Sendmsg ctx => if decide (extract_socket_tuple_from_sendmsg ctx = t)
                   then Some (current_pid ctx) else last
  | Retransmit _ => last
  end.
Definition last_sender (t : SocketTuple) (hooks : list Hook) : option N :=
  foldl (sender_step t) None hooks.

Lemma last_sender_snoc t hooks h :
  last_sender t (hooks ++ [h]) = sender_step t (last_sender t hooks) h.
Proof. unfold last_sender. by rewrite foldl_app. Qed.

Lemma run_hooks_snoc `{BpfHash M} hooks h :
  run_hooks (M := M) (hooks ++ [h]) = hook_step (run_hooks hooks) h.
Proof. unfold run_hooks. by rewrite foldl_app. Qed.

Lemma sent_tuples_snoc hooks h :
  sent_tuples (hooks ++ [h])
  = sent_tuples hooks ∪ match h with
                        | Sendmsg ctx => {[extract_socket_tuple_from_sendmsg ctx]}
                        | Retransmit _ => ∅
                        end.
Proof.
  unfold sent_tuples. rewrite omap_app, list_to_set_app_L. f_equal. destruct h; simpl; set_solver.
Qed.

Section charged.
Context {M : Type} `{!BpfHash M} {max : nat} {bpf_keys : M → gset SocketTuple}
        `{!BpfHashLaws M max bpf_keys}.

Lemma sendmsg_get m ctx t :
  size (bpf_keys m ∪ {[extract_socket_tuple_from_sendmsg ctx]}) ≤ max →
  bpf_get (try_tcp_sendmsg m ctx) t = sender_step t (bpf_get m t) (Sendmsg ctx).
Proof.
  intros Hroom. unfold try_tcp_sendmsg, sender_step.
  destruct (bpf_insert_room m (extract_socket_tuple_from_sendmsg ctx) (current_pid ctx) Hroom)
    as [m' Hm]. rewrite Hm. simpl.
  case_decide as Ht; [subst t; by eapply bpf_insert_eq|by eapply bpf_insert_ne].
Qed.

(** While the map has room it holds the last sender of every socket. *)
Lemma map_holds_senders hooks :
  size (sent_tuples hooks) ≤ max →
  ∀ t, bpf_get (run_hooks (M := M) hooks).1 t = last_sender t hooks
       ∧ (t ∈ bpf_keys (run_hooks (M := M) hooks).1 ↔ t ∈ sent_tuples hooks).
Proof.
  induction hooks as [|h hooks IH] using rev_ind; intros Hsize t.
  { unfold run_hooks. simpl. rewrite bpf_keys_get, bpf_empty_get. split; [done|].
    split; [by intros [? ?]|by intros ?%elem_of_empty]. }
  rewrite sent_tuples_snoc in Hsize |- *. rewrite run_hooks_snoc, last_sender_snoc.
  assert (size (sent_tuples hooks) ≤ max) as Hs.
  { etrans; [|exact Hsize]. apply subseteq_size. set_solver. }
  specialize (IH Hs). destruct h as [ctx|ctx]; simpl.
  - assert (bpf_keys (run_hooks hooks).1 = sent_tuples hooks) as Hk
      by (apply set_eq; intros; apply IH).
    rewrite <- Hk in Hsize. rewrite bpf_keys_get, sendmsg_get by done.
    destruct (IH t) as [-> Ht]. rewrite bpf_keys_get in Ht. unfold sender_step. simpl. split; [done|].
    rewrite elem_of_union, elem_of_singleton, <- Ht, <- (proj1 (IH t)).
    case_decide; naive_solver.
  - destruct (IH t) as [? ?]. split; [done|]. set_solver.
Qed.

(** A retransmission is charged to the process that last sent on its socket:
    after any calls of the hooks that used no more sockets than the map has room
    for, the record names that process, whichever task the soft interrupt came
    upon, and the socket and time of the call.  Only a socket nobody was seen
    sending on falls back to the interrupted task (through its own key). *)
Theorem retransmission_charged_exactly hooks ctx
  (Hroom : size (sent_tuples hooks) ≤ max) :
  let t := extract_socket_tuple_from_retransmit ctx in
  let fallback := current_pid ctx in
  try_tcp_retransmit_skb (run_hooks (M := M) hooks).1 ctx
  = mkNetworkEvent
      (match last_sender t hooks with
       | Some p => p
       | None => default fallback (last_sender (pid_key fallback) hooks)
       end) 1 1 (ctx_ktime_ns ctx) t.
Proof.
  intros t fallback. unfold try_tcp_retransmit_skb. fold t fallback.
  destruct (map_holds_senders hooks Hroom t) as [-> _].
  by destruct (map_holds_senders hooks Hroom (pid_key fallback)) as [-> _].
Qed.
End charged.

(** A map with room for [max] keys, which keeps what it has when it is full. *)
Definition bounded_map (max : nat) : Type := gmap SocketTuple N.

Global Instance bounded_map_hash max : BpfHash (bounded_map max) := {
  bpf_empty := (∅ : gmap SocketTuple N);
  bpf_get := λ (m : gmap SocketTuple N) k, m !! k;
  bpf_insert := λ (m : gmap SocketTuple N) k v,
    if decide (size (dom m ∪ {[k]} : gset SocketTuple) ≤ max) then Some (<[k := v]> m) else None }.

Global Instance bounded_map_laws max :
  BpfHashLaws (bounded_map max) max (λ m : gmap SocketTuple N, dom m).
Proof.
  split; simpl.
  - intros. apply lookup_empty.
  - intros. apply elem_of_dom.
  - intros m k v m' H. case_decide; simplify_eq. apply lookup_insert_eq.
  - intros m k k' v m' Hk H. case_decide; simplify_eq. by apply lookup_insert_ne.
  - intros m k v H. rewrite decide_True by done. by eexists.
Qed.

(** The capacity of [SOCKET_TO_PID]. *)
Definition SOCKET_TO_PID_MAX : nat := 8192.

(** Nothing is ever removed: once the map is full, a socket that is not in it is
    never learnt, whatever is sent on it, and its retransmissions are charged to
    the interrupted task. *)
Theorem full_map_learns_nothing max (m : bounded_map max) hooks ctx :
  size (dom (m : gmap SocketTuple N)) = max →
  let t := extract_socket_tuple_from_retransmit ctx in
  let m' := (foldl hook_step (m, []) hooks).1 in
  (m : gmap SocketTuple N) !! t = None →
  (m : gmap SocketTuple N) !! pid_key (current_pid ctx) = None →
  ne_pid (try_tcp_retransmit_skb m' ctx) = current_pid ctx.
Proof.
  intros Hfull t m' Ht Hp.
  assert (∀ s, (dom ((foldl hook_step (m, s) hooks).1 : gmap SocketTuple N) : gset SocketTuple)
               = dom (m : gmap SocketTuple N)) as Hd.
  { clear m' Ht Hp. induction hooks as [|h hooks IH] using rev_ind; intros s; [done|].
    rewrite foldl_app. simpl. specialize (IH s).
    destruct (foldl hook_step (m, s) hooks) as [m1 s1]. simpl in IH. destruct h as [c|c]; simpl; [|done].
    unfold try_tcp_sendmsg. simpl. case_decide as Hroom; simpl; [|done].
    rewrite dom_insert_L, <- IH. apply set_eq. intros k.
    rewrite IH in Hroom. rewrite <- Hfull in Hroom.
    assert (dom (m : gmap SocketTuple N) ∪ {[extract_socket_tuple_from_sendmsg c]}
            = dom (m : gmap SocketTuple N)) as Hin.
    { symmetry. apply set_subseteq_size_eq; [set_solver|done]. }
    rewrite IH. set_solver. }
  specialize (Hd []). fold m' in Hd. unfold try_tcp_retransmit_skb. simpl. fold t.
  apply not_elem_of_dom in Ht, Hp. rewrite <- Hd in Ht, Hp. apply not_elem_of_dom in Ht, Hp.
  by rewrite Ht, Hp.
Qed.

(** ** The record in the ring buffer *)

Lemma le_bytes_length k x : length (le_bytes k x) = k.
Proof. revert x. induction k as [|k IH]; intros x; simpl; [done|]. by rewrite IH. Qed.

Lemma le_value_bytes k x : (x < 256 ^ N.of_nat k)%N → le_value (le_bytes k x) = x.
Proof.
  revert x. induction k as [|k IH]; intros x Hx; simpl le_bytes.
  - simpl in *. lia.
  - cbn [le_value]. rewrite IH.
    + pose proof (N.div_mod x 256 ltac:(lia)). lia.
    + rewrite Nat2N.inj_succ, N.pow_succ_r' in Hx. apply N.Div0.div_lt_upper_bound. lia.
Qed.

(** The bytes of a record; [p1], [p2] and [p3] are its padding. *)
Definition record_bytes (p1 p2 p3 : list N) (e : NetworkEvent) : list N :=
  let t := ne_socket_tuple e in
  le_bytes 4 (ne_pid e) ++ le_bytes 1 (ne_event_type e) ++ p1
  ++ le_bytes 4 (ne_retransmit_count e) ++ p2 ++ le_bytes 8 (ne_timestamp e)
  ++ le_bytes 4 (src_ip t) ++ le_bytes 4 (dst_ip t)
  ++ le_bytes 2 (src_port t) ++ le_bytes 2 (dst_port t) ++ p3.

(** The fields of a record fit their widths. *)
Definition record_wf (e : NetworkEvent) : Prop :=
  let t := ne_socket_tuple e in
  (ne_pid e < 2 ^ 32 ∧ ne_event_type e < 2 ^ 8 ∧ ne_retransmit_count e < 2 ^ 32
   ∧ ne_timestamp e < 2 ^ 64 ∧ src_ip t < 2 ^ 32 ∧ dst_ip t < 2 ^ 32
   ∧ src_port t < 2 ^ 16 ∧ dst_port t < 2 ^ 16)%N.

Lemma field_skip off len xs ys :
  length xs ≤ off → field off len (xs ++ ys) = field (off - length xs) len ys.
Proof. intros H. unfold field. by rewrite drop_app_ge. Qed.

Lemma field_here k x ys :
  (x < 256 ^ N.of_nat k)%N → field 0 k (le_bytes k x ++ ys) = x.
Proof.
  intros H. unfold field. rewrite drop_0, take_app_length' by by rewrite le_bytes_length.
  by apply le_value_bytes.
Qed.

(** A field is found behind the parts before it. *)
Ltac part_lengths := rewrite ?le_bytes_length; repeat match goal with H : length _ = _ |- _ => rewrite H end.
Ltac find_field :=
  repeat (rewrite field_skip by (part_lengths; lia); part_lengths; cbn [Nat.sub]);
  apply field_here; done.

(** A record survives the ring buffer: whatever its padding holds and whatever
    follows it in the buffer, the reader gets back the record that was written;
    a buffer that is shorter than a record is refused. *)
Theorem record_roundtrip p1 p2 p3 rest e
  (Hwf : record_wf e) (H1 : length p1 = 3) (H2 : length p2 = 4) (H3 : length p3 = 4) :
  parse_network_event (record_bytes p1 p2 p3 e ++ rest) = Ok e
  ∧ ∀ k, k < 40 → is_ok (parse_network_event (take k (record_bytes p1 p2 p3 e))) = false.
Proof.
  assert (length (record_bytes p1 p2 p3 e) = 40) as Hlen.
  { unfold record_bytes. rewrite !length_app, !le_bytes_length. lia. }
  unfold parse_network_event, NETWORK_EVENT_SIZE. split.
  2: { intros k Hk. rewrite decide_True; [done|]. rewrite length_take. lia. }
  rewrite decide_False by (rewrite length_app; lia). unfold record_bytes.
  clear Hlen. destruct e as [pid ty n ts [sip dip sp dp]], Hwf as (?&?&?&?&?&?&?&?).
  cbn [ne_pid ne_event_type ne_retransmit_count ne_timestamp ne_socket_tuple src_ip dst_ip
       src_port dst_port] in *.
  rewrite <- !app_assoc. do 2 f_equal; [find_field..|]. f_equal; find_field.
Qed.

(** ** Addresses *)

Lemma byte_land (b q : N) : (b < 256)%N → N.land (b + 256 * q) 255 = b.
Proof.
  intros H. change 255%N with (N.ones 8). rewrite N.land_ones. change (2 ^ 8)%N with 256%N.
  rewrite N.mul_comm, N.Div0.mod_add. by apply N.mod_small.
Qed.
Lemma byte_shift (b q k : N) : (b < 256)%N → N.shiftr (b + 256 * q) (8 + k) = N.shiftr q k.
Proof.
  intros H. rewrite <- N.shiftr_shiftr. f_equal. rewrite N.shiftr_div_pow2. change (2 ^ 8)%N with 256%N.
  rewrite N.mul_comm, N.div_add by lia. rewrite N.div_small by done. lia.
Qed.

(** Addresses are printed back to front: the address whose bytes in memory, in
    network order, are [a.b.c.d] is read as a little-endian number and printed
    from its high byte. *)
Theorem address_printed_reversed a b c d
  (Ha : (a < 256)%N) (Hb : (b < 256)%N) (Hc : (c < 256)%N) (Hd : (d < 256)%N) :
  u32_to_ip_string (le_value [a; b; c; d])
  = pretty d +:+ "." +:+ pretty c +:+ "." +:+ pretty b +:+ "." +:+ pretty a.
Proof.
  unfold u32_to_ip_string. case_decide as Hz.
  { cbn [le_value] in Hz. by assert (a = 0 ∧ b = 0 ∧ c = 0 ∧ d = 0)%N as (-> & -> & -> & ->) by lia. }
  clear Hz. cbn [le_value].
  change 24%N with (8 + 16)%N. rewrite byte_shift by done.
  change 16%N with (8 + 8)%N. rewrite !byte_shift by done.
  rewrite <- (N.add_0_r 8), !byte_shift, !N.shiftr_0_r, !byte_land by done. done.
Qed.

(** ** Examples *)

Definition ip (a b c d : N) : N := le_value [a; b; c; d].
Definition demo_sock (family : N) : sock_common :=
  mkSockCommon family 1 0 0 0 0 (256 * 80 + 1) (256 * 187 + 1) 0 (ip 10 0 0 2) (ip 10 0 0 1).
Definition demo_ctx (family pid ns : N) : ProbeContext :=
  mkProbeContext (Some 4096%N) (pid * 2 ^ 32 + pid) ns (λ _, Some (demo_sock family)).
Definition demo_hooks (family : N) : list Hook :=
  [Sendmsg (demo_ctx family 42 10); Sendmsg (demo_ctx family 77 20)].

Lemma retransmission_charged_exactly_witness :
  ne_pid (try_tcp_retransmit_skb
            (run_hooks (M := bounded_map SOCKET_TO_PID_MAX) (demo_hooks 2)).1 (demo_ctx 2 3 30)) = 77%N.
Proof.
  rewrite (retransmission_charged_exactly (max := SOCKET_TO_PID_MAX) (demo_hooks 2) (demo_ctx 2 3 30)
             ltac:(apply (bool_decide_unpack _); vm_compute; exact I)).
  vm_compute. reflexivity.
Defined.

(** Sockets that are not IPv4 all share the empty tuple: a retransmission on one
    is charged to the last process that sent on any of them. *)
Example ipv6_sockets_share_a_sender :
  let send pid := Sendmsg (demo_ctx 10 pid 0) in
  ne_pid (try_tcp_retransmit_skb
            (run_hooks (M := bounded_map SOCKET_TO_PID_MAX) [send 42%N; send 77%N]).1
            (demo_ctx 10 42 0)) = 77%N.
Proof. vm_compute. reflexivity. Qed.

Definition demo_record : NetworkEvent :=
  mkNetworkEvent 42 1 1 3600000000000 (mkSocketTuple (ip 10 0 0 1) (ip 10 0 0 2) 20481 47873).

Lemma record_roundtrip_witness :
  parse_network_event (record_bytes [7; 7; 7] [1; 2; 3; 4] [9; 9; 9; 9] demo_record ++ [5])%N
  = Ok demo_record
  ∧ ∀ k, k < 40 →
      is_ok (parse_network_event
               (take k (record_bytes [7; 7; 7] [1; 2; 3; 4] [9; 9; 9; 9] demo_record)%N)) = false.
Proof.
  apply (record_roundtrip [7; 7; 7] [1; 2; 3; 4] [9; 9; 9; 9] [5] demo_record)%N;
    [vm_compute; repeat split|reflexivity..].
Defined.

Example address_printed_reversed_example :
  event_entity_id demo_record = "network-1.0.0.10-2.0.0.10-336-443".
Proof. vm_compute. reflexivity. Qed.
