(* ===== verification/EbpfUser.v ===== *)
(** * The user-space half of the kernel probe (ark-probe-ebpf/ark-probe-ebpf/src/main.rs)

    The program that loads the kernel half, attaches its two hooks, and starts
    one reader per processor; each reader prints the records of its processor's
    buffer until a read fails; an interrupt ends them all.  What the kernel
    answers (loading, attaching, the processors, the reads) is a parameter.

    The theorems: the program starts exactly when every step succeeds; and under
    any interleaving of the readers each prints exactly the records delivered to
    it up to its first failing read, so that a processor whose read failed stays
    silent while the program goes on. *)

From S2P Require Import Prelude Json EbpfProbe.

(** What the steps of the start-up find. *)
Record BpfEnv := mkBpfEnv {
  be_object : result string unit;                       (** [Bpf::load] *)
  be_logger : result string unit;                       (** [BpfLogger::init] *)
  be_program : string → option (result string unit);    (** in the object, and a kprobe *)
  be_load : string → result string unit;
  be_attach : string → result string unit;
  be_map : option (result string unit);                 (** in the object, and a perf array *)
  be_cpus : result string (list N);
  be_buffer : N → result string unit
}.

(** The command line: [--format], ["jsonl"] unless given. *)
Record Cli := mkCli { format : string }.
Definition cli_parse (format_arg : option string) : Cli := mkCli (default "jsonl" format_arg).

(** The readers that run, what they have printed, and how the program ended. *)
Record UserProbe := mkUserProbe {
  up_readers : gset N;
  up_out : list (N * Json);
  up_exit : option (result string unit)
}.

Inductive Startup := Monitoring (p : UserProbe) | StartFailed (e : string) | StartPanicked.

(** Looking a program up, loading and attaching it. *)
Definition attach_kprobe (env : BpfEnv) (name : string) (next : Startup) : Startup :=
  match be_program env name with
  | None => StartPanicked
  | Some (Err e) => StartFailed e
  | Some (Ok _) =>
      match be_load env name with
      | Err e => StartFailed e
      | Ok _ => match be_attach env name with Err e => StartFailed e | Ok _ => next end
      end
  end.

(** The buffers of the processors, one after the other; each gets its reader. *)
Fixpoint spawn_readers (env : BpfEnv) (cpus : list N) (readers : gset N) : Startup :=
  match cpus with
  | [] => Monitoring (mkUserProbe readers [] None)
  | cpu_id :: cpus' =>
      match be_buffer env cpu_id with
      | Err e => StartFailed e
      | Ok _ => spawn_readers env cpus' ({[cpu_id]} ∪ readers)
      end
  end.

(** The start of [main]; a logger that cannot be set up is only reported. *)
Definition probe_main (env : BpfEnv) : Startup :=
  match be_object env with
  | Err e => StartFailed e
  | Ok _ =>
      attach_kprobe env "tcp_retransmit_skb" (attach_kprobe env "tcp_sendmsg"
        (match be_map env with
         | None | Some (Err _) => StartPanicked
         | Some (Ok _) =>
             match be_cpus env with
             | Err _ => StartPanicked
             | Ok cpus => spawn_readers env cpus ∅
             end
         end))
  end.

(** A read of one processor's buffer: the ten buffers afterwards and how many of
    them were filled; or the interrupt. *)
Inductive UserInput :=
| ReadEvents (cpu_id : N) (events : result string (list (list N) * nat))
| Interrupt (r : result string unit).

(** One turn of a reader's loop. *)
Definition reader_turn (cli : Cli) (cpu_id : N) (events : result string (list (list N) * nat))
    (p : UserProbe) : UserProbe :=
  match events with
  | Ok (buffers, read) =>
      mkUserProbe (up_readers p)
        (up_out p ++ map (pair cpu_id) (output_records (format cli) (take read buffers))) (up_exit p)
  | Err _ => mkUserProbe (up_readers p ∖ {[cpu_id]}) (up_out p) (up_exit p)
  end.

Definition probe_input (cli : Cli) (p : UserProbe) (i : UserInput) : UserProbe :=
  match i with
  | ReadEvents cpu_id events =>
      if decide (cpu_id ∈ up_readers p) then reader_turn cli cpu_id events p else p
  | Interrupt r =>
      match up_exit p with
      | None => mkUserProbe ∅ (up_out p) (Some r)
      | Some _ => p
      end
  end.

Definition probe_run (cli : Cli) (p : UserProbe) (inputs : list UserInput) : UserProbe :=
  foldl (probe_input cli) p inputs.

(** ** What a reader prints *)

(** The records delivered on one processor, up to its first failing read or the
    interrupt, and whether its reader is still there. *)
Fixpoint delivered (cpu : N) (inputs : list UserInput) : list (list N) :=
  match inputs with
  | [] => []
  | Interrupt _ :: _ => []
  | ReadEvents c events :: inputs' =>
      if decide (c = cpu) then
        match events with
        | Ok (buffers, read) => take read buffers ++ delivered cpu inputs'
        | Err _ => []
        end
      else delivered cpu inputs'
  end.

Definition read_failed (cpu : N) (i : UserInput) : Prop :=
  match i with ReadEvents c (Err _) => c = cpu | Interrupt _ => True | _ => False end.
Definition interrupted (inputs : list UserInput) : option (result string unit) :=
  head (omap (λ i, match i with Interrupt r => Some r | _ => None end) inputs).

Definition printed_by (cpu : N) (p : UserProbe) : list Json :=
  omap (λ o, if decide (o.1 = cpu) then Some o.2 else None) (up_out p).

Lemma output_records_app format l1 l2 :
  output_records format (l1 ++ l2) = output_records format l1 ++ output_records format l2.
Proof. unfold output_records. by rewrite omap_app. Qed.

Lemma printed_records cpu c (js : list Json) :
  omap (λ o : N * Json, if decide (o.1 = cpu) then Some o.2 else None) (map (pair c) js)
  = if decide (c = cpu) then js else [].
Proof. induction js as [|j js IH]; csimpl; [by case_decide|]. rewrite IH. by case_decide. Qed.

Lemma stopped_run cli inputs p :
  up_readers p = ∅ → is_Some (up_exit p) → probe_run cli p inputs = p.
Proof.
  intros Hr [r He]. unfold probe_run. induction inputs as [|i inputs IH]; simpl; [done|].
  assert (probe_input cli p i = p) as ->; [|done].
  destruct i; simpl; [by rewrite decide_False by (rewrite Hr; set_solver)|by rewrite He].
Qed.

(** The run from a state in which the program has not ended. *)
Lemma probe_run_prints cli inputs p cpu :
  up_exit p = None →
  printed_by cpu (probe_run cli p inputs)
  = printed_by cpu p
    ++ (if decide (cpu ∈ up_readers p) then output_records (format cli) (delivered cpu inputs) else [])
  ∧ (cpu ∈ up_readers (probe_run cli p inputs)
     ↔ cpu ∈ up_readers p ∧ Forall (λ i, ¬ read_failed cpu i) inputs)
  ∧ up_exit (probe_run cli p inputs) = interrupted inputs.
Proof.
  revert p. induction inputs as [|i inputs IH]; intros p He.
  { simpl. split_and!; [by case_decide; rewrite app_nil_r| |done]. naive_solver. }
  change (probe_run cli p (i :: inputs)) with (probe_run cli (probe_input cli p i) inputs).
  destruct i as [c events|r].
  2: { rewrite (stopped_run cli inputs); cbn [probe_input]; rewrite He; [|done|by eexists].
       simpl. split_and!; [by case_decide; rewrite app_nil_r| |done].
       rewrite Forall_cons. simpl. set_solver. }
  assert (interrupted (ReadEvents c events :: inputs) = interrupted inputs) as -> by done.
  assert (up_exit (probe_input cli p (ReadEvents c events)) = None) as He'.
  { simpl. case_decide; [|done]. by destruct events as [[]|]. }
  destruct (IH _ He') as (-> & -> & ->). rewrite Forall_cons. clear IH He'.
  cbn [probe_input delivered read_failed].
  destruct (decide (c ∈ up_readers p)) as [Hc|Hc].
  - destruct events as [[buffers read]|e]; cbn [reader_turn up_readers]; split_and!; try done.
    + unfold printed_by. cbn [up_out]. rewrite omap_app, printed_records, <-app_assoc. f_equal.
      destruct (decide (c = cpu)) as [->|]; [|done].
      by rewrite !decide_True, output_records_app by done.
    + naive_solver.
    + change (printed_by cpu _) with (printed_by cpu p). f_equal.
      destruct (decide (c = cpu)) as [->|Hne]; [by rewrite decide_False, decide_True by set_solver|].
      destruct (decide (cpu ∈ up_readers p)); [rewrite decide_True by set_solver|rewrite decide_False by set_solver]; done.
    + set_solver.
  - split_and!; [|destruct events; set_solver|done]. f_equal.
    destruct (decide (c = cpu)) as [->|]; [by rewrite !decide_False|done].
Qed.

(** ** The start *)

Lemma attach_kprobe_monitoring env name next p :
  attach_kprobe env name next = Monitoring p
  ↔ be_program env name = Some (Ok ()) ∧ be_load env name = Ok () ∧ be_attach env name = Ok ()
    ∧ next = Monitoring p.
Proof.
  unfold attach_kprobe. destruct (be_program env name) as [[[]|]|]; [|naive_solver..].
  destruct (be_load env name) as [[]|]; [|naive_solver]. destruct (be_attach env name) as [[]|]; naive_solver.
Qed.

Lemma spawn_readers_monitoring env cpus readers p :
  spawn_readers env cpus readers = Monitoring p
  ↔ Forall (λ c, be_buffer env c = Ok ()) cpus
    ∧ p = mkUserProbe (list_to_set cpus ∪ readers) [] None.
Proof.
  revert readers. induction cpus as [|c cpus IH]; intros readers; simpl.
  { rewrite (left_id_L ∅ (∪)). rewrite Forall_nil. naive_solver. }
  rewrite Forall_cons. destruct (be_buffer env c) as [[]|e]; [|naive_solver].
  rewrite IH. assert (list_to_set cpus ∪ ({[c]} ∪ readers) = {[c]} ∪ list_to_set cpus ∪ readers) as ->
    by set_solver. naive_solver.
Qed.

(** The probe comes up exactly when the kernel half loads, both hooks are there
    and can be attached, its buffer array is there and a buffer can be opened on
    every processor; it then has one reader per processor and has printed
    nothing.  The logger plays no part. *)
Theorem probe_starts_iff env p :
  probe_main env = Monitoring p
  ↔ ∃ cpus, be_object env = Ok ()
      ∧ Forall (λ name, be_program env name = Some (Ok ()) ∧ be_load env name = Ok ()
                        ∧ be_attach env name = Ok ()) ["tcp_retransmit_skb"; "tcp_sendmsg"]
      ∧ be_map env = Some (Ok ()) ∧ be_cpus env = Ok cpus
      ∧ Forall (λ c, be_buffer env c = Ok ()) cpus
      ∧ p = mkUserProbe (list_to_set cpus) [] None.
Proof.
  unfold probe_main. destruct (be_object env) as [[]|]; [|naive_solver].
  rewrite !attach_kprobe_monitoring. setoid_rewrite Forall_cons. setoid_rewrite Forall_singleton.
  destruct (be_map env) as [[[]|]|]; [|naive_solver..].
  destruct (be_cpus env) as [cpus|]; [|naive_solver].
  rewrite spawn_readers_monitoring, (right_id_L ∅ (∪)). naive_solver.
Qed.

(** Each reader prints its processor's records and nothing else: from the start
    on, whatever the order in which the readers get their turn, what was printed
    for a processor is the output of exactly the records delivered there, in order, up
    to its first failing read or the interrupt.  A failing read ends that reader
    for good and no other, and the program runs on until the interrupt. *)
Theorem readers_print_exactly env p cli inputs cpu (Hup : probe_main env = Monitoring p) :
  let p' := probe_run cli p inputs in
  printed_by cpu p'
  = (if decide (cpu ∈ up_readers p) then output_records (format cli) (delivered cpu inputs) else [])
  ∧ (cpu ∈ up_readers p' ↔ cpu ∈ up_readers p ∧ Forall (λ i, ¬ read_failed cpu i) inputs)
  ∧ up_exit p' = interrupted inputs.
Proof.
  apply probe_starts_iff in Hup as (cpus & _ & _ & _ & _ & _ & ->).
  apply (probe_run_prints cli inputs (mkUserProbe (list_to_set cpus) [] None) cpu). done.
Qed.

(** ** Examples *)

Definition demo_bpf : BpfEnv :=
  mkBpfEnv (Ok ()) (Err "no log map") (λ _, Some (Ok ())) (λ _, Ok ()) (λ _, Ok ()) (Some (Ok ()))
    (Ok [0; 1]%N) (λ _, Ok ()).
Definition demo_buffers : list (list N) :=
  [record_bytes [0; 0; 0] [0; 0; 0; 0] [0; 0; 0; 0] demo_record]%N ++ replicate 9 [].

Definition demo_up : UserProbe := mkUserProbe (list_to_set [0; 1]%N) [] None.

(** The first processor's read fails: its later record is not printed, the other
    processor's is. *)
Lemma readers_print_exactly_witness :
  let p := probe_run (cli_parse None) demo_up
    [ReadEvents 0 (Ok (demo_buffers, 1)); ReadEvents 0 (Err "poll"); ReadEvents 0 (Ok (demo_buffers, 1));
     ReadEvents 1 (Ok (demo_buffers, 1))] in
  length (printed_by 0 p) = 1 ∧ length (printed_by 1 p) = 1 ∧ up_exit p = None.
Proof.
  pose proof (λ cpu, readers_print_exactly demo_bpf demo_up
    (cli_parse None)
    [ReadEvents 0 (Ok (demo_buffers, 1)); ReadEvents 0 (Err "poll"); ReadEvents 0 (Ok (demo_buffers, 1));
     ReadEvents 1 (Ok (demo_buffers, 1))] cpu ltac:(vm_compute; reflexivity)) as H.
  cbn zeta. split_and!.
  - rewrite (proj1 (H 0%N)). vm_compute. reflexivity.
  - rewrite (proj1 (H 1%N)). vm_compute. reflexivity.
  - rewrite (proj2 (proj2 (H 0%N))). reflexivity.
Defined.
