(* ===== verification/Probe.v ===== *)
(** * Probes of the agent (agent/src/plugin/, core/src/event.rs)

    The JSON form of an event, and the subprocess probe, which starts an external
    program, reads its lines and sends the events on them into the bus.  The
    program's output and the JSON reader are parameters.

    The theorems: an event survives its JSON form; the probe sends exactly the
    events of the readable lines, in order; and a retransmission the kernel
    probe sees ends up in the diagnosis of the process that sent. *)

From S2P Require Import Prelude Text F64 Json Event Signals Graph GraphInv RootCause GraphEffects.
From S2P Require Import EbpfProbe.

(** ** Events as JSON (the derived [Serialize] and [Deserialize]) *)

Definition event_json (e : Event) : Json :=
  JObj ([("ts", JNum (ev_ts e)); ("event_type", JStr (event_type_display (ev_type e)));
         ("entity_id", JStr (ev_entity_id e)); ("job_id", jopt JStr (ev_job_id e));
         ("pid", jopt JNum (ev_pid e)); ("value", JStr (ev_value e))]
        ++ match ev_node_id e with Some n => [("node_id", JStr n)] | None => [] end).

(** A field that may be missing or null. *)
Definition optional {A} (read : Json → option A) (v : option Json) : option (option A) :=
  match v with
  | None | Some JNull => Some None
  | Some j => Some <$> read j
  end.

Definition as_uint (max : N) (v : Json) : option N :=
  n ← as_u64 v; if decide (n ≤ max)%N then Some n else None.

Definition as_event_type (v : Json) : option EventType := s ← as_str v; event_type_of_wire s.

Definition event_of_json (v : Json) : option Event :=
  ts ← jget "ts" v ≫= as_uint u64_max;
  event_type ← jget "event_type" v ≫= as_event_type;
  entity_id ← jget "entity_id" v ≫= as_str;
  job_id ← optional as_str (jget "job_id" v);
  pid ← optional (as_uint u32_max) (jget "pid" v);
  value ← jget "value" v ≫= as_str;
  node_id ← optional as_str (jget "node_id" v);
  Some (mkEvent ts event_type entity_id job_id pid value node_id).

(** ** The subprocess probe *)

(** One run of the program: what its output gives line by line, up to the end of
    the output or the first failing read, and whether the program ends. *)
Record ChildRun := mkChildRun { child_reads : list (result string string); child_exits : bool }.

(** How reading one run ends. *)
Inductive Reading := EndOfOutput | ReadFailed (e : string) | ChannelClosed.

Section probe.
(** [serde_json::from_str] to a JSON value. *)
Context (parse_json : string → result string Json).

Definition event_of_line (line : string) : option Event :=
  match parse_json line with Ok v => event_of_json v | Err _ => None end.

(** [accepts] is the number of events the receiver still takes, when it goes
    away; [sent] are the events sent. *)
Fixpoint read_child (reads : list (result string string)) (accepts : option nat) (sent : list Event)
  : Reading * option nat * list Event :=
  match reads with
  | [] => (EndOfOutput, accepts, sent)
  | Err e :: _ => (ReadFailed e, accepts, sent)
  | Ok line_buf :: reads' =>
      let line := trim line_buf in
      if is_empty line then read_child reads' accepts sent
      else match event_of_line line with
           | Some event =>
               match accepts with
               | Some 0 => (ChannelClosed, accepts, sent)
               | Some (S n) => read_child reads' (Some n) (sent ++ [event])
               | None => read_child reads' None (sent ++ [event])
               end
           | None => read_child reads' accepts sent
           end
  end.

(** The restart loop over the runs so far: [None] when the probe is still
    running, or waiting for a program that does not end. *)
Fixpoint start_stream (runs : list (result string ChildRun)) (accepts : option nat) (sent : list Event)
  : option (result string unit) * list Event :=
  match runs with
  | [] => (None, sent)
  | Err e :: _ => (Some (Err ("启动探针进程失败: " +:+ e)), sent)
  | Ok run :: runs' =>
      match read_child (child_reads run) accepts sent with
      | (ChannelClosed, _, sent') => (Some (Err "发送事件失败（通道已关闭）: channel closed"), sent')
      | (_, accepts', sent') =>
          if child_exits run then start_stream runs' accepts' sent' else (None, sent')
      end
  end.

(** ** The probe sends exactly the events of the lines *)

(** The lines that are read. *)
Fixpoint lines_read (reads : list (result string string)) : list string :=
  match reads with Ok l :: reads' => l :: lines_read reads' | _ => [] end.

Definition events_of (reads : list (result string string)) : list Event :=
  omap (λ l, if is_empty (trim l) then None else event_of_line (trim l)) (lines_read reads).

Lemma events_of_cons l reads :
  events_of (Ok l :: reads)
  = option_list (if is_empty (trim l) then None else event_of_line (trim l)) ++ events_of reads.
Proof. unfold events_of. simpl. by destruct (if is_empty (trim l) then _ else _). Qed.

Lemma read_child_open reads sent :
  ∃ r, read_child reads None sent = (r, None, sent ++ events_of reads) ∧ r ≠ ChannelClosed.
Proof.
  revert sent. induction reads as [|[l|e] reads IH]; intros sent; simpl.
  - eexists. by rewrite app_nil_r.
  - rewrite events_of_cons. destruct (is_empty (trim l)); [apply IH|].
    destruct (event_of_line (trim l)) as [ev|]; [|apply IH].
    destruct (IH (sent ++ [ev])) as (r & -> & Hr). exists r. split; [|done]. by rewrite <- app_assoc.
  - eexists. by rewrite app_nil_r.
Qed.

(** A receiver that takes [n] more events. *)
Lemma read_child_closing reads n sent :
  let evs := events_of reads in
  (length evs ≤ n ∧ ∃ r, read_child reads (Some n) sent = (r, Some (n - length evs), sent ++ evs)
                         ∧ r ≠ ChannelClosed)
  ∨ (n < length evs ∧ read_child reads (Some n) sent = (ChannelClosed, Some 0, sent ++ take n evs)).
Proof.
  revert n sent. induction reads as [|[l|e] reads IH]; intros n sent; cbn zeta.
  - left. split; [simpl; lia|]. eexists. simpl. by rewrite app_nil_r, Nat.sub_0_r.
  - rewrite events_of_cons. cbn [read_child]. destruct (is_empty (trim l)); [apply IH|].
    destruct (event_of_line (trim l)) as [ev|]; [|apply IH]. simpl. destruct n as [|n].
    + right. split; [lia|]. by rewrite app_nil_r.
    + destruct (IH n (sent ++ [ev])) as [(Hl & r & -> & Hr)|[Hl ->]].
      * left. split; [lia|]. exists r. by rewrite <- app_assoc.
      * right. split; [lia|]. by rewrite <- app_assoc.
  - left. split; [simpl; lia|]. eexists. simpl. by rewrite app_nil_r, Nat.sub_0_r.
Qed.

(** The events of several runs. *)
Definition runs_events (runs : list ChildRun) : list Event :=
  concat (map (λ r, events_of (child_reads r)) runs).

Lemma start_stream_open runs later sent :
  Forall (λ r, child_exits r = true) runs →
  start_stream (map Ok runs ++ later) None sent = start_stream later None (sent ++ runs_events runs).
Proof.
  revert sent. induction runs as [|r runs IH]; intros sent Hx; simpl; [by rewrite app_nil_r|].
  apply Forall_cons in Hx as [Hr Hx].
  destruct (read_child_open (child_reads r) sent) as (o & -> & Ho).
  unfold runs_events in *. simpl. rewrite Hr, IH, <- app_assoc by done. by destruct o.
Qed.

Lemma start_stream_closing runs n sent :
  Forall (λ r, child_exits r = true) runs → n < length (runs_events runs) →
  ∃ e, start_stream (map Ok runs) (Some n) sent = (Some (Err e), sent ++ take n (runs_events runs)).
Proof.
  revert n sent. induction runs as [|r runs IH]; intros n sent Hx Hn; [simpl in Hn; lia|].
  apply Forall_cons in Hx as [Hr Hx]. unfold runs_events in *. simpl in Hn |- *.
  rewrite length_app in Hn.
  destruct (read_child_closing (child_reads r) n sent) as [(Hl & o & -> & Ho)|[Hl ->]].
  - rewrite Hr. destruct (IH (n - length (events_of (child_reads r)))
                            (sent ++ events_of (child_reads r)) Hx) as [e He]; [lia|].
    exists e. rewrite He, take_app_ge, <- app_assoc by lia. by destruct o.
  - eexists. by rewrite take_app_le by lia.
Qed.

(** With the receiver in place, the probe sends exactly the events of the lines
    of its program, in the order they were printed and over all restarts: blank
    and unreadable lines are passed over and cost nothing else, and a failing
    read costs the rest of that run.  When the program cannot be started or the
    receiver is gone the probe ends with an error, after what it had sent. *)
Theorem probe_sends_exactly runs
  (Hexit : Forall (λ r, child_exits r = true) runs) :
  start_stream (map Ok runs) None [] = (None, runs_events runs)
  ∧ (∀ e later, start_stream (map Ok runs ++ Err e :: later) None []
                = (Some (Err ("启动探针进程失败: " +:+ e)), runs_events runs))
  ∧ ∀ n, n < length (runs_events runs) →
      ∃ e, start_stream (map Ok runs) (Some n) [] = (Some (Err e), take n (runs_events runs)).
Proof.
  split_and!.
  - rewrite <- (app_nil_r (map Ok runs)). by rewrite start_stream_open.
  - intros e later. by rewrite start_stream_open.
  - intros n Hn. by apply (start_stream_closing runs n []).
Qed.
End probe.

(** ** Events survive their JSON form *)

(** An event that is written as JSON is read back as it was: all twelve types,
    with and without job, process and node. *)
Theorem event_json_roundtrip e
  (Hts : (ev_ts e ≤ u64_max)%N) (Hpid : ∀ p, ev_pid e = Some p → (p ≤ u32_max)%N) :
  event_of_json (event_json e) = Some e.
Proof.
  destruct e as [ts ty ent job pid val node]. simpl in Hts, Hpid.
  assert (event_type_of_wire (event_type_display ty) = Some ty) as Hty by (by destruct ty).
  unfold event_of_json, event_json, as_event_type, as_uint. simpl. rewrite decide_True by done. simpl.
  rewrite Hty. destruct job, pid as [p|], node; simpl; rewrite ?decide_True by (by apply Hpid); done.
Qed.

(** ** From the kernel to the diagnosis *)

Lemma current_pid_bound ctx : (current_pid ctx ≤ u32_max)%N.
Proof. unfold current_pid, u32_max. pose proof (N.mod_lt (N.shiftr (ctx_pid_tgid ctx) 32) (2 ^ 32)). lia. Qed.

Lemma last_sender_bound t hooks p : last_sender t hooks = Some p → (p ≤ u32_max)%N.
Proof.
  induction hooks as [|h hooks IH] using rev_ind; [done|]. rewrite last_sender_snoc.
  destruct h; simpl; [|done]. case_decide; [|done]. intros [= <-]. apply current_pid_bound.
Qed.

Definition line_end : string := String "010" "".

(** The event an agent reads for a record. *)
Definition retransmit_event (e : NetworkEvent) : Event :=
  mkEvent (ne_timestamp e / 1000000) TransportDrop (event_entity_id e) None (Some (ne_pid e))
    (pretty (ne_retransmit_count e)) None.

Definition retransmit_json (e : NetworkEvent) : Json :=
  JObj [("ts", JNum (ne_timestamp e / 1000000)); ("event_type", JStr "transport.drop");
        ("entity_id", JStr (event_entity_id e)); ("pid", JNum (ne_pid e));
        ("value", JStr (pretty (ne_retransmit_count e)))].

Lemma retransmit_json_event e :
  (ne_timestamp e < 2 ^ 64)%N → (ne_pid e ≤ u32_max)%N →
  event_of_json (retransmit_json e) = Some (retransmit_event e).
Proof.
  intros Ht Hp. unfold event_of_json, retransmit_json, as_event_type, as_uint. simpl.
  assert (ne_timestamp e / 1000000 ≤ u64_max)%N as Hts.
  { unfold u64_max. apply N.Div0.div_le_upper_bound. lia. }
  rewrite (decide_True _ _ Hts). simpl. by rewrite (decide_True _ _ Hp).
Qed.

(** C15 A retransmission is diagnosed.  Let a process send on an IPv4 socket, and no
    other process after it; when the kernel retransmits on that socket, in
    whatever task's context, the record that goes through the ring buffer (with
    any padding) is printed as one line; an agent that reads back what was
    printed sends one event, and when no cleanup is due the root causes of that
    process then include waiting for the network resource of the socket.  [render]
    and [parse_json] are the JSON writer and reader; the map has room for the
    sockets used. *)
Theorem retransmission_is_diagnosed `{!BpfHash M} {max} {keys : M → gset SocketTuple}
  `{!BpfHashLaws M max keys} (render : Json → string) (parse_json : string → result string Json)
  (hooks : list Hook) (ctx : ProbeContext) (p : N) (p1 p2 p3 : list N) (evs : list Event)
  (Hroom : size (sent_tuples hooks) ≤ max)
  (Hsender : last_sender (extract_socket_tuple_from_retransmit ctx) hooks = Some p) (Hp : (0 < p)%N)
  (Hpad : length p1 = 3 ∧ length p2 = 4 ∧ length p3 = 4) :
  let e := try_tcp_retransmit_skb (run_hooks (M := M) hooks).1 ctx in
  let line := render (retransmit_json e) +:+ line_end in
  let g := process_events state_graph_new evs in
  record_wf e →
  trim line ≠ "" → parse_json (trim line) = Ok (retransmit_json e) →
  ¬ should_cleanup g (retransmit_event e) →
  output_records "jsonl" [record_bytes p1 p2 p3 e] = [retransmit_json e]
  ∧ start_stream parse_json [Ok (mkChildRun [Ok line] true)] None [] = (None, [retransmit_event e])
  ∧ ∃ causes, find_root_cause (process_event g (retransmit_event e)).1 p = Some causes
      ∧ wait_desc (transport_resource (event_entity_id e)) ∈ causes.
Proof.
  intros e line g Hwf Hne Hparse Hdue.
  assert (ne_pid e = p) as Hpid.
  { unfold e. rewrite (retransmission_charged_exactly hooks ctx Hroom). simpl. by rewrite Hsender. }
  destruct Hpad as (H1 & H2 & H3). split_and!.
  - unfold output_records. simpl. rewrite <- (app_nil_r (record_bytes p1 p2 p3 e)).
    by rewrite (proj1 (record_roundtrip p1 p2 p3 [] e Hwf H1 H2 H3)).
  - cbn [start_stream read_child child_reads child_exits]. rewrite is_empty_false by done.
    unfold event_of_line. rewrite Hparse, retransmit_json_event; [done|apply Hwf|].
    rewrite Hpid. by eapply last_sender_bound.
  - destruct (drop_is_diagnosed evs (retransmit_event e)) as (causes & Hc & Hin);
      [done|by rewrite <- Hpid in Hp|done|].
    exists causes. unfold find_root_cause. rewrite <- Hpid. done.
Qed.

(** ** Examples *)

Definition demo_line (e : NetworkEvent) : string := "retransmit " +:+ event_entity_id e.
Definition demo_retransmit : NetworkEvent :=
  try_tcp_retransmit_skb (run_hooks (M := bounded_map SOCKET_TO_PID_MAX) (demo_hooks 2)).1
    (demo_ctx 2 3 1200000000).
Definition demo_reader (s : string) : result string Json :=
  if decide (s = demo_line demo_retransmit) then Ok (retransmit_json demo_retransmit) else Err "eof".

Lemma retransmission_is_diagnosed_witness :
  let g := process_events state_graph_new [mkEvent 1000 IntentRun "job" None None "" None]%N in
  output_records "jsonl" [record_bytes [0; 0; 0] [0; 0; 0; 0] [0; 0; 0; 0] demo_retransmit]%N
  = [retransmit_json demo_retransmit]
  ∧ start_stream demo_reader [Ok (mkChildRun [Ok (demo_line demo_retransmit +:+ line_end)] true)] None []
    = (None, [retransmit_event demo_retransmit])
  ∧ ∃ causes, find_root_cause (process_event g (retransmit_event demo_retransmit)).1 77 = Some causes
      ∧ wait_desc (transport_resource (event_entity_id demo_retransmit)) ∈ causes.
Proof.
  apply (retransmission_is_diagnosed (M := bounded_map SOCKET_TO_PID_MAX) (max := SOCKET_TO_PID_MAX)
           (λ _, demo_line demo_retransmit) demo_reader
           (demo_hooks 2) (demo_ctx 2 3 1200000000) 77 [0; 0; 0] [0; 0; 0; 0] [0; 0; 0; 0]
           [mkEvent 1000 IntentRun "job" None None "" None])%N.
  - apply (bool_decide_unpack _). vm_compute. exact I.
  - vm_compute. reflexivity.
  - reflexivity.
  - repeat split.
  - vm_compute. repeat split.
  - vm_compute. discriminate.
  - vm_compute. reflexivity.
  - apply (bool_decide_unpack _). vm_compute. exact I.
Defined.

Lemma event_json_roundtrip_witness :
  event_of_json (event_json (mkEvent 1741234567891 ErrorNet "roce-mlx5_0" (Some "job-rdma")
                               (Some 2345) "pfc_storm" (Some "node-a"))%N)
  = Some (mkEvent 1741234567891 ErrorNet "roce-mlx5_0" (Some "job-rdma") (Some 2345) "pfc_storm"
            (Some "node-a"))%N.
Proof.
  apply event_json_roundtrip; [vm_compute; discriminate|intros p [= <-]; vm_compute; discriminate].
Defined.

Definition demo_runs : list ChildRun :=
  [mkChildRun [Ok (" " +:+ line_end); Ok (demo_line demo_retransmit); Ok "{"; Err "invalid utf-8"] true;
   mkChildRun [Ok (demo_line demo_retransmit +:+ line_end)] true].

Lemma probe_sends_exactly_witness :
  runs_events demo_reader demo_runs = [retransmit_event demo_retransmit; retransmit_event demo_retransmit]
  ∧ start_stream demo_reader (map Ok demo_runs) None [] = (None, runs_events demo_reader demo_runs).
Proof.
  split; [vm_compute; reflexivity|].
  apply (probe_sends_exactly demo_reader demo_runs). repeat constructor.
Defined.

(** A line that is not UTF-8 ends the reading of a program that goes on running:
    the probe waits for its end and sends nothing more. *)
Example invalid_line_silences_the_probe :
  start_stream demo_reader
    [Ok (mkChildRun [Err "stream did not contain valid UTF-8"; Ok (demo_line demo_retransmit)] false);
     Ok (mkChildRun [Ok (demo_line demo_retransmit)] true)] None []
  = (None, []).
Proof. vm_compute. reflexivity. Qed.

(** The kernel probe stamps its records with the time since boot, the other
    events carry the time of day: at the next cleanup a wait that has just been
    reported is too old and is dropped. *)
Example boot_time_wait_is_dropped :
  let start t := mkEvent t ProcessState "proc" None (Some 77%N) "start" None in
  let evs := [start 1741234567000%N; retransmit_event demo_retransmit] in
  find_root_cause (process_events state_graph_new evs) 77
  = Some [wait_desc (transport_resource (event_entity_id demo_retransmit))]
  ∧ find_root_cause (process_events state_graph_new (evs ++ [start 1741234597000%N])) 77 = Some [].
Proof. vm_compute. split; reflexivity. Qed.
