(* ===== verification/Wire.v ===== *)
(** * Between agent and hub (agent/src/hub_forwarder.rs, hub/src/main.rs)

    What goes over the WebSocket in both directions, as JSON: the envelope the
    forwarder writes and the hub reads, and the command the hub writes and the
    listener of the forwarder reads and carries out; and the name under which an
    agent presents itself.  [serde_json] between text and value is a parameter.
    (The derived readers of a struct also take an array of its fields; neither
    side writes one.)

    The theorems compose the two programs: the events an agent forwards are the
    events the hub takes in, in order, under the agent's name; and the commands
    the hub queues are carried out by the agent, in order. *)

From S2P Require Import Prelude Text F64 Json Event Signals Graph GraphInv Dedup K8s Wal Hub.
From S2P Require Import HubApi Exec Forwarder Metrics Daemon HubSystem EbpfProbe Probe.

(** ** The envelope *)

(** The derived [Serialize] of the agent's envelope. *)
Definition envelope_json (m : Forwarder.HubEventEnvelope) : Json :=
  JObj [("kind", JStr (kind m)); ("protocol_version", JStr (protocol_version m));
        ("schema_version", JStr (schema_version m)); ("agent_id", JStr (agent_id m));
        ("feature_flags", jstrings (feature_flags m)); ("event", event_json (event m))].

(** [#[serde(default)]]: a field that may be missing, but not null. *)
Definition defaulted {A} (read : Json → option A) (v : option Json) : option (option A) :=
  match v with
  | None => Some None
  | Some j => Some <$> read j
  end.

Definition as_strings (v : Json) : option (list string) := as_array v ≫= mapM as_str.

(** The derived [Deserialize] of the hub's envelope. *)
Definition envelope_of_json (v : Json) : option Hub.HubEventEnvelope :=
  kind ← defaulted as_str (jget "kind" v);
  protocol_version ← defaulted as_str (jget "protocol_version" v);
  schema_version ← defaulted as_str (jget "schema_version" v);
  agent_id ← optional as_str (jget "agent_id" v);
  feature_flags ← defaulted as_strings (jget "feature_flags" v);
  event ← jget "event" v ≫= event_of_json;
  Some (Hub.mkHubEventEnvelope kind protocol_version schema_version agent_id feature_flags event).

(** ** Commands *)

(** The derived [Deserialize] of the agent's command. *)
Definition command_of_json (v : Json) : option HubCommand :=
  intent ← jget "intent" v ≫= as_str;
  target_pid ← jget "target_pid" v ≫= as_uint u32_max;
  action ← optional as_str (jget "action" v);
  Some (mkHubCommand intent target_pid action).

(** What the listener reads from the connection. *)
Inductive Incoming := InText (s : string) | InClose | InError (e : string) | InOther.

Section wire.
Context (parse_json : string → result string Json) (render : Json → string).

(** [serde_json::from_str] at a type. *)
Definition read_as {A} (of_json : Json → option A) (text : string) : result string A :=
  match parse_json text with
  | Ok v => match of_json v with Some a => Ok a | None => Err "invalid type or missing field" end
  | Err e => Err e
  end.

(** The command listener: the results of the commands and the state they leave;
    the rest of the input when it ends early. *)
Fixpoint command_listener {W} (os : Os W) (w : W) (msgs : list Incoming)
  : list (result string unit) * W * list Incoming :=
  match msgs with
  | [] => ([], w, [])
  | InText text :: msgs' =>
      match read_as command_of_json text with
      | Ok cmd =>
          let '(r, w) := handle_command os w cmd in
          let '(rs, w, rest) := command_listener os w msgs' in (r :: rs, w, rest)
      | Err _ => command_listener os w msgs'
      end
  | InClose :: msgs' => ([], w, msgs')
  | InError _ :: msgs' => ([], w, msgs')
  | InOther :: msgs' => command_listener os w msgs'
  end.

Definition event_text (m : Forwarder.HubEventEnvelope) : string := render (envelope_json m).
End wire.

(** ** The name of an agent *)

(** [output] is the result of running [hostname], whose exit status is not
    looked at; [var] is [HOSTNAME], when it is set to Unicode text. *)
Definition get_node_id (output : result string string) (var : option string) : string :=
  let fallback := default "unknown-node" var in
  match output with
  | Ok stdout => if utf8_valid stdout then trim stdout else fallback
  | Err _ => fallback
  end.

(** ** From agent to hub *)

Definition event_ranges (e : Event) : Prop :=
  (ev_ts e ≤ u64_max)%N ∧ ∀ p, ev_pid e = Some p → (p ≤ u32_max)%N.

Lemma mapM_as_str l : mapM as_str (map JStr l) = Some l.
Proof. induction l as [|s l IH]; [done|]. simpl. by rewrite IH. Qed.

Lemma envelope_roundtrip m :
  event_ranges (event m) →
  envelope_of_json (envelope_json m)
  = Some (Hub.mkHubEventEnvelope (Some (kind m)) (Some (protocol_version m)) (Some (schema_version m))
            (Some (agent_id m)) (Some (feature_flags m)) (event m)).
Proof.
  intros [Hts Hpid]. pose proof (event_json_roundtrip (event m) Hts Hpid) as He.
  unfold envelope_of_json. destruct m as [k p sv a fl e]. cbn [event] in *.
  change (jget "event" _) with (Some (event_json e)). cbn [mbind option_bind]. rewrite He.
  change (jget "feature_flags" _) with (Some (jstrings fl)). unfold defaulted, as_strings.
  cbn [as_array jstrings mbind option_bind]. by rewrite mapM_as_str.
Qed.

(** Every envelope on the network is one the forwarder made. *)
Definition own_envelope (f : HubForwarder) (m : Forwarder.HubEventEnvelope) : Prop :=
  ∃ e, m = envelope f e.

Lemma own_envelope_id f f' m : fw_node_id f = fw_node_id f' → own_envelope f m → own_envelope f' m.
Proof. intros Hid [e ->]. exists e. unfold envelope. by rewrite Hid. Qed.

(** Sending adds only envelopes of the forwarder, and leaves its name alone. *)
Definition sends_own (f : HubForwarder) (n : Net) (f' : HubForwarder) (n' : Net) : Prop :=
  fw_node_id f' = fw_node_id f
  ∧ (Forall (own_envelope f) (net_sent n) → Forall (own_envelope f) (net_sent n')).

Lemma sends_own_refl f n : sends_own f n f n.
Proof. by split. Qed.

Lemma sends_own_trans f n f1 n1 f2 n2 :
  sends_own f n f1 n1 → sends_own f1 n1 f2 n2 → sends_own f n f2 n2.
Proof.
  intros [Hi Hs] [Hi1 Hs1]. split; [congruence|]. intros H.
  eapply Forall_impl; [apply Hs1; eapply Forall_impl; [apply Hs, H|]|];
    intros m; by apply own_envelope_id.
Qed.

Lemma forward_event_own f n e :
  let '(_, f', n') := forward_event f n e in sends_own f n f' n'.
Proof.
  unfold forward_event. destruct (fw_link f) as [[|k]|]; [by split| |by split].
  split; [done|]. simpl. intros H. apply Forall_app. split; [done|]. by repeat econstructor.
Qed.

Lemma flush_loop_own p f n :
  let '(_, f', n') := flush_loop f n p in sends_own f n f' n'.
Proof.
  revert f n. induction p as [|e p IH]; intros f n; simpl; [by split|].
  pose proof (forward_event_own f n e) as H. destruct (forward_event f n e) as [[[] f1] n1].
  - specialize (IH f1 n1). destruct (flush_loop f1 n1 p) as [[r f2] n2]. by eapply sends_own_trans.
  - done.
Qed.

Lemma reconnect_own f n :
  let '(_, f', n') := reconnect f n in sends_own f n f' n'.
Proof. unfold reconnect, Forwarder.connect. destruct (net_connects n) as [|[] ?]; by split. Qed.

Lemma try_flush_own f n :
  let '(f', n') := try_flush f n in sends_own f n f' n'.
Proof.
  unfold try_flush. destruct (fw_pending f) eqn:Ep; [apply sends_own_refl|]. unfold flush_pending_events.
  pose proof (flush_loop_own (fw_pending f) f n) as H1.
  destruct (flush_loop f n (fw_pending f)) as [[[] f1] n1]; [done|].
  pose proof (reconnect_own (count_retry (count_flush_failure f1)) n1) as H2.
  destruct (reconnect _ n1) as [[[] f2] n2]; [|by eapply sends_own_trans].
  pose proof (flush_loop_own (fw_pending f2) f2 n2) as H3.
  destruct (flush_loop f2 n2 (fw_pending f2)) as [[[] f3] n3];
    (eapply sends_own_trans; [exact H1|eapply sends_own_trans; [exact H2|exact H3]]).
Qed.

Lemma forward_with_retry_own f n e :
  let '(_, f', n') := forward_event_with_retry f n e in sends_own f n f' n'.
Proof.
  unfold forward_event_with_retry. fold (try_flush f n).
  pose proof (try_flush_own f n) as H1. destruct (try_flush f n) as [f1 n1].
  pose proof (forward_event_own f1 n1 e) as H2.
  destruct (forward_event f1 n1 e) as [[[] f2] n2]; [by eapply sends_own_trans|].
  assert (sends_own f n (count_retry (enqueue_pending_event f2 e)) n2) as H3.
  { eapply sends_own_trans; [exact H1|]. eapply sends_own_trans; [exact H2|].
    unfold enqueue_pending_event. case_decide; by split. }
  pose proof (reconnect_own (count_retry (enqueue_pending_event f2 e)) n2) as H4.
  destruct (reconnect _ n2) as [[[] f3] n3]; [|by eapply sends_own_trans].
  pose proof (flush_loop_own (fw_pending f3) f3 n3) as H5. unfold flush_pending_events.
  destruct (flush_loop f3 n3 (fw_pending f3)) as [[[] f4] n4];
    (eapply sends_own_trans; [exact H3|eapply sends_own_trans; [exact H4|exact H5]]).
Qed.

(** *** The daemon's filter and its forwarder *)

(** The types that are always forwarded. *)
Definition urgent (e : Event) : bool :=
  match ev_type e with
  | ErrorHw | ErrorNet | ProcessState | TransportDrop | TopoLinkDown => true
  | _ => false
  end.

(** The filter changes what it remembers and nothing else. *)
Lemma should_forward_frame f e :
  let '(wanted, f') := should_forward f e in
  fw_node_id f' = fw_node_id f ∧ fw_pending f' = fw_pending f ∧ fw_link f' = fw_link f
  ∧ fw_dropped_total f' = fw_dropped_total f ∧ (urgent e = true → wanted = true).
Proof.
  unfold should_forward, first_binding, urgent.
  destruct (ev_type e); try done; (destruct (ev_pid e) as [pid|]; [|done]); case_decide; try done.
  all: destruct (parse_f64 (ev_value e)) as [c|]; [|done].
  all: destruct (fw_last_util f !! (pid, ev_entity_id e)) as [l|]; [|done].
  all: by destruct (drastic l c).
Qed.

(** After some of the events have been offered: those that passed the filter, all
    the urgent ones among them, have been sent, are queued, or were dropped. *)
Record offered (node : string) (past : list Event) (f : HubForwarder) (n : Net) (passed : list Event)
  : Prop := {
  of_ok : fw_ok f;
  of_id : fw_node_id f = node;
  of_passed : sublist passed past;
  of_urgent : filter (λ e, urgent e = true) passed = filter (λ e, urgent e = true) past;
  of_stream : sublist (stream f n) (map (with_node_id (Some node)) passed);
  of_count : (N.of_nat (length (stream f n)) + fw_dropped_total f = N.of_nat (length passed))%N;
  of_own : Forall (own_envelope (forwarder_new node)) (net_sent n)
}.

Lemma offer_offered node past f n passed e :
  offered node past f n passed → (N.of_nat (length past) < u64_max)%N →
  let '(f', n') := offer (f, n) e in ∃ passed', offered node (past ++ [e]) f' n' passed'.
Proof.
  intros [Hok Hid Hp Hu Hs Hc Ho] Hlen. unfold offer.
  pose proof (should_forward_frame f e) as Hfr. destruct (should_forward f e) as [wanted f1].
  destruct Hfr as (Hid1 & Hpe1 & Hl1 & Hd1 & Hw).
  assert (stream f1 n = stream f n) as Hs1 by (unfold stream, attributed; by rewrite Hpe1, Hid1).
  assert (fw_ok f1) as Hok1 by (unfold fw_ok in *; by rewrite Hpe1, Hl1).
  pose proof (sublist_length _ _ Hp) as Hpl.
  destruct wanted.
  - pose proof (forward_with_retry_spec f1 n e Hok1 ltac:(rewrite Hd1; lia)) as Hf.
    pose proof (forward_with_retry_own f1 n e) as Hown.
    destruct (forward_event_with_retry f1 n e) as [[r f2] n2].
    destruct Hf as (Hok2 & Hid2 & kept & Hs2 & Hk & Hc2). destruct Hown as [_ Hown].
    exists (passed ++ [e]). unfold attributed in Hs2. rewrite Hid1, Hid in Hs2. simpl in Hs2.
    split; [done|congruence|by apply sublist_app| | | |].
    + by rewrite !filter_app, Hu.
    + rewrite map_app, Hs2. apply sublist_app; [|done]. etrans; [exact Hk|]. by rewrite Hs1.
    + rewrite Hs2, !length_app. simpl. rewrite Hs1, Hd1 in Hc2. lia.
    + eapply Forall_impl; [apply Hown; eapply Forall_impl; [exact Ho|]|]; intros m;
        apply own_envelope_id; simpl; congruence.
  - exists passed. split; [done|congruence| | |by rewrite Hs1|by rewrite Hs1, Hd1|done].
    + by apply sublist_inserts_r.
    + rewrite filter_app, <-Hu, filter_cons_False, filter_nil, app_nil_r; [done|].
      intros Hue. by specialize (Hw Hue).
Qed.

(** The daemon offers every event it receives. *)
Lemma daemon_run_offered node inputs d past f passed :
  d_forwarder d = Some f → offered node past f (d_net d) passed →
  (N.of_nat (length past + length (received inputs)) < u64_max)%N →
  ∃ f' passed', d_forwarder (daemon_run d inputs) = Some f'
    ∧ offered node (past ++ received inputs) f' (d_net (daemon_run d inputs)) passed'.
Proof.
  revert d past f passed. induction inputs as [|i inputs IH]; intros d past f passed Hf Hoff Hlen.
  { exists f, passed. by rewrite app_nil_r. }
  destruct i as [e|].
  - assert (received (Daemon.Received e :: inputs) = e :: received inputs) as Hrec by done.
    rewrite Hrec in *. simpl in Hlen.
    pose proof (offer_offered node past f (d_net d) passed e Hoff ltac:(lia)) as Ho.
    destruct (offer (f, d_net d) e) as [f1 n1] eqn:Eo. destruct Ho as [passed1 Ho].
    rewrite cons_middle, app_assoc.
    apply (IH (daemon_event d e) (past ++ [e]) f1 passed1).
    + unfold daemon_event. by rewrite Hf, Eo.
    + unfold daemon_event. by rewrite Hf, Eo.
    + rewrite length_app. simpl. lia.
  - by apply (IH _ past f passed).
Qed.

Section agent_to_hub.
Context (parse_json : string → result string Json) (render : Json → string)
        (to_json : Event → result string string) (hasher : fingerprint_input → N)
        (size : nat) (window : N).

Local Notation parse_envelope := (read_as parse_json envelope_of_json).
Local Notation from_json := (read_as parse_json event_of_json).
Local Notation hub_ingest := (ingest to_json hasher size window).
Local Notation hub_messages :=
  (run_messages parse_envelope from_json to_json hasher size window).

(** The hub reads the envelope of an agent as its event. *)
Lemma envelope_is_read f e :
  event_ranges e →
  parse_json (event_text render (envelope f e)) = Ok (envelope_json (envelope f e)) →
  parse_hub_event_message parse_envelope from_json (event_text render (envelope f e))
  = Ok (with_node_id (Some (fw_node_id f)) e).
Proof.
  intros Hr Hp. unfold parse_hub_event_message, read_as. rewrite Hp.
  rewrite envelope_roundtrip by done. done.
Qed.

(** The envelopes of one agent, as the hub can read them. *)
Definition readable (node : string) (msgs : list HubEventEnvelope) : Prop :=
  Forall (λ m, ∃ e, m = envelope (forwarder_new node) e ∧ event_ranges e
    ∧ parse_json (event_text render m) = Ok (envelope_json m)) msgs.

(** What the hub reads: the texts that arrive on a connection between its
    handshake and its end, each with the number of its connection. *)
Fixpoint texts_read (open : list bool) (ins : list Hub.Input) : list (nat * string) :=
  match ins with
  | [] => []
  | Hub.Connected _ :: ins' => texts_read (open ++ [true]) ins'
  | Hub.Received i msg :: ins' =>
      if decide (open !! i = Some true) then
        match msg with
        | Text t => (i, t) :: texts_read open ins'
        | OtherMessage => texts_read open ins'
        | Close | ReadError _ => texts_read (<[i := false]> open) ins'
        end
      else texts_read open ins'
  | Hub.StreamEnded i :: ins' =>
      texts_read (if decide (open !! i = Some true) then <[i := false]> open else open) ins'
  end.

(** The part of a tagged list that belongs to connection [i]. *)
Definition on_conn {A} (i : nat) (l : list (nat * A)) : list A :=
  omap (λ p, if decide (p.1 = i) then Some p.2 else None) l.

Lemma on_conn_cons {A} i j (x : A) l :
  on_conn i ((j, x) :: l) = (if decide (j = i) then [x] else []) ++ on_conn i l.
Proof. unfold on_conn. csimpl. by case_decide. Qed.

Definition texts : list HubEventEnvelope → list string := map (event_text render).

Lemma handle_message_core c h node m e :
  m = envelope (forwarder_new node) e → event_ranges e →
  parse_json (event_text render m) = Ok (envelope_json m) →
  let r := handle_message parse_envelope from_json to_json hasher size window c h (Text (event_text render m)) in
  is_Some r.1 ∧ core r.2 = core (hub_ingest h (event m)).
Proof.
  intros -> Hr Hp. simpl. rewrite envelope_is_read by done. unfold attribute. simpl.
  case_decide; simpl; (split; [by eexists|by apply ingest_core]).
Qed.

Lemma open_insert (cs : list (option Conn)) i (o : option Conn) :
  map (λ c, bool_decide (is_Some c)) (<[i := o]> cs)
  = <[i := bool_decide (is_Some o)]> (map (λ c, bool_decide (is_Some c)) cs).
Proof. by rewrite list_fmap_insert. Qed.

(** The hub with some connections: it takes in what it reads, in the order in
    which it reads it. *)
Lemma hub_takes_in node ins h cs (sent_on : nat → list HubEventEnvelope) :
  (∀ i, readable node (sent_on i)) →
  (∀ i, on_conn i (texts_read (map (λ c, bool_decide (is_Some c)) cs) ins) `prefix_of` texts (sent_on i)) →
  ∃ ms, map (prod_map id (event_text render)) ms = texts_read (map (λ c, bool_decide (is_Some c)) cs) ins
    ∧ (∀ i, on_conn i ms `prefix_of` sent_on i)
    ∧ core (foldl (hub_input parse_envelope from_json to_json hasher size window) (h, cs) ins).1
      = core (foldl hub_ingest h (map (event ∘ snd) ms)).
Proof.
  revert h cs sent_on. induction ins as [|inp ins IH]; intros h cs sent_on Hr Hp; simpl.
  { exists []. split_and!; [done| |done]. intros i. apply prefix_nil. }
  assert (∀ i, (map (λ c : option Conn, bool_decide (is_Some c)) cs !! i = Some true)
          ↔ ∃ c, cs !! i = Some (Some c)) as Hopen.
  { intros i. rewrite list_lookup_fmap. destruct (cs !! i) as [[c|]|]; simpl; naive_solver. }
  (* an input that changes nothing the graph or the log depends on *)
  assert (∀ h1 cs1, core h1 = core h →
    (∀ i, on_conn i (texts_read (map (λ c, bool_decide (is_Some c)) cs1) ins) `prefix_of` texts (sent_on i)) →
    ∃ ms, map (prod_map id (event_text render)) ms = texts_read (map (λ c, bool_decide (is_Some c)) cs1) ins
      ∧ (∀ i, on_conn i ms `prefix_of` sent_on i)
      ∧ core (foldl (hub_input parse_envelope from_json to_json hasher size window) (h1, cs1) ins).1
        = core (foldl hub_ingest h (map (event ∘ snd) ms))) as Hskip.
  { intros h1 cs1 Hc Hp1. destruct (IH h1 cs1 sent_on Hr Hp1) as (ms & H1 & H2 & H3).
    exists ms. split_and!; [done..|]. rewrite H3. by apply ingest_core_run. }
  destruct inp as [ip|i msg|i]; simpl in Hp |- *.
  - specialize (Hskip (with_connections (<["node-" +:+ ip := N.of_nat (length cs)]> (hub_connections h)) h)
      (cs ++ [Some (mkConn ("node-" +:+ ip) (N.of_nat (length cs)))])). rewrite map_app in Hskip. by apply Hskip.
  - destruct (decide (_ = Some true)) as [Ho|Ho].
    2: { destruct (cs !! i) as [[c|]|] eqn:Ec; [|by apply Hskip..]. destruct Ho. apply Hopen. eauto. }
    apply Hopen in Ho as [c Ec]. rewrite Ec. destruct msg as [t| | |e]; [|simpl..].
    + pose proof (Hp i) as Hi. rewrite on_conn_cons, decide_True in Hi by done.
      destruct (sent_on i) as [|m rest] eqn:Es; [by apply prefix_nil_inv in Hi|].
      pose proof (prefix_cons_inv_1 _ _ _ _ Hi) as Ht. apply prefix_cons_inv_2 in Hi.
      pose proof (Hr i) as Hri. rewrite Es in Hri. apply Forall_cons in Hri as [(e & Hm & Hre & Hpe) Hrest].
      destruct (handle_message_core c h node m e Hm Hre Hpe) as [[c' Hc'] Hcore]. rewrite <-Ht in Hcore, Hc'.
      destruct (handle_message _ _ _ _ _ _ c h (Text t)) as [o h1] eqn:Eh. simpl in Hc', Hcore. subst o.
      assert (map (λ c, bool_decide (is_Some c)) (<[i := Some c']> cs)
              = map (λ c, bool_decide (is_Some c)) cs) as Hsame.
      { rewrite open_insert. apply list_insert_id. apply Hopen. eauto. }
      destruct (IH h1 (<[i := Some c']> cs) (λ j, if decide (j = i) then rest else sent_on j)) as (ms & H1 & H2 & H3).
      { intros j. by case_decide. }
      { intros j. rewrite Hsame. specialize (Hp j). rewrite on_conn_cons in Hp.
        destruct (decide (j = i)) as [->|]; [done|]. by rewrite decide_False in Hp by done. }
      exists ((i, m) :: ms). split_and!.
      * simpl. by rewrite H1, Hsame, Ht.
      * intros j. rewrite on_conn_cons. specialize (H2 j). destruct (decide (i = j)) as [<-|Hne].
        { rewrite decide_True in H2 by done. rewrite Es. by apply prefix_cons. }
        by rewrite decide_False in H2 by done.
      * rewrite H3. simpl. by apply ingest_core_run.
    + specialize (Hskip (disconnect c h) (<[i := None]> cs)). rewrite open_insert in Hskip. by apply Hskip.
    + rewrite list_insert_id by done. by apply Hskip.
    + specialize (Hskip h (<[i := None]> cs)). rewrite open_insert in Hskip. by apply Hskip.
  - destruct (decide (_ = Some true)) as [Ho|Ho].
    + apply Hopen in Ho as [c Ec]. rewrite Ec.
      specialize (Hskip (disconnect c h) (<[i := None]> cs)). rewrite open_insert in Hskip. by apply Hskip.
    + destruct (cs !! i) as [[c|]|] eqn:Ec; [|by apply Hskip..]. destruct Ho. apply Hopen. eauto.
Qed.

Lemma on_conn_total {A} (l : list (nat * A)) n :
  Forall (λ p, p.1 < n) l → map snd l ≡ₚ concat (map (λ i, on_conn i l) (seq 0 n)).
Proof.
  induction l as [|[j x] l IH]; intros Hall; simpl.
  { induction (seq 0 n) as [|i js IHi]; [done|]. done. }
  apply Forall_cons in Hall as [Hj Hall]. simpl in Hj. rewrite (IH Hall). clear IH Hall.
  assert (∀ js, NoDup js → (j ∈ js →
      x :: concat (map (λ i, on_conn i l) js) ≡ₚ concat (map (λ i, on_conn i ((j, x) :: l)) js))
    ∧ (j ∉ js → concat (map (λ i, on_conn i ((j, x) :: l)) js) = concat (map (λ i, on_conn i l) js))) as Hgen.
  { induction js as [|i js IH]; intros Hnd; [split; [by intros ?%elem_of_nil|done]|].
    apply NoDup_cons in Hnd as [Hi Hnd]. destruct (IH Hnd) as [IH1 IH2].
    cbn [map concat]. rewrite on_conn_cons. split.
    - intros [->|Hin]%elem_of_cons.
      + rewrite decide_True, IH2 by done. done.
      + rewrite decide_False by (by intros ->). cbn [app]. rewrite <-IH1 by done. by apply Permutation_middle.
    - intros [Hne Hni]%not_elem_of_cons. rewrite decide_False, IH2 by done. done. }
  apply Hgen; [apply NoDup_seq|]. apply elem_of_seq. lia.
Qed.

(** C18 From the daemon's events to the hub's graph: a daemon that reached its hub
    once passes on, in order and stamped with its name, the events its filter
    selects, every error, process, drop and link event among them: each has been
    sent, waits in the queue, or is counted as dropped.  The messages sent are
    spread over the connections the daemon opened, [sent_on] says which on which;
    the hub serves these connections in tasks of their own, so that handshakes,
    messages and ends of connections come in any order, and may not get to read
    all that was sent.  Then the hub's graph, window, log and filter are those of
    the events it read: of each connection a prefix of what was sent on it, in
    order, and all the events sent when it read everything. *)
Theorem daemon_events_reach_hub node k rest inputs conns sent_on ins h
  (Hlen : (N.of_nat (length (received inputs)) < u64_max)%N)
  (Hrange : Forall event_ranges (received inputs)) :
  let d := daemon_run (daemon_start true node (mkNet (Some k :: rest) [])) inputs in
  let sent := net_sent (d_net d) in
  (∀ m, m ∈ sent → parse_json (event_text render m) = Ok (envelope_json m)) →
  concat (map sent_on (seq 0 conns)) = sent → (∀ i, conns ≤ i → sent_on i = []) →
  (∀ i, on_conn i (texts_read [] ins) `prefix_of` map (event_text render) (sent_on i)) →
  (∃ f passed, d_forwarder d = Some f
    ∧ sublist passed (received inputs)
    ∧ filter (λ e, urgent e = true) passed = filter (λ e, urgent e = true) (received inputs)
    ∧ sublist (map event sent ++ attributed f (fw_pending f)) (map (with_node_id (Some node)) passed)
    ∧ (N.of_nat (length sent + length (fw_pending f)) + fw_dropped_total f = N.of_nat (length passed))%N)
  ∧ ∃ ms, map (prod_map id (event_text render)) ms = texts_read [] ins
    ∧ (∀ i, on_conn i ms `prefix_of` sent_on i)
    ∧ core (foldl (hub_input parse_envelope from_json to_json hasher size window) (h, []) ins).1
      = core (foldl hub_ingest h (map (event ∘ snd) ms))
    ∧ ((∀ i, length (on_conn i (texts_read [] ins)) = length (sent_on i)) → map snd ms ≡ₚ sent).
Proof.
  intros d sent Hcodec Hsplit Hout Hread.
  destruct (daemon_run_offered node inputs (daemon_start true node (mkNet (Some k :: rest) [])) []
              (with_link (Some k) (forwarder_new node)) []) as (f & passed & Hf & Hoff); [done| |done|].
  { split; try done. split; [simpl; unfold PENDING_EVENT_CAPACITY; lia|done]. }
  fold d in Hf, Hoff. destruct Hoff as [_ Hid Hp Hu Hs Hcnt Hown]. simpl in Hp, Hu. split.
  { exists f, passed. split_and!; [done..|].
    unfold stream, attributed in Hcnt. rewrite length_app, !length_map in Hcnt. done. }
  assert (readable node sent) as Hall.
  { apply Forall_forall. intros m Hm. rewrite Forall_forall in Hown. destruct (Hown m Hm) as [e ->].
    exists e. split_and!; [done| |by apply Hcodec].
    assert (with_node_id (Some node) e ∈ map (with_node_id (Some node)) passed) as He.
    { eapply sublist_subseteq; [exact Hs|]. apply elem_of_app. left.
      apply list_elem_of_fmap. by exists (envelope (forwarder_new node) e). }
    apply list_elem_of_fmap in He as (e' & Heq & He'). rewrite Forall_forall in Hrange.
    pose proof (Hrange _ (sublist_subseteq _ _ Hp _ He')) as Hr. destruct e, e'. by simplify_eq/=. }
  destruct (hub_takes_in node ins h [] sent_on) as (ms & H1 & H2 & H3).
  { intros i. destruct (decide (i < conns)) as [Hi|Hi]; [|rewrite Hout by lia; by apply Forall_nil].
    unfold readable. rewrite <-Hsplit in Hall. unfold readable in Hall. rewrite Forall_concat in Hall.
    rewrite Forall_forall in Hall. apply Hall, list_elem_of_fmap. exists i. split; [done|].
    apply elem_of_seq. lia. }
  { done. }
  cbn [map] in H1. exists ms. split_and!; [done..|]. intros Hfull.
  assert (∀ i, on_conn i ms = sent_on i) as Heq.
  { intros i. destruct (H2 i) as [tl Htl]. rewrite Htl. specialize (Hfull i). rewrite <-H1 in Hfull.
    assert (∀ l, on_conn i (map (prod_map id (event_text render)) l) = map (event_text render) (on_conn i l)) as Hmap.
    { induction l as [|[j m] l IH]; [done|]. cbn [map prod_map fst snd id]. rewrite !on_conn_cons, IH, map_app.
      by case_decide. }
    rewrite Hmap, length_map, Htl, length_app in Hfull. destruct tl; [by rewrite app_nil_r|]. simpl in Hfull. lia. }
  rewrite (on_conn_total ms conns).
  - rewrite <-Hsplit. by rewrite (map_ext _ sent_on).
  - apply Forall_forall. intros [i m] Hm. simpl. destruct (decide (i < conns)) as [|Hi]; [done|].
    assert (m ∈ on_conn i ms) as Hin.
    { apply list_elem_of_omap. exists (i, m). split; [done|]. simpl. by rewrite decide_True. }
    rewrite Heq, Hout in Hin by lia. by apply elem_of_nil in Hin.
Qed.
End agent_to_hub.

(** ** From hub to agent *)

(** A command survives its JSON form. *)
Lemma command_roundtrip pid action :
  (pid ≤ u32_max)%N →
  command_of_json (fix_command pid action) = Some (mkHubCommand "fix" pid (Some action)).
Proof.
  intros Hp. unfold command_of_json, fix_command, as_uint. simpl. by rewrite decide_True.
Qed.

(** Commands one after the other. *)
Fixpoint run_commands {W} (os : Os W) (w : W) (cmds : list HubCommand) : list (result string unit) * W :=
  match cmds with
  | [] => ([], w)
  | cmd :: cmds' =>
      let '(r, w1) := handle_command os w cmd in
      let '(rs, w2) := run_commands os w1 cmds' in (r :: rs, w2)
  end.

Lemma run_commands_length {W} (os : Os W) w cmds : length (run_commands os w cmds).1 = length cmds.
Proof.
  revert w. induction cmds as [|cmd cmds IH]; intros w; simpl; [done|].
  destruct (handle_command os w cmd) as [r w1]. specialize (IH w1).
  destruct (run_commands os w1 cmds). simpl in *. by rewrite IH.
Qed.

Section hub_to_agent.
Context {W : Type} (os : Os W) (parse_json : string → result string Json) (render : Json → string).

(** The command of a message, and whether the message ends the listener. *)
Definition command_in (m : Incoming) : option HubCommand :=
  match m with
  | InText text => match read_as parse_json command_of_json text with Ok cmd => Some cmd | Err _ => None end
  | _ => None
  end.
Definition ends_listener (m : Incoming) : bool :=
  match m with InClose | InError _ => true | _ => false end.

(** What the listener does: it carries out the commands up to the first close
    or error, in order, and reads nothing after it; other texts are skipped. *)
Lemma command_listener_prefix w msgs rest :
  Forall (λ m, ends_listener m = false) msgs →
  command_listener parse_json os w (msgs ++ rest)
  = (let '(rs, w1) := run_commands os w (omap command_in msgs) in
     let '(rs', w2, unread) := command_listener parse_json os w1 rest in (rs ++ rs', w2, unread)).
Proof.
  intros Hall. revert w. induction Hall as [|m msgs Hm Hall IH]; intros w.
  { simpl. by destruct (command_listener parse_json os w rest) as [[? ?] ?]. }
  destruct m as [text| |e|]; try done.
  2: { cbn [app command_listener]. by rewrite IH. }
  cbn [app command_listener].
  change (omap command_in (InText text :: msgs))
    with (match command_in (InText text) with
          | Some cmd => cmd :: omap command_in msgs
          | None => omap command_in msgs
          end).
  cbn [command_in]. destruct (read_as parse_json command_of_json text) as [cmd|]; [|by rewrite IH].
  cbn [run_commands]. destruct (handle_command os w cmd) as [r w1]. rewrite IH.
  destruct (run_commands os w1 _) as [rs w2].
  by destruct (command_listener parse_json os w2 rest) as [[? ?] ?].
Qed.

(** The texts queued on one sender. *)
Definition queued_on (tx : N) (queued : list (N * string)) : list string :=
  map snd (filter (λ q, q.1 = tx) queued).

Lemma queued_commands_run tx queued w :
  (∀ q, q ∈ queued → ∃ pid action, (pid ≤ u32_max)%N ∧ q.2 = render (fix_command pid action)
     ∧ parse_json q.2 = Ok (fix_command pid action)) →
  ∃ cmds, queued_on tx queued = map (λ pa, render (fix_command pa.1 pa.2)) cmds
    ∧ command_listener parse_json os w (map InText (queued_on tx queued))
      = (let '(rs, w') := run_commands os w (map (λ pa, mkHubCommand "fix" pa.1 (Some pa.2)) cmds) in
         (rs, w', [])).
Proof.
  intros Hq.
  assert (∃ cmds, queued_on tx queued = map (λ pa, render (fix_command pa.1 pa.2)) cmds
    ∧ omap command_in (map InText (queued_on tx queued))
      = map (λ pa, mkHubCommand "fix" pa.1 (Some pa.2)) cmds) as (cmds & Ht & Hc).
  { unfold queued_on. induction queued as [|[tx' text] queued IH]; [by exists []|].
    destruct IH as (cmds & Ht & Hc); [intros q ?; apply Hq; by right|].
    rewrite filter_cons. case_decide as Hd; [|by exists cmds].
    destruct (Hq (tx', text)) as (pid & action & Hp & Heq & Hpj); [by left|]. simpl in Heq, Hpj.
    exists ((pid, action) :: cmds). simpl. rewrite Ht, <-Heq. split; [done|].
    rewrite <-Ht. change (map InText (map snd _)) with (map InText (map snd (filter (λ q, q.1 = tx) queued))).
    unfold read_as at 1. rewrite Hpj, command_roundtrip by done. simpl. f_equal. exact Hc. }
  exists cmds. split; [done|]. rewrite <-Hc, <-(app_nil_r (map InText _)) at 1.
  rewrite command_listener_prefix.
  - destruct (run_commands os w _). simpl. by rewrite app_nil_r.
  - apply Forall_forall. by intros m (t & -> & _)%list_elem_of_fmap.
Qed.
End hub_to_agent.

(** C21 From the hub's API to the processes of a node: after any run of the hub, the
    texts queued on a connection are all fix commands, and the agent that reads
    them carries them out one by one, in order, and nothing else. *)
Theorem hub_commands_are_carried_out {W C} (os : Os W) (k8s : K8sApi C)
  parse_rule parse_manifest parse_envelope from_json to_json hasher gather cli
  (parse_json : string → result string Json) (render : Json → string) env s0 inputs tx w
  (Hmain : hub_main parse_rule parse_manifest from_json hasher cli env = Ok s0)
  (Htyped : Forall typed_input inputs)
  (Hcodec : ∀ pid action, parse_json (render (fix_command pid action)) = Ok (fix_command pid action)) :
  let s := sys_run k8s parse_envelope from_json to_json hasher render gather cli s0 inputs in
  ∃ cmds, queued_on tx (hs_queued s) = map (λ pa, render (fix_command pa.1 pa.2)) cmds
    ∧ command_listener parse_json os w (map InText (queued_on tx (hs_queued s)))
      = (let '(rs, w') := run_commands os w (map (λ pa, mkHubCommand "fix" pa.1 (Some pa.2)) cmds) in
         (rs, w', [])).
Proof.
  intros s. apply queued_commands_run.
  destruct (sys_run_queued k8s parse_envelope from_json to_json hasher render gather cli s0 inputs Htyped)
    as (new & Hq & Hnew). fold s in Hq.
  assert (hs_queued s0 = []) as H0.
  { unfold hub_main in Hmain. repeat (case_match; try done); by simplify_eq/=. }
  rewrite Hq, H0. intros q (pid & action & Hp & Heq)%Hnew. exists pid, action.
  split_and!; [done|done|]. by rewrite Heq.
Qed.

(** A [hostname] that fails is taken at its word: its status is not looked at,
    and the agent presents itself under the empty name, with [HOSTNAME] set. *)
Theorem failing_hostname_gives_empty_name var : get_node_id (Ok "") var = "".
Proof. done. Qed.

(** ** Concrete runs *)

(** A text form of commands: the process id in strokes, a semicolon, the action. *)
Fixpoint strokes (n : nat) (rest : string) : string :=
  match n with O => String ";" rest | S n' => String "|" (strokes n' rest) end.
Fixpoint read_strokes (n : N) (s : string) : option (N * string) :=
  match s with
  | String "|" s' => read_strokes (N.succ n) s'
  | String ";" s' => Some (n, s')
  | _ => None
  end.
Definition stroke_render (v : Json) : string :=
  match jget "target_pid" v ≫= as_u64, jget "action" v ≫= as_str with
  | Some pid, Some action => strokes (N.to_nat pid) action
  | _, _ => ""
  end.
Definition stroke_parse (s : string) : result string Json :=
  match read_strokes 0 s with
  | Some (pid, action) => Ok (fix_command pid action)
  | None => Err "expected value"
  end.

Lemma read_strokes_spec n k rest : read_strokes k (strokes n rest) = Some ((k + N.of_nat n)%N, rest).
Proof.
  revert k. induction n as [|n IH]; intros k; simpl; [by rewrite N.add_0_r|].
  rewrite IH. do 2 f_equal. lia.
Qed.

Lemma stroke_codec pid action : stroke_parse (stroke_render (fix_command pid action)) = Ok (fix_command pid action).
Proof.
  unfold stroke_parse, stroke_render. simpl. by rewrite read_strokes_spec, N2Nat.id, N.add_0_l.
Qed.

Definition kill_os : Os (list Effect) :=
  recording_os (λ _ _, Ok (mkOutput true "" "")) (λ _, Err "ENOENT").

Lemma hub_commands_are_carried_out_witness :
  let s := sys_run mem_api no_envelope sys_from_json demo_to_json demo_hasher stroke_render demo_gather
             demo_cli demo_up demo_sys_inputs in
  ∃ cmds, queued_on 0 (hs_queued s) = map (λ pa, stroke_render (fix_command pa.1 pa.2)) cmds
    ∧ length cmds = 1
    ∧ command_listener stroke_parse kill_os [] (map InText (queued_on 0 (hs_queued s)))
      = (let '(rs, w') := run_commands kill_os [] (map (λ pa, mkHubCommand "fix" pa.1 (Some pa.2)) cmds) in
         (rs, w', [])).
Proof.
  intros s.
  destruct (hub_commands_are_carried_out kill_os mem_api no_rules no_manifest no_envelope sys_from_json
    demo_to_json demo_hasher demo_gather demo_cli stroke_parse stroke_render demo_env demo_up
    demo_sys_inputs 0 [] demo_main) as (cmds & Hq & Hl).
  - repeat constructor. by intros b [= <-].
  - exact stroke_codec.
  - exists cmds. split; [exact Hq|]. split; [|exact Hl].
    apply (f_equal length) in Hq. rewrite length_map in Hq. rewrite <-Hq. vm_compute. reflexivity.
Defined.

(** A network that takes two messages, and a codec for those two. *)
Definition wire_events : list Event :=
  [mkEvent 1 ErrorHw "gpu-0" None (Some 7%N) "XID" None; mkEvent 2 ErrorNet "eth0" None None "down" None].
Definition wire_sent : list Forwarder.HubEventEnvelope := map (envelope (forwarder_new "n1")) wire_events.
Definition wire_render (v : Json) : string :=
  match (jget "event" v ≫= jget "ts") ≫= as_u64 with Some n => pretty n | None => "?" end.
Definition wire_parse (s : string) : result string Json :=
  match head (filter (λ m, event_text wire_render m = s) wire_sent) with
  | Some m => Ok (envelope_json m)
  | None => Err "expected value"
  end.

(** The link breaks after the first event and the second goes out on a new
    connection, which the hub reads first; then it sees the old one end. *)
Definition wire_sent_on (i : nat) : list HubEventEnvelope :=
  match i with 0 => take 1 wire_sent | 1 => drop 1 wire_sent | _ => [] end.
Definition wire_ins : list Hub.Input :=
  let text n := Text (match wire_sent !! n with Some m => event_text wire_render m | None => "" end) in
  [Hub.Connected "10.0.0.1"; Hub.Connected "10.0.0.1"; Hub.Received 1 (text 1);
   Hub.Received 0 (text 0); Hub.StreamEnded 0].

Lemma daemon_events_reach_hub_witness :
  ∃ ms : list (nat * HubEventEnvelope), map snd ms ≡ₚ wire_sent
    ∧ core (foldl (hub_input (read_as wire_parse envelope_of_json) (read_as wire_parse event_of_json)
                     demo_to_json demo_hasher 16 500) (fresh_hub 1 false, []) wire_ins).1
      = core (foldl (ingest demo_to_json demo_hasher 16 500) (fresh_hub 1 false) (map (event ∘ snd) ms)).
Proof.
  pose proof (daemon_events_reach_hub wire_parse wire_render demo_to_json demo_hasher 16 500
    "n1" 1 [Some 5] (Daemon.MetricsTick :: map Daemon.Received wire_events) 2 wire_sent_on wire_ins
    (fresh_hub 1 false)) as H.
  assert (net_sent (d_net (daemon_run (daemon_start true "n1" (mkNet [Some 1; Some 5] []))
    (Daemon.MetricsTick :: map Daemon.Received wire_events))) = wire_sent) as Hrun by reflexivity.
  cbn zeta in H. rewrite Hrun in H.
  destruct H as (_ & ms & _ & _ & Hcore & Hall).
  - vm_compute. reflexivity.
  - repeat constructor; [vm_compute; discriminate| |vm_compute; discriminate|done].
    intros p [= <-]. vm_compute. discriminate.
  - intros m [->|[->|?%elem_of_nil]%elem_of_cons]%elem_of_cons; [..|done]; vm_compute; reflexivity.
  - reflexivity.
  - intros i Hi. destruct i as [|[|i]]; [lia|lia|done].
  - intros i. destruct i as [|[|i]]; vm_compute; by exists [].
  - exists ms. split; [|exact Hcore]. apply Hall. intros i. destruct i as [|[|i]]; reflexivity.
Defined.
