(* ===== verification/AgentSystem.v ===== *)
(** * The running agent (agent/src/main.rs, [run_daemon])

    The tasks of a daemon on what they share: the probe sends events into the
    bounded bus; the event task takes one out, counts it, works through the
    critical sections of [process_event] and offers it to the hub, which may abort
    the command listener and connect again; a timer updates the gauges; the command
    listener hears the hub; the server of the socket starts; until the interrupt
    ends them all.  Every one of these is a step of its own, and the tasks
    interleave freely: a step need not come, as when a send or a connection hangs.
    Clients and scrapers only read what is here and have no steps; what an offer
    does to the link is accounted at its end; what a command does to the system is
    in [Exec] and [Wire].

    The theorems: under any interleaving no event of the probe is lost, repeated
    or reordered, and graph, forwarder and link are those of the sequential loop
    of [Daemon]; and when the daemon has worked off what the probe's program
    printed, [ark why] prints the root causes of exactly the events on those lines. *)

From S2P Require Import Prelude Text Json Event Signals Graph GraphInv RootCause GraphEffects GraphTasks Ipc Sockets.
From S2P Require Import Exec Forwarder Metrics Daemon AgentCli AgentMain EbpfProbe Probe Wire.

Definition BUS_CAPACITY : nat := 1000.

(** The reply of the metrics port, [GET /metrics]. *)
Inductive MetricsReply := MetricsText (body : string) | MetricsError (body : string) | NotFound.

Definition metrics_route (gather : MetricsCollector → result string string) (is_get : bool)
    (path : string) (m : MetricsCollector) : MetricsReply :=
  if is_get && bool_decide (path = "/metrics") then
    match gather m with
    | Ok body => MetricsText body
    | Err e => MetricsError ("Error: " +:+ e)
    end
  else NotFound.

(** ** Reconnecting *)

(** The reconnections of [forward_event_with_retry], with what each comes to. *)
Definition retry_reconnects (f : HubForwarder) (n : Net) (e : Event) : list bool :=
  let '(first, f, n) :=
    match fw_pending f with
    | [] => ([], f, n)
    | _ =>
        let '(flushed, f, n) := flush_pending_events f n in
        if flushed then ([], f, n)
        else
          let '(connected, f, n) := reconnect (count_retry (count_flush_failure f)) n in
          if connected then
            let '(flushed, f, n) := flush_pending_events f n in
            ([true], if flushed then f else count_flush_failure f, n)
          else ([false], f, n)
    end in
  let '(sent, f, n) := forward_event f n e in
  if sent then first
  else first ++ [(reconnect (count_retry (enqueue_pending_event f e)) n).1.1].

Definition offer_reconnects (o : option HubForwarder) (n : Net) (e : Event) : list bool :=
  match o with
  | None => []
  | Some f => let '(wanted, f) := should_forward f e in if wanted then retry_reconnects f n e else []
  end.

(** ** State *)

(** The event task: waiting for the bus, in a critical section of the graph, or
    offering the event, with the reconnections still to come and whether the next
    one has already aborted the listener. *)
Inductive EventTask :=
| Waiting
| InGraph (e : Event) (t : task)
| Offering (e : Event) (left : list bool) (aborted : bool).

(** The command listener: ended, waiting for a message, or in a command. *)
Inductive Listener := Deaf | Listening | Executing (cmd : HubCommand).

Record Agent := mkAgent {
  ag_probe : list Event;         (** what the probe has still to send *)
  ag_bus : list Event;
  ag_task : EventTask;
  ag_graph : StateGraph;
  ag_metrics : MetricsCollector;
  ag_forwarder : option HubForwarder;
  ag_net : Net;
  ag_listener : Listener;
  ag_serve : ServePhase;         (** the server of the socket *)
  ag_host : Host;
  ag_running : bool
}.

(** What a step shows to the outside. *)
Inductive Label :=
| Sends (e : Event)
| Takes (e : Event)
| Works                                   (** on the graph, or on the socket *)
| Aborts (cut : option HubCommand)
| Connects (ok : bool)
| Offers (e : Event)
| Ticks
| Hears (m : Incoming)
| Finishes (cmd : HubCommand)
| HostChanges
| Leaves (cut : option HubCommand).

Section agent.
Context (parse_json : string → result string Json).

(** The start: [registry] holds the metric names of the process, [hub] says
    whether a hub is configured. *)
Definition run_daemon_start (registry : gset string) (probe : list Event) (hub : bool) (node_id : string)
    (net : Net) (h : Host) : result string Agent :=
  match (metrics_collector_new registry).1 with
  | Err e => Err e
  | Ok _ =>
      let d := daemon_start hub node_id net in
      Ok (mkAgent probe [] Waiting (d_graph d) (d_metrics d) (d_forwarder d) (d_net d)
            (match d_forwarder d with Some _ => Listening | None => Deaf end) Checking h true)
  end.

(** A message to the command listener. *)
Definition hear (m : Incoming) : Listener :=
  match m with
  | InText text =>
      match read_as parse_json command_of_json text with
      | Ok cmd => Executing cmd
      | Err _ => Listening
      end
  | InClose | InError _ => Deaf
  | InOther => Listening
  end.

Definition command_of (l : Listener) : option HubCommand :=
  match l with Executing cmd => Some cmd | _ => None end.

(** The end of an offer: the forwarder, the link and the exported counters. *)
Definition end_offer (o : option HubForwarder) (n : Net) (m : MetricsCollector) (e : Event)
  : option HubForwarder * Net * MetricsCollector :=
  match o with
  | None => (None, n, m)
  | Some f => let '(f', n') := offer (f, n) e in
              (Some f', n', update_forwarder_reliability (reliability_snapshot f') m)
  end.

(** The steps of the tasks; [step_host] is what other programs do to the sockets
    of the machine. *)
Inductive agent_step (socket_path : string) : Agent → Label → Agent → Prop :=
| step_send e p b t g m f n l sv h :
    length b < BUS_CAPACITY →
    agent_step socket_path (mkAgent (e :: p) b t g m f n l sv h true) (Sends e)
      (mkAgent p (b ++ [e]) t g m f n l sv h true)
| step_take p e b g m f n l sv h :
    agent_step socket_path (mkAgent p (e :: b) Waiting g m f n l sv h true) (Takes e)
      (mkAgent p b (InGraph e (THandle e)) g (record_event (ev_type e) m) f n l sv h true)
| step_graph p b e t g m f n l sv h g' t' :
    task_step g t = Some (g', t') →
    agent_step socket_path (mkAgent p b (InGraph e t) g m f n l sv h true) Works
      (mkAgent p b (InGraph e t') g' m f n l sv h true)
| step_graph_done p b e g m f n l sv h :
    agent_step socket_path (mkAgent p b (InGraph e TDone) g m f n l sv h true) Works
      (mkAgent p b (Offering e (offer_reconnects f n e) false) g m f n l sv h true)
| step_abort p b e ok left g m f n l sv h :
    agent_step socket_path (mkAgent p b (Offering e (ok :: left) false) g m f n l sv h true)
      (Aborts (command_of l)) (mkAgent p b (Offering e (ok :: left) true) g m f n Deaf sv h true)
| step_connect p b e ok left g m f n sv h :
    agent_step socket_path (mkAgent p b (Offering e (ok :: left) true) g m f n Deaf sv h true)
      (Connects ok)
      (mkAgent p b (Offering e left false) g m f n (if (ok : bool) then Listening else Deaf) sv h true)
| step_offered p b e g m f n l sv h f' n' m' :
    end_offer f n m e = (f', n', m') →
    agent_step socket_path (mkAgent p b (Offering e [] false) g m f n l sv h true) (Offers e)
      (mkAgent p b Waiting g m' f' n' l sv h true)
| step_tick p b t g m f n l sv h :
    agent_step socket_path (mkAgent p b t g m f n l sv h true) Ticks
      (mkAgent p b t g (mc_update_graph_metrics g m) f n l sv h true)
| step_hear p b t g m f n sv h msg :
    agent_step socket_path (mkAgent p b t g m f n Listening sv h true) (Hears msg)
      (mkAgent p b t g m f n (hear msg) sv h true)
| step_finish p b t g m f n cmd sv h :
    agent_step socket_path (mkAgent p b t g m f n (Executing cmd) sv h true) (Finishes cmd)
      (mkAgent p b t g m f n Listening sv h true)
| step_socket p b t g m f n l sv h faults mode sv' h' :
    serve_step faults mode socket_path sv h = (sv', h') →
    agent_step socket_path (mkAgent p b t g m f n l sv h true) Works
      (mkAgent p b t g m f n l sv' h' true)
| step_host p b t g m f n l sv h h' :
    agent_step socket_path (mkAgent p b t g m f n l sv h true) HostChanges
      (mkAgent p b t g m f n l sv h' true)
| step_leave_agent p b t g m f n l sv h fails :
    agent_step socket_path (mkAgent p b t g m f n l sv h true) (Leaves (command_of l))
      (mkAgent p b t g m f n Deaf sv (daemon_leave fails socket_path (listener_of sv) h) false).

Inductive agent_run (socket_path : string) (s0 : Agent) : list Label → Agent → Prop :=
| agent_run_start : agent_run socket_path s0 [] s0
| agent_run_snoc tr s l s' :
    agent_run socket_path s0 tr s → agent_step socket_path s l s' →
    agent_run socket_path s0 (tr ++ [l]) s'.

(** ** What a trace shows *)

Definition taken_in (tr : list Label) : list Event :=
  omap (λ l, match l with Takes e => Some e | _ => None end) tr.
(** The events whose offer has come to its end. *)
Definition offered_in (tr : list Label) : list Event :=
  omap (λ l, match l with Offers e => Some e | _ => None end) tr.
(** The commands heard, and those that were finished or cut off. *)
Definition commands_in (tr : list Label) : list HubCommand :=
  omap (λ l, match l with Hears m => command_of (hear m) | _ => None end) tr.
Definition ended_in (tr : list Label) : list HubCommand :=
  omap (λ l, match l with Finishes c => Some c | Aborts c | Leaves c => c | _ => None end) tr.

(** The event the event task has in hand. *)
Definition in_hand (t : EventTask) : list Event :=
  match t with Waiting => [] | InGraph e _ | Offering e _ _ => [e] end.

(** The graph when these events are done and the task is where it is. *)
Definition graph_amid (evs : list Event) (t : EventTask) (g : StateGraph) : Prop :=
  match t with
  | Waiting => g = process_events state_graph_new evs
  | InGraph e t => ∃ n, run_task n (process_events state_graph_new evs) (THandle e) = (g, t)
  | Offering e _ _ => g = process_events state_graph_new (evs ++ [e])
  end.

(** The invariant of a run. *)
Record agent_inv (probe : list Event) (d0 : Daemon) (tr : list Label) (s : Agent) : Prop := {
  ai_events : probe = taken_in tr ++ ag_bus s ++ ag_probe s;
  ai_bus : length (ag_bus s) ≤ BUS_CAPACITY;
  ai_taken : taken_in tr = offered_in tr ++ in_hand (ag_task s);
  ai_graph : graph_amid (offered_in tr) (ag_task s) (ag_graph s);
  ai_link : let d := daemon_run d0 (Received <$> offered_in tr) in
            ag_forwarder s = d_forwarder d ∧ ag_net s = d_net d;
  ai_commands : commands_in tr = ended_in tr ++ option_list (command_of (ag_listener s))
}.

(** Taking one more step of a task, and its end. *)
Lemma run_task_snoc n g0 t0 g t g' t' :
  run_task n g0 t0 = (g, t) → task_step g t = Some (g', t') → ∃ n', run_task n' g0 t0 = (g', t').
Proof.
  revert g0 t0. induction n as [|n IH]; intros g0 t0; simpl.
  - intros [= -> ->] Hs. exists 1. simpl. by rewrite Hs.
  - destruct (task_step g0 t0) as [[g1 t1]|] eqn:E.
    + intros Hr Hs. destruct (IH _ _ Hr Hs) as [n' Hn']. exists (S n'). simpl. by rewrite E.
    + intros [= -> ->]. congruence.
Qed.

Lemma run_task_done n m g0 t0 g g' :
  run_task n g0 t0 = (g, TDone) → run_task m g0 t0 = (g', TDone) → g = g'.
Proof.
  revert m g0 t0. induction n as [|n IH]; intros m g0 t0; simpl.
  - intros [= -> ->]. destruct m; simpl; by intros [= ->].
  - destruct m as [|m]; simpl.
    + destruct (task_step g0 t0) as [[g1 t1]|] eqn:E; [|congruence]. by intros _ [= -> ->].
    + destruct (task_step g0 t0) as [[g1 t1]|] eqn:E; [apply IH|congruence].
Qed.

Lemma run_task_ends n evs e g :
  run_task n (process_events state_graph_new evs) (THandle e) = (g, TDone) →
  g = process_events state_graph_new (evs ++ [e]).
Proof.
  intros Hr. unfold process_events in *. rewrite foldl_app. simpl.
  eapply run_task_done; [exact Hr|apply run_task_process_event].
Qed.

(** The end of an offer is what the sequential loop does to forwarder and link. *)
Lemma offered_daemon d f n m e f' n' m' :
  f = d_forwarder d → n = d_net d → end_offer f n m e = (f', n', m') →
  f' = d_forwarder (daemon_event d e) ∧ n' = d_net (daemon_event d e).
Proof.
  intros -> ->. unfold end_offer, daemon_event. destruct (d_forwarder d) as [f|]; [|by intros [= <- <- <-]].
  destruct (offer (f, d_net d) e) as [f1 n1]. by intros [= <- <- <-].
Qed.

Lemma agent_step_inv socket_path probe d0 tr s l s' :
  agent_inv probe d0 tr s → agent_step socket_path s l s' → agent_inv probe d0 (tr ++ [l]) s'.
Proof.
  intros [He Hb Ht Hg Hl Hc] Hs.
  destruct Hs; simpl in *;
    (split; simpl; unfold taken_in, offered_in, commands_in, ended_in in *; rewrite ?omap_app; simpl;
       rewrite ?app_nil_r; try done).
  - rewrite He. by rewrite <-!app_assoc.
  - rewrite length_app. simpl. lia.
  - rewrite He. by rewrite <-!app_assoc.
  - lia.
  - rewrite Ht. by rewrite app_nil_r.
  - rewrite Hg. by exists 0.
  - destruct Hg as [k Hk]. by eapply run_task_snoc.
  - destruct Hg as [k Hk]. by eapply run_task_ends.
  - rewrite Hc. by destruct ok.
  - rewrite fmap_app. unfold daemon_run. rewrite foldl_app. simpl.
    eapply offered_daemon; [apply Hl|apply Hl|done].
  - rewrite Hc. simpl. rewrite app_nil_r. by destruct (hear msg).
Qed.

Lemma agent_run_inv socket_path registry probe hub node net h s0 tr s :
  run_daemon_start registry probe hub node net h = Ok s0 →
  agent_run socket_path s0 tr s → agent_inv probe (daemon_start hub node net) tr s.
Proof.
  intros Hs Hr. induction Hr as [|tr s l s' Hr IH Hstep]; [|by eapply agent_step_inv].
  unfold run_daemon_start in Hs. destruct (metrics_collector_new registry).1; [|done]. simplify_eq.
  destruct (daemon_start_inv hub node net) as [Hg _ _].
  split; simpl; try done; [lia|]. by destruct (d_forwarder (daemon_start hub node net)).
Qed.

(** ** The theorems *)


(** When the hub closes the connection, or reading from it fails, the command
    listener ends, and only the offer of an event can start another one: an agent
    that takes no events from its bus hears no command any more. *)
Theorem idle_agent_stays_deaf socket_path s tr s'
  (Hdeaf : ag_listener s = Deaf) (Hwait : ag_task s = Waiting)
  (Hrun : agent_run socket_path s tr s') (Hidle : taken_in tr = []) :
  ag_listener s' = Deaf ∧ ∀ m, Hears m ∉ tr.
Proof.
  assert (ag_listener s' = Deaf ∧ ag_task s' = Waiting ∧ ∀ m, Hears m ∉ tr); [|naive_solver].
  induction Hrun as [|tr s1 l s2 Hr IH Hs]; [split_and!; [done..|set_solver]|].
  unfold taken_in in Hidle. rewrite omap_app in Hidle. apply app_nil in Hidle as [Ht Hl].
  destruct (IH Ht) as (Hc & Hw & Hno).
  assert (ag_listener s2 = Deaf ∧ ag_task s2 = Waiting ∧ ∀ m, l ≠ Hears m) as (H2 & Hw2 & Hl2)
    by (destruct Hs; simpl in *; by simplify_eq).
  split_and!; [done..|]. intros m [Hin|Hin%list_elem_of_singleton]%elem_of_app; [by eapply Hno|by eapply Hl2].
Qed.
End agent.

(** ** From the lines of a probe to the terminal *)

Section probe_to_terminal.
Context {W H : Type} (os : Os W) (http : HubHttp H) (post : Diag.HttpRequest → Diag.HttpReply).
Context (request_to_vec : RpcRequest → result string string)
        (response_from_slice : string → result string RpcResponse) (eof not_a_sequence : string).
Context (read : W → string → result string string) (parse_error : string → string).
Context (pretty_json : WhyReport → result string string) (percent : F64.f64 → string).
Context (entry_to_string : AuditLog.AuditLogEntry → result string string).
Context (from_yaml : string → result string Migrate.Value) (parse_rule : string → result string Rule.RuleWire)
        (parse_manifest : string → result string RuleFiles.RulesManifestWire)
        (parse_json : string → result string Json)
        (report_json : Doctor.DoctorReport → result string string).
Context (request_from_slice : string → result string RpcRequest)
        (response_to_vec : RpcResponse → result string string).

Local Notation ok := (exchange_ok request_to_vec request_from_slice response_to_vec response_from_slice).
Local Notation run := (agent_main os http post request_to_vec response_from_slice eof not_a_sequence read
  parse_error pretty_json percent entry_to_string from_yaml parse_rule parse_manifest parse_json report_json).

(** What the daemon in state [s] writes to a client. *)
Definition answers_of (s : Agent) (sent : string) : string :=
  (serve_client request_from_slice response_to_vec eof (ag_graph s) sent).2.

(** What the probe has sent or will send, given the runs of its program that are
    over and the one under way. *)
Definition probe_output (over : list ChildRun) (now : ChildRun) : list Event :=
  (start_stream parse_json (map Ok (over ++ [now])) None []).2.

Lemma probe_output_events over now :
  Forall (λ r, child_exits r = true) over → probe_output over now = runs_events parse_json (over ++ [now]).
Proof.
  intros Hx. unfold probe_output. rewrite map_app, start_stream_open by done. simpl.
  destruct (read_child_open parse_json (child_reads now) (runs_events parse_json over)) as (r & -> & Hr).
  unfold runs_events. rewrite map_app, concat_app. simpl. rewrite app_nil_r.
  by destruct r, (child_exits now).
Qed.

(** C23 From the lines an external probe prints to the terminal: let the probe read
    its program over any number of runs that ended and one that may go on, and send
    the events into the bus of a daemon; when everything sent has been worked off,
    [ark why] ends with status 0 and prints the report of the root causes, and
    these are exactly the causes reachable in the graph of the events on the lines
    that could be read. *)
Theorem why_explains_the_probe socket_path registry over now hub node net h s0 tr s sur path pid
  (Hover : Forall (λ r, child_exits r = true) over)
  (Hstart : run_daemon_start registry (probe_output over now) hub node net h = Ok s0)
  (Hrun : agent_run parse_json socket_path s0 tr s)
  (Hdone : ag_bus s = [] ∧ ag_probe s = [] ∧ ag_task s = Waiting)
  (Hdial : su_daemon sur path = Ok (answers_of s))
  (Hping : ok Ping (response_success (JObj [("status", JStr "ok")]))) :
  let g := process_events state_graph_new (runs_events parse_json (over ++ [now])) in
  ∃ causes, find_root_cause g pid = Some causes
    ∧ (∀ c, c ∈ causes ↔ is_root_cause (edge_out_index (store g)) (nodes g) (pid_name pid) c)
    ∧ (ok (WhyProcess pid) (response_success (JObj [("pid", JNum pid); ("causes", jstrings causes)])) →
       en_status (run sur (Why pid false path)) = 0%Z
       ∧ en_out (run sur (Why pid false path))
         = print_why_report (build_why_report (su_now sur) pid causes (su_node_id sur)
                               (default (su_node_id sur) (su_agent_id sur))) (pretty pid)).
Proof.
  intros g. destruct (agent_run_inv _ _ _ _ _ _ _ _ _ _ _ Hstart Hrun) as [He _ Ht Hg _ _].
  assert (ag_graph s = g) as Hs.
  { destruct Hdone as (Hb & Hp & Hw). rewrite Hw in Hg, Ht. simpl in Hg, Ht. rewrite Hg. unfold g.
    rewrite <-probe_output_events, He, Hb, Hp, Ht by done. by rewrite !app_nil_r. }
  destruct (find_root_cause_by_id_spec g (pid_name pid)) as (causes & E & Hc). exists causes.
  split_and!; [done|done|]. intros Hwhy.
  eapply why_prints; [|done|exact Hwhy]. split; [|done]. rewrite Hdial. unfold answers_of. by rewrite Hs.
Qed.
End probe_to_terminal.

(** ** A concrete run *)

(** The steps of the tasks as a function, for runs that evaluate. *)
Inductive Action := DoSend | DoTake | DoWork | DoAbort | DoConnect | DoOffer | DoTick
  | DoHear (m : Incoming) | DoFinish.

Definition agent_do (parse_json : string → result string Json) (a : Action) (s : Agent)
  : option (Label * Agent) :=
  let '(mkAgent p b t g m f n l sv h up) := s in
  if negb up then None else
  match a, p, b, t, l with
  | DoSend, e :: p', _, _, _ =>
      if decide (length b < BUS_CAPACITY)
      then Some (Sends e, mkAgent p' (b ++ [e]) t g m f n l sv h true) else None
  | DoTake, _, e :: b', Waiting, _ =>
      Some (Takes e, mkAgent p b' (InGraph e (THandle e)) g (record_event (ev_type e) m) f n l sv h true)
  | DoWork, _, _, InGraph e TDone, _ =>
      Some (Works, mkAgent p b (Offering e (offer_reconnects f n e) false) g m f n l sv h true)
  | DoWork, _, _, InGraph e t, _ =>
      match task_step g t with
      | Some (g', t') => Some (Works, mkAgent p b (InGraph e t') g' m f n l sv h true)
      | None => None
      end
  | DoAbort, _, _, Offering e (ok :: more) false, _ =>
      Some (Aborts (command_of l), mkAgent p b (Offering e (ok :: more) true) g m f n Deaf sv h true)
  | DoConnect, _, _, Offering e (ok :: more) true, Deaf =>
      Some (Connects ok,
            mkAgent p b (Offering e more false) g m f n (if (ok : bool) then Listening else Deaf) sv h true)
  | DoOffer, _, _, Offering e [] false, _ =>
      let '(f', n', m') := end_offer f n m e in
      Some (Offers e, mkAgent p b Waiting g m' f' n' l sv h true)
  | DoTick, _, _, _, _ =>
      Some (Ticks, mkAgent p b t g (mc_update_graph_metrics g m) f n l sv h true)
  | DoHear msg, _, _, _, Listening =>
      Some (Hears msg, mkAgent p b t g m f n (hear parse_json msg) sv h true)
  | DoFinish, _, _, _, Executing cmd => Some (Finishes cmd, mkAgent p b t g m f n Listening sv h true)
  | _, _, _, _, _ => None
  end.

Fixpoint agent_do_all (parse_json : string → result string Json) (acts : list Action) (s : Agent)
  : option (list Label * Agent) :=
  match acts with
  | [] => Some ([], s)
  | a :: acts' =>
      match agent_do parse_json a s with
      | Some (l, s1) => match agent_do_all parse_json acts' s1 with
                        | Some (tr, s2) => Some (l :: tr, s2)
                        | None => None
                        end
      | None => None
      end
  end.

Lemma agent_do_step parse_json socket_path a s l s' :
  agent_do parse_json a s = Some (l, s') → agent_step parse_json socket_path s l s'.
Proof.
  destruct s as [p b t g m f n lis sv h []]; [|done].
  destruct a; simpl; try (intros [= <- <-]; constructor).
  - destruct p as [|e p]; [done|]. case_decide; [|done]. intros [= <- <-]. by constructor.
  - destruct b as [|e b], t; try done. intros [= <- <-]. constructor.
  - destruct t as [|e t|]; try done. destruct t; try (intros [= <- <-]; by constructor).
    destruct (task_step g (TSignal ev)) as [[g' t']|] eqn:E; [|done]. intros [= <- <-]. by constructor.
  - destruct t as [| |e [|ok more] []]; try done. intros [= <- <-]. constructor.
  - destruct t as [| |e [|ok more] []], lis; try done. intros [= <- <-]. constructor.
  - destruct t as [| |e [|ok more] []]; try done.
    destruct (end_offer f n m e) as [[f' n'] m'] eqn:E. intros [= <- <-]. by constructor.
  - destruct lis; try done. intros [= <- <-]. constructor.
  - destruct lis; try done. intros [= <- <-]. constructor.
Qed.

Lemma agent_do_all_run parse_json socket_path acts s0 tr s :
  agent_do_all parse_json acts s0 = Some (tr, s) → agent_run parse_json socket_path s0 tr s.
Proof.
  assert (∀ acts past s1 tr s, agent_run parse_json socket_path s0 past s1 →
    agent_do_all parse_json acts s1 = Some (tr, s) → agent_run parse_json socket_path s0 (past ++ tr) s) as H.
  { clear. induction acts as [|a acts IH]; intros past s1 tr s Hp; simpl.
    - intros [= <- <-]. by rewrite app_nil_r.
    - destruct (agent_do parse_json a s1) as [[l s2]|] eqn:E; [|done].
      destruct (agent_do_all parse_json acts s2) as [[tr' s3]|] eqn:E2; [|done]. intros [= <- <-].
      rewrite cons_middle, app_assoc. eapply IH; [|done].
      econstructor; [done|by eapply agent_do_step]. }
  intros Hr. by apply (H acts [] s0); [constructor|].
Qed.

Definition run_e0 : Event := mkEvent 1000 ProcessState "proc" (Some "job-1") (Some 7%N) "start" None.
Definition run_e1 : Event := mkEvent 1100 ComputeUtil "gpu-0" None (Some 7%N) "80" None.
Definition run_e2 : Event := mkEvent 1200 ErrorHw "gpu-0" None None "XID_79" None.
Definition run_events : list Event := [run_e0; run_e1; run_e2].
Definition run_reader (s : string) : result string Json :=
  if decide (s = "stop 7") then Ok (HubApi.fix_command 7 "kill")
  else match head (filter (λ e, pretty (ev_ts e) = s) run_events) with
       | Some e => Ok (event_json e)
       | None => Err "expected value"
       end.
(** The program has ended once and runs again. *)
Definition run_over : list ChildRun := [mkChildRun [Ok ("1000" +:+ line_end); Ok "?"; Ok "1100"] true].
Definition run_now : ChildRun := mkChildRun [Ok "1200"] false.

(** The first link takes one event and breaks, so the second offer connects
    again, in the middle of a command of the hub. *)
Definition run_net : Net := mkNet [Some 1; Some 5] [].
Definition run_start : Agent :=
  let d := daemon_start true "n1" run_net in
  mkAgent run_events [] Waiting (d_graph d) (d_metrics d) (d_forwarder d) (d_net d) Listening Checking
    host_new true.

Lemma run_started :
  run_daemon_start ∅ (probe_output run_reader run_over run_now) true "n1" run_net host_new = Ok run_start.
Proof. vm_compute. reflexivity. Qed.

Definition works (n : nat) : list Action := replicate n DoWork.
Definition run_script : list Action :=
  [DoSend; DoSend; DoTake] ++ works 2 ++ [DoTick; DoSend] ++ works 5 ++ [DoOffer; DoTake]
  ++ works 1 ++ [DoHear (InText "stop 7")] ++ works 4 ++ [DoAbort; DoTick; DoConnect; DoOffer; DoTake]
  ++ works 2 ++ [DoHear (InText "stop 7"); DoFinish] ++ works 2 ++ [DoOffer].
Definition run_cmd : HubCommand := mkHubCommand "fix" 7 (Some "kill").

Definition run_result : option (list Label * Agent) := agent_do_all run_reader run_script run_start.
Definition run_trace : list Label := default [] (fst <$> run_result).
Definition run_end : Agent := default run_start (snd <$> run_result).

Lemma run_reached : agent_run run_reader "/var/run/ark.sock" run_start run_trace run_end.
Proof. apply (agent_do_all_run _ _ run_script). vm_compute. reflexivity. Qed.


(** The daemon's client sees the hardware error the probe printed. *)
Lemma why_explains_the_probe_witness :
  en_out (demo_run (demo_surroundings (Ok (answers_of "eof" demo_request_from_slice node_response_to_vec run_end)))
            (Why 7 false None))
  = print_why_report (build_why_report "2026-01-01T00:00:00Z" 7 ["error-gpu-0: XID_79"] "node-a" "node-a") "7".
Proof.
  unfold demo_run.
  match goal with |- en_out (agent_main ?os ?http ?post ?rv ?rs ?eof ?ns ?rd ?pe ?pj ?pc ?es ?fy ?pr ?pm ?js ?rj ?s ?cmd) = _ =>
    destruct (why_explains_the_probe os http post rv rs eof ns rd pe pj pc es fy pr pm run_reader rj
      demo_request_from_slice node_response_to_vec "/var/run/ark.sock" ∅ run_over run_now true "n1"
      run_net host_new _ run_trace run_end s None 7 ltac:(by repeat constructor) run_started run_reached)
      as (causes & Hc & _ & Hw) end.
  - split_and!; vm_compute; reflexivity.
  - reflexivity.
  - exists "ping", "ok". split_and!; by vm_compute.
  - assert (causes = ["error-gpu-0: XID_79"]) as ->.
    { vm_compute in Hc. injection Hc as <-. reflexivity. }
    refine (proj2 (Hw _)). exists "why:7", "7|error-gpu-0: XID_79". split_and!; by vm_compute.
Defined.
